(* ===== verification/_CoqProject ===== *)
-Q . S2P
Prelude.v
SeqNum.v
CircQueue.v
MemPool.v
RingBuffer.v
SendBuffer.v
FlowHash.v
Rss.v
AddrPool.v
Checksum.v
EventQueue.v
TcpTypes.v
NetOut.v
TcpLists.v
TcpInv.v
TcpOptions.v
TcpStream.v
TcpFrame.v
Post.v
TcpOut.v
Timer.v
TcpIn.v
NetIn.v
App.v
Socket.v
Pipe.v
Epoll.v
Api.v
Stack.v
TcpTrans.v
Rtt.v
Segment.v
Flush.v
Retransmit.v
AppCalls.v
PipeFifo.v
Answer.v
AppData.v
Sunday.v
StreamGen.v
GenTrace.v
GenCheck.v
GenStore.v
GenImport.v
GenCopy.v
GenRate.v
Dpdk.v
DpdkInv.v
CText.v
Config.v
ConfigInv.v
ConfigText.v
HttpDate.v
HttpTime.v
HttpParse.v
HttpRequest.v
Payload.v
Receive.v
Deliver.v
Acked.v
