(* ===== verification/Prelude.v ===== *)
(** * A verification of the C core of MCC: TCP stack, generator, utilities

    MCC is a generator of network load.  Its C core is the user-level TCP stack
    mTCP under [src/mtcp/mtcp/src] (one stack thread per core receives frames
    from the network card, keeps the TCP connections of that core, and exchanges
    streams and events with the application threads of the core through
    lock-free queues), the stream generator under [src/src/stream_gen] (which
    reads TCP streams from captures and replays them from many addresses), and
    the utilities under [src/mtcp/util] (HTTP and dates, for servers and
    clients).  This library translates that code into Rocq definitions and
    proves what makes it correct.  File names without a directory are those
    under [src/mtcp/mtcp/src].

    ** The parts and the files

    Data structures (each a pure function on its own state; [None] is a crash):
    - [SeqNum]: the sequence-number macros of [tcp_in.h];
    - [CircQueue]: the pointer queues of [tcp_rb_frag_queue.c],
      [tcp_sb_queue.c] and [tcp_stream_queue.c], sequentially and with a
      producer and a consumer thread interleaved at their memory accesses;
    - [MemPool]: the chunk pool of [memory_mgt.c] and the interface
      [ChunkPool] its clients are written against;
    - [RingBuffer], [SendBuffer]: the receive buffer of [tcp_ring_buffer.c]
      and the send buffer of [tcp_send_buffer.c];
    - [FlowHash], [Rss], [AddrPool]: the hash tables of [fhash.c], the
      receive-side scaling of [rss.c] and the address pools of [addr_pool.c];
    - [Checksum], [TcpOptions]: the checksum and the options of [tcp_util.c]
      and [tcp_out.c];
    - [EventQueue]: the event queues of [eventpoll.c] and [core.c].

    The stack thread (a state and error monad over the manager):
    - [TcpTypes]: the structures of [mtcp.h], [tcp_stream.h], [timer.h],
      [socket.h], the faults and the monad;
    - [NetOut], [NetIn]: [ip_out.c], [eth_out.c], [eth_in.c], [ip_in.c],
      [arp.c], [icmp.c];
    - [TcpLists], [TcpStream], [TcpOut], [Timer], [TcpIn]: [tcp_stream.c],
      [tcp_out.c], [timer.c], [tcp_in.c];
    - [App], [Stack]: [core.c]: serving the queues of the application, the
      manager, a round of the main loop.

    The application side (the same monad, in an application thread):
    - [Socket], [Pipe], [Epoll], [Api]: [socket.c], [pipe.c], [eventpoll.c],
      [api.c].

    The driver and the start:
    - [Dpdk], [DpdkInv]: the tables of packet buffers of [dpdk_module.c];
    - [CText]: the functions of the C library on text; [Config], [ConfigInv],
      [ConfigText]: [config.c], the interfaces of DPDK in [io_module.c] and
      [mtcp_init].

    The stream generator:
    - [Sunday]: [string_matcher.c];
    - [StreamGen]: packets, transmission and the loop of a thread
      ([stream_gen.c]); [GenCheck]: the checksum of [checksum.h]; [GenTrace]:
      what a stream sends; [GenRate]: the tables of packets and the rate;
    - [GenStore], [GenImport], [GenCopy]: import of streams, their table, and
      the copies for the threads ([gen_api.c], [stream_gen.c]).

    The utilities:
    - [HttpDate], [HttpTime]: [tdate_parse.c];
    - [HttpParse], [HttpRequest]: [http_parsing.c].

    Logics for the thread: [TcpInv] (the list invariant and the operations that
    keep it), [TcpFrame] (what an operation leaves alone), [Post]
    (post-conditions).  Theorems that combine several parts: [TcpTrans], [Rtt],
    [Segment], [Flush], [Retransmit], [AppCalls], [PipeFifo], [Answer],
    [AppData], [Payload], [Receive], [Deliver], [Acked].

    ** How the code is represented

    A value of a [w]-bit C type is a [Z]; the conversions [u8], [u16], [u32],
    [u64] and [s32] are written where the code converts.  Bytes in memory are
    lists of [Z]; a read or write outside of the list fails.  Pointers to
    streams, listeners, pipes and epoll structures are addresses; the manager
    maps the addresses that are allocated to the structures, so that using a
    freed one is a fault.  A tail queue is the list of its elements.  A frame
    handed to the network card is a list of bytes in [out], newest first.
    Strings are lists of bytes without their final zero.

    Code that is not in the repository is a parameter: the driver and the C
    heap are the class [World], the chunk pool of DPDK the class [ChunkPool],
    the card, its rings and its pool of packet buffers the class [Dpdk], and
    clock, random numbers and card of the generator the class [GenWorld]; the
    files and interfaces that the configuration reads are arguments.

    The configuration is that of the build: no SACK, no blocking streams,
    timestamps on, selective write events on, DPDK as driver.

    ** What is shown

    - Data structures: the queues are bounded FIFOs, also between two threads;
      the pool hands out every chunk at most once; the receive buffer delivers
      a prefix of the stream of the peer for every order of segments; the send
      buffer is a byte FIFO; the flow table is a finite map; the hash is the
      Toeplitz hash; the address pool gives distinct addresses away.
    - The thread: from its start, no sequence of received frames, timer checks,
      packet writes and whole rounds with an idle application follows a freed
      stream, corrupts a list or loops without end in a list; lists, counters
      and flow table agree in every state.  The queues of the application are
      served without such a fault while their streams are allocated, and there
      is a way in which they are not.
    - The protocol: a segment moves a stream only along the transitions of TCP;
      a segment that is sent is read back as it was meant; flushing sends the
      bytes of the buffer in order within both windows; what one host sends is
      accepted by the other, stored at its place and acknowledged ([Deliver]);
      what has arrived is what the application reads ([Payload]); an
      acknowledgment removes exactly what it acknowledges ([Acked]); a timeout
      backs off and retransmits; the timer wheel finds a timer when it is due;
      the round-trip estimate stays in bounds; SYN options are read back.
    - The rest of the stack: an echo request is answered with its own data, an
      ARP message teaches the address of its sender, a pipe is a bounded byte
      FIFO, what the application writes is appended to the send buffer and
      handed to the stack thread, what it reads is the front of the receive
      buffer.
    - Driver and start: packet buffers are conserved and sending returns with a
      card that makes progress; a configuration that is accepted is well formed;
      route and ARP files are read back.
    - Generator: the import collects the streams of a capture, a thread replays
      them segment by segment, every packet is counted once, the string search
      finds the first match, and the loops end.
    - Utilities: dates are read back but for the leap-year error of the code;
      the parser of requests finds what was written; the binary search finds
      what is in its table.
    - Errors: the theorems of kind error, and those about loss or delay in the
      other groups, prove that certain inputs reach a fault or a wrong result in
      the code.

    ** Bounds and fuel

    Loops over lists get as fuel the length of the list or the threshold of
    the call, loops over queues the number of their slots; the invariant shows
    that this is enough ([FuelFault] is not reachable).  The loop that flushes
    a send buffer has a fuel argument; [Flush] proves how much is enough.  The
    option parser has one step per byte, and the only way to need more is
    proved to loop for ever in the code.  [mtcp_epoll_wait] looks at its queues
    at most three times before it sleeps.  The loop of [dpdk_send_pkts] is
    given as many steps as the theorem about it: 64 times the number of
    refusals of the card in a row.  A route file takes one step more than it has
    lines, the search for a year 400 (then the calendar repeats), the binary
    search as many as the table has entries, which its theorem shows to be
    enough.

    ** Not modelled

    - The set-up of the ports in [dpdk_module.c] ([dpdk_load_module]) and the
      drivers for other interfaces ([psio_module.c], [netmap_module.c],
      [onvm_module.c]): calls of vendor libraries, the latter not compiled.
      [virtual_delay.c] is not in the list of sources of the Makefile and uses
      counters that nothing defines.
    - [cpu.c], the socket calls of [src/mtcp/util/netlib.c] and the reading of
      devices in [io_module.c]: system calls.
    - [logger.c], [debug.c], [tcp_util.c]'s printing, statistics ([nstat],
      [runstat], [ep->stat]): no effect on the protocol.
    - Creating, signalling and joining threads, and the release of all memory
      at the end ([mtcp_create_context] and the Destroy functions); of the
      generator also its command line, display and port initialisation.
      Waiting on a condition variable is the result [None] of a call; the step
      taken after the wake-up is a definition of its own.
    - Options that the build switches off: SACK, blocking streams, LRO, the
      SYN flood and the single-threaded loop of the generator.
    - The C++ code and the applications of the repository, and the vendored
      DPDK, I/O engine, AES and capture sources.

    What is left to combine: the calls of the application interleaved with the
    rounds of the thread (which streams may be in which queue), the handshake
    and the close of a connection between two hosts, and liveness of
    retransmission. *)

From Stdlib Require Export ZArith Lia.
From stdpp Require Export base numbers list gmap sets fin_maps.

Declare Scope mtcp_scope.
Delimit Scope mtcp_scope with mtcp.
#[global] Open Scope Z_scope.
#[global] Open Scope mtcp_scope.

Create HintDb mtcp.
Create HintDb tcp.
Create Rewrite HintDb mtcp_simp.

(** * Machine integers

    A value of an unsigned C type of [w] bits is a [Z] in [0 .. 2^w - 1]; the
    conversions below are the C conversions into the type. *)

Definition u8 (z : Z) : Z := z mod 256.
Definition u16 (z : Z) : Z := z mod 65536.
Definition u32 (z : Z) : Z := z mod 4294967296.
Definition u64 (z : Z) : Z := z mod 18446744073709551616.
Definition s16 (z : Z) : Z := (z + 32768) mod 65536 - 32768.
Definition s32 (z : Z) : Z := (z + 2147483648) mod 4294967296 - 2147483648.
Definition s8 (z : Z) : Z := (z + 128) mod 256 - 128.

Notation "a ⊞ b" := (u32 (a + b)) (at level 50, left associativity) : mtcp_scope.
Notation "a ⊟ b" := (u32 (a - b)) (at level 50, left associativity) : mtcp_scope.

Abbreviation is_u8 z := (0 <= z < 256).
Abbreviation is_u16 z := (0 <= z < 65536).
Abbreviation is_u32 z := (0 <= z < 4294967296).

(** Byte swaps of the little-endian target: [htons]/[ntohs] and
    [htonl]/[ntohl] are the same function. *)
Definition swap16 (z : Z) : Z :=
  Z.lor (Z.shiftl (Z.land z 255) 8) (Z.land (Z.shiftr z 8) 255).
Definition swap32 (z : Z) : Z :=
  Z.lor (Z.lor (Z.shiftl (Z.land z 255) 24) (Z.shiftl (Z.land (Z.shiftr z 8) 255) 16))
        (Z.lor (Z.shiftl (Z.land (Z.shiftr z 16) 255) 8) (Z.land (Z.shiftr z 24) 255)).

(** [ulia] decides linear goals that mention the conversions above. *)
Ltac unfold_ints := unfold u8, u16, u32, u64, s8, s16, s32 in *.
Ltac ulia := unfold_ints; Z.div_mod_to_equations; lia.

Lemma u32_range z : is_u32 (u32 z).
Proof. ulia. Qed.
Lemma u16_range z : is_u16 (u16 z).
Proof. ulia. Qed.
Lemma u8_range z : is_u8 (u8 z).
Proof. ulia. Qed.
Lemma u32_id z : is_u32 z → u32 z = z.
Proof. intros; unfold u32; apply Z.mod_small; lia. Qed.
Lemma u16_id z : is_u16 z → u16 z = z.
Proof. intros; unfold u16; apply Z.mod_small; lia. Qed.
Lemma u8_id z : is_u8 z → u8 z = z.
Proof. intros; unfold u8; apply Z.mod_small; lia. Qed.
Lemma u32_add_l a b : u32 (u32 a + b) = u32 (a + b).
Proof. unfold u32; apply Zplus_mod_idemp_l. Qed.
Lemma u32_add_r a b : u32 (a + u32 b) = u32 (a + b).
Proof. unfold u32; apply Zplus_mod_idemp_r. Qed.
Lemma u32_sub_l a b : u32 (u32 a - b) = u32 (a - b).
Proof. unfold u32; apply Zminus_mod_idemp_l. Qed.
Lemma u32_sub_r a b : u32 (a - u32 b) = u32 (a - b).
Proof. unfold u32; apply Zminus_mod_idemp_r. Qed.
Lemma u32_u32 a : u32 (u32 a) = u32 a.
Proof. unfold u32; apply Z.mod_mod; lia. Qed.
Lemma s32_u32 a : s32 (u32 a) = s32 a.
Proof. unfold s32, u32. f_equal. by rewrite Zplus_mod_idemp_l. Qed.
Lemma s32_id z : - 2147483648 <= z < 2147483648 → s32 z = z.
Proof. intros; unfold s32; rewrite Z.mod_small by lia; lia. Qed.
Lemma u64_id z : 0 <= z < 18446744073709551616 → u64 z = z.
Proof. intros; unfold u64; apply Z.mod_small; lia. Qed.

Lemma u32_u64 a : u32 (u64 a) = u32 a.
Proof. ulia. Qed.

#[export] Hint Resolve u32_range u16_range u8_range : mtcp.
#[export] Hint Rewrite u32_add_l u32_add_r u32_sub_l u32_sub_r u32_u32 s32_u32 : mtcp_simp.

(** Two 32-bit values at distances [a] and [b] from the same base differ by
    [a - b], whatever the base. *)
Lemma u32_base_sub h a b : u32 (u32 (h + a) - u32 (h + b)) = u32 (a - b).
Proof. rewrite u32_sub_l, u32_sub_r. f_equal; lia. Qed.

Lemma u32_base_inj h a b :
  0 <= a < 4294967296 → 0 <= b < 4294967296 → u32 (h + a) = u32 (h + b) → a = b.
Proof.
  intros Ha Hb E. assert (u32 (a - b) = 0) as E0
    by (rewrite <- (u32_base_sub h), E, Z.sub_diag; reflexivity).
  ulia.
Qed.

(** A bitwise or of disjoint parts is a sum. *)
Lemma lor_shiftl a b k : 0 <= k → 0 <= b < 2 ^ k → Z.lor (Z.shiftl a k) b = a * 2 ^ k + b.
Proof.
  intros Hk Hb. assert (Z.land (Z.shiftl a k) b = 0) as E.
  { apply Z.bits_inj'. intros n Hn. rewrite Z.land_spec, Z.testbit_0_l.
    destruct (Z.lt_ge_cases n k); [by rewrite Z.shiftl_spec_low|].
    rewrite <- (Z.mod_small b (2 ^ k)) by lia. rewrite Z.mod_pow2_bits_high by lia.
    apply andb_false_r. }
  pose proof (Z.add_lor_land (Z.shiftl a k) b) as Ha. rewrite E, Z.shiftl_mul_pow2 in Ha by lia.
  rewrite Z.shiftl_mul_pow2 by lia. lia.
Qed.

Lemma land_byte z : Z.land z 255 = z mod 256.
Proof. change 255 with (Z.ones 8). by rewrite Z.land_ones by lia. Qed.

Lemma swap16_spec z : swap16 z = z mod 256 * 256 + (z / 256) mod 256.
Proof.
  unfold swap16. rewrite !land_byte, Z.shiftr_div_pow2 by lia. change (2 ^ 8) with 256.
  rewrite lor_shiftl by (try lia; apply Z.mod_pos_bound; lia). done.
Qed.

Lemma swap32_spec z :
  swap32 z = z mod 256 * 16777216 + (z / 256) mod 256 * 65536
             + (z / 65536) mod 256 * 256 + (z / 16777216) mod 256.
Proof.
  unfold swap32. rewrite !land_byte, !Z.shiftr_div_pow2 by lia.
  change (2 ^ 8) with 256. change (2 ^ 16) with 65536. change (2 ^ 24) with 16777216.
  pose proof (Z.mod_pos_bound z 256). pose proof (Z.mod_pos_bound (z / 256) 256).
  pose proof (Z.mod_pos_bound (z / 65536) 256). pose proof (Z.mod_pos_bound (z / 16777216) 256).
  rewrite (lor_shiftl _ ((z / 16777216) mod 256) 8) by lia.
  rewrite (Z.shiftl_mul_pow2 ((z / 256) mod 256)) by lia.
  rewrite (lor_shiftl (z mod 256) _ 24) by lia.
  replace (z mod 256 * 2 ^ 24 + (z / 256) mod 256 * 2 ^ 16)
    with (Z.shiftl (z mod 256 * 256 + (z / 256) mod 256) 16)
    by (rewrite Z.shiftl_mul_pow2; lia).
  rewrite lor_shiftl by lia. lia.
Qed.

(** Bytes of packed values. *)
Lemma pack_lo a b : 0 <= b < 256 → (a * 256 + b) mod 256 = b.
Proof. intros. rewrite Z.add_comm, Z.mod_add by lia. apply Z.mod_small. lia. Qed.
Lemma pack_hi a b : 0 <= b < 256 → (a * 256 + b) / 256 = a.
Proof. intros. rewrite Z.div_add_l by lia. rewrite Z.div_small by lia. lia. Qed.

Definition pack32 (a3 a2 a1 a0 : Z) : Z := ((a3 * 256 + a2) * 256 + a1) * 256 + a0.

Lemma pack32_split z : is_u32 z → ∃ a3 a2 a1 a0,
  is_u8 a3 ∧ is_u8 a2 ∧ is_u8 a1 ∧ is_u8 a0 ∧ z = pack32 a3 a2 a1 a0.
Proof.
  intros Hz. exists (z / 256 / 256 / 256), (z / 256 / 256 mod 256), (z / 256 mod 256), (z mod 256).
  pose proof (Z.mod_pos_bound z 256). pose proof (Z.mod_pos_bound (z / 256) 256).
  pose proof (Z.mod_pos_bound (z / 256 / 256) 256).
  pose proof (Z.div_mod z 256). pose proof (Z.div_mod (z / 256) 256).
  pose proof (Z.div_mod (z / 256 / 256) 256). unfold pack32. split_and!; lia.
Qed.

Lemma swap32_pack a3 a2 a1 a0 :
  is_u8 a3 → is_u8 a2 → is_u8 a1 → is_u8 a0 →
  swap32 (pack32 a3 a2 a1 a0) = pack32 a0 a1 a2 a3.
Proof.
  intros. rewrite swap32_spec. unfold pack32.
  change 65536 with (256 * 256). change 16777216 with (256 * 256 * 256).
  rewrite <- !Z.div_div by lia. rewrite !pack_hi, !pack_lo by lia.
  rewrite (Z.mod_small a3) by lia. lia.
Qed.

Lemma swap16_involutive z : is_u16 z → swap16 (swap16 z) = z.
Proof.
  intros. rewrite !swap16_spec. pose proof (Z.mod_pos_bound z 256).
  assert (0 <= z / 256 < 256) by (split; [apply Z.div_pos|apply Z.div_lt_upper_bound]; lia).
  rewrite (Z.mod_small (z / 256)) by lia. rewrite pack_lo, pack_hi, Z.mod_mod by lia.
  pose proof (Z.div_mod z 256). lia.
Qed.
Lemma swap32_involutive z : is_u32 z → swap32 (swap32 z) = z.
Proof. intros (?&?&?&?&?&?&?&?&->)%pack32_split. by rewrite !swap32_pack. Qed.
Lemma swap16_range z : is_u16 (swap16 z).
Proof.
  rewrite swap16_spec. pose proof (Z.mod_pos_bound z 256).
  pose proof (Z.mod_pos_bound (z / 256) 256). lia.
Qed.
Lemma swap32_range z : is_u32 (swap32 z).
Proof.
  rewrite swap32_spec. pose proof (Z.mod_pos_bound z 256). pose proof (Z.mod_pos_bound (z / 256) 256).
  pose proof (Z.mod_pos_bound (z / 65536) 256). pose proof (Z.mod_pos_bound (z / 16777216) 256). lia.
Qed.

(** * C comparisons and selections *)

Definition MIN (a b : Z) : Z := if a <? b then a else b.
Definition MAX (a b : Z) : Z := if a >? b then a else b.

Lemma MIN_spec a b : MIN a b = Z.min a b.
Proof. unfold MIN. destruct (Z.ltb_spec a b); lia. Qed.
Lemma MAX_spec a b : MAX a b = Z.max a b.
Proof. unfold MAX. rewrite Z.gtb_ltb. destruct (Z.ltb_spec b a); lia. Qed.

(** [b2z] is C's conversion of a comparison to [int]. *)
Definition b2z (b : bool) : Z := if b then 1 else 0.

Ltac case_bool :=
  match goal with
  | |- context [if (?a <? ?b)%Z then _ else _] => destruct (Z.ltb_spec a b)
  | |- context [if (?a <=? ?b)%Z then _ else _] => destruct (Z.leb_spec a b)
  | |- context [if (?a =? ?b)%Z then _ else _] => destruct (Z.eqb_spec a b)
  | H : context [if (?a <? ?b)%Z then _ else _] |- _ => destruct (Z.ltb_spec a b)
  | H : context [if (?a <=? ?b)%Z then _ else _] |- _ => destruct (Z.leb_spec a b)
  | H : context [if (?a =? ?b)%Z then _ else _] |- _ => destruct (Z.eqb_spec a b)
  end.

(** * Record updates

    [r <| f := v |>] is [r] with the field [f] replaced.  A record type gives
    its eta-expansion once ([Eta]); the setter of each projection is derived
    from it by abstracting the projection. *)

Class Eta (R : Type) := eta_expand : R → R.
Class Setter {R T : Type} (proj : R → T) := set_field : (T → T) → R → R.
Arguments set_field {R T} proj {_} _ _.

Ltac derive_setter :=
  match goal with
  | |- @Setter ?R ?T ?proj =>
      let e := eval hnf in (@eta_expand R _) in
      let p := eval pattern proj in e in
      lazymatch p with
      | (fun _ => ?c) _ => fail "not a field"
      | ?g _ => exact (fun (f : T → T) => g (fun r => f (proj r)))
      end
  end.

#[export] Hint Extern 1 (Setter _) => derive_setter : typeclass_instances.

Notation "r <| f := v |>" := (set_field f (fun _ => v) r)
  (at level 1, f at next level, left associativity, format "r  <| f  :=  v |>") : mtcp_scope.

(** [rec_simpl] reads fields of updated records, in the goal and everywhere. *)
Ltac rec_step :=
  match goal with
  | |- context [?p (@set_field ?R ?T ?q ?i ?f ?r)] =>
      first [ change (p (@set_field R T q i f r)) with (p r)
            | progress (change (p (@set_field R T q i f r)) with (f (p r)); cbv beta) ]
  | H : context [?p (@set_field ?R ?T ?q ?i ?f ?r)] |- _ =>
      first [ change (p (@set_field R T q i f r)) with (p r) in H
            | progress (change (p (@set_field R T q i f r)) with (f (p r)) in H; cbv beta in H) ]
  end.
Ltac rec_simpl := repeat rec_step.

(** * Byte buffers

    A buffer is the list of its bytes; [memcpy]/[memmove] inside it read and
    write by offset and fail ([None]) outside the allocation. *)

Definition mem_read (m : list Z) (off len : Z) : option (list Z) :=
  if (0 <=? off) && (0 <=? len) && (off + len <=? Z.of_nat (length m))
  then Some (take (Z.to_nat len) (drop (Z.to_nat off) m)) else None.

Definition mem_write (m : list Z) (off : Z) (bs : list Z) : option (list Z) :=
  if (0 <=? off) && (off + Z.of_nat (length bs) <=? Z.of_nat (length m))
  then Some (list_inserts (Z.to_nat off) bs m) else None.

(** The byte at an offset. *)
Definition byte_at (m : list Z) (i : Z) : option Z :=
  if 0 <=? i then m !! Z.to_nat i else None.

Lemma byte_at_nonneg m i : 0 <= i → byte_at m i = m !! Z.to_nat i.
Proof. intros. unfold byte_at. by case_bool; [|lia]. Qed.

Lemma mem_read_ok m off len :
  0 <= off → 0 <= len → off + len <= Z.of_nat (length m) →
  mem_read m off len = Some (take (Z.to_nat len) (drop (Z.to_nat off) m)).
Proof.
  intros. unfold mem_read.
  rewrite !(proj2 (Z.leb_le _ _)) by lia. done.
Qed.

Lemma mem_write_ok m off bs :
  0 <= off → off + Z.of_nat (length bs) <= Z.of_nat (length m) →
  mem_write m off bs = Some (list_inserts (Z.to_nat off) bs m).
Proof.
  intros. unfold mem_write.
  rewrite !(proj2 (Z.leb_le _ _)) by lia. done.
Qed.

Lemma mem_read_Some m off len bs :
  mem_read m off len = Some bs →
  0 <= off ∧ 0 <= len ∧ off + len <= Z.of_nat (length m)
  ∧ bs = take (Z.to_nat len) (drop (Z.to_nat off) m).
Proof.
  unfold mem_read. destruct (_ && _) eqn:E; [|done].
  rewrite !andb_true_iff, !Z.leb_le in E. intros [= <-]. naive_solver.
Qed.

Lemma mem_write_Some m off bs m' :
  mem_write m off bs = Some m' →
  0 <= off ∧ off + Z.of_nat (length bs) <= Z.of_nat (length m)
  ∧ m' = list_inserts (Z.to_nat off) bs m.
Proof.
  unfold mem_write. destruct (_ && _) eqn:E; [|done].
  rewrite !andb_true_iff, !Z.leb_le in E. intros [= <-]. naive_solver.
Qed.

Lemma mem_read_length m off len bs :
  mem_read m off len = Some bs → Z.of_nat (length bs) = len.
Proof.
  intros (?&?&?&->)%mem_read_Some. rewrite length_take, length_drop. lia.
Qed.

Lemma mem_write_length m off bs m' :
  mem_write m off bs = Some m' → length m' = length m.
Proof. intros (?&?&->)%mem_write_Some. apply length_inserts. Qed.

Lemma byte_at_read m off len bs i :
  mem_read m off len = Some bs → 0 <= i < len → byte_at bs i = byte_at m (off + i).
Proof.
  intros (?&?&?&->)%mem_read_Some ?. rewrite !byte_at_nonneg by lia.
  rewrite lookup_take_lt, lookup_drop by lia. f_equal. lia.
Qed.

Lemma byte_at_write_in m off bs m' i :
  mem_write m off bs = Some m' → off <= i < off + Z.of_nat (length bs) →
  byte_at m' i = byte_at bs (i - off).
Proof.
  intros (?&?&->)%mem_write_Some ?. rewrite !byte_at_nonneg by lia.
  rewrite list_lookup_inserts by lia. f_equal. lia.
Qed.

Lemma byte_at_write_out m off bs m' i :
  mem_write m off bs = Some m' → i < off ∨ off + Z.of_nat (length bs) <= i →
  byte_at m' i = byte_at m i.
Proof.
  intros (?&?&->)%mem_write_Some Hi. unfold byte_at. case_bool; [|done].
  destruct Hi; [apply list_lookup_inserts_lt | apply list_lookup_inserts_ge]; lia.
Qed.

(** * Intrusive tail queues

    A [TAILQ] is the list of the identifiers it links, first element first. *)

Section Tailq.
Context {A : Type} `{EqDecision A}.

Definition TAILQ_INSERT_TAIL (l : list A) (x : A) : list A := l ++ [x].
Definition TAILQ_INSERT_HEAD (l : list A) (x : A) : list A := x :: l.
Definition TAILQ_REMOVE (l : list A) (x : A) : list A := filter (λ y, y ≠ x) l.
Definition TAILQ_FIRST (l : list A) : option A := head l.
Definition TAILQ_LAST (l : list A) : option A := last l.

Lemma elem_of_TAILQ_INSERT_TAIL l x y :
  y ∈ TAILQ_INSERT_TAIL l x ↔ y ∈ l ∨ y = x.
Proof. unfold TAILQ_INSERT_TAIL. set_solver. Qed.
Lemma elem_of_TAILQ_REMOVE l x y : y ∈ TAILQ_REMOVE l x ↔ y ∈ l ∧ y ≠ x.
Proof. unfold TAILQ_REMOVE. rewrite list_elem_of_filter. tauto. Qed.
Lemma NoDup_TAILQ_INSERT_TAIL l x :
  NoDup l → x ∉ l → NoDup (TAILQ_INSERT_TAIL l x).
Proof.
  intros. unfold TAILQ_INSERT_TAIL. apply NoDup_app. split; [done|].
  split; [set_solver|]. apply NoDup_singleton.
Qed.
Lemma NoDup_TAILQ_REMOVE l x : NoDup l → NoDup (TAILQ_REMOVE l x).
Proof. intros. by apply NoDup_filter. Qed.
Lemma length_TAILQ_INSERT_TAIL l x :
  Z.of_nat (length (TAILQ_INSERT_TAIL l x)) = Z.of_nat (length l) + 1.
Proof. unfold TAILQ_INSERT_TAIL. rewrite length_app. simpl. lia. Qed.
Lemma TAILQ_REMOVE_not_in l x : x ∉ l → TAILQ_REMOVE l x = l.
Proof.
  unfold TAILQ_REMOVE. induction l as [|y l IH]; intros Hx; [done|].
  rewrite filter_cons. case_decide; [f_equal; set_solver | set_solver].
Qed.
Lemma length_TAILQ_REMOVE l x :
  NoDup l → x ∈ l → Z.of_nat (length (TAILQ_REMOVE l x)) = Z.of_nat (length l) - 1.
Proof.
  induction l as [|y l IH]; [set_solver|].
  intros [Hy Hn]%NoDup_cons Hx. unfold TAILQ_REMOVE in *. rewrite filter_cons.
  case_decide as E.
  - assert (x ∈ l) as Hx' by set_solver. specialize (IH Hn Hx'). simpl in *. lia.
  - subst y. pose proof (TAILQ_REMOVE_not_in l x Hy) as Er.
    unfold TAILQ_REMOVE in Er. rewrite Er. simpl. lia.
Qed.
Lemma TAILQ_REMOVE_cons l x : x ∉ l → TAILQ_REMOVE (x :: l) x = l.
Proof.
  intros. unfold TAILQ_REMOVE. rewrite filter_cons. case_decide; [done|].
  by apply TAILQ_REMOVE_not_in.
Qed.
End Tailq.

#[export] Hint Resolve NoDup_TAILQ_INSERT_TAIL NoDup_TAILQ_REMOVE : mtcp.
#[export] Hint Rewrite @elem_of_TAILQ_INSERT_TAIL @elem_of_TAILQ_REMOVE : mtcp_simp.
