(* ===== verification/SeqNum.v ===== *)
(** * TCP sequence-number arithmetic

    The comparison macros of [tcp_in.h] and the circular minimum/maximum of
    [tcp_ring_buffer.c].  Both are related to the order of the distances of
    two sequence numbers from a common base, which is what the ring buffer,
    the send buffer and the state machine rely on. *)
From S2P Require Import Prelude.

Definition TCP_SEQ_LT (a b : Z) : bool := s32 (a ⊟ b) <? 0.
Definition TCP_SEQ_LEQ (a b : Z) : bool := s32 (a ⊟ b) <=? 0.
Definition TCP_SEQ_GT (a b : Z) : bool := s32 (a ⊟ b) >? 0.
Definition TCP_SEQ_GEQ (a b : Z) : bool := s32 (a ⊟ b) >=? 0.
Definition TCP_SEQ_BETWEEN (a b c : Z) : bool := TCP_SEQ_GEQ a b && TCP_SEQ_LEQ a c.

Definition MAXSEQ : Z := 4294967295.

Definition GetMinSeq (a b : Z) : Z :=
  if a =? b then a
  else if a <? b then (if b - a <=? MAXSEQ / 2 then a else b)
  else (if a - b <=? MAXSEQ / 2 then b else a).

Definition GetMaxSeq (a b : Z) : Z :=
  if a =? b then a
  else if a <? b then (if b - a <=? MAXSEQ / 2 then b else a)
  else (if a - b <=? MAXSEQ / 2 then a else b).

(** Distances from a base that fit in half of the sequence space are compared
    by the macros exactly as the integers they are. *)
Section Distances.
Context (h a b : Z).
Hypothesis near : - 2147483648 < a - b < 2147483648.

Lemma seq_diff : s32 (u32 (h + a) ⊟ u32 (h + b)) = a - b.
Proof using near. rewrite u32_base_sub, s32_u32. apply s32_id. lia. Qed.

Lemma SEQ_LT_dist : TCP_SEQ_LT (u32 (h + a)) (u32 (h + b)) = (a <? b).
Proof using near. unfold TCP_SEQ_LT. rewrite seq_diff. lia. Qed.
Lemma SEQ_LEQ_dist : TCP_SEQ_LEQ (u32 (h + a)) (u32 (h + b)) = (a <=? b).
Proof using near. unfold TCP_SEQ_LEQ. rewrite seq_diff. lia. Qed.
Lemma SEQ_GT_dist : TCP_SEQ_GT (u32 (h + a)) (u32 (h + b)) = (b <? a).
Proof using near. unfold TCP_SEQ_GT. rewrite seq_diff. lia. Qed.
Lemma SEQ_GEQ_dist : TCP_SEQ_GEQ (u32 (h + a)) (u32 (h + b)) = (b <=? a).
Proof using near. unfold TCP_SEQ_GEQ. rewrite seq_diff. lia. Qed.

Lemma GetMinSeq_dist : GetMinSeq (u32 (h + a)) (u32 (h + b)) = u32 (h + Z.min a b).
Proof using near.
  unfold GetMinSeq, MAXSEQ. change (4294967295 / 2) with 2147483647.
  repeat case_bool; destruct (Z.min_spec a b) as [[? ->]|[? ->]]; try congruence; ulia.
Qed.
Lemma GetMaxSeq_dist : GetMaxSeq (u32 (h + a)) (u32 (h + b)) = u32 (h + Z.max a b).
Proof using near.
  unfold GetMaxSeq, MAXSEQ. change (4294967295 / 2) with 2147483647.
  repeat case_bool; destruct (Z.max_spec a b) as [[? ->]|[? ->]]; try congruence; ulia.
Qed.
End Distances.

(** Every 32-bit value is its own distance from any other. *)
Lemma seq_as_dist h s : is_u32 s → s = u32 (h + u32 (s - h)).
Proof. intros. rewrite u32_add_r. replace (h + (s - h)) with s by lia. by rewrite u32_id. Qed.
