(* ===== verification/CircQueue.v ===== *)
(** * Single-producer single-consumer queues

    [tcp_rb_frag_queue.c], [tcp_sb_queue.c] and the [stream_queue] half of
    [tcp_stream_queue.c] are the same circular queue of pointers at three
    element types; [stream_queue_int] is the counted circular queue used by
    the mTCP thread only.

    - [CircQ]: the queue operations, over any element type;
    - [RBFragQ], [SBQ], [StreamQ]: the three source copies;
    - [Spsc]: the same operations cut at their shared-memory accesses, with one
      producer and one consumer interleaved;
    - [StreamQInt]: the internal queue.

    The specification of all of them is a bounded FIFO, a list. *)
From S2P Require Import Prelude.

(** ** The abstract queue *)
Module Fifo.
Definition push {A} (cap : Z) (l : list A) (x : A) : Z * list A :=
  if Z.of_nat (length l) <? cap then (0, l ++ [x]) else (-1, l).
Definition pop {A} (l : list A) : option A * list A :=
  match l with [] => (None, []) | x :: l' => (Some x, l') end.
End Fifo.

(** ** The circular queue *)
Module CircQ.
Section CircQ.
Context {A : Type}.

Record queue := mk_queue {
  capacity : Z;
  head : Z;
  tail : Z;
  slots : list (option A)   (* [None] is the null pointer *)
}.
#[export] Instance eta_queue : Eta queue :=
  λ r, mk_queue (capacity r) (head r) (tail r) (slots r).

Definition NextIndex (sq : queue) (i : Z) : Z :=
  if negb (i =? capacity sq) then i ⊞ 1 else 0.

Definition PrevIndex (sq : queue) (i : Z) : Z :=
  if negb (i =? 0) then i ⊟ 1 else capacity sq.

(** [calloc] of the descriptor and of the slots may fail. *)
Definition Create (cap : Z) (desc_ok slots_ok : bool) : option queue :=
  if negb desc_ok then None
  else if negb slots_ok then None
  else Some (mk_queue (u32 cap) 0 0 (replicate (Z.to_nat (cap + 1)) None)).

Definition IsEmpty (sq : queue) : bool := head sq =? tail sq.

Definition Enqueue (sq : queue) (x : A) : Z * queue :=
  let h := head sq in
  let t := tail sq in
  let nt := NextIndex sq t in
  if negb (nt =? h) then
    (0, sq <| slots := <[Z.to_nat t := Some x]> (slots sq) |> <| tail := nt |>)
  else (-1, sq).

Definition Dequeue (sq : queue) : option A * queue :=
  let h := head sq in
  let t := tail sq in
  if negb (h =? t) then
    (mjoin (slots sq !! Z.to_nat h), sq <| head := NextIndex sq h |>)
  else (None, sq).

(** The slot [k] places after [h] in an array of [n] slots, and the number of
    places from [h] to [t]. *)
Definition pos (n h k : Z) : Z := if h + k <? n then h + k else h + k - n.
Definition dist (n h t : Z) : Z := if h <=? t then t - h else t - h + n.

(** The queue is well formed and holds exactly the elements of [l]. *)
Record holds (sq : queue) (l : list A) : Prop := mk_holds {
  holds_cap : 0 <= capacity sq < 4294967295;
  holds_slots : Z.of_nat (length (slots sq)) = capacity sq + 1;
  holds_head : 0 <= head sq <= capacity sq;
  holds_tail : 0 <= tail sq <= capacity sq;
  holds_len : dist (capacity sq + 1) (head sq) (tail sq) = Z.of_nat (length l);
  holds_elems : ∀ k x, l !! k = Some x →
    slots sq !! Z.to_nat (pos (capacity sq + 1) (head sq) (Z.of_nat k)) = Some (Some x)
}.

Ltac positions := unfold pos, dist in *; repeat case_bool; try lia.

Lemma NextIndex_spec sq i :
  0 <= capacity sq < 4294967295 → 0 <= i <= capacity sq →
  NextIndex sq i = pos (capacity sq + 1) i 1.
Proof.
  intros. unfold NextIndex. destruct (Z.eqb_spec i (capacity sq)); simpl; positions.
  rewrite u32_id; lia.
Qed.

Lemma Create_holds cap :
  0 <= cap < 2147483648 →
  ∃ sq, Create cap true true = Some sq ∧ holds sq [] ∧ capacity sq = cap.
Proof.
  intros. eexists. split; [reflexivity|]. simpl. rewrite u32_id by lia.
  split; [|done]. split; simpl; rewrite ?length_replicate; try lia; done.
Qed.

(** An element already in the queue survives a store at the tail. *)
Lemma holds_elems_store sq l x k y :
  holds sq l → Z.of_nat (length l) < capacity sq + 1 → l !! k = Some y →
  <[Z.to_nat (tail sq) := Some x]> (slots sq)
    !! Z.to_nat (pos (capacity sq + 1) (head sq) (Z.of_nat k)) = Some (Some y).
Proof.
  intros [] ? Hk. pose proof (lookup_lt_Some _ _ _ Hk).
  rewrite list_lookup_insert_ne; [by apply holds_elems0|]. positions.
Qed.

Lemma length_le_cap sq l : holds sq l → Z.of_nat (length l) <= capacity sq.
Proof. intros []. positions. Qed.

(** The state after storing at the tail and publishing the new tail. *)
Lemma push_holds sq l x :
  holds sq l → Z.of_nat (length l) < capacity sq →
  holds (sq <| slots := <[Z.to_nat (tail sq) := Some x]> (slots sq) |>
            <| tail := NextIndex sq (tail sq) |>) (l ++ [x]).
Proof.
  intros H Hlt. pose proof (λ k y, holds_elems_store sq l x k y H ltac:(lia)) as Hst.
  destruct H. rewrite NextIndex_spec by lia. split; rec_simpl; try done.
  - by rewrite length_insert.
  - positions.
  - rewrite length_app. simpl. positions.
  - intros k y. rewrite lookup_app_Some. intros [Hk|[Hge Hk]]; [by apply Hst|].
    apply list_lookup_singleton_Some in Hk as [Hk ->].
    replace (pos (capacity sq + 1) (head sq) (Z.of_nat k)) with (tail sq) by positions.
    apply list_lookup_insert_eq. lia.
Qed.

Lemma full_iff sq l :
  holds sq l → NextIndex sq (tail sq) = head sq ↔ Z.of_nat (length l) = capacity sq.
Proof. intros []. rewrite NextIndex_spec by lia. positions. Qed.

Lemma empty_iff sq l : holds sq l → head sq = tail sq ↔ l = [].
Proof.
  intros []. destruct l; simpl in *; split; intros; try done; positions.
Qed.

Lemma head_slot sq x l :
  holds sq (x :: l) → slots sq !! Z.to_nat (head sq) = Some (Some x).
Proof.
  intros []. specialize (holds_elems0 0%nat x eq_refl). simpl in *.
  by replace (head sq) with (pos (capacity sq + 1) (head sq) 0) by positions.
Qed.

Lemma pop_holds sq x l :
  holds sq (x :: l) → holds (sq <| head := NextIndex sq (head sq) |>) l.
Proof.
  intros H. pose proof (length_le_cap _ _ H) as Hle. destruct H. simpl in *.
  rewrite NextIndex_spec by lia. split; rec_simpl; try done; [positions..|].
  intros k y Hk. pose proof (lookup_lt_Some _ _ _ Hk).
  specialize (holds_elems0 (S k) y Hk).
  rewrite <- holds_elems0. do 2 f_equal. positions.
Qed.

(** [Enqueue] is [Fifo.push] at the capacity. *)
Lemma Enqueue_refines sq l x :
  holds sq l →
  (Enqueue sq x).1 = (Fifo.push (capacity sq) l x).1 ∧
  holds (Enqueue sq x).2 (Fifo.push (capacity sq) l x).2 ∧
  capacity (Enqueue sq x).2 = capacity sq.
Proof.
  intros H. pose proof (full_iff _ _ H). pose proof (length_le_cap _ _ H).
  unfold Enqueue, Fifo.push. destruct (Z.eqb_spec (NextIndex sq (tail sq)) (head sq)); simpl.
  - case_bool; [lia|done].
  - case_bool; [|lia]. split; [done|]. split; [|done]. apply push_holds; [done|lia].
Qed.

(** [Dequeue] is [Fifo.pop]; in particular it never returns a null slot of a
    non-empty queue. *)
Lemma Dequeue_refines sq l :
  holds sq l →
  (Dequeue sq).1 = (Fifo.pop l).1 ∧ holds (Dequeue sq).2 (Fifo.pop l).2 ∧
  capacity (Dequeue sq).2 = capacity sq.
Proof.
  intros H. pose proof (empty_iff _ _ H). unfold Dequeue.
  destruct (Z.eqb_spec (head sq) (tail sq)), l as [|x l]; simpl; try naive_solver.
  split; [by rewrite (head_slot sq x l H)|]. split; [by apply pop_holds with x|done].
Qed.

Lemma IsEmpty_spec sq l : holds sq l → IsEmpty sq = true ↔ l = [].
Proof. intros H. unfold IsEmpty. rewrite Z.eqb_eq. by apply empty_iff. Qed.
End CircQ.
Arguments queue A : clear implicits.
End CircQ.
#[export] Existing Instance CircQ.eta_queue.

(** ** The three source copies

    The elements are the addresses of fragment contexts and of streams; the
    queue of free send buffers owns the buffers it links, so its element type is
    left open. *)
Module RBFragQ.
Definition rb_frag_queue := CircQ.queue Z.
Definition NextIndex : rb_frag_queue → Z → Z := CircQ.NextIndex.
Definition PrevIndex : rb_frag_queue → Z → Z := CircQ.PrevIndex.
Definition CreateRBFragQueue : Z → bool → bool → option rb_frag_queue := CircQ.Create.
Definition RBFragEnqueue : rb_frag_queue → Z → Z * rb_frag_queue := CircQ.Enqueue.
Definition RBFragDequeue : rb_frag_queue → option Z * rb_frag_queue := CircQ.Dequeue.
End RBFragQ.

Module SBQ.
Definition sb_queue (A : Type) := CircQ.queue A.
Definition NextIndex {A} : sb_queue A → Z → Z := CircQ.NextIndex.
Definition PrevIndex {A} : sb_queue A → Z → Z := CircQ.PrevIndex.
Definition CreateSBQueue {A} : Z → bool → bool → option (sb_queue A) := CircQ.Create.
Definition SBEnqueue {A} : sb_queue A → A → Z * sb_queue A := CircQ.Enqueue.
Definition SBDequeue {A} : sb_queue A → option A * sb_queue A := CircQ.Dequeue.
End SBQ.

Module StreamQ.
Definition stream_queue := CircQ.queue Z.
Definition NextIndex : stream_queue → Z → Z := CircQ.NextIndex.
Definition PrevIndex : stream_queue → Z → Z := CircQ.PrevIndex.
Definition StreamQueueIsEmpty : stream_queue → bool := CircQ.IsEmpty.
Definition CreateStreamQueue : Z → bool → bool → option stream_queue := CircQ.Create.
Definition StreamEnqueue : stream_queue → Z → Z * stream_queue := CircQ.Enqueue.
Definition StreamDequeue : stream_queue → option Z * stream_queue := CircQ.Dequeue.
End StreamQ.

(** ** One producer and one consumer

    The application thread enqueues and the mTCP thread dequeues without a
    lock ([LOCK_STREAM_QUEUE] is off).  Every read or write of [_head],
    [_tail] and of a slot is one step; the compiler barrier fixes their order
    inside a thread.  [enq] and [deq] are the histories of the calls that
    returned [0] and of the pointers returned by the consumer. *)
Module Spsc.
Section Spsc.
Context {A : Type}.
Implicit Types (q : CircQ.queue A) (x : A).

Inductive producer :=
| P_idle
| P_head (x : A) (h : Z)               (* h = _head *)
| P_test (x : A) (h t : Z)             (* t = _tail *)
| P_store (x : A) (t nt : Z)           (* nt != h: about to write _q[t] *)
| P_publish (nt : Z) (x : A).          (* _q[t] written: about to write _tail *)

Inductive consumer :=
| C_idle
| C_head (h : Z)
| C_test (h t : Z)
| C_load (h : Z)                       (* h != t: about to read _q[h] *)
| C_advance (h : Z) (v : option A).    (* about to write _head *)

Record config := mk_config {
  q : CircQ.queue A;
  prod : producer;
  cons : consumer;
  enq : list A;
  deq : list (option A)
}.
#[export] Instance eta_config : Eta config :=
  λ r, mk_config (q r) (prod r) (cons r) (enq r) (deq r).

Inductive step : config → config → Prop :=
| s_p_head c x : prod c = P_idle → step c (c <| prod := P_head x (CircQ.head (q c)) |>)
| s_p_tail c x h : prod c = P_head x h →
    step c (c <| prod := P_test x h (CircQ.tail (q c)) |>)
| s_p_full c x h t : prod c = P_test x h t → CircQ.NextIndex (q c) t = h →
    step c (c <| prod := P_idle |>)
| s_p_room c x h t : prod c = P_test x h t → CircQ.NextIndex (q c) t ≠ h →
    step c (c <| prod := P_store x t (CircQ.NextIndex (q c) t) |>)
| s_p_store c x t nt : prod c = P_store x t nt →
    step c (c <| q := (q c) <| CircQ.slots := <[Z.to_nat t := Some x]> (CircQ.slots (q c)) |> |>
              <| prod := P_publish nt x |>)
| s_p_publish c nt x : prod c = P_publish nt x →
    step c (c <| q := (q c) <| CircQ.tail := nt |> |> <| prod := P_idle |> <| enq := enq c ++ [x] |>)
| s_c_head c : cons c = C_idle → step c (c <| cons := C_head (CircQ.head (q c)) |>)
| s_c_tail c h : cons c = C_head h → step c (c <| cons := C_test h (CircQ.tail (q c)) |>)
| s_c_empty c h t : cons c = C_test h t → h = t → step c (c <| cons := C_idle |>)
| s_c_some c h t : cons c = C_test h t → h ≠ t → step c (c <| cons := C_load h |>)
| s_c_load c h : cons c = C_load h →
    step c (c <| cons := C_advance h (mjoin (CircQ.slots (q c) !! Z.to_nat h)) |>)
| s_c_advance c h v : cons c = C_advance h v →
    step c (c <| q := (q c) <| CircQ.head := CircQ.NextIndex (q c) h |> |>
              <| cons := C_idle |> <| deq := deq c ++ [v] |>).

(** [h] is the current head or one read before [k] later dequeues; the window
    from [h] to the tail still fits. *)
Definition stale_head (sq : CircQ.queue A) (l : list A) (h : Z) : Prop :=
  0 <= h <= CircQ.capacity sq ∧
  ∃ k, 0 <= k ∧ k + Z.of_nat (length l) <= CircQ.capacity sq ∧
       CircQ.pos (CircQ.capacity sq + 1) h k = CircQ.head sq.

Definition prod_ok (sq : CircQ.queue A) (l : list A) (p : producer) : Prop :=
  match p with
  | P_idle => True
  | P_head _ h => stale_head sq l h
  | P_test _ h t => stale_head sq l h ∧ t = CircQ.tail sq
  | P_store _ t nt =>
      t = CircQ.tail sq ∧ nt = CircQ.NextIndex sq t ∧ Z.of_nat (length l) < CircQ.capacity sq
  | P_publish nt x =>
      nt = CircQ.NextIndex sq (CircQ.tail sq) ∧ Z.of_nat (length l) < CircQ.capacity sq ∧
      CircQ.slots sq !! Z.to_nat (CircQ.tail sq) = Some (Some x)
  end.

(** The tail read by the consumer may be old: the queue can only be longer. *)
Definition cons_ok (sq : CircQ.queue A) (l : list A) (c : consumer) : Prop :=
  match c with
  | C_idle => True
  | C_head h => h = CircQ.head sq
  | C_test h t => h = CircQ.head sq ∧ (h ≠ t → l ≠ [])
  | C_load h => h = CircQ.head sq ∧ l ≠ []
  | C_advance h v => h = CircQ.head sq ∧ ∃ x l', v = Some x ∧ l = x :: l'
  end.

Definition inv (c : config) : Prop :=
  ∃ l, CircQ.holds (q c) l ∧ prod_ok (q c) l (prod c) ∧ cons_ok (q c) l (cons c) ∧
       map Some (enq c) = deq c ++ map Some l.

Lemma stale_refl sq l : CircQ.holds sq l → stale_head sq l (CircQ.head sq).
Proof.
  intros H. pose proof (CircQ.length_le_cap _ _ H). destruct H. split; [done|].
  exists 0. split; [lia|]. split; [lia|]. unfold CircQ.pos. case_bool; lia.
Qed.

Lemma stale_pop sq x l h :
  CircQ.holds sq (x :: l) → stale_head sq (x :: l) h →
  stale_head (sq <| CircQ.head := CircQ.NextIndex sq (CircQ.head sq) |>) l h.
Proof.
  intros [] (?&k&?&Hk&Hp). rewrite CircQ.NextIndex_spec by lia. split; [done|].
  exists (k + 1). rec_simpl. simpl in *. rewrite <- Hp.
  unfold CircQ.pos in *. repeat case_bool; lia.
Qed.

Lemma stale_room sq l h :
  CircQ.holds sq l → stale_head sq l h → CircQ.NextIndex sq (CircQ.tail sq) ≠ h →
  Z.of_nat (length l) < CircQ.capacity sq.
Proof.
  intros H (?&k&?&Hk&Hp) Hne. pose proof (CircQ.full_iff _ _ H) as Hf.
  destruct (Z.eq_dec k 0) as [->|]; [|lia].
  assert (h = CircQ.head sq) as -> by (revert Hp; unfold CircQ.pos; case_bool; lia).
  pose proof (CircQ.length_le_cap _ _ H). lia.
Qed.

(** A dequeue keeps what the producer knows. *)
Lemma prod_ok_pop sq x l p :
  CircQ.holds sq (x :: l) → prod_ok sq (x :: l) p →
  prod_ok (sq <| CircQ.head := CircQ.NextIndex sq (CircQ.head sq) |>) l p.
Proof.
  intros H. destruct p; simpl; rec_simpl; intros Hp; try done.
  - eauto using stale_pop.
  - destruct Hp. eauto using stale_pop.
  - destruct Hp as (?&?&?). repeat split; [done..|lia].
  - destruct Hp as (?&?&?). repeat split; [done|lia|done].
Qed.

(** A store at the tail changes nothing the queue holds. *)
Lemma holds_store sq l x :
  CircQ.holds sq l →
  CircQ.holds (sq <| CircQ.slots := <[Z.to_nat (CircQ.tail sq) := Some x]> (CircQ.slots sq) |>) l.
Proof.
  intros H. pose proof (CircQ.length_le_cap _ _ H).
  pose proof (λ k y, CircQ.holds_elems_store sq l x k y H ltac:(lia)).
  destruct H. split; rec_simpl; try done. by rewrite length_insert.
Qed.

Lemma holds_publish sq l x :
  CircQ.holds sq l → Z.of_nat (length l) < CircQ.capacity sq →
  CircQ.slots sq !! Z.to_nat (CircQ.tail sq) = Some (Some x) →
  CircQ.holds (sq <| CircQ.tail := CircQ.NextIndex sq (CircQ.tail sq) |>) (l ++ [x]).
Proof.
  intros H Hl Hs. pose proof (CircQ.push_holds sq l x H Hl) as Hp.
  rewrite list_insert_id in Hp by done. destruct sq. exact Hp.
Qed.

Lemma cons_ok_push sq l x p :
  CircQ.holds sq l → cons_ok sq l p →
  cons_ok (sq <| CircQ.tail := CircQ.NextIndex sq (CircQ.tail sq) |>) (l ++ [x]) p.
Proof.
  intros H. destruct p; simpl; rec_simpl; intros Hp; try done.
  - destruct Hp. split; [done|]. intros _. by destruct l.
  - destruct Hp. split; [done|]. by destruct l.
  - destruct Hp as [? (y&l'&?&->)]. split; [done|]. by exists y, (l' ++ [x]).
Qed.

Lemma spsc_inv_step c c' : inv c → step c c' → inv c'.
Proof.
  intros (l&H&Hp&Hc&Hist) Hstep. destruct Hstep as
    [c x E|c x h E|c x h t E F|c x h t E F|c x t nt E|c nt x E
    |c E|c h E|c h t E F|c h t E F|c h E|c h v E];
    first [rewrite E in Hp | rewrite E in Hc]; simpl in Hp, Hc; unfold inv; rec_simpl.
  - exists l. simpl. split_and!; eauto using stale_refl.
  - exists l. simpl. split_and!; eauto.
  - exists l. simpl. split_and!; eauto.
  - exists l. destruct Hp as [Hst ->]. simpl. split_and!; eauto using stale_room.
  - destruct Hp as (->&->&?). exists l. split; [by apply holds_store|].
    split; [|done]. simpl. repeat split; [done..|].
    apply list_lookup_insert_eq. destruct H. lia.
  - destruct Hp as (->&?&?). exists (l ++ [x]). split; [by apply holds_publish|].
    split; [done|]. split; [by apply cons_ok_push|].
    by rewrite !map_app, Hist, app_assoc.
  - exists l. simpl. split_and!; eauto.
  - exists l. subst h. simpl. split_and!; [done..| |done].
    intros Hne ->. apply Hne. by apply (CircQ.empty_iff _ _ H).
  - exists l. simpl. split_and!; eauto.
  - exists l. simpl. naive_solver.
  - destruct Hc as [-> Hne]. destruct l as [|x l]; [done|]. exists (x :: l).
    rewrite (CircQ.head_slot _ _ _ H). simpl. naive_solver.
  - destruct Hc as [-> (x&l'&->&->)]. exists l'. split; [by apply CircQ.pop_holds with x|].
    split; [by apply prod_ok_pop with x|]. split; [done|].
    by rewrite Hist, <- app_assoc.
Qed.

Definition initial (sq : CircQ.queue A) : config := mk_config sq P_idle C_idle [] [].

Lemma spsc_inv_reachable sq c :
  CircQ.holds sq [] → rtc step (initial sq) c → inv c.
Proof.
  intros H Hr. remember (initial sq) as c0 eqn:E0.
  assert (inv c0) as Hi by (subst; exists []; simpl; eauto). clear E0.
  induction Hr; eauto using spsc_inv_step.
Qed.
End Spsc.
Arguments config A : clear implicits.
End Spsc.

(** ** The internal stream queue *)
Module StreamQInt.
Record stream_queue_int := mk_sqi {
  array : list (option Z);
  size : Z;
  first : Z;
  last : Z;
  count : Z
}.
#[export] Instance eta_sqi : Eta stream_queue_int :=
  λ r, mk_sqi (array r) (size r) (first r) (last r) (count r).

Definition CreateInternalStreamQueue (sz : Z) (desc_ok array_ok : bool)
  : option stream_queue_int :=
  if negb desc_ok then None
  else if negb array_ok then None
  else Some (mk_sqi (replicate (Z.to_nat sz) None) sz 0 0 0).

Definition StreamInternalEnqueue (sq : stream_queue_int) (stream : Z)
  : Z * stream_queue_int :=
  if count sq >=? size sq then (-1, sq)
  else
    let sq := sq <| array := <[Z.to_nat (last sq) := Some stream]> (array sq) |>
                 <| last := s32 (last sq + 1) |> in
    let sq := sq <| count := s32 (count sq + 1) |> in
    let sq := if last sq >=? size sq then sq <| last := 0 |> else sq in
    (0, sq).

Definition StreamInternalDequeue (sq : stream_queue_int)
  : option Z * stream_queue_int :=
  if count sq <=? 0 then (None, sq)
  else
    let stream := mjoin (array sq !! Z.to_nat (first sq)) in
    let sq := sq <| first := s32 (first sq + 1) |> in
    let sq := if first sq >=? size sq then sq <| first := 0 |> else sq in
    let sq := sq <| count := s32 (count sq - 1) |> in
    (stream, sq).

Record holds (sq : stream_queue_int) (l : list Z) : Prop := mk_holds {
  holds_size : 0 < size sq < 2147483648;
  holds_array : Z.of_nat (length (array sq)) = size sq;
  holds_first : 0 <= first sq < size sq;
  holds_last : 0 <= last sq < size sq;
  holds_count : count sq = Z.of_nat (length l);
  holds_bound : count sq <= size sq;
  holds_tail : last sq = CircQ.pos (size sq) (first sq) (count sq);
  holds_elems : ∀ k x, l !! k = Some x →
    array sq !! Z.to_nat (CircQ.pos (size sq) (first sq) (Z.of_nat k)) = Some (Some x)
}.

Ltac positions := unfold CircQ.pos in *; repeat case_bool; try lia.

Lemma sqi_Enqueue_refines sq l x :
  holds sq l →
  (StreamInternalEnqueue sq x).1 = (Fifo.push (size sq) l x).1 ∧
  holds (StreamInternalEnqueue sq x).2 (Fifo.push (size sq) l x).2 ∧
  size (StreamInternalEnqueue sq x).2 = size sq.
Proof.
  intros H. unfold StreamInternalEnqueue, Fifo.push. pose proof H as H0.
  destruct H. rewrite Z.geb_leb. rewrite !holds_count0 in *.
  destruct (Z.leb_spec (size sq) (Z.of_nat (length l))); [case_bool; [lia|done]|].
  case_bool; [|lia]. rec_simpl. rewrite !s32_id by lia.
  assert (∀ k y, (l ++ [x]) !! k = Some y →
    <[Z.to_nat (last sq) := Some x]> (array sq)
      !! Z.to_nat (CircQ.pos (size sq) (first sq) (Z.of_nat k)) = Some (Some y)) as He.
  { intros k y. rewrite lookup_app_Some. intros [Hk|[Hge Hk]].
    - pose proof (lookup_lt_Some _ _ _ Hk).
      rewrite list_lookup_insert_ne; [by apply holds_elems0|].
      rewrite holds_tail0. clear holds_elems0 H0. positions.
    - apply list_lookup_singleton_Some in Hk as [Hk ->].
      replace (CircQ.pos (size sq) (first sq) (Z.of_nat k)) with (last sq)
        by (rewrite holds_tail0; f_equal; lia).
      apply list_lookup_insert_eq. lia. }
  rewrite Z.geb_leb. case_bool; simpl; (split; [done|]); (split; [|done]);
    split; rec_simpl; rewrite ?length_insert, ?length_app; simpl; try done; try lia;
    clear He holds_elems0; positions.
Qed.

Lemma sqi_Dequeue_refines sq l :
  holds sq l →
  (StreamInternalDequeue sq).1 = (Fifo.pop l).1 ∧
  holds (StreamInternalDequeue sq).2 (Fifo.pop l).2 ∧
  size (StreamInternalDequeue sq).2 = size sq.
Proof.
  intros H. unfold StreamInternalDequeue. pose proof H as H0. destruct H.
  destruct l as [|x l]; simpl in *; rewrite holds_count0 in *; [done|].
  case_bool; [lia|]. rec_simpl. rewrite (s32_id (first sq + 1)) by lia. simpl.
  assert (mjoin (array sq !! Z.to_nat (first sq)) = Some x) as ->.
  { specialize (holds_elems0 0%nat x eq_refl).
    replace (CircQ.pos (size sq) (first sq) (Z.of_nat 0)) with (first sq) in holds_elems0 by positions.
    by rewrite holds_elems0. }
  split; [done|]. rewrite Z.geb_leb.
  assert (∀ k y, l !! k = Some y →
    array sq !! Z.to_nat (CircQ.pos (size sq) (first sq) (Z.of_nat (S k))) = Some (Some y))
    as He by (intros; by apply holds_elems0).
  destruct (Z.leb_spec (size sq) (first sq + 1)); (split; [|done]);
    split; rec_simpl; rewrite ?s32_id by lia; simpl; try done; try lia;
    try (clear holds_elems0 He; positions; fail);
    intros k y Hk; pose proof (lookup_lt_Some _ _ _ Hk); rewrite <- (He k y Hk);
    do 2 f_equal; clear holds_elems0 He; positions.
Qed.
End StreamQInt.
#[export] Existing Instance StreamQInt.eta_sqi.
#[export] Existing Instance Spsc.eta_config.

(** ** Call sequences

    A client of a queue is a sequence of calls; what it observes is the list
    of their results. *)
Inductive qcall := Enq (x : Z) | Deq.
Inductive qresult := Ret (r : Z) | Got (p : option Z).

Definition run_calls {Q : Type} (enqueue : Q → Z → Z * Q) (dequeue : Q → option Z * Q)
  : Q → list qcall → list qresult :=
  fix go sq calls :=
    match calls with
    | [] => []
    | Enq x :: cs => let '(r, sq') := enqueue sq x in Ret r :: go sq' cs
    | Deq :: cs => let '(p, sq') := dequeue sq in Got p :: go sq' cs
    end.

Lemma run_calls_refines {Q} enqueue dequeue (R : Q → list Z → Prop) cap :
  (∀ sq l x, R sq l → (enqueue sq x).1 = (Fifo.push cap l x).1 ∧
                      R (enqueue sq x).2 (Fifo.push cap l x).2) →
  (∀ sq l, R sq l → (dequeue sq).1 = (Fifo.pop l).1 ∧ R (dequeue sq).2 (Fifo.pop l).2) →
  ∀ calls sq l, R sq l →
    run_calls enqueue dequeue sq calls = run_calls (Fifo.push cap) Fifo.pop l calls.
Proof.
  intros He Hd calls. induction calls as [|[x|] cs IH]; intros sq l HR; simpl; [done| |].
  - destruct (He sq l x HR) as [E1 E2]. destruct (enqueue sq x), (Fifo.push cap l x).
    simpl in *. subst. f_equal. by apply IH.
  - destruct (Hd sq l HR) as [E1 E2]. destruct (dequeue sq), (Fifo.pop l).
    simpl in *. subst. f_equal. by apply IH.
Qed.

Lemma CircQ_calls cap :
  0 <= cap < 2147483648 →
  ∃ sq, CircQ.Create cap true true = Some sq ∧
    ∀ calls, run_calls CircQ.Enqueue CircQ.Dequeue sq calls
             = run_calls (Fifo.push cap) Fifo.pop [] calls.
Proof.
  intros Hc. destruct (CircQ.Create_holds (A := Z) cap Hc) as (sq&E&H&Hcap).
  exists sq. split; [done|]. intros calls.
  apply (run_calls_refines _ _ (λ sq l, CircQ.holds sq l ∧ CircQ.capacity sq = cap)); [| |done].
  - intros s l x [Hs <-]. destruct (CircQ.Enqueue_refines s l x Hs) as (?&?&?). done.
  - intros s l [Hs <-]. destruct (CircQ.Dequeue_refines s l Hs) as (?&?&?). done.
Qed.

(** A freshly created [rb_frag_queue], [sb_queue] or [stream_queue] of
    capacity [cap] answers every sequence of enqueue and dequeue calls like a
    FIFO list bounded by [cap]: [0] and the element kept while there is room,
    [-1] and no change when full, elements returned in order, and NULL exactly
    when empty. *)
Theorem queues_are_bounded_fifos cap :
  0 <= cap < 2147483648 →
  ∃ fq sq tq,
    RBFragQ.CreateRBFragQueue cap true true = Some fq ∧
    SBQ.CreateSBQueue cap true true = Some sq ∧
    StreamQ.CreateStreamQueue cap true true = Some tq ∧
    ∀ calls,
      run_calls RBFragQ.RBFragEnqueue RBFragQ.RBFragDequeue fq calls
        = run_calls (Fifo.push cap) Fifo.pop [] calls ∧
      run_calls SBQ.SBEnqueue SBQ.SBDequeue sq calls
        = run_calls (Fifo.push cap) Fifo.pop [] calls ∧
      run_calls StreamQ.StreamEnqueue StreamQ.StreamDequeue tq calls
        = run_calls (Fifo.push cap) Fifo.pop [] calls.
Proof.
  intros Hc. destruct (CircQ_calls cap Hc) as (sq&E&H).
  exists sq, sq, sq. unfold RBFragQ.CreateRBFragQueue, SBQ.CreateSBQueue, StreamQ.CreateStreamQueue.
  repeat (split; [exact E|]). intros calls. split_and!; apply H.
Qed.

Lemma queues_are_bounded_fifos_witness :
  ∃ fq sq tq,
    RBFragQ.CreateRBFragQueue 2 true true = Some fq ∧
    SBQ.CreateSBQueue 2 true true = Some sq ∧
    StreamQ.CreateStreamQueue 2 true true = Some tq ∧
    ∀ calls,
      run_calls RBFragQ.RBFragEnqueue RBFragQ.RBFragDequeue fq calls
        = run_calls (Fifo.push 2) Fifo.pop [] calls ∧
      run_calls SBQ.SBEnqueue SBQ.SBDequeue sq calls
        = run_calls (Fifo.push 2) Fifo.pop [] calls ∧
      run_calls StreamQ.StreamEnqueue StreamQ.StreamDequeue tq calls
        = run_calls (Fifo.push 2) Fifo.pop [] calls.
Proof. apply (queues_are_bounded_fifos 2). lia. Defined.

(** C19: with one producer and one consumer running concurrently on a queue, in
    every reachable interleaving the pointers the consumer obtained are, in
    order and without loss, duplication or NULL, a prefix of the elements
    whose enqueue succeeded, and the rest is what the queue holds. *)
Theorem spsc_no_loss_no_duplication (sq : StreamQ.stream_queue) (c : Spsc.config Z) :
  CircQ.holds sq [] → rtc Spsc.step (Spsc.initial sq) c →
  ∃ inside, CircQ.holds (Spsc.q c) inside ∧
            map Some (Spsc.enq c) = Spsc.deq c ++ map Some inside.
Proof.
  intros H Hr. destruct (Spsc.spsc_inv_reachable sq c H Hr) as (l&Hl&_&_&Hh). by exists l.
Qed.

Definition spsc_demo_queue : StreamQ.stream_queue := CircQ.mk_queue 1 0 0 [None; None].

(** A run in which the consumer reads an empty queue while the producer is in
    the middle of a call, and obtains the element afterwards. *)
Definition spsc_demo_end : Spsc.config Z :=
  Spsc.mk_config (CircQ.mk_queue 1 1 1 [Some 7; None]) Spsc.P_idle Spsc.C_idle [7] [Some 7].

Lemma spsc_no_loss_no_duplication_witness :
  ∃ inside, CircQ.holds (Spsc.q spsc_demo_end) inside ∧
    map Some (Spsc.enq spsc_demo_end) = Spsc.deq spsc_demo_end ++ map Some inside.
Proof.
  apply (spsc_no_loss_no_duplication spsc_demo_queue);
    [by split; simpl; try lia; try done|].
  eapply rtc_l; [eapply Spsc.s_c_head; reflexivity|].
  eapply rtc_l; [eapply Spsc.s_c_tail; reflexivity|].
  eapply rtc_l; [eapply (Spsc.s_p_head _ 7); reflexivity|].
  eapply rtc_l; [eapply Spsc.s_c_empty; reflexivity|].
  eapply rtc_l; [eapply Spsc.s_p_tail; reflexivity|].
  eapply rtc_l; [eapply Spsc.s_p_room; [reflexivity|done]|].
  eapply rtc_l; [eapply Spsc.s_p_store; reflexivity|].
  eapply rtc_l; [eapply Spsc.s_p_publish; reflexivity|].
  eapply rtc_l; [eapply Spsc.s_c_head; reflexivity|].
  eapply rtc_l; [eapply Spsc.s_c_tail; reflexivity|].
  eapply rtc_l; [eapply Spsc.s_c_some; [reflexivity|done]|].
  eapply rtc_l; [eapply Spsc.s_c_load; reflexivity|].
  eapply rtc_l; [eapply Spsc.s_c_advance; reflexivity|].
  reflexivity.
Defined.

(** The internal queue of [size] slots answers every sequence of calls of
    the mTCP thread like a FIFO list bounded by [size]. *)
Theorem internal_queue_is_bounded_fifo size :
  0 < size < 2147483648 →
  ∃ sq, StreamQInt.CreateInternalStreamQueue size true true = Some sq ∧
    ∀ calls, run_calls StreamQInt.StreamInternalEnqueue StreamQInt.StreamInternalDequeue sq calls
             = run_calls (Fifo.push size) Fifo.pop [] calls.
Proof.
  intros Hs. eexists. split; [reflexivity|]. intros calls.
  apply (run_calls_refines _ _ (λ sq l, StreamQInt.holds sq l ∧ StreamQInt.size sq = size)).
  - intros s l x [H <-]. destruct (StreamQInt.sqi_Enqueue_refines s l x H) as (?&?&?). done.
  - intros s l [H <-]. destruct (StreamQInt.sqi_Dequeue_refines s l H) as (?&?&?). done.
  - split; [|done]. split; simpl; rewrite ?length_replicate; try lia; try done.
    unfold CircQ.pos. case_bool; lia.
Qed.

Lemma internal_queue_is_bounded_fifo_witness :
  ∃ sq, StreamQInt.CreateInternalStreamQueue 4 true true = Some sq ∧
    ∀ calls, run_calls StreamQInt.StreamInternalEnqueue StreamQInt.StreamInternalDequeue sq calls
             = run_calls (Fifo.push 4) Fifo.pop [] calls.
Proof. apply (internal_queue_is_bounded_fifo 4). lia. Defined.
