(* ===== verification/MemPool.v ===== *)
(** * Fixed-size chunk pools

    [memory_mgt.c] hands out the chunks of one big allocation.  [ChunkPool] is
    the interface its clients (ring buffers, send buffers, sockets, streams)
    use; [MemPool] models the pool of [memory_mgt.c] itself (the branch without
    [rte_mempool]) and discharges the interface.

    [MemPool] keeps the headers that the code writes inside the free chunks in
    a map from addresses to headers, so a chunk header that is missing or was
    overwritten shows up as [None]. *)
From S2P Require Import Prelude.

(** ** What a client may rely on

    [pool_free p l]: [l] is the list of the chunks that are free in [p].  The
    order in which chunks are handed out is the pool's business. *)
Class ChunkPool (P : Type) := {
  pool_alloc : P → option Z * P;
  pool_release : P → Z → P;
  pool_free : P → list Z → Prop;
  pool_alloc_some p l : pool_free p l → l ≠ [] →
    ∃ x l' p', pool_alloc p = (Some x, p') ∧ x ≠ 0 ∧ l ≡ₚ x :: l' ∧ pool_free p' l';
  pool_alloc_none p : pool_free p [] → pool_alloc p = (None, p);
  pool_release_free p l x : pool_free p l → x ≠ 0 → x ∉ l →
    Z.of_nat (length l) < 2147483646 → pool_free (pool_release p x) (x :: l);
  pool_free_NoDup p l : pool_free p l → NoDup l;
}.

Module MemPool.
Record mem_chunk := mk_chunk { mc_free_chunks : Z; mc_next : Z }.
#[export] Instance eta_chunk : Eta mem_chunk :=
  λ r, mk_chunk (mc_free_chunks r) (mc_next r).

Record mem_pool := mk_pool {
  mp_startptr : Z;
  mp_freeptr : Z;
  mp_free_chunks : Z;
  mp_total_chunks : Z;
  mp_chunk_size : Z;
  mp_type : Z;
  headers : gmap Z mem_chunk      (* the headers stored in the chunks *)
}.
#[export] Instance eta_pool : Eta mem_pool :=
  λ r, mk_pool (mp_startptr r) (mp_freeptr r) (mp_free_chunks r)
         (mp_total_chunks r) (mp_chunk_size r) (mp_type r) (headers r).

Definition sizeof_mem_chunk : Z := 16.

(** [start] is what [posix_memalign] stores, [None] when it fails. *)
Definition MPCreate (start : option Z) (chunk_size total_size : Z) : option mem_pool :=
  if u64 chunk_size <? sizeof_mem_chunk then None
  else if negb (Z.rem chunk_size 4 =? 0) then None
  else
    let n := s32 (u64 (total_size + u64 (chunk_size - 1)) / u64 chunk_size) in
    match start with
    | None => None
    | Some s => Some (mk_pool s s n n chunk_size 0 {[ s := mk_chunk n 0 ]})
    end.

(** Writing a header through a null pointer, or reading one that is not
    there, is a crash of the C program: the outer [None]. *)
Definition MPAllocateChunk (mp : mem_pool) : option (option Z * mem_pool) :=
  let p := mp_freeptr mp in
  if mp_free_chunks mp =? 0 then Some (None, mp)
  else
    h ← headers mp !! p;
    let h := h <| mc_free_chunks := s32 (mc_free_chunks h - 1) |> in
    let mp := mp <| headers := <[p := h]> (headers mp) |> in
    let mp := mp <| mp_free_chunks := s32 (mp_free_chunks mp - 1) |> in
    if negb (mc_free_chunks h =? 0) then
      let q := p + mp_chunk_size mp in
      let mp := mp <| mp_freeptr := q |> in
      Some (Some p, mp <| headers := <[q := mk_chunk (mc_free_chunks h) (mc_next h)]> (headers mp) |>)
    else Some (Some p, mp <| mp_freeptr := mc_next h |>).

Definition MPFreeChunk (mp : mem_pool) (p : Z) : mem_pool :=
  let mp := mp <| headers := <[p := mk_chunk 1 (mp_freeptr mp)]> (headers mp) |> in
  let mp := mp <| mp_freeptr := p |> in
  mp <| mp_free_chunks := s32 (mp_free_chunks mp + 1) |>.

Definition MPGetFreeChunks (mp : mem_pool) : Z := mp_free_chunks mp.

(** ** Representation

    The free list links runs of adjacent free chunks.  [run a n sz] are the
    addresses of one run, and [chain] follows the headers. *)
Definition run (sz a : Z) (n : nat) : list Z := (λ i : nat, a + Z.of_nat i * sz) <$> seq 0 n.

Inductive chain (sz : Z) (hs : gmap Z mem_chunk) : Z → list Z → Prop :=
| chain_nil : chain sz hs 0 []
| chain_run a n nxt l :
    hs !! a = Some (mk_chunk (Z.of_nat (S n)) nxt) →
    chain sz hs nxt l → chain sz hs a (run sz a (S n) ++ l).

Record pool_stack (mp : mem_pool) (l : list Z) : Prop := mk_stack {
  stack_size : 0 < mp_chunk_size mp;
  stack_count : mp_free_chunks mp = Z.of_nat (length l);
  stack_bound : Z.of_nat (length l) < 2147483647;
  stack_nodup : NoDup l;
  stack_nonnull : 0 ∉ l;
  stack_chain : l ≠ [] → chain (mp_chunk_size mp) (headers mp) (mp_freeptr mp) l;
  stack_end : l = [] → mp_freeptr mp = 0
}.

Lemma run_0 sz a : run sz a 0 = [].
Proof. done. Qed.
Lemma run_S sz a n : run sz a (S n) = a :: run sz (a + sz) n.
Proof.
  unfold run. simpl. f_equal; [lia|]. rewrite <- fmap_S_seq, <- list_fmap_compose.
  apply list_fmap_ext. intros i x _. unfold compose. lia.
Qed.

Lemma run_length sz a n : length (run sz a n) = n.
Proof. unfold run. by rewrite length_fmap, length_seq. Qed.

Lemma run_NoDup sz a n : 0 < sz → NoDup (run sz a n).
Proof.
  intros. apply NoDup_fmap_2; [|apply NoDup_seq].
  intros i j E. nia.
Qed.

Lemma run_head sz a n : a ∈ run sz a (S n).
Proof. rewrite run_S. left. Qed.

#[local] Opaque run.

Lemma chain_head_in sz hs a l : chain sz hs a l → l ≠ [] → a ∈ l.
Proof. intros []; [done|]. intros _. apply elem_of_app. left. apply run_head. Qed.

Lemma chain_inv sz hs a x l :
  chain sz hs a (x :: l) →
  ∃ n nxt l0, a = x ∧ hs !! x = Some (mk_chunk (Z.of_nat (S n)) nxt)
    ∧ l = run sz (x + sz) n ++ l0 ∧ chain sz hs nxt l0.
Proof.
  remember (x :: l) as xl eqn:E. intros H. destruct H as [|a' n nxt l0 Hh Hc]; [done|].
  rewrite run_S in E. injection E as -> <-. exists n, nxt, l0. split_and!; [reflexivity|exact Hh|reflexivity|exact Hc].
Qed.

(** Headers outside the chain do not matter. *)
Lemma chain_frame sz hs a l x h :
  chain sz hs a l → x ∉ l → chain sz (<[x := h]> hs) a l.
Proof.
  intros H. induction H as [|a n nxt l Hh Hc IH]; intros Hx; [constructor|].
  apply not_elem_of_app in Hx as [Hx1 Hx2]. apply chain_run with nxt; [|by apply IH].
  rewrite lookup_insert_ne; [done|]. intros ->. apply Hx1, run_head.
Qed.

Lemma pool_stack_empty mp : pool_stack mp [] → mp_free_chunks mp = 0.
Proof. by intros [_ -> _ _ _ _ _]. Qed.

Lemma alloc_none mp : pool_stack mp [] → MPAllocateChunk mp = Some (None, mp).
Proof. intros H. unfold MPAllocateChunk. by rewrite (pool_stack_empty _ H). Qed.

Lemma alloc_some mp x l :
  pool_stack mp (x :: l) →
  ∃ mp', MPAllocateChunk mp = Some (Some x, mp') ∧ pool_stack mp' l
         ∧ mp_chunk_size mp' = mp_chunk_size mp
         ∧ mp_total_chunks mp' = mp_total_chunks mp.
Proof.
  intros [Hsz Hc Hb Hn H0 Hch _]. specialize (Hch ltac:(done)).
  unfold MPAllocateChunk. rewrite Hc.
  destruct (Z.eqb_spec (Z.of_nat (length (x :: l))) 0) as [E|_]; [simpl in E; lia|].
  apply chain_inv in Hch as (n&nxt&l0&Hfx&Hh&->&Hl).
  apply NoDup_cons in Hn as [Hxl Hn]. rewrite Hfx, Hh. simpl.
  assert (Z.of_nat (S n) <= Z.of_nat (length (x :: run (mp_chunk_size mp) (x + mp_chunk_size mp) n ++ l0)))
    as Hbn by (simpl; rewrite length_app, run_length; lia).
  rewrite !s32_id by (simpl in *; lia). replace (Z.of_nat (S n) - 1) with (Z.of_nat n) by lia.
  destruct n as [|n]; (eexists; split; [reflexivity|]); (split; [|done]);
    rec_simpl; simpl in *.
  - rewrite run_0 in *. simpl in *.
    split; rec_simpl; try done; rewrite ?s32_id by lia; try lia; [set_solver| |].
    + intros _. by apply chain_frame.
    + intros ->. by inversion Hl.
  - rewrite run_S in *. simpl in *.
    apply NoDup_cons in Hn as [Hn1 Hn2].
    split; rec_simpl; try done; rewrite ?s32_id by lia; simpl; try lia; [by apply NoDup_cons|set_solver|].
    intros _. rewrite app_comm_cons, <- run_S. apply chain_run with nxt.
    + rewrite lookup_insert_eq. do 2 f_equal.
    + apply chain_frame; [apply chain_frame; [done|set_solver]|set_solver].
Qed.

Lemma free_stack mp l x :
  pool_stack mp l → x ≠ 0 → x ∉ l → Z.of_nat (length l) < 2147483646 →
  pool_stack (MPFreeChunk mp x) (x :: l).
Proof.
  intros [Hsz Hc Hb Hn H0 Hch He] Hx Hxl Hlt. unfold MPFreeChunk.
  split; rec_simpl; try done.
  - rewrite Hc, s32_id by lia. simpl. lia.
  - simpl. lia.
  - by apply NoDup_cons.
  - set_solver.
  - intros _. replace (x :: l) with (run (mp_chunk_size mp) x 1 ++ l)
      by (by rewrite run_S, run_0).
    apply (chain_run _ _ x 0 (mp_freeptr mp)); [by rewrite lookup_insert_eq|].
    destruct l as [|y l]; [rewrite He by done; constructor|].
    apply chain_frame; [by apply Hch|done].
Qed.

(** A fresh pool holds all its chunks, first chunk first. *)
Lemma create_stack s sz total :
  s ≠ 0 → 16 <= sz < 2147483648 → sz mod 4 = 0 →
  0 < total → (total + (sz - 1)) / sz < 2147483647 → 0 ∉ run sz s (Z.to_nat ((total + (sz - 1)) / sz)) →
  ∃ mp, MPCreate (Some s) sz total = Some mp ∧ mp_chunk_size mp = sz
    ∧ mp_total_chunks mp = (total + (sz - 1)) / sz
    ∧ pool_stack mp (run sz s (Z.to_nat ((total + (sz - 1)) / sz))).
Proof.
  intros Hs Hsz H4 Ht Hn H0. unfold MPCreate, sizeof_mem_chunk.
  assert (0 < (total + (sz - 1)) / sz) as Hpos by (apply Z.div_str_pos; lia).
  assert (total + (sz - 1) < 18446744073709551616) as Hbig.
  { pose proof (Z.mul_succ_div_gt (total + (sz - 1)) sz). nia. }
  rewrite (u64_id sz), (u64_id (sz - 1)), (u64_id (_ + _)), Z.rem_mod_nonneg, H4, s32_id by lia.
  simpl. case_bool; [lia|]. eexists. split; [reflexivity|]. do 2 (split; [done|]).
  assert (length (run sz s (Z.to_nat ((total + (sz - 1)) / sz)))
          = Z.to_nat ((total + (sz - 1)) / sz)) as Hl
    by (apply run_length).
  split; simpl; rewrite ?Hl; try lia; try done.
  - apply run_NoDup. lia.
  - intros _. destruct (Z.to_nat ((total + (sz - 1)) / sz)) as [|k] eqn:Ek; [lia|].
    rewrite <- (app_nil_r (run _ _ _)). apply chain_run with 0; [|constructor].
    rewrite lookup_singleton_eq. do 2 f_equal. lia.
  - intros E. rewrite E in Hl. simpl in Hl. lia.
Qed.
End MemPool.
#[export] Existing Instance MemPool.eta_pool.
#[export] Existing Instance MemPool.eta_chunk.

(** ** The interface discharged *)
#[export] Program Instance MemPool_ChunkPool : ChunkPool MemPool.mem_pool := {
  pool_alloc mp := default (None, mp) (MemPool.MPAllocateChunk mp);
  pool_release := MemPool.MPFreeChunk;
  pool_free := MemPool.pool_stack
}.
Next Obligation.
  intros p [|x l] H Hl; [done|].
  destruct (MemPool.alloc_some p x l H) as (p'&E&H'&_). exists x, l, p'.
  rewrite E. simpl. split_and!; [done| |done|done].
  intros ->. apply (MemPool.stack_nonnull _ _ H). left.
Qed.
Next Obligation. intros p H. cbv beta. by rewrite MemPool.alloc_none. Qed.
Next Obligation. intros. by apply MemPool.free_stack. Qed.
Next Obligation. intros p l H. apply H. Qed.

(** ** Client runs

    A client allocates, and gives back chunks it holds ([held] is what it
    holds, [free] what the pool may still hand out). *)
Module PoolClient.
Inductive step : MemPool.mem_pool * list Z → MemPool.mem_pool * list Z → Prop :=
| get mp mp' held x : MemPool.MPAllocateChunk mp = Some (Some x, mp') →
    step (mp, held) (mp', x :: held)
| put mp held x : x ∈ held → NoDup held →
    step (mp, held) (MemPool.MPFreeChunk mp x, TAILQ_REMOVE held x).

Definition inv (all : list Z) (c : MemPool.mem_pool * list Z) : Prop :=
  ∃ free, MemPool.pool_stack c.1 free ∧ free ++ c.2 ≡ₚ all.

Lemma remove_Permutation (l : list Z) x :
  NoDup l → x ∈ l → x :: TAILQ_REMOVE l x ≡ₚ l.
Proof.
  intros Hn Hx. apply NoDup_Permutation; [|done|].
  - apply NoDup_cons. rewrite elem_of_TAILQ_REMOVE. split; [naive_solver|].
    by apply NoDup_TAILQ_REMOVE.
  - intros y. rewrite elem_of_cons, elem_of_TAILQ_REMOVE.
    destruct (decide (y = x)) as [->|]; naive_solver.
Qed.

Lemma client_inv_step all c c' :
  NoDup all → 0 ∉ all → Z.of_nat (length all) < 2147483647 →
  inv all c → step c c' → inv all c'.
Proof.
  intros Hn H0 Hlen (free&Hs&Hp) Hstep.
  destruct Hstep as [mp mp' held x E|mp held x Hx Hnd]; simpl in *.
  - destruct free as [|y free]; [by rewrite MemPool.alloc_none in E|].
    destruct (MemPool.alloc_some _ _ _ Hs) as (mp1&E1&Hs1&_). simplify_eq.
    exists free. split; [done|]. simpl. rewrite <- Hp. simpl. by rewrite Permutation_middle.
  - pose proof (remove_Permutation held x Hnd Hx) as Hr.
    assert (NoDup (free ++ held)) as Hfh by (by rewrite Hp).
    assert (Z.of_nat (length (free ++ held)) = Z.of_nat (length all)) as Hle by (by rewrite Hp).
    apply NoDup_app in Hfh as (_&Hd&_).
    exists (x :: free). split; simpl.
    + apply MemPool.free_stack; [done| |set_solver|].
      * intros ->. apply H0. rewrite <- Hp. set_solver.
      * rewrite length_app in Hle. destruct held; [set_solver|]. simpl in Hle. lia.
    + rewrite <- Hp, Permutation_middle. by apply Permutation_app_head.
Qed.

Lemma client_inv_reachable all c c' :
  NoDup all → 0 ∉ all → Z.of_nat (length all) < 2147483647 →
  inv all c → rtc step c c' → inv all c'.
Proof. intros ??? Hi Hr. induction Hr; eauto using client_inv_step. Qed.
End PoolClient.

(** C23: whatever a client that only frees chunks it holds does, the chunks it
    holds and the free chunks are together exactly the chunks of the pool, each
    once: no chunk is handed out twice or lost, allocation succeeds exactly
    while some chunk is not held, never crashes, and [MPGetFreeChunks] is the
    number of the others. *)
Theorem pool_conserves_chunks s sz total :
  s ≠ 0 → 16 <= sz < 2147483648 → sz mod 4 = 0 →
  0 < total → (total + (sz - 1)) / sz < 2147483647 →
  0 ∉ MemPool.run sz s (Z.to_nat ((total + (sz - 1)) / sz)) →
  ∃ mp, MemPool.MPCreate (Some s) sz total = Some mp ∧
    ∀ mp' held, rtc PoolClient.step (mp, []) (mp', held) →
      ∃ free, free ++ held ≡ₚ MemPool.run sz s (Z.to_nat ((total + (sz - 1)) / sz)) ∧
        MemPool.MPGetFreeChunks mp' = Z.of_nat (length free) ∧
        ∃ mp'', MemPool.MPAllocateChunk mp' = Some (head free, mp'').
Proof.
  intros Hs Hsz H4 Ht Hn H0.
  destruct (MemPool.create_stack s sz total) as (mp&E&_&_&Hst); try done.
  exists mp. split; [done|]. intros mp' held Hr.
  destruct (PoolClient.client_inv_reachable (MemPool.run sz s (Z.to_nat ((total + (sz - 1)) / sz)))
    (mp, []) (mp', held)) as (free&Hf&Hp); try done.
  - apply MemPool.run_NoDup. lia.
  - rewrite MemPool.run_length.
    pose proof (Z.div_pos (total + (sz - 1)) sz). lia.
  - eexists. split; [done|]. simpl. by rewrite app_nil_r.
  - exists free. split; [done|]. split; [apply Hf|].
    destruct free as [|x free]; [eexists; by apply MemPool.alloc_none|].
    destruct (MemPool.alloc_some _ _ _ Hf) as (mp''&E'&_). by exists mp''.
Qed.

Lemma pool_conserves_chunks_witness :
  ∃ mp, MemPool.MPCreate (Some 4096) 16 48 = Some mp ∧
    ∀ mp' held, rtc PoolClient.step (mp, []) (mp', held) →
      ∃ free, free ++ held ≡ₚ MemPool.run 16 4096 (Z.to_nat ((48 + (16 - 1)) / 16)) ∧
        MemPool.MPGetFreeChunks mp' = Z.of_nat (length free) ∧
        ∃ mp'', MemPool.MPAllocateChunk mp' = Some (head free, mp'').
Proof.
  apply (pool_conserves_chunks 4096 16 48); try lia; try reflexivity.
  apply (bool_decide_unpack _). vm_compute. exact I.
Defined.
