(* ===== verification/RingBuffer.v ===== *)
(** * The receive buffer

    [tcp_ring_buffer.c]: a flat buffer that holds the bytes received from
    [head_seq] on, and a sorted list of fragments saying which of them have
    arrived.  [RBPut] stores a segment and merges its fragment into the list;
    [RBRemove] drops bytes the application has read.

    - the fragment list is the list of the linked [fragment_ctx], each with its
      address (the [next] pointer is the position in the list);
    - [None] as the result of an operation is a crash of the C program (an
      access outside the allocation, a null dereference) or [exit];
    - the address [calloc] would return for a fragment is the argument [heap].

    Specification: the buffer is a partial map from offsets (from [head_seq])
    to bytes, [rb_byte]; [RBPut] overwrites a range, [RBRemove] shifts. *)
From S2P Require Import Prelude SeqNum CircQueue MemPool.

Module RB.

Inductive rb_caller := AT_APP | AT_MTCP.

Record fragment_ctx := mk_frag {
  faddr : Z;
  seq : Z;
  len : Z;               (* 31 bits *)
  is_calloc : Z          (* 1 bit *)
}.
#[export] Instance eta_fragment_ctx : Eta fragment_ctx :=
  λ r, mk_frag (faddr r) (seq r) (len r) (is_calloc r).

Record tcp_ring_buffer := mk_rb {
  data : Z;              (* address of the chunk *)
  mem : list Z;          (* its bytes *)
  rhead : Z;             (* the pointer [head] *)
  head_offset : Z;
  tail_offset : Z;
  merged_len : Z;
  cum_len : Z;
  last_len : Z;
  rsize : Z;             (* [size] *)
  head_seq : Z;
  init_seq : Z;
  fctx : list fragment_ctx
}.
#[export] Instance eta_ring_buffer : Eta tcp_ring_buffer :=
  λ r, mk_rb (data r) (mem r) (rhead r) (head_offset r) (tail_offset r) (merged_len r)
         (cum_len r) (last_len r) (rsize r) (head_seq r) (init_seq r) (fctx r).

Record rb_manager {P : Type} := mk_rbm {
  chunk_size : Z;
  cur_num : Z;
  cnum : Z;
  mp : P;
  frag_mp : P;
  free_fragq : RBFragQ.rb_frag_queue;
  free_fragq_int : RBFragQ.rb_frag_queue
}.
Arguments rb_manager P : clear implicits.
#[export] Instance eta_rb_manager {P} : Eta (rb_manager P) :=
  λ r, mk_rbm P (chunk_size r) (cur_num r) (cnum r) (mp r) (frag_mp r)
         (free_fragq r) (free_fragq_int r).

Definition len31 (z : Z) : Z := z mod 2147483648.

Definition CanMerge (a b : fragment_ctx) : bool :=
  let a_end := u32 (seq a + len a + 1) in
  let b_end := u32 (seq b + len b + 1) in
  if (GetMinSeq a_end (seq b) =? a_end) || (GetMinSeq b_end (seq a) =? b_end)
  then false else true.

(** [MergeFragments a b] is the new value of [b]. *)
Definition MergeFragments (a b : fragment_ctx) : fragment_ctx :=
  let min_seq := GetMinSeq (seq a) (seq b) in
  let max_seq := GetMaxSeq (seq a ⊞ len a) (seq b ⊞ len b) in
  b <| seq := min_seq |> <| len := len31 (max_seq ⊟ min_seq) |>.

Section Operations.
Context {P : Type} `{ChunkPool P}.
Implicit Types rbm : rb_manager P.

Definition sizeof_fragment_ctx : Z := 16.

(** [create] is [MPCreate]; the flags say which allocations succeed. *)
Definition RBManagerCreate (create : Z → Z → option P) (rbm_ok fragq_ok fragq_int_ok : bool)
    (chunk_sz num : Z) : option (rb_manager P) :=
  if negb rbm_ok then None else
  match create chunk_sz (u64 (chunk_sz * num)) with
  | None => None
  | Some m =>
    match create sizeof_fragment_ctx (u64 (sizeof_fragment_ctx * num)) with
    | None => None
    | Some fm =>
      match RBFragQ.CreateRBFragQueue num fragq_ok fragq_ok with
      | None => None
      | Some q =>
        match RBFragQ.CreateRBFragQueue num fragq_int_ok fragq_int_ok with
        | None => None
        | Some qi => Some (mk_rbm P chunk_sz 0 num m fm q qi)
        end
      end
    end
  end.

Definition RBGetCurnum rbm : Z := cur_num rbm.

Definition FreeFragmentContextSingle rbm (frag : fragment_ctx) : rb_manager P :=
  if negb (is_calloc frag =? 0) then rbm      (* free(frag) *)
  else rbm <| frag_mp := pool_release (frag_mp rbm) (faddr frag) |>.

Fixpoint FreeFragmentContext rbm (fctx : list fragment_ctx) : rb_manager P :=
  match fctx with
  | [] => rbm
  | remove :: fctx => FreeFragmentContext (FreeFragmentContextSingle rbm remove) fctx
  end.

(** A fragment taken from a queue or from the pool has stale contents; they
    are overwritten by the [memset]. *)
Definition memset_frag (f : fragment_ctx) : fragment_ctx :=
  f <| seq := 0 |> <| len := 0 |> <| is_calloc := 0 |>.

Definition AllocateFragmentContext rbm (heap : option Z) : option (fragment_ctx * rb_manager P) :=
  let '(frag, q) := RBFragQ.RBFragDequeue (free_fragq rbm) in
  let rbm := rbm <| free_fragq := q |> in
  match frag with
  | Some a => Some (memset_frag (mk_frag a 0 0 0), rbm)
  | None =>
    let '(frag, q) := RBFragQ.RBFragDequeue (free_fragq_int rbm) in
    let rbm := rbm <| free_fragq_int := q |> in
    match frag with
    | Some a => Some (memset_frag (mk_frag a 0 0 0), rbm)
    | None =>
      let '(frag, m) := pool_alloc (frag_mp rbm) in
      let rbm := rbm <| frag_mp := m |> in
      match frag with
      | Some a => Some (memset_frag (mk_frag a 0 0 0), rbm)
      | None =>
        match heap with
        | None => None                          (* exit(-1) *)
        | Some a =>
          let f := (mk_frag a 0 0 0) <| is_calloc := 1 |> in
          Some (memset_frag f, rbm)
        end
      end
    end
  end.

(** [buff_ok]: the [calloc] of the descriptor succeeds; [contents] are the
    bytes found in the chunk. *)
Definition RBInit rbm (buff_ok : bool) (contents : list Z) (init : Z)
  : option tcp_ring_buffer * rb_manager P :=
  if negb buff_ok then (None, rbm)
  else
    let '(d, m) := pool_alloc (mp rbm) in
    let rbm := rbm <| mp := m |> in
    match d with
    | None => (None, rbm)
    | Some d =>
      (Some (mk_rb d contents d 0 0 0 0 0 (s32 (chunk_size rbm)) init init []),
       rbm <| cur_num := cur_num rbm ⊞ 1 |>)
    end.

Definition RBFree rbm (buff : tcp_ring_buffer) : rb_manager P :=
  let rbm := match fctx buff with [] => rbm | _ => FreeFragmentContext rbm (fctx buff) end in
  let rbm := if negb (data buff =? 0)
             then rbm <| mp := pool_release (mp rbm) (data buff) |> else rbm in
  rbm <| cur_num := cur_num rbm ⊟ 1 |>.

(** The loop of [RBPut] over the fragment list.  [before] are the fragments
    already passed, the last one ([prev]) first; [iter] is the rest of the
    list; [cur_end] is [cur_seq + len]. *)
Fixpoint traverse (cur_end : Z) rbm (before : list fragment_ctx) (new_ctx : fragment_ctx)
    (iter : list fragment_ctx) (merged : bool)
  : rb_manager P * list fragment_ctx * fragment_ctx * list fragment_ctx * bool :=
  match iter with
  | [] => (rbm, before, new_ctx, [], merged)
  | it :: next =>
    if CanMerge new_ctx it then
      let it := MergeFragments new_ctx it in
      let before :=
        match before with
        | prev :: pprev => if faddr prev =? faddr new_ctx then pprev else before
        | [] => []
        end in
      let rbm := FreeFragmentContextSingle rbm new_ctx in
      traverse cur_end rbm (it :: before) it next true
    else if merged || (GetMaxSeq cur_end (seq it) =? seq it) then
      (rbm, before, new_ctx, it :: next, merged)
    else traverse cur_end rbm (it :: before) new_ctx next merged
  end.

(** The steps of [RBPut]: moving the data to the start of the chunk ... *)
Definition rb_compact (buff : tcp_ring_buffer) (end_off : Z) : option tcp_ring_buffer :=
  if u32 (rsize buff) <=? head_offset buff ⊞ end_off then
    bs ← mem_read (mem buff) (rhead buff - data buff) (last_len buff);
    m ← mem_write (mem buff) 0 bs;
    let buff := buff <| mem := m |> in
    let buff := buff <| tail_offset := tail_offset buff ⊟ head_offset buff |> in
    let buff := buff <| head_offset := 0 |> in
    Some (buff <| rhead := data buff |>)
  else Some buff.

(** ... copying the payload ... *)
Definition rb_copy (buff : tcp_ring_buffer) (payload : list Z) (ln putx end_off : Z)
  : option tcp_ring_buffer :=
  bs ← mem_read payload 0 ln;
  m ← mem_write (mem buff) (rhead buff - data buff + putx) bs;
  let buff := buff <| mem := m |> in
  let buff := if tail_offset buff <? head_offset buff ⊞ end_off
              then buff <| tail_offset := head_offset buff ⊞ end_off |> else buff in
  Some (buff <| last_len := s32 (tail_offset buff - head_offset buff) |>).

(** ... linking the fragment after the traversal ... *)
Definition rb_link (fs before : list fragment_ctx) (new_ctx : fragment_ctx)
    (iter : list fragment_ctx) (merged : bool) (cur_seq : Z) : option (list fragment_ctx) :=
  if merged then Some (rev_append before iter)
  else match fs with
       | [] => Some [new_ctx]
       | f :: _ =>
         if GetMinSeq cur_seq (seq f) =? cur_seq then Some (new_ctx :: fs)
         else match before with
              | [] => None                (* prev is NULL *)
              | _ => Some (rev_append before (new_ctx :: iter))
              end
       end.

(** ... and accounting for the bytes that became contiguous. *)
Definition rb_account (buff : tcp_ring_buffer) : option tcp_ring_buffer :=
  f ← head (fctx buff);
  Some (if head_seq buff =? seq f then
          let buff := buff <| cum_len := u64 (cum_len buff + s32 (len f - merged_len buff)) |> in
          buff <| merged_len := len f |>
        else buff).

Definition RBPut rbm (heap : option Z) (buff : tcp_ring_buffer) (payload : list Z)
    (ln cur_seq : Z) : option (Z * rb_manager P * tcp_ring_buffer) :=
  if ln <=? 0 then Some (0, rbm, buff)
  else if negb (GetMinSeq (head_seq buff) cur_seq =? head_seq buff) then Some (0, rbm, buff)
  else
    let putx := s32 (cur_seq ⊟ head_seq buff) in
    let end_off := s32 (putx + ln) in
    if rsize buff <? end_off then Some (-2, rbm, buff)
    else
      buff ← rb_compact buff end_off;
      buff ← rb_copy buff payload ln putx end_off;
      '(new_ctx, rbm) ← AllocateFragmentContext rbm heap;
      let new_ctx := new_ctx <| seq := cur_seq |> <| len := len31 ln |> in
      let '(rbm, before, new_ctx, iter, merged) :=
        traverse (cur_seq ⊞ ln) rbm [] new_ctx (fctx buff) false in
      fs ← rb_link (fctx buff) before new_ctx iter merged cur_seq;
      buff ← rb_account (buff <| fctx := fs |>);
      Some (s32 ln, rbm, buff).

Definition RBRemove rbm (buff : tcp_ring_buffer) (ln : Z) (option : rb_caller)
  : Datatypes.option (Z * rb_manager P * tcp_ring_buffer) :=
  let ln := if u64 (merged_len buff) <? ln then u64 (merged_len buff) else ln in
  if ln =? 0 then Some (0, rbm, buff)
  else
    let buff := buff <| head_offset := u32 (head_offset buff + ln) |> in
    let buff := buff <| rhead := data buff + head_offset buff |> in
    let buff := buff <| head_seq := u32 (head_seq buff + ln) |> in
    let buff := buff <| merged_len := s32 (merged_len buff - ln) |> in
    let buff := buff <| last_len := s32 (last_len buff - ln) |> in
    match fctx buff with
    | [] => None
    | f :: fs =>
      if ln =? len f then
        let buff := buff <| fctx := fs |> in
        let rbm :=
          match option with
          | AT_APP => rbm <| free_fragq := (RBFragQ.RBFragEnqueue (free_fragq rbm) (faddr f)).2 |>
          | AT_MTCP => rbm <| free_fragq_int := (RBFragQ.RBFragEnqueue (free_fragq_int rbm) (faddr f)).2 |>
          end in
        Some (ln, rbm, buff)
      else if ln <? len f then
        let f := f <| seq := u32 (seq f + ln) |> <| len := len31 (len f - ln) |> in
        Some (ln, rbm, buff <| fctx := f :: fs |>)
      else Some (ln, rbm, buff)
    end.
End Operations.

(** ** Fragments as ranges of offsets *)

Definition off (h : Z) (f : fragment_ctx) : Z := u32 (seq f - h).
Definition covers (h : Z) (f : fragment_ctx) (i : Z) : bool :=
  (off h f <=? i) && (i <? off h f + len f).
Fixpoint covered (h : Z) (fs : list fragment_ctx) (i : Z) : bool :=
  match fs with
  | [] => false
  | f :: fs => covers h f i || covered h fs i
  end.

(** A fragment with at least one byte inside the first [lim] bytes. *)
Definition frag_in (h lim : Z) (f : fragment_ctx) : Prop :=
  is_u32 (seq f) ∧ 0 < len f ∧ off h f + len f <= lim ∧ lim < 1073741824.

(** Sorted fragments, each starting strictly after the end of the previous one
    (adjacent fragments would have been merged); the first starts after [lo]. *)
Fixpoint frags_ok (h lim lo : Z) (fs : list fragment_ctx) : Prop :=
  match fs with
  | [] => True
  | f :: fs => lo < off h f ∧ frag_in h lim f ∧ frags_ok h lim (off h f + len f) fs
  end.

Section Ranges.
Context (h lim : Z).

Lemma off_range f : is_u32 (off h f).
Proof. apply u32_range. Qed.
Lemma seq_off f : is_u32 (seq f) → seq f = u32 (h + off h f).
Proof. intros. by apply seq_as_dist. Qed.

Lemma min_is a b :
  0 <= a < 2147483648 → 0 <= b < 2147483648 →
  (GetMinSeq (u32 (h + a)) (u32 (h + b)) =? u32 (h + a)) = (a <=? b).
Proof.
  intros. rewrite GetMinSeq_dist by lia.
  destruct (Z.min_spec a b) as [[? ->]|[? ->]]; destruct (Z.leb_spec a b); try lia;
    first [apply Z.eqb_eq; f_equal; lia | apply Z.eqb_neq; intros E%u32_base_inj; lia].
Qed.
Lemma max_is a b :
  0 <= a < 2147483648 → 0 <= b < 2147483648 →
  (GetMaxSeq (u32 (h + a)) (u32 (h + b)) =? u32 (h + b)) = (a <=? b).
Proof.
  intros. rewrite GetMaxSeq_dist by lia.
  destruct (Z.max_spec a b) as [[? ->]|[? ->]]; destruct (Z.leb_spec a b); try lia;
    first [apply Z.eqb_eq; f_equal; lia | apply Z.eqb_neq; intros E%u32_base_inj; lia].
Qed.

Lemma frag_end f k : is_u32 (seq f) → u32 (seq f + k) = u32 (h + (off h f + k)).
Proof. intros Hf. rewrite (seq_off f Hf) at 1. rewrite u32_add_l. f_equal. lia. Qed.

(** Fragments merge exactly when they overlap or touch. *)
Lemma CanMerge_spec a b :
  frag_in h lim a → frag_in h lim b →
  CanMerge a b = (off h b <=? off h a + len a) && (off h a <=? off h b + len b).
Proof.
  intros (Ha&?&?&?) (Hb&?&?&?). pose proof (off_range a). pose proof (off_range b).
  unfold CanMerge. rewrite <- !Z.add_assoc, !frag_end by done.
  rewrite (seq_off a Ha), (seq_off b Hb).
  rewrite !min_is by lia.
  destruct (Z.leb_spec (off h a + (len a + 1)) (off h b)),
    (Z.leb_spec (off h b + (len b + 1)) (off h a)),
    (Z.leb_spec (off h b) (off h a + len a)),
    (Z.leb_spec (off h a) (off h b + len b)); simpl; lia.
Qed.

Lemma off_base f a : 0 <= a < 4294967296 → seq f = u32 (h + a) → off h f = a.
Proof.
  intros Ha E. unfold off. rewrite E, u32_sub_l.
  replace (h + a - h) with a by lia. by apply u32_id.
Qed.

Lemma MergeFragments_spec a b :
  frag_in h lim a → frag_in h lim b →
  off h b <= off h a + len a → off h a <= off h b + len b →
  let m := MergeFragments a b in
  frag_in h lim m ∧ off h m = Z.min (off h a) (off h b)
  ∧ off h m + len m = Z.max (off h a + len a) (off h b + len b)
  ∧ faddr m = faddr b ∧ is_calloc m = is_calloc b.
Proof.
  intros (Ha&?&?&?) (Hb&?&?&?) ??. pose proof (off_range a). pose proof (off_range b).
  cbv zeta. unfold MergeFragments.
  rewrite !frag_end by done. rewrite (seq_off a Ha), (seq_off b Hb).
  rewrite GetMinSeq_dist, GetMaxSeq_dist, u32_base_sub by lia.
  rewrite u32_id by lia. unfold len31. rewrite Z.mod_small by lia.
  set (m := set_field len _ _).
  assert (seq m = u32 (h + Z.min (off h a) (off h b))) as Em by done.
  assert (off h m = Z.min (off h a) (off h b)) as Eo by (apply off_base; [lia|done]).
  unfold frag_in. rewrite Eo, Em.
  replace (len m) with (Z.max (off h a + len a) (off h b + len b) - Z.min (off h a) (off h b)) by done.
  pose proof (u32_range (h + Z.min (off h a) (off h b))).
  split_and!; try done; lia.
Qed.

Lemma covers_union a b m :
  off h b <= off h a + len a → off h a <= off h b + len b →
  off h m = Z.min (off h a) (off h b) →
  off h m + len m = Z.max (off h a + len a) (off h b + len b) →
  ∀ i, covers h m i = covers h a i || covers h b i.
Proof.
  intros ???? i. unfold covers.
  destruct (Z.leb_spec (off h m) i), (Z.ltb_spec i (off h m + len m)),
   (Z.leb_spec (off h a) i), (Z.ltb_spec i (off h a + len a)),
   (Z.leb_spec (off h b) i), (Z.ltb_spec i (off h b + len b)); simpl; try reflexivity; lia.
Qed.

Lemma frags_ok_weaken lo lo' fs : lo' <= lo → frags_ok h lim lo fs → frags_ok h lim lo' fs.
Proof. destruct fs; simpl; [done|]. intros ? (?&?&?). split_and!; [lia|done..]. Qed.

(** Nothing is covered outside the range the list spans. *)
Lemma frags_ok_bounds lo fs i :
  frags_ok h lim lo fs → covered h fs i = true → lo < i < lim.
Proof.
  revert lo. induction fs as [|f fs IH]; intros lo; simpl; [done|].
  intros (?&(?&?&?&?)&Hfs) [Hc|Hc]%orb_true_iff.
  - unfold covers in Hc. apply andb_true_iff in Hc as [?%Z.leb_le ?%Z.ltb_lt]. lia.
  - pose proof (IH _ Hfs Hc). lia.
Qed.

(** The list [before], last fragment first, followed by a list that starts
    after its end. *)
Fixpoint before_ok (hi : Z) (before : list fragment_ctx) : Prop :=
  match before with
  | [] => True
  | f :: bs => frag_in h lim f ∧ off h f + len f < hi ∧ before_ok (off h f) bs
  end.

Lemma before_ok_weaken hi hi' bs : hi <= hi' → before_ok hi bs → before_ok hi' bs.
Proof. destruct bs; simpl; [done|]. intros ? (?&?&?). split_and!; [done|lia|done]. Qed.

Lemma frags_ok_rev_append bs : ∀ lo fs,
  -1 <= lo →
  before_ok (lo + 1) bs → frags_ok h lim lo fs →
  (match bs with [] => lo = -1 | f :: _ => lo = off h f + len f end) →
  frags_ok h lim (-1) (rev_append bs fs).
Proof.
  induction bs as [|f bs IH]; intros lo fs Hlo Hb Hf E; simpl in *; [by subst|].
  destruct Hb as (Hin&Hlt&Hb). pose proof (off_range f).
  destruct bs as [|g bs].
  - apply (IH (-1)); [lia|done| |done]. simpl. split_and!; [lia|done|by subst].
  - simpl in Hb. destruct Hb as (?&?&?). pose proof (off_range g).
    assert (0 < len g) by (destruct H0 as (?&?&?); lia).
    apply (IH (off h g + len g)); [lia| | |done].
    + simpl. split_and!; [done|lia|done].
    + simpl. split_and!; [lia|done|by subst].
Qed.

Lemma covered_rev_append bs fs i :
  covered h (rev_append bs fs) i = covered h bs i || covered h fs i.
Proof.
  revert fs. induction bs as [|f bs IH]; intros fs; simpl; [done|].
  rewrite IH. simpl. by destruct (covers h f i), (covered h bs i).
Qed.
End Ranges.

(** ** The traversal *)
Section Traverse.
Context {P : Type} `{ChunkPool P} (h lim : Z).
Implicit Types (rbm : rb_manager P) (new : fragment_ctx).

(** Once the new fragment has been merged into the list (its last merge is
    the head of [before]), it swallows the following fragments it reaches. *)
Lemma traverse_merged cur_end rest : ∀ rbm b new lo,
  frag_in h lim new → off h new <= lo <= off h new + len new →
  frags_ok h lim lo rest →
  ∃ rbm' new' rest',
    traverse cur_end rbm (new :: b) new rest true = (rbm', new' :: b, new', rest', true)
    ∧ frag_in h lim new' ∧ off h new' = off h new
    ∧ frags_ok h lim (off h new' + len new') rest'
    ∧ (∀ i, covered h (new' :: rest') i = covered h (new :: rest) i).
Proof.
  induction rest as [|f rest IH]; intros rbm b new lo Hn Hlo Hr.
  { by exists rbm, new, []. }
  simpl in Hr. destruct Hr as (Hof&Hf&Hr). simpl.
  assert (0 < len f) by (destruct Hf as (?&?&?); lia).
  rewrite (CanMerge_spec h lim) by done.
  destruct (Z.leb_spec (off h f) (off h new + len new)); simpl.
  - destruct (Z.leb_spec (off h new) (off h f + len f)); [|lia]. rewrite Z.eqb_refl.
    destruct (MergeFragments_spec h lim new f) as (Hm&Eo&Ee&_&_); [done..|].
    set (m := MergeFragments new f) in *. clearbody m.
    destruct (IH (FreeFragmentContextSingle rbm new) b m (off h f + len f))
      as (rbm'&new'&rest'&E&Hn'&Eo'&Hr'&Hc); [done|lia|done|].
    exists rbm', new', rest'. split_and!; [done..|lia|done|]. intros i. simpl in Hc. rewrite Hc. simpl.
    rewrite (covers_union h new f m) by (done || lia). by rewrite orb_assoc.
  - exists rbm, new, (f :: rest). split_and!; [done..| |done].
    simpl. split_and!; [lia|done..].
Qed.

(** Before the first merge the traversal passes the fragments that end before
    the new one; it stops at the first fragment after it or merges. *)
Lemma traverse_unmerged rest : ∀ rbm before new lo,
  frag_in h lim new → lo < off h new → -1 <= lo →
  (∀ f, f ∈ before ++ rest → faddr f ≠ faddr new) →
  before_ok h lim (lo + 1) before →
  (match before with [] => lo = -1 | f :: _ => lo = off h f + len f end) →
  frags_ok h lim lo rest →
  ∃ rbm' before' new' rest' merged',
    traverse (seq new ⊞ len new) rbm before new rest false
      = (rbm', before', new', rest', merged')
    ∧ (if merged' then
         frags_ok h lim (-1) (rev_append before' rest')
         ∧ (∀ i, covered h (rev_append before' rest') i
                 = covers h new i || covered h (rev_append before rest) i)
         ∧ rev_append before' rest' ≠ []
       else
         new' = new ∧ rev_append before' rest' = rev_append before rest
         ∧ before_ok h lim (off h new) before'
         ∧ frags_ok h lim (off h new + len new) rest').
Proof.
  induction rest as [|f rest IH]; intros rbm before new lo Hn Hlo Hlo0 Hfresh Hb Hbl Hr.
  { exists rbm, before, new, [], false. split_and!; try done.
    by apply (before_ok_weaken h lim (lo + 1)); [lia|]. }
  simpl in Hr. destruct Hr as (Hof&Hf&Hr). simpl.
  pose proof Hn as (Hu&?&?&?). pose proof Hf as (Huf&?&?&?).
  pose proof (off_range h f). pose proof (off_range h new).
  rewrite (CanMerge_spec h lim) by done.
  destruct (Z.leb_spec (off h f) (off h new + len new)); simpl.
  - destruct (Z.leb_spec (off h new) (off h f + len f)).
    + (* first merge *)
      destruct (MergeFragments_spec h lim new f) as (Hm&Eo&Ee&_&_); [done..|].
      set (m := MergeFragments new f) in *. clearbody m.
      assert (match before with [] => [] | prev :: pprev =>
                if faddr prev =? faddr new then pprev else before end = before) as ->.
      { destruct before as [|g before]; [done|].
        destruct (Z.eqb_spec (faddr g) (faddr new)); [|done].
        exfalso. apply (Hfresh g); [set_solver|done]. }
      destruct (traverse_merged (seq new ⊞ len new) rest
        (FreeFragmentContextSingle rbm new) before m (off h f + len f))
        as (rbm'&new'&rest'&E&Hn'&Eo'&Hr'&Hc); [done|lia|done|].
      exists rbm', (new' :: before), new', rest', true. split; [done|]. split_and!.
      * apply (frags_ok_rev_append h lim _ (off h new' + len new')); [|simpl|done|done].
        -- pose proof (off_range h new'). destruct Hn' as (?&?&?). lia.
        -- split_and!; [done|lia|]. apply (before_ok_weaken h lim (lo + 1)); [lia|done].
      * intros i. simpl. rewrite !covered_rev_append. rewrite Hc. simpl.
        rewrite (covers_union h new f m) by (done || lia).
        by destruct (covers h new i), (covers h f i), (covered h before i).
      * simpl. rewrite rev_append_rev. intros E0. by apply app_eq_nil in E0 as [_ ?].
    + (* the fragment ends before the new one *)
      rewrite (frag_end h new (len new)) by done.
      rewrite (seq_off h f Huf), max_is by lia.
      destruct (Z.leb_spec (off h new + len new) (off h f)); [lia|].
      rewrite <- (frag_end h new (len new)) by done.
      apply (IH rbm (f :: before) new (off h f + len f)); [done|lia|lia|set_solver| |done|done].
      simpl. split_and!; [done|lia|]. apply (before_ok_weaken h lim (lo + 1)); [lia|done].
  - (* the fragment starts after the new one *)
    rewrite (frag_end h new (len new)) by done.
    rewrite (seq_off h f Huf), max_is by lia.
    destruct (Z.leb_spec (off h new + len new) (off h f)); [|lia].
    exists rbm, before, new, (f :: rest), false. split; [done|]. split_and!; [done..| |].
    + apply (before_ok_weaken h lim (lo + 1)); [lia|done].
    + simpl. split_and!; [lia|done..].
Qed.

(** Fragment contexts are conserved: those merged away go back to the pool. *)
Lemma traverse_conserves cur_end rest : ∀ rbm before new merged rbm' before' new' rest' merged',
  traverse cur_end rbm before new rest merged = (rbm', before', new', rest', merged') →
  (if merged then ∃ b, before = new :: b
   else ∀ f, f ∈ before → faddr f ≠ faddr new) →
  Forall (λ f, is_calloc f = 0) (new :: before ++ rest) →
  (∀ f, f ∈ rest → faddr f ≠ faddr new) →
  NoDup (faddr <$> rest) →
  ∃ freed,
    rbm' = rbm <| frag_mp := foldl pool_release (frag_mp rbm) freed |>
    ∧ Forall (λ f, is_calloc f = 0) (new' :: before' ++ rest')
    ∧ freed ++ (if merged' then [] else [faddr new']) ++ (faddr <$> before') ++ (faddr <$> rest')
      ≡ₚ (if merged then [] else [faddr new]) ++ (faddr <$> before) ++ (faddr <$> rest)
    ∧ (merged = true → merged' = true).
Proof.
  induction rest as [|f rest IH]; intros rbm before new merged rbm' before' new' rest' merged';
    simpl; intros E Hm Hz Hfresh Hnd.
  { injection E as <- <- <- <- <-. exists []. split_and!; [by destruct rbm|done..]. }
  apply NoDup_cons in Hnd as [Hnf Hnd]. destruct (CanMerge new f).
  - set (m := MergeFragments new f) in *.
    assert (faddr m = faddr f ∧ is_calloc m = is_calloc f) as [Ea Ez] by done. clearbody m.
    set (b1 := match before with [] => [] | _ :: _ => _ end) in E.
    assert (before = (if merged then [new] else []) ++ b1) as Eb.
    { subst b1. destruct merged; [destruct Hm as [b ->]; by rewrite Z.eqb_refl|].
      destruct before as [|g b]; [done|]. destruct (Z.eqb_spec (faddr g) (faddr new)); [|done].
      exfalso. apply (Hm g); [set_solver|done]. }
    clearbody b1. subst before.
    apply IH in E as (freed&Er&Hz'&Hp&Hmm); [|by eexists| | |done].
    2: { apply Forall_cons in Hz as [Hz1 Hz2]. rewrite <- app_assoc, Forall_app, Forall_app in Hz2.
         destruct Hz2 as (?&?&Hz2). apply Forall_cons in Hz2 as [Hf ?].
         repeat (apply Forall_cons; split; [congruence|]). by apply Forall_app. }
    2: { intros g Hg Eg. apply Hnf.
         rewrite <- Ea, <- Eg. by apply list_elem_of_fmap_2. }
    exists (faddr new :: freed). apply Forall_cons in Hz as [Hz1 _].
    unfold FreeFragmentContextSingle in Er. rewrite Hz1 in Er. split_and!; [done|done| |].
    + simpl. rewrite Hp. simpl. rewrite Ea, fmap_app, <- app_assoc.
      destruct merged; simpl; by rewrite <- Permutation_middle.
    + intros _. by apply Hmm.
  - destruct (merged || _) eqn:Em.
    + injection E as <- <- <- <- <-. exists []. split_and!; [by destruct rbm|done..].
    + destruct merged; [done|].
      apply IH in E as (freed&Er&Hz'&Hp&Hmm); [|set_solver| |set_solver|done].
      2: { apply Forall_cons in Hz as [? Hz]. apply Forall_app in Hz as [? Hz].
           apply Forall_cons in Hz as [? ?]. repeat (apply Forall_cons; split; [done|]).
           by apply Forall_app. }
      exists freed. split_and!; [done|done| |done].
      rewrite Hp. simpl. f_equal. by rewrite <- Permutation_middle.
Qed.
End Traverse.

(** ** Invariant and specification *)

(** The number of contiguous bytes at the head. *)
Definition ready_len (h : Z) (fs : list fragment_ctx) : Z :=
  match fs with
  | f :: _ => if h =? seq f then len f else 0
  | [] => 0
  end.

Record rb_ok (b : tcp_ring_buffer) : Prop := mk_rb_ok {
  ok_size : 0 < rsize b < 1073741824;
  ok_mem : Z.of_nat (length (mem b)) = rsize b;
  ok_head : rhead b = data b + head_offset b;
  ok_head_offset : 0 <= head_offset b;
  ok_last_len : 0 <= last_len b;
  ok_tail : tail_offset b = head_offset b + last_len b;
  ok_tail_bound : tail_offset b <= rsize b;
  ok_head_seq : is_u32 (head_seq b);
  ok_frags : frags_ok (head_seq b) (last_len b) (-1) (fctx b);
  ok_merged : merged_len b = ready_len (head_seq b) (fctx b);
  ok_cum : u32 (init_seq b + cum_len b) = u32 (head_seq b + merged_len b)
}.

(** What the buffer holds at offset [i] from [head_seq]. *)
Definition rb_byte (b : tcp_ring_buffer) (i : Z) : option Z :=
  if covered (head_seq b) (fctx b) i then byte_at (mem b) (head_offset b + i) else None.

(** [rb_byte] after a segment has been stored at an offset. *)
Definition overwrite (g : Z → option Z) (o : Z) (bs : list Z) (i : Z) : option Z :=
  if (o <=? i) && (i <? o + Z.of_nat (length bs)) then byte_at bs (i - o) else g i.

Lemma ready_len_spec h lim fs :
  frags_ok h lim (-1) fs → is_u32 h →
  0 <= ready_len h fs <= Z.max 0 lim
  ∧ (∀ i, 0 <= i < ready_len h fs → covered h fs i = true)
  ∧ covered h fs (ready_len h fs) = false.
Proof.
  intros Hf Hh. destruct fs as [|f fs]; simpl in *; [split_and!; lia || done|].
  destruct Hf as (Ho&(Hu&?&?&?)&Hf). pose proof (off_range h f) as Hr.
  assert ((h =? seq f) = (off h f =? 0)) as ->.
  { unfold off. destruct (Z.eqb_spec h (seq f)) as [->|].
    - by rewrite Z.sub_diag.
    - symmetry. apply Z.eqb_neq. ulia. }
  destruct (Z.eqb_spec (off h f) 0) as [E|].
  - split; [lia|]. split.
    + intros i Hi. apply orb_true_iff. left. unfold covers. rewrite E.
      rewrite (proj2 (Z.leb_le _ _)), (proj2 (Z.ltb_lt _ _)) by lia. done.
    + apply orb_false_iff. split; [unfold covers; rewrite E; simpl; lia|].
      destruct (covered h fs (len f)) eqn:Ec; [|done].
      apply (frags_ok_bounds _ _ _ _ _ Hf) in Ec. lia.
  - split; [lia|]. split; [lia|]. apply orb_false_iff. split; [unfold covers; lia|].
    destruct (covered h fs 0) eqn:Ec; [|done].
    apply (frags_ok_bounds _ _ _ _ _ Hf) in Ec. lia.
Qed.

(** A fragment list is also fine for a larger limit. *)
Lemma frags_ok_lim h lim lim' lo fs :
  lim <= lim' < 1073741824 → frags_ok h lim lo fs → frags_ok h lim' lo fs.
Proof.
  intros Hl. revert lo. induction fs as [|f fs IH]; intros lo; simpl; [done|].
  intros (?&(?&?&?&?)&?). repeat split; try done; try lia. by apply IH.
Qed.

(** *** Storing the bytes *)
Section Bytes.
Context (b : tcp_ring_buffer).
Hypothesis Hok : rb_ok b.

Lemma rb_compact_spec e :
  0 <= e <= rsize b →
  ∃ b', rb_compact b e = Some b' ∧ rb_ok b' ∧ rhead b' = data b' + head_offset b'
    ∧ head_offset b' + e <= rsize b'
    ∧ rsize b' = rsize b ∧ last_len b' = last_len b ∧ fctx b' = fctx b
    ∧ head_seq b' = head_seq b ∧ init_seq b' = init_seq b ∧ data b' = data b
    ∧ merged_len b' = merged_len b ∧ cum_len b' = cum_len b
    ∧ (∀ i, 0 <= i < last_len b →
         byte_at (mem b') (head_offset b' + i) = byte_at (mem b) (head_offset b + i)).
Proof using Hok.
  intros He. pose proof Hok as [Hs Hm Hh Hho Hll Ht Htb Hhs Hf Hml Hc].
  unfold rb_compact. rewrite !u32_id by lia.
  destruct (Z.leb_spec (rsize b) (head_offset b + e)).
  - replace (rhead b - data b) with (head_offset b) by lia.
    rewrite mem_read_ok by lia. simpl.
    set (bs := take _ _).
    assert (mem_read (mem b) (head_offset b) (last_len b) = Some bs) as Hrd
      by (apply mem_read_ok; lia).
    pose proof (mem_read_length _ _ _ _ Hrd) as Hbl.
    destruct (mem_write (mem b) 0 bs) as [m|] eqn:Em.
    2: { rewrite mem_write_ok in Em by lia. done. }
    pose proof (mem_write_length _ _ _ _ Em) as Hlm. simpl.
    eexists. split; [reflexivity|]. rec_simpl. rewrite !u32_id by lia.
    split; [split; rec_simpl; try done; lia|].
    split_and!; try done; try lia.
    intros i Hi. rewrite (byte_at_write_in _ _ _ _ _ Em) by lia.
    rewrite (byte_at_read _ _ _ _ _ Hrd) by lia. f_equal. lia.
  - exists b. split_and!; done || lia.
Qed.

Lemma rb_copy_spec payload ln o :
  Z.of_nat (length payload) = ln → 0 < ln → 0 <= o → head_offset b + (o + ln) <= rsize b →
  ∃ b', rb_copy b payload ln o (o + ln) = Some b'
    ∧ rsize b' = rsize b ∧ Z.of_nat (length (mem b')) = rsize b' ∧ data b' = data b
    ∧ rhead b' = rhead b ∧ head_offset b' = head_offset b
    ∧ last_len b' = Z.max (last_len b) (o + ln)
    ∧ tail_offset b' = head_offset b + last_len b'
    ∧ fctx b' = fctx b ∧ head_seq b' = head_seq b ∧ init_seq b' = init_seq b
    ∧ merged_len b' = merged_len b ∧ cum_len b' = cum_len b
    ∧ (∀ i, 0 <= i → byte_at (mem b') (head_offset b + i)
            = overwrite (λ i, byte_at (mem b) (head_offset b + i)) o payload i).
Proof using Hok.
  intros Hl Hln Ho Hb. pose proof Hok as [Hs Hm Hh Hho Hll Ht Htb Hhs Hf Hml Hc].
  unfold rb_copy. rewrite mem_read_ok by lia. simpl.
  rewrite drop_0, take_ge by lia.
  replace (rhead b - data b + o) with (head_offset b + o) by lia.
  destruct (mem_write (mem b) (head_offset b + o) payload) as [m|] eqn:Em.
  2: { rewrite mem_write_ok in Em by lia. done. }
  pose proof (mem_write_length _ _ _ _ Em) as Hlm. simpl. rec_simpl.
  eexists. split; [reflexivity|]. rewrite !u32_id by lia.
  assert (∀ i, 0 <= i → byte_at m (head_offset b + i)
     = overwrite (λ i, byte_at (mem b) (head_offset b + i)) o payload i) as Hby.
  { intros i Hi. unfold overwrite.
    destruct (Z.leb_spec o i), (Z.ltb_spec i (o + Z.of_nat (length payload))); simpl.
    - rewrite (byte_at_write_in _ _ _ _ _ Em) by lia. f_equal. lia.
    - by rewrite (byte_at_write_out _ _ _ _ _ Em) by lia.
    - by rewrite (byte_at_write_out _ _ _ _ _ Em) by lia.
    - by rewrite (byte_at_write_out _ _ _ _ _ Em) by lia. }
  destruct (Z.ltb_spec (tail_offset b) (head_offset b + (o + ln))); rec_simpl;
    rewrite s32_id by lia; split_and!; done || lia.
Qed.
End Bytes.

(** *** Linking the fragment *)
Section Link.
Context {P : Type} `{ChunkPool P}.
Implicit Types (rbm : rb_manager P) (new : fragment_ctx).

Lemma rev_append_app {A} (l l' : list A) : rev_append l l' = rev l ++ l'.
Proof. apply rev_append_rev. Qed.

Lemma before_first_lt h lim hi bs f fs rest :
  before_ok h lim hi bs → bs ≠ [] → rev_append bs rest = f :: fs →
  off h f < hi ∧ is_u32 (seq f).
Proof.
  revert hi rest f fs. induction bs as [|g bs IH]; intros hi rest f fs; [done|].
  simpl. intros ((?&?&?&?)&?&Hb) _ E. pose proof (off_range h g).
  destruct bs as [|g' bs]; [simpl in E; simplify_eq; split; [lia|done]|].
  destruct (IH (off h g) (g :: rest) f fs Hb) as [? ?]; [done|done|]. split; [lia|done].
Qed.

Lemma link_spec h lim rbm fs new :
  frags_ok h lim (-1) fs → frag_in h lim new →
  (∀ f, f ∈ fs → faddr f ≠ faddr new) →
  ∃ rbm' before new' iter merged fs',
    traverse (seq new ⊞ len new) rbm [] new fs false = (rbm', before, new', iter, merged)
    ∧ rb_link fs before new' iter merged (seq new) = Some fs'
    ∧ frags_ok h lim (-1) fs' ∧ fs' ≠ []
    ∧ (∀ i, covered h fs' i = covers h new i || covered h fs i)
    ∧ (if merged then fs' = rev_append before iter
       else fs' ≡ₚ new' :: fs ∧ fs = rev_append before iter).
Proof.
  intros Hf Hn Hfresh. pose proof Hn as (Hu&?&?&?). pose proof (off_range h new).
  destruct (traverse_unmerged h lim fs rbm [] new (-1))
    as (rbm'&before&new'&iter&merged&E&Hres); [done|lia|lia|done|done|done|done|].
  exists rbm', before, new', iter, merged. destruct merged; simpl in Hres.
  { destruct Hres as (Hok&Hc&Hne). exists (rev_append before iter). done. }
  destruct Hres as (->&Efs&Hb&Hi).
  assert (frags_ok h lim (off h new - 1) (new :: iter)) as Hni
    by (simpl; split_and!; [lia|done|done]).
  destruct fs as [|f fs].
  { exists [new]. split; [done|]. split; [done|]. split; [|done].
    apply (frags_ok_weaken h lim (off h new - 1)); [lia|]. simpl. split_and!; [lia|done|done]. }
  pose proof (off_range h f). destruct before as [|g before].
  - simpl in Efs. subst iter. pose proof Hi as (Hof&(Huf&?&?&?)&_).
    exists (new :: f :: fs). split; [exact E|]. split.
    { unfold rb_link. rewrite (seq_off h new Hu), (seq_off h f Huf), min_is by lia.
      destruct (Z.leb_spec (off h new) (off h f)); [done|lia]. }
    split; [|done]. apply (frags_ok_weaken h lim (off h new - 1)); [lia|exact Hni].
  - destruct (before_first_lt h lim _ _ _ _ _ Hb ltac:(done) Efs) as [Hlt Huf].
    exists (rev_append (g :: before) (new :: iter)). split; [exact E|]. split.
    { unfold rb_link. rewrite (seq_off h new Hu), (seq_off h f Huf), min_is by lia.
      destruct (Z.leb_spec (off h new) (off h f)); [lia|done]. }
    pose proof Hb as ((?&?&?&?)&?&Hb'). pose proof (off_range h g). split_and!.
    + apply (frags_ok_rev_append h lim _ (off h g + len g)); [lia| | |done].
      * split_and!; [done|lia|done].
      * simpl. split_and!; [lia|done|done].
    + rewrite rev_append_app. intros E0. by apply app_eq_nil in E0 as [_ ?].
    + intros i. rewrite <- Efs, !covered_rev_append. simpl.
      by destruct (covers h new i), (covers h g i), (covered h before i).
    + rewrite <- Efs, !rev_append_app. by rewrite Permutation_middle.
    + done.
Qed.

(** The contexts released by the traversal and those in the new list are the
    new context and those of the old list. *)
Lemma link_conserves cur_end rbm fs new rbm' before new' iter merged cur fs' :
  traverse cur_end rbm [] new fs false = (rbm', before, new', iter, merged) →
  rb_link fs before new' iter merged cur = Some fs' →
  (if merged then fs' = rev_append before iter
   else fs' ≡ₚ new' :: fs ∧ fs = rev_append before iter) →
  Forall (λ f, is_calloc f = 0) (new :: fs) →
  NoDup (faddr <$> new :: fs) →
  ∃ freed,
    rbm' = rbm <| frag_mp := foldl pool_release (frag_mp rbm) freed |>
    ∧ Forall (λ f, is_calloc f = 0) fs'
    ∧ freed ++ (faddr <$> fs') ≡ₚ faddr <$> new :: fs.
Proof.
  intros E El Hsh Hz Hnd. rewrite fmap_cons in Hnd. apply NoDup_cons in Hnd as [Hnf Hnd].
  destruct (traverse_conserves _ _ _ _ _ _ _ _ _ _ _ E)
    as (freed&->&Hz'&Hp&_); [by intros ? ?%not_elem_of_nil|done| |done|].
  { intros f Hf Ef. apply Hnf. rewrite <- Ef. by apply list_elem_of_fmap_2. }
  exists freed. split; [done|]. simpl in Hp.
  apply Forall_cons in Hz as [_ Hzf]. apply Forall_cons in Hz' as [Hzn Hz'].
  destruct merged.
  - subst fs'. rewrite rev_append_app. split.
    + rewrite Forall_app in *. destruct Hz'. split; [by apply Forall_rev|done].
    + rewrite <- (Permutation_rev before), fmap_app. done.
  - destruct Hsh as [Hfs Efs]. split; [rewrite Hfs; by apply Forall_cons|].
    rewrite Hfs. rewrite Efs, rev_append_app, <- (Permutation_rev before) in Hp |- *.
    rewrite !fmap_cons, ?fmap_app in *. exact Hp.
Qed.

(** *** Ownership of the fragment contexts

    The free contexts (pool and the two queues) and the contexts [used] by
    receive buffers are together [all], each once. *)
Definition rbm_owns rbm (used all : list Z) : Prop :=
  ∃ lp lq lqi,
    pool_free (frag_mp rbm) lp ∧ CircQ.holds (free_fragq rbm) lq
    ∧ CircQ.holds (free_fragq_int rbm) lqi ∧ (lp ++ lq ++ lqi ++ used ≡ₚ all)
    ∧ NoDup all ∧ (0 ∉ all) ∧ Z.of_nat (length all) < 2147483646.

Lemma rbm_owns_used rbm used used' all :
  (used ≡ₚ used') → rbm_owns rbm used all → rbm_owns rbm used' all.
Proof.
  intros Hu (lp&lq&lqi&?&?&?&?&?). exists lp, lq, lqi. by rewrite <- Hu.
Qed.

(** The context handed out is fresh; the heap is used only when none is free. *)
Lemma Allocate_spec rbm used all a :
  rbm_owns rbm used all → a ≠ 0 → a ∉ all → Z.of_nat (length all) + 1 < 2147483646 →
  ∃ x rbm' all',
    AllocateFragmentContext rbm (Some a) = Some (mk_frag x 0 0 0, rbm')
    ∧ (x ∉ used) ∧ rbm_owns rbm' (x :: used) all'
    ∧ (all' = all ∨ (all' = a :: all ∧ (used ≡ₚ all))).
Proof.
  intros (lp&lq&lqi&Hp&Hq&Hqi&Hperm&Hnd&H0&Hlen) Ha Hna Hlt.
  pose proof Hnd as Hnd'. rewrite <- Hperm in Hnd'.
  unfold AllocateFragmentContext, RBFragQ.RBFragDequeue.
  destruct (CircQ.Dequeue_refines _ _ Hq) as (E1&E2&_).
  destruct (CircQ.Dequeue (free_fragq rbm)) as [o q]. simpl in E1, E2. subst o.
  destruct lq as [|x lq]; simpl in *; rec_simpl.
  2: { exists x. eexists _, all. split; [reflexivity|].
       split; [rewrite !NoDup_app, NoDup_cons in Hnd'; set_solver|].
       split; [|by left]. exists lp, lq, lqi. rec_simpl. split_and!; try done.
       rewrite <- Hperm. by rewrite <- !Permutation_middle. }
  destruct (CircQ.Dequeue_refines _ _ Hqi) as (E1&E2'&_).
  destruct (CircQ.Dequeue (free_fragq_int rbm)) as [o qi]. simpl in E1, E2'. subst o.
  destruct lqi as [|x lqi]; simpl in *; rec_simpl.
  2: { exists x. eexists _, all. split; [reflexivity|].
       split; [rewrite !NoDup_app, NoDup_cons in Hnd'; set_solver|].
       split; [|by left]. exists lp, [], lqi. rec_simpl. split_and!; try done.
       rewrite <- Hperm. simpl. by rewrite <- !Permutation_middle. }
  destruct lp as [|y lp].
  - rewrite (pool_alloc_none _ Hp). simpl. exists a. eexists _, (a :: all).
    split; [reflexivity|]. simpl in Hperm. split; [by rewrite Hperm|].
    split; [|by right]. exists [], [], []. rec_simpl. simpl.
    split_and!; [done..|by rewrite Hperm|by apply NoDup_cons|set_solver|simpl; lia].
  - destruct (pool_alloc_some _ _ Hp ltac:(done)) as (x&lp'&p'&Ep&Hx&Hxp&Hp').
    rewrite Ep. exists x. eexists _, all. split; [reflexivity|].
    rewrite Hxp in Hperm, Hnd'. simpl in *.
    split; [rewrite NoDup_cons in Hnd'; set_solver|].
    split; [|by left]. exists lp', [], []. rec_simpl. split_and!; try done.
    rewrite <- Hperm. simpl. by rewrite <- !Permutation_middle.
Qed.

Lemma release_all p l freed :
  pool_free p l → NoDup (freed ++ l) → 0 ∉ freed →
  Z.of_nat (length freed) + Z.of_nat (length l) < 2147483646 →
  ∃ l', pool_free (foldl pool_release p freed) l' ∧ l' ≡ₚ freed ++ l.
Proof.
  revert p l. induction freed as [|x freed IH]; intros p l Hp Hn H0 Hl; simpl in *.
  { by exists l. }
  apply NoDup_cons in Hn as [Hx Hn].
  destruct (IH (pool_release p x) (x :: l)) as (l'&Hl'&Hpm).
  - apply pool_release_free; [done|set_solver|set_solver|lia].
  - rewrite <- Permutation_middle. by apply NoDup_cons.
  - set_solver.
  - simpl. lia.
  - exists l'. split; [done|]. by rewrite Hpm, <- Permutation_middle.
Qed.

(** Releasing contexts moves them from [used] to the pool. *)
Lemma rbm_owns_release rbm freed used all :
  rbm_owns rbm (freed ++ used) all →
  rbm_owns (rbm <| frag_mp := foldl pool_release (frag_mp rbm) freed |>) used all.
Proof.
  intros (lp&lq&lqi&Hp&Hq&Hqi&Hperm&Hnd&H0&Hlen).
  assert (freed ++ lp ++ lq ++ lqi ++ used ≡ₚ all) as Hp2.
  { rewrite <- Hperm, (Permutation_app_comm freed), (Permutation_app_comm freed used).
    by rewrite <- !app_assoc. }
  pose proof Hnd as Hnd2. rewrite <- Hp2, app_assoc, NoDup_app in Hnd2. destruct Hnd2 as [Hnd2 _].
  assert (Z.of_nat (length freed) + Z.of_nat (length lp) <= Z.of_nat (length all)) as Hl2
    by (rewrite <- Hp2, !length_app; lia).
  destruct (release_all (frag_mp rbm) lp freed) as (lp'&Hlp&Hpm); [done|done| |lia|].
  { intros Hin. apply H0. rewrite <- Hp2. set_solver. }
  exists lp', lq, lqi. rec_simpl. split_and!; try done.
  by rewrite Hpm, <- app_assoc.
Qed.
End Link.

(** ** The operations meet the specification *)
Section Put.
Context {P : Type} `{ChunkPool P}.
Implicit Types (rbm : rb_manager P) (b : tcp_ring_buffer).

Definition not_calloc b : Prop := Forall (λ f, is_calloc f = 0) (fctx b).

Lemma rb_account_spec b lim b0 :
  is_u32 (head_seq b) → frags_ok (head_seq b) lim (-1) (fctx b) → fctx b ≠ [] →
  frags_ok (head_seq b) lim (-1) (fctx b0) → lim < 1073741824 → 0 <= lim →
  (∀ i, covered (head_seq b) (fctx b0) i = true → covered (head_seq b) (fctx b) i = true) →
  merged_len b = ready_len (head_seq b) (fctx b0) →
  u32 (init_seq b + cum_len b) = u32 (head_seq b + merged_len b) →
  ∃ b', rb_account b = Some b'
    ∧ b' = b <| cum_len := cum_len b' |> <| merged_len := merged_len b' |>
    ∧ merged_len b' = ready_len (head_seq b) (fctx b)
    ∧ u32 (init_seq b + cum_len b') = u32 (head_seq b + merged_len b').
Proof.
  intros Hu Hf Hne Hf0 Hlim Hlim0 Hsub Hm Hc.
  destruct (ready_len_spec _ _ _ Hf Hu) as (Hr&_&Hend).
  destruct (ready_len_spec _ _ _ Hf0 Hu) as (Hr0&Hcov0&_).
  unfold rb_account. destruct (fctx b) as [|f fs] eqn:Ef; [done|]. simpl in Hr, Hend |- *.
  destruct (Z.eqb_spec (head_seq b) (seq f)); eexists; (split; [reflexivity|]).
  - rec_simpl. split; [by destruct b|]. split; [done|].
    rewrite <- u32_add_r, u32_u64, u32_add_r.
    replace (init_seq b + (cum_len b + s32 (len f - merged_len b)))
      with ((init_seq b + cum_len b) + s32 (len f - merged_len b)) by lia.
    rewrite <- u32_add_l, Hc, u32_add_l. f_equal. rewrite s32_id; lia.
  - split; [by destruct b|]. split; [|done]. rewrite Hm.
    destruct (Z.eq_dec (ready_len (head_seq b) (fctx b0)) 0) as [|Hpos]; [done|].
    specialize (Hcov0 0 ltac:(lia)). apply Hsub in Hcov0. simpl in Hcov0.
    rewrite Hcov0 in Hend. done.
Qed.

Lemma RBPut_in_window rbm b payload ln cur_seq a others all :
  rb_ok b → not_calloc b → rbm_owns rbm ((faddr <$> fctx b) ++ others) all →
  a ≠ 0 → a ∉ all → Z.of_nat (length all) + 1 < 2147483646 →
  is_u32 cur_seq → Z.of_nat (length payload) = ln → 0 < ln →
  u32 (cur_seq - head_seq b) + ln <= rsize b →
  ∃ rbm' b' all',
    RBPut rbm (Some a) b payload ln cur_seq = Some (ln, rbm', b')
    ∧ rb_ok b' ∧ not_calloc b'
    ∧ rbm_owns rbm' ((faddr <$> fctx b') ++ others) all'
    ∧ (all' = all ∨ (all' = a :: all ∧ ((faddr <$> fctx b) ++ others ≡ₚ all)))
    ∧ (∀ i, rb_byte b' i = overwrite (rb_byte b) (u32 (cur_seq - head_seq b)) payload i)
    ∧ head_seq b' = head_seq b ∧ init_seq b' = init_seq b ∧ rsize b' = rsize b.
Proof.
  intros Hok Hnc Hown Ha Hna Hlen Hcur Hpl Hln Hwin.
  pose proof (ok_size _ Hok) as Hsz. pose proof (ok_head_seq _ Hok) as Hhs.
  pose proof (u32_range (cur_seq - head_seq b)) as Ho.
  set (o := u32 (cur_seq - head_seq b)) in *.
  assert (cur_seq = u32 (head_seq b + o)) as Ecur by (by apply seq_as_dist).
  unfold RBPut. destruct (Z.leb_spec ln 0); [lia|].
  assert ((GetMinSeq (head_seq b) cur_seq =? head_seq b) = true) as ->.
  { rewrite Ecur. rewrite <- (u32_id (head_seq b)) at 1 3 by done.
    rewrite <- (Z.add_0_r (head_seq b)) at 1 3. rewrite min_is by lia. lia. }
  cbn [negb]. fold o. rewrite (s32_id o), (s32_id (o + ln)) by lia.
  destruct (Z.ltb_spec (rsize b) (o + ln)); [lia|].
  destruct (rb_compact_spec b Hok (o + ln) ltac:(lia))
    as (b1&->&Hok1&Hh1&Hroom&Es1&El1&Ef1&Ehs1&Ei1&Ed1&Em1&Ec1&Hby1). simpl.
  destruct (rb_copy_spec b1 Hok1 payload ln o Hpl Hln ltac:(lia) ltac:(lia))
    as (b2&->&Es2&Hm2&Ed2&Eh2&Eho2&El2&Et2&Ef2&Ehs2&Ei2&Em2&Ec2&Hby2). simpl.
  destruct (Allocate_spec rbm _ all a Hown Ha Hna Hlen) as (x&rbm1&all'&->&Hx&Hown1&Hall).
  simpl. set (new := set_field len _ _).
  assert (seq new = cur_seq ∧ len new = ln ∧ faddr new = x ∧ is_calloc new = 0)
    as (Esq&Eln&Eax&Ezn).
  { split_and!; try done. unfold new. rec_simpl. unfold len31. apply Z.mod_small. lia. }
  clearbody new. rewrite Ef2, Ef1.
  pose proof (ok_frags _ Hok) as Hfr. pose proof (ok_last_len _ Hok) as Hll.
  pose proof (ok_tail_bound _ Hok1). pose proof (ok_tail _ Hok1). pose proof (ok_head_offset _ Hok1).
  set (lim := Z.max (last_len b) (o + ln)) in *.
  assert (last_len b2 = lim) as Elim by (rewrite El2, El1; done).
  assert (off (head_seq b) new = o) as Eo by (apply off_base; [lia|congruence]).
  apply (frags_ok_lim _ _ lim) in Hfr; [|lia].
  destruct (link_spec (head_seq b) lim rbm1 (fctx b) new)
    as (rbm2&before&new'&iter&merged&fs'&Etr&Elk&Hfs'&Hne&Hcov&Hsh); [done| | |].
  { unfold frag_in. rewrite Esq, Eo, Eln. split_and!; done || lia. }
  { intros f Hf Ef. apply Hx. apply elem_of_app. left.
    rewrite <- Eax, <- Ef. by apply list_elem_of_fmap_2. }
  rewrite Esq, Eln in Etr. rewrite Etr. rewrite Esq in Elk. rewrite Elk. simpl.
  assert (NoDup (faddr <$> new :: fctx b)) as Hndf.
  { destruct Hown1 as (?&?&?&_&_&_&Hp&Hnd&_). rewrite <- Hp, !NoDup_app in Hnd.
    rewrite fmap_cons, Eax. destruct Hnd as (_&_&_&_&_&_&Hnd).
    rewrite app_comm_cons, NoDup_app in Hnd. tauto. }
  destruct (link_conserves _ _ _ _ _ _ _ _ _ _ _ Etr Elk Hsh) as (freed&->&Hz&Hperm);
    [by apply Forall_cons|done|].
  destruct (rb_account_spec (b2 <| fctx := fs' |>) lim b)
    as (b3&->&Eb3&Em3&Ec3); rec_simpl; rewrite ?Ehs2, ?Ehs1; try done; try lia.
  { intros i Hi. rewrite Hcov, Hi. apply orb_true_r. }
  { rewrite Em2, Em1. apply Hok. }
  { rewrite Ei2, Ec2, Em2, Ei1, Ec1, Em1. apply Hok. }
  simpl. rewrite s32_id by lia. exists (rbm1 <| frag_mp := foldl pool_release (frag_mp rbm1) freed |>), b3, all'.
  rec_simpl. rewrite Ehs2, Ehs1, ?Ei2, ?Ei1 in *.
  assert (fctx b3 = fs' ∧ head_seq b3 = head_seq b ∧ init_seq b3 = init_seq b ∧ rsize b3 = rsize b
    ∧ mem b3 = mem b2 ∧ head_offset b3 = head_offset b1 ∧ rhead b3 = rhead b1 ∧ data b3 = data b1
    ∧ last_len b3 = lim ∧ tail_offset b3 = head_offset b1 + lim)
    as (E1&E2&E3&E4&E5&E6&E7&E8&E9&E10).
  { rewrite Eb3. rec_simpl. split_and!; congruence. }
  split; [done|]. split.
  { split; rewrite ?E1, ?E2, ?E3, ?E4, ?E5, ?E6, ?E7, ?E8, ?E9, ?E10; try done; try lia; congruence. }
  split; [unfold not_calloc; by rewrite E1|]. split.
  { apply rbm_owns_release. revert Hown1. apply rbm_owns_used.
    rewrite E1, app_assoc, Hperm, fmap_cons, Eax. done. }
  split; [done|]. split; [|done].
  intros i. unfold rb_byte, overwrite. rewrite E1, E2, E5, E6, Hcov. unfold covers.
  rewrite Eo, Eln, Hpl.
  destruct (covered (head_seq b) (fctx b) i) eqn:Eci.
  - pose proof (frags_ok_bounds _ _ _ _ _ (ok_frags _ Hok) Eci) as Hbi.
    rewrite orb_true_r, Hby2 by lia. unfold overwrite. rewrite Hpl.
    destruct (_ && _); [done|]. apply Hby1. lia.
  - rewrite orb_false_r. destruct ((o <=? i) && (i <? o + ln)) eqn:Er; [|done].
    apply andb_true_iff in Er as [?%Z.leb_le ?%Z.ltb_lt].
    rewrite Hby2 by lia. unfold overwrite. rewrite Hpl.
    rewrite (proj2 (Z.leb_le _ _)), (proj2 (Z.ltb_lt _ _)) by lia. done.
Qed.
End Put.

Section Remove.
Context {P : Type} `{ChunkPool P}.
Implicit Types (rbm : rb_manager P) (b : tcp_ring_buffer).

(** A segment before [head_seq], one that does not fit, and an empty one
    change nothing. *)
Lemma RBPut_rejects rbm heap b payload ln cur_seq :
  rb_ok b → is_u32 cur_seq → 0 <= ln →
  ln = 0 ∨ 2147483648 < u32 (cur_seq - head_seq b)
    ∨ rsize b < u32 (cur_seq - head_seq b) + ln < 2147483648 →
  RBPut rbm heap b payload ln cur_seq
  = Some (if (ln =? 0) || (2147483648 <? u32 (cur_seq - head_seq b)) then 0 else -2, rbm, b).
Proof.
  intros Hok Hc Hl Hcase. pose proof (ok_size _ Hok). pose proof (ok_head_seq _ Hok) as Hh.
  unfold RBPut. destruct (Z.leb_spec ln 0), (Z.eqb_spec ln 0); try lia; [done|]. simpl.
  pose proof (u32_range (cur_seq - head_seq b)).
  assert (u32 (cur_seq - head_seq b) ≠ 2147483648) as Hne by lia.
  assert ((GetMinSeq (head_seq b) cur_seq =? head_seq b)
          = negb (2147483648 <? u32 (cur_seq - head_seq b))) as ->.
  { clear Hcase Hl. revert Hne. unfold GetMinSeq, MAXSEQ. change (4294967295 / 2) with 2147483647.
    destruct (Z.eqb_spec (head_seq b) cur_seq) as [->|]; [by rewrite Z.sub_diag, Z.eqb_refl|].
    assert (u32 (cur_seq - head_seq b) = if head_seq b <? cur_seq then cur_seq - head_seq b
              else cur_seq - head_seq b + 4294967296) as -> by (case_bool; ulia). intros Hne.
    destruct (Z.ltb_spec (head_seq b) cur_seq), (Z.leb_spec (cur_seq - head_seq b) 2147483647),
      (Z.leb_spec (head_seq b - cur_seq) 2147483647); cbv iota in *; lia. }
  destruct (Z.ltb_spec 2147483648 (u32 (cur_seq - head_seq b))); simpl; [done|].
  destruct Hcase as [?|[?|?]]; try lia.
  rewrite (s32_id (u32 _)), s32_id by lia. by case_bool; [|lia].
Qed.

Lemma off_shift h n f :
  0 <= n <= off h f → off (u32 (h + n)) f = off h f - n.
Proof.
  intros Hn. unfold off in *. rewrite u32_sub_r.
  replace (seq f - (h + n)) with ((seq f - h) - n) by lia.
  rewrite <- u32_sub_l. pose proof (u32_range (seq f - h)). apply u32_id. lia.
Qed.

Lemma frags_shift h lim lo n fs :
  0 <= n <= lo + 1 → frags_ok h lim lo fs →
  frags_ok (u32 (h + n)) (lim - n) (lo - n) fs
  ∧ ∀ i, covered (u32 (h + n)) fs i = covered h fs (i + n).
Proof.
  revert lo. induction fs as [|f fs IH]; intros lo Hn; simpl; [done|].
  intros (?&(?&?&?&?)&Hf).
  destruct (IH (off h f + len f) ltac:(lia) Hf) as [IH1 IH2].
  unfold frag_in, covers. rewrite off_shift by lia. split.
  - split_and!; try lia. by replace (off h f - n + len f) with (off h f + len f - n) by lia.
  - intros i. rewrite IH2. f_equal. f_equal; lia.
Qed.

(** Giving back the context of a fragment that has been read. *)
Definition give_back rbm (opt : rb_caller) (x : Z) : rb_manager P :=
  match opt with
  | AT_APP => rbm <| free_fragq := (RBFragQ.RBFragEnqueue (free_fragq rbm) x).2 |>
  | AT_MTCP => rbm <| free_fragq_int := (RBFragQ.RBFragEnqueue (free_fragq_int rbm) x).2 |>
  end.

Lemma give_back_spec rbm opt x used all :
  rbm_owns rbm (x :: used) all →
  ∃ all', rbm_owns (give_back rbm opt x) used all' ∧ all' ⊆ all
    ∧ (Z.of_nat (length all) <= CircQ.capacity (free_fragq rbm) →
       Z.of_nat (length all) <= CircQ.capacity (free_fragq_int rbm) → all' = all)
    ∧ CircQ.capacity (free_fragq (give_back rbm opt x)) = CircQ.capacity (free_fragq rbm)
    ∧ CircQ.capacity (free_fragq_int (give_back rbm opt x)) = CircQ.capacity (free_fragq_int rbm).
Proof.
  intros (lp&lq&lqi&Hp&Hq&Hqi&Hperm&Hnd&H0&Hlen). unfold give_back, RBFragQ.RBFragEnqueue.
  assert (∃ rest, x :: rest ≡ₚ all ∧ rest ≡ₚ lp ++ lq ++ lqi ++ used) as (rest&Hx&Hrest).
  { exists (lp ++ lq ++ lqi ++ used). split; [|done]. rewrite <- Hperm.
    by rewrite <- !Permutation_middle. }
  assert (Z.of_nat (length lq) + Z.of_nat (length lqi) + 1 <= Z.of_nat (length all)) as Hl
    by (rewrite <- Hperm, !length_app; simpl; lia).
  assert (NoDup rest ∧ (0 ∉ rest) ∧ rest ⊆ all ∧ Z.of_nat (length rest) < 2147483646) as (?&?&?&?).
  { rewrite <- Hx, NoDup_cons in Hnd. rewrite <- Hx in H0, Hlen. simpl in Hlen.
    split_and!; [tauto|set_solver| |lia]. intros y Hy. rewrite <- Hx. set_solver. }
  destruct opt.
  - destruct (CircQ.Enqueue_refines _ _ x Hq) as (_&Hq'&Hcap).
    unfold Fifo.push in Hq'. destruct (Z.ltb_spec (Z.of_nat (length lq)) (CircQ.capacity (free_fragq rbm))).
    + exists all. rec_simpl. split_and!; try done. exists lp, (lq ++ [x]), lqi. rec_simpl.
      split_and!; try done. rewrite <- Hperm, <- !app_assoc. simpl. by rewrite <- !Permutation_middle.
    + exists rest. rec_simpl. split_and!; try done; [|lia]. exists lp, lq, lqi. rec_simpl. done.
  - destruct (CircQ.Enqueue_refines _ _ x Hqi) as (_&Hq'&Hcap).
    unfold Fifo.push in Hq'. destruct (Z.ltb_spec (Z.of_nat (length lqi)) (CircQ.capacity (free_fragq_int rbm))).
    + exists all. rec_simpl. split_and!; try done. exists lp, lq, (lqi ++ [x]). rec_simpl.
      split_and!; try done. rewrite <- Hperm, <- !app_assoc. simpl. by rewrite <- !Permutation_middle.
    + exists rest. rec_simpl. split_and!; try done; [|lia]. exists lp, lq, lqi. rec_simpl. done.
Qed.

Lemma RBRemove_spec rbm b ln opt others all :
  rb_ok b → not_calloc b → rbm_owns rbm ((faddr <$> fctx b) ++ others) all →
  0 <= ln →
  let n := Z.min ln (merged_len b) in
  ∃ rbm' b' all',
    RBRemove rbm b ln opt = Some (n, rbm', b')
    ∧ rb_ok b' ∧ not_calloc b' ∧ rbm_owns rbm' ((faddr <$> fctx b') ++ others) all'
    ∧ all' ⊆ all
    ∧ (Z.of_nat (length all) <= CircQ.capacity (free_fragq rbm) →
       Z.of_nat (length all) <= CircQ.capacity (free_fragq_int rbm) → all' = all)
    ∧ CircQ.capacity (free_fragq rbm') = CircQ.capacity (free_fragq rbm)
    ∧ CircQ.capacity (free_fragq_int rbm') = CircQ.capacity (free_fragq_int rbm)
    ∧ (∀ i, 0 <= i → rb_byte b' i = rb_byte b (i + n))
    ∧ head_seq b' = u32 (head_seq b + n) ∧ merged_len b' = merged_len b - n
    ∧ init_seq b' = init_seq b ∧ rsize b' = rsize b.
Proof.
  intros Hok Hnc Hown Hln n. pose proof Hok as [Hs Hm Hh Hho Hll Ht Htb Hhs Hf Hml Hc].
  destruct (ready_len_spec _ _ _ Hf Hhs) as (Hr&_&_). rewrite <- Hml in Hr.
  unfold RBRemove. rewrite u64_id by lia.
  assert ((if merged_len b <? ln then merged_len b else ln) = n) as ->
    by (subst n; case_bool; lia).
  assert (0 <= n <= merged_len b) as Hn by (subst n; lia). clearbody n.
  destruct (Z.eqb_spec n 0) as [E0|Hn0].
  { exists rbm, b, all. rewrite E0, !Z.add_0_r, Z.sub_0_r, u32_id by done.
    split_and!; try done. intros i Hi. by rewrite Z.add_0_r. }
  destruct (fctx b) as [|f fs] eqn:Ef; [simpl in Hml; lia|]. simpl in Hf, Hml.
  destruct Hf as (_&(Huf&?&?&?)&Hf).
  destruct (Z.eqb_spec (head_seq b) (seq f)) as [Eh|]; [|lia].
  assert (off (head_seq b) f = 0) as Eo by (unfold off; by rewrite <- Eh, Z.sub_diag).
  rewrite Eo in *. simpl in Hf. rewrite Z.add_0_l in *.
  rec_simpl. rewrite Ef. destruct (frags_shift (head_seq b) (last_len b) (len f) n fs ltac:(lia) Hf) as [Hf' Hcov].
  assert (rb_hd : u32 (head_offset b + n) = head_offset b + n) by (apply u32_id; lia).
  rewrite rb_hd, !s32_id by lia.
  assert (Hcum : u32 (init_seq b + cum_len b) = u32 (u32 (head_seq b + n) + (merged_len b - n)))
    by (rewrite Hc, u32_add_l; f_equal; lia).
  pose proof (u32_range (head_seq b + n)).
  unfold not_calloc in Hnc. rewrite Ef in Hnc. apply Forall_cons in Hnc as [Hzf Hnc].
  destruct (Z.eqb_spec n (len f)) as [En|].
  - (* the whole first fragment *)
    set (b' := set_field fctx _ _).
    assert (rb_ok b') as Hok'.
    { split; unfold b'; rec_simpl; try done; try lia.
      - apply (frags_ok_weaken _ _ (len f - n)); [lia|done].
      - rewrite Hml, En, Z.sub_diag. destruct fs as [|g fs]; [done|]. simpl in Hf' |- *.
        destruct Hf' as (Hg&_). unfold off in Hg.
        destruct (Z.eqb_spec (u32 (head_seq b + len f)) (seq g)) as [E|]; [|done].
        rewrite <- E, <- En, !Z.sub_diag in Hg. by vm_compute in Hg. }
    destruct (give_back_spec rbm opt (faddr f) _ all Hown)
      as (all'&Hown'&Hsub&Hall&Hc1&Hc2).
    exists (give_back rbm opt (faddr f)), b', all'. unfold b'. rec_simpl.
    split; [by destruct opt|]. split_and!; try done.
    intros i Hi. unfold rb_byte. rec_simpl. rewrite Ef, Hcov. simpl. unfold covers. rewrite Eo.
    destruct (Z.ltb_spec (i + n) (0 + len f)); [lia|]. rewrite andb_false_r. simpl.
    by rewrite <- Z.add_assoc, (Z.add_comm n).
  - (* a part of it *)
    destruct (Z.ltb_spec n (len f)); [|lia].
    assert (len31 (len f - n) = len f - n) as -> by (apply Z.mod_small; lia).
    rewrite <- Eh in *. set (f' := set_field len _ _). set (b' := set_field fctx _ _).
    assert (seq f' = u32 (head_seq b + n) ∧ len f' = len f - n) as [Es El] by done.
    assert (off (u32 (head_seq b + n)) f' = 0) as Eo' by (unfold off; by rewrite Es, Z.sub_diag).
    assert (rb_ok b') as Hok'.
    { split; unfold b'; rec_simpl; try done; try lia; simpl; unfold frag_in; rewrite ?Eo', ?Es, ?El.
      - replace (0 + (len f - n)) with (len f - n) by lia. split_and!; try done; lia.
      - rewrite Z.eqb_refl. lia. }
    exists rbm, b', all. unfold b'. rec_simpl. split_and!; try done.
    { unfold not_calloc. rec_simpl. by apply Forall_cons. }
    intros i Hi. unfold rb_byte. rec_simpl. rewrite Ef. simpl. rewrite Hcov. unfold covers.
    rewrite Eo, Eo', El.
    replace ((0 <=? i) && (i <? 0 + (len f - n))) with ((0 <=? i + n) && (i + n <? 0 + len f)) by lia.
    by rewrite <- Z.add_assoc, (Z.add_comm n).
Qed.
End Remove.

(** ** Reception of a byte stream

    The peer's stream is a function [stream] from positions to bytes.  The
    mTCP thread stores segments of it, in any order, duplicated, overlapping or
    outside the window; the application reads what is contiguous. *)
Module Session.
Section Session.
Context {P : Type} `{ChunkPool P}.
Context (stream : Z → Z).        (* the byte at each position *)
Context (all0 : list Z).         (* the fragment contexts of the pool *)

Definition slice (pos n : Z) : list Z :=
  (λ k : nat, stream (pos + Z.of_nat k)) <$> List.seq 0 (Z.to_nat n).

(** The part of [CopyToUser] that reads the buffer: the bytes copied and the
    length returned, [-1] when there is nothing to read. *)
Definition rb_read (rbm : rb_manager P) (b : tcp_ring_buffer) (ln : Z)
  : option (Z * list Z * rb_manager P * tcp_ring_buffer) :=
  let copylen := MIN (merged_len b) ln in
  if copylen <=? 0 then Some (-1, [], rbm, b)
  else
    bs ← mem_read (mem b) (rhead b - data b) copylen;
    '(_, rbm, b) ← RBRemove rbm b copylen AT_APP;
    Some (copylen, bs, rbm, b).

Record session := mk_session {
  s_rbm : rb_manager P;
  s_buf : tcp_ring_buffer;
  s_base : Z;                    (* stream position of [head_seq] *)
  s_delivered : list Z;          (* what the application has read *)
  s_heaps : list Z               (* addresses [calloc] has returned *)
}.

(** A segment of the stream at position [pos], less than half of the sequence
    space away from the reader. *)
Definition admissible (s : session) (a pos ln : Z) : Prop :=
  0 <= ln ∧ - 2147483648 < pos - s_base s ∧ pos - s_base s + ln < 2147483648
  ∧ a ≠ 0 ∧ (a ∉ all0 ++ s_heaps s)
  ∧ Z.of_nat (length (all0 ++ s_heaps s)) + 1 < 2147483646.

Definition put (s : session) (a pos ln : Z) : option (Z * rb_manager P * tcp_ring_buffer) :=
  RBPut (s_rbm s) (Some a) (s_buf s) (slice pos ln) ln (u32 (init_seq (s_buf s) + pos)).

Inductive step : session → session → Prop :=
| step_put s a pos ln r rbm' b' :
    admissible s a pos ln → put s a pos ln = Some (r, rbm', b') →
    step s (mk_session rbm' b' (s_base s) (s_delivered s) (s_heaps s ++ [a]))
| step_read s ln r bs rbm' b' :
    0 <= ln → rb_read (s_rbm s) (s_buf s) ln = Some (r, bs, rbm', b') →
    step s (mk_session rbm' b' (s_base s + Z.of_nat (length bs)) (s_delivered s ++ bs) (s_heaps s)).

Record inv (s : session) : Prop := mk_inv {
  inv_ok : rb_ok (s_buf s);
  inv_nc : not_calloc (s_buf s);
  inv_own : ∃ all, rbm_owns (s_rbm s) (faddr <$> fctx (s_buf s)) all
              ∧ all ⊆ all0 ++ s_heaps s
              ∧ Z.of_nat (length all) <= Z.of_nat (length (all0 ++ s_heaps s));
  inv_seq : head_seq (s_buf s) = u32 (init_seq (s_buf s) + s_base s);
  inv_base : s_base s = Z.of_nat (length (s_delivered s));
  inv_bytes : ∀ i v, rb_byte (s_buf s) i = Some v → v = stream (s_base s + i);
  inv_delivered : ∀ k v, s_delivered s !! k = Some v → v = stream (Z.of_nat k)
}.

Lemma length_slice pos n : 0 <= n → Z.of_nat (length (slice pos n)) = n.
Proof. intros. unfold slice. rewrite length_fmap, length_seq. lia. Qed.

Lemma byte_at_slice pos n i v :
  byte_at (slice pos n) i = Some v → v = stream (pos + i).
Proof.
  unfold byte_at. case_bool; [|done]. unfold slice. rewrite list_lookup_fmap.
  intros (k&Hk&->)%fmap_Some. apply lookup_seq in Hk as [-> _]. f_equal. lia.
Qed.

(** The distance the code computes, from stream positions. *)
Lemma put_distance s pos :
  inv s → u32 (u32 (init_seq (s_buf s) + pos) - head_seq (s_buf s)) = u32 (pos - s_base s).
Proof. intros Hi. rewrite (inv_seq _ Hi). apply u32_base_sub. Qed.

Lemma inv_put s a pos ln :
  inv s → admissible s a pos ln →
  ∃ r rbm' b', put s a pos ln = Some (r, rbm', b')
    ∧ inv (mk_session rbm' b' (s_base s) (s_delivered s) (s_heaps s ++ [a])).
Proof.
  intros Hi (Hln&Hlo&Hhi&Ha&Hna&Hlen). pose proof Hi as [Hok Hnc (all&Hown&Hsub&Hlall) Hseq Hbase Hby Hdel].
  pose proof (ok_size _ Hok). unfold put.
  pose proof (put_distance s pos Hi) as Hd. set (cur := u32 (init_seq (s_buf s) + pos)) in *.
  assert (is_u32 cur) by apply u32_range.
  destruct (decide (0 < ln ∧ 0 <= pos - s_base s ∧ pos - s_base s + ln <= rsize (s_buf s)))
    as [(Hl&Hp&Hw)|Hno].
  - rewrite (u32_id (pos - s_base s)) in Hd by lia.
    destruct (RBPut_in_window (s_rbm s) (s_buf s) (slice pos ln) ln cur a [] all)
      as (rbm'&b'&all'&E&Hok'&Hnc'&Hown'&Hall'&Hby'&Ehs&Ei&_); try done; try lia.
    { by rewrite app_nil_r. }
    { intros ?. apply Hna. by apply Hsub. }
    { by apply length_slice. }
    exists ln, rbm', b'. split; [done|]. rewrite app_nil_r in Hown'.
    split; simpl; try done; [|by rewrite Ehs, Ei|].
    + exists all'. split; [done|]. rewrite !app_assoc.
      destruct Hall' as [->|[-> _]]; [split; [set_solver|rewrite length_app; lia]|].
      split; [set_solver|]. rewrite (length_app _ [a]). simpl. lia.
    + intros i v. rewrite Hby', Hd. unfold overwrite. destruct (_ && _); [|apply Hby].
      intros Hv%byte_at_slice. rewrite Hv. f_equal. lia.
  - exists (if (ln =? 0) || (2147483648 <? u32 (cur - head_seq (s_buf s))) then 0 else -2), (s_rbm s), (s_buf s).
    split.
    + apply RBPut_rejects; try done. rewrite Hd.
      destruct (Z.eq_dec ln 0); [by left|]. right.
      destruct (Z.ltb_spec (pos - s_base s) 0).
      * left. ulia.
      * right. rewrite u32_id by lia. lia.
    + split; simpl; try done. exists all. split; [done|]. rewrite app_assoc.
      split; [set_solver|]. rewrite (length_app _ [a]). lia.
Qed.

(** Reading removes the bytes at the front and returns them. *)
Lemma rb_read_spec rbm b ln others all :
  rb_ok b → not_calloc b → rbm_owns rbm ((faddr <$> fctx b) ++ others) all → 0 <= ln →
  let n := Z.min (merged_len b) ln in
  if n <=? 0 then rb_read rbm b ln = Some (-1, [], rbm, b) ∧ n = 0
  else ∃ bs rbm' b' all', rb_read rbm b ln = Some (n, bs, rbm', b') ∧ Z.of_nat (length bs) = n
    ∧ (∀ i, 0 <= i < n → rb_byte b i = byte_at bs i) ∧ rb_ok b' ∧ not_calloc b'
    ∧ rbm_owns rbm' ((faddr <$> fctx b') ++ others) all' ∧ all' ⊆ all
    ∧ (∀ i, 0 <= i → rb_byte b' i = rb_byte b (i + n))
    ∧ head_seq b' = u32 (head_seq b + n) ∧ merged_len b' = merged_len b - n ∧ init_seq b' = init_seq b ∧ rsize b' = rsize b.
Proof.
  intros Hok Hnc Hown Hln n.
  destruct (ready_len_spec _ _ _ (ok_frags _ Hok) (ok_head_seq _ Hok)) as (Hr&Hcov&_).
  rewrite <- (ok_merged _ Hok) in Hr, Hcov.
  pose proof (ok_last_len _ Hok). pose proof (ok_tail _ Hok). pose proof (ok_tail_bound _ Hok).
  pose proof (ok_head_offset _ Hok). pose proof (ok_mem _ Hok).
  unfold rb_read. rewrite MIN_spec. fold n. destruct (Z.leb_spec n 0); [split; [done|lia]|].
  replace (rhead b - data b) with (head_offset b) by (rewrite (ok_head _ Hok); lia).
  destruct (mem_read (mem b) (head_offset b) n) as [bs|] eqn:Erd.
  2: { rewrite mem_read_ok in Erd by lia. done. }
  destruct (RBRemove_spec rbm b n AT_APP others all)
    as (rbm'&b'&all'&E&Hok'&Hnc'&Hown'&Hsub'&_&_&_&Hby'&Ehs&Em&Ei&Es); try done; try lia.
  simpl. rewrite E. simpl. rewrite (Z.min_l n) in * by lia.
  exists bs, rbm', b', all'. split_and!; try done; [by apply mem_read_length in Erd|].
  intros i Hi. unfold rb_byte. rewrite Hcov by lia. by rewrite (byte_at_read _ _ _ _ _ Erd) by lia.
Qed.

Lemma inv_read s ln :
  inv s → 0 <= ln →
  ∃ r bs rbm' b', rb_read (s_rbm s) (s_buf s) ln = Some (r, bs, rbm', b')
    ∧ Z.of_nat (length bs) = Z.min (merged_len (s_buf s)) ln
    ∧ inv (mk_session rbm' b' (s_base s + Z.of_nat (length bs)) (s_delivered s ++ bs) (s_heaps s)).
Proof.
  intros Hi Hln. pose proof Hi as [Hok Hnc (all&Hown&Hsub&Hlall) Hseq Hbase Hby Hdel].
  rewrite <- (app_nil_r (faddr <$> _)) in Hown. pose proof (rb_read_spec _ _ ln [] all Hok Hnc Hown Hln) as Hrd. cbv zeta in Hrd.
  destruct (Z.leb_spec (Z.min (merged_len (s_buf s)) ln) 0) as [Hle|].
  { destruct Hrd as [-> Hn]. do 4 eexists. split; [reflexivity|]. split; [by rewrite Hn|].
    rewrite app_nil_r, Z.add_0_r. by destruct s. }
  set (n := Z.min (merged_len (s_buf s)) ln) in *.
  destruct Hrd as (bs&rbm'&b'&all'&E&Hbl&Hget&Hok'&Hnc'&Hown'&Hsub'&Hby'&Ehs&_&Ei&_). rewrite app_nil_r in Hown'.
  exists n, bs, rbm', b'. split; [done|]. split; [done|].
  split; simpl; try done; rewrite ?Hbl.
  - exists all'. split_and!; [done|set_solver|].
    destruct Hown' as (?&?&?&_&_&_&_&Hnd&_).
    pose proof (submseteq_length _ _ (NoDup_submseteq _ _ Hnd Hsub')). lia.
  - rewrite Ehs, Hseq, Ei, u32_add_l. f_equal. lia.
  - rewrite length_app. lia.
  - intros i v Hv. destruct (Z.ltb_spec i 0) as [Hneg|Hpos].
    + unfold rb_byte in Hv. destruct (covered _ _ i) eqn:Ec; [|done].
      apply (frags_ok_bounds _ _ _ _ _ (ok_frags _ Hok')) in Ec. lia.
    + rewrite Hby' in Hv by lia. apply Hby in Hv. rewrite Hv. f_equal. lia.
  - intros k v. rewrite lookup_app_Some. intros [Hk|[Hge Hk]]; [by apply Hdel|].
    pose proof (lookup_lt_Some _ _ _ Hk).
    replace (Z.of_nat k) with (s_base s + (Z.of_nat k - s_base s)) by lia. apply Hby.
    rewrite Hget, byte_at_nonneg by lia. rewrite <- Hk. f_equal. lia.
Qed.

Lemma session_inv_step s s' : inv s → step s s' → inv s'.
Proof.
  intros Hi Hs. destruct Hs as [s1 a pos ln r rbm' b' Hadm E|s1 ln r bs rbm' b' Hln E].
  - destruct (inv_put _ _ _ _ Hi Hadm) as (?&?&?&E'&Hi'). by simplify_eq.
  - destruct (inv_read _ _ Hi Hln) as (?&?&?&?&E'&_&Hi'). by simplify_eq.
Qed.

Lemma session_inv_steps s s' : inv s → rtc step s s' → inv s'.
Proof. intros Hi Hr. induction Hr; eauto using session_inv_step. Qed.
End Session.
Arguments session P : clear implicits.
End Session.

(** A receive buffer as [RBInit] leaves it is well formed and empty. *)
Lemma RBInit_ok {P} `{ChunkPool P} (rbm : rb_manager P) contents init :
  is_u32 init → 0 < chunk_size rbm < 1073741824 → Z.of_nat (length contents) = chunk_size rbm →
  (∃ l, pool_free (mp rbm) l ∧ l ≠ []) →
  ∃ b rbm', RBInit rbm true contents init = (Some b, rbm')
    ∧ rb_ok b ∧ fctx b = [] ∧ head_seq b = init ∧ init_seq b = init
    ∧ frag_mp rbm' = frag_mp rbm ∧ free_fragq rbm' = free_fragq rbm
    ∧ free_fragq_int rbm' = free_fragq_int rbm ∧ cur_num rbm' = cur_num rbm ⊞ 1.
Proof.
  intros Hi Hc Hl (l&Hp&Hne). destruct (pool_alloc_some _ _ Hp Hne) as (x&l'&p'&E&Hx&_).
  unfold RBInit. simpl. rewrite E. eexists _, _. split; [reflexivity|]. rec_simpl.
  split; [|done]. split; simpl; rec_simpl; rewrite ?s32_id by lia; try done; lia.
Qed.

Lemma FreeFragmentContext_release {P} `{ChunkPool P} (rbm : rb_manager P) fs :
  Forall (λ f, is_calloc f = 0) fs →
  FreeFragmentContext rbm fs = rbm <| frag_mp := foldl pool_release (frag_mp rbm) (faddr <$> fs) |>.
Proof.
  revert rbm. induction fs as [|f fs IH]; intros rbm Hz; simpl; [by destruct rbm|].
  apply Forall_cons in Hz as [Hf Hz]. rewrite IH by done.
  unfold FreeFragmentContextSingle. by rewrite Hf.
Qed.

(** ** Properties *)

(** A segment that fits in the buffer ([cur_seq - head_seq + len <= size])
    is stored: [RBPut] returns its length, never touches memory outside the
    chunk, keeps the buffer well formed, and afterwards the buffer holds exactly
    the old bytes overwritten by the payload at its offset, whatever
    fragments it overlaps; its fragment context comes from the free contexts,
    and those merged away return to the pool. *)
Theorem RBPut_stores_segment {P} `{ChunkPool P} (rbm : rb_manager P) b payload ln cur_seq a others all :
  rb_ok b → not_calloc b → rbm_owns rbm ((faddr <$> fctx b) ++ others) all →
  a ≠ 0 → a ∉ all → Z.of_nat (length all) + 1 < 2147483646 →
  is_u32 cur_seq → Z.of_nat (length payload) = ln → 0 < ln →
  u32 (cur_seq - head_seq b) + ln <= rsize b →
  ∃ rbm' b' all',
    RBPut rbm (Some a) b payload ln cur_seq = Some (ln, rbm', b')
    ∧ rb_ok b' ∧ not_calloc b'
    ∧ rbm_owns rbm' ((faddr <$> fctx b') ++ others) all'
    ∧ (all' = all ∨ (all' = a :: all ∧ ((faddr <$> fctx b) ++ others ≡ₚ all)))
    ∧ (∀ i, rb_byte b' i = overwrite (rb_byte b) (u32 (cur_seq - head_seq b)) payload i).
Proof.
  intros. destruct (RBPut_in_window rbm b payload ln cur_seq a others all)
    as (rbm'&b'&all'&?&?&?&?&?&?&_); try done. by exists rbm', b', all'.
Qed.

(** An empty segment, a segment that starts before [head_seq] and a segment
    that ends beyond the buffer leave everything unchanged; the result is [0]
    in the first two cases and [-2] in the third. *)
Theorem RBPut_leaves_rejected {P} `{ChunkPool P} (rbm : rb_manager P) heap b payload ln cur_seq :
  rb_ok b → is_u32 cur_seq → 0 <= ln →
  ln = 0 ∨ 2147483648 < u32 (cur_seq - head_seq b)
    ∨ rsize b < u32 (cur_seq - head_seq b) + ln < 2147483648 →
  RBPut rbm heap b payload ln cur_seq
  = Some (if (ln =? 0) || (2147483648 <? u32 (cur_seq - head_seq b)) then 0 else -2, rbm, b).
Proof. apply RBPut_rejects. Qed.

(** [RBRemove] removes the minimum of the requested length and the
    contiguous length, moves [head_seq] by it, keeps the invariant (in
    particular [merged_len] is again the length of the contiguous prefix), and
    what remains is the old contents shifted; the context of a fragment read
    completely is never lost when the queues are as large as the pool. *)
Theorem RBRemove_shifts {P} `{ChunkPool P} (rbm : rb_manager P) b ln opt others all :
  rb_ok b → not_calloc b → rbm_owns rbm ((faddr <$> fctx b) ++ others) all →
  0 <= ln → let n := Z.min ln (merged_len b) in
  ∃ rbm' b' all',
    RBRemove rbm b ln opt = Some (n, rbm', b')
    ∧ rb_ok b' ∧ not_calloc b' ∧ rbm_owns rbm' ((faddr <$> fctx b') ++ others) all'
    ∧ (Z.of_nat (length all) <= CircQ.capacity (free_fragq rbm) →
       Z.of_nat (length all) <= CircQ.capacity (free_fragq_int rbm) → all' = all)
    ∧ (∀ i, 0 <= i → rb_byte b' i = rb_byte b (i + n))
    ∧ head_seq b' = u32 (head_seq b + n) ∧ merged_len b' = merged_len b - n.
Proof.
  intros Hok Hnc Hown Hln n. destruct (RBRemove_spec rbm b ln opt others all Hok Hnc Hown Hln)
    as (rbm'&b'&all'&?&?&?&?&_&?&_&_&?&?&?&_). by exists rbm', b', all'.
Qed.

(** C2: from [RBInit] on, whatever segments of the peer's stream are stored and
    whatever reads are made, in any order: the application has read exactly a
    prefix of the stream, every further segment within half of the sequence
    space and every further read completes without a crash, and a read returns
    all contiguous bytes that were asked for. *)
Theorem receive_buffer_delivers_stream {P} `{ChunkPool P} (stream : Z → Z) (all0 : list Z)
    (rbm : rb_manager P) contents init :
  is_u32 init → 0 < chunk_size rbm < 1073741824 → Z.of_nat (length contents) = chunk_size rbm →
  (∃ l, pool_free (mp rbm) l ∧ l ≠ []) → rbm_owns rbm [] all0 →
  ∃ b rbm', RBInit rbm true contents init = (Some b, rbm') ∧
    ∀ s, rtc (Session.step stream all0) (Session.mk_session rbm' b 0 [] []) s →
      (∀ k v, Session.s_delivered s !! k = Some v → v = stream (Z.of_nat k))
      ∧ (∀ a pos ln, Session.admissible all0 s a pos ln → is_Some (Session.put stream s a pos ln))
      ∧ (∀ ln, 0 <= ln → ∃ r bs rbm'' b'',
           Session.rb_read (Session.s_rbm s) (Session.s_buf s) ln = Some (r, bs, rbm'', b'')
           ∧ Z.of_nat (length bs) = Z.min (merged_len (Session.s_buf s)) ln).
Proof.
  intros Hi Hc Hl Hp Hown. destruct (RBInit_ok rbm contents init Hi Hc Hl Hp)
    as (b&rbm'&E&Hok&Hf&Hh&Hin&E1&E2&E3&_).
  exists b, rbm'. split; [done|]. intros s Hr.
  assert (Session.inv stream all0 s) as Hinv.
  { refine (Session.session_inv_steps stream all0 _ s _ Hr). split; simpl; rewrite ?Hf; try done.
    - unfold not_calloc. by rewrite Hf.
    - exists all0. rewrite app_nil_r. split; [|done].
      unfold rbm_owns. by rewrite E1, E2, E3.
    - by rewrite Hh, Hin, Z.add_0_r, u32_id.
    - intros i v. unfold rb_byte. by rewrite Hf. }
  split; [apply Hinv|]. split.
  - intros a pos ln Hadm. destruct (Session.inv_put _ _ _ _ _ _ Hinv Hadm) as (?&?&?&->&_). done.
  - intros ln Hln. destruct (Session.inv_read _ _ _ _ Hinv Hln) as (r&bs&rbm''&b''&?&?&_).
    by exists r, bs, rbm'', b''.
Qed.

(** Freeing a receive buffer gives back its chunk and every fragment context
    it still links, exactly once. *)
Theorem RBFree_returns_everything {P} `{ChunkPool P} (rbm : rb_manager P) b others all chunks :
  not_calloc b → rbm_owns rbm ((faddr <$> fctx b) ++ others) all →
  pool_free (mp rbm) chunks → data b ≠ 0 → data b ∉ chunks →
  Z.of_nat (length chunks) < 2147483646 →
  rbm_owns (RBFree rbm b) others all ∧ pool_free (mp (RBFree rbm b)) (data b :: chunks)
  ∧ cur_num (RBFree rbm b) = cur_num rbm ⊟ 1.
Proof.
  intros Hnc Hown Hp Hd Hdc Hl. unfold RBFree.
  assert (match fctx b with [] => rbm | _ => FreeFragmentContext rbm (fctx b) end
          = rbm <| frag_mp := foldl pool_release (frag_mp rbm) (faddr <$> fctx b) |>) as ->.
  { destruct (fctx b) eqn:Ef; [by destruct rbm|]. rewrite <- Ef. by apply FreeFragmentContext_release. }
  apply rbm_owns_release in Hown. rewrite (proj2 (Z.eqb_neq _ _) Hd). simpl. rec_simpl.
  split; [exact Hown|]. split; [|done]. by apply pool_release_free.
Qed.

(** A fragment context that came from [calloc] because the pool and the
    queues were empty is not recognised as such later: the [memset] of
    [AllocateFragmentContext] has cleared [is_calloc], so freeing it hands the
    heap address to the fragment pool, which then holds a chunk it never
    owned. *)
Theorem calloc_fragment_enters_pool {P} `{ChunkPool P} (rbm : rb_manager P) a :
  pool_free (frag_mp rbm) [] → CircQ.holds (free_fragq rbm) [] → CircQ.holds (free_fragq_int rbm) [] →
  a ≠ 0 →
  ∃ f rbm', AllocateFragmentContext rbm (Some a) = Some (f, rbm')
    ∧ faddr f = a ∧ is_calloc f = 0
    ∧ pool_free (frag_mp (FreeFragmentContextSingle rbm' f)) [a].
Proof.
  intros Hp Hq Hqi Ha.
  assert (∀ q : RBFragQ.rb_frag_queue, CircQ.holds q [] → RBFragQ.RBFragDequeue q = (None, q)) as Hdq.
  { intros q H0. unfold RBFragQ.RBFragDequeue, CircQ.Dequeue.
    by rewrite (proj2 (CircQ.empty_iff q [] H0) eq_refl), Z.eqb_refl. }
  unfold AllocateFragmentContext. rewrite !Hdq by done. rec_simpl. rewrite ?Hdq by done.
  rewrite (pool_alloc_none _ Hp). eexists _, _. split; [reflexivity|]. simpl. split; [done|].
  split; [done|]. unfold FreeFragmentContextSingle. simpl. rec_simpl.
  apply (pool_release_free _ [] a); [done|done|set_solver|simpl; lia].
Qed.

(** ** Concrete instances *)
Definition demo_pool (start n : Z) : MemPool.mem_pool :=
  MemPool.mk_pool start start n n 16 0 {[ start := MemPool.mk_chunk n 0 ]}.
Definition demo_queue : RBFragQ.rb_frag_queue := CircQ.mk_queue 4 0 0 (replicate 5 None).
Definition demo_rbm : rb_manager MemPool.mem_pool :=
  mk_rbm _ 16 0 4 (demo_pool 4096 2) (demo_pool 65536 3) demo_queue demo_queue.
Definition demo_contexts : list Z := [65536; 65552; 65568].

(** 16 bytes, [head_seq] just before the wrap, one fragment at offset 8..10. *)
Definition demo_buffer : tcp_ring_buffer :=
  mk_rb 4096 (replicate 16 7) 4096 0 10 0 0 10 16 4294967290 4294967290
    [mk_frag 70000 2 2 0].

Lemma demo_pool_stack start n :
  start ≠ 0 → 0 < n < 2147483647 → 0 ∉ MemPool.run 16 start (Z.to_nat n) →
  MemPool.pool_stack (demo_pool start n) (MemPool.run 16 start (Z.to_nat n)).
Proof.
  intros Hs Hn H0. assert ((16 * n + 15) / 16 = n) as Hd
    by (symmetry; apply (Z.div_unique _ _ _ 15); lia).
  destruct (MemPool.create_stack start 16 (16 * n)) as (mp&E&_&_&Hst);
    change (16 - 1) with 15 in *; rewrite ?Hd in *; try lia; try done.
  unfold MemPool.MPCreate in E. change (u64 (16 - 1)) with 15 in E.
  rewrite (u64_id (16 * n + _)) in E by lia.
  change (u64 16) with 16 in E. change (Z.rem 16 4 =? 0) with true in E. simpl in E.
  rewrite Hd, s32_id in E by lia. by simplify_eq.
Qed.

Lemma demo_queue_holds : CircQ.holds demo_queue [].
Proof. split; simpl; try lia; done. Qed.

Lemma demo_owns used :
  NoDup (demo_contexts ++ used) → 0 ∉ used → Z.of_nat (length used) < 100 →
  rbm_owns demo_rbm used (demo_contexts ++ used).
Proof.
  intros Hn H0 Hl. exists demo_contexts, [], []. split_and!; try done; try apply demo_queue_holds.
  - apply (demo_pool_stack 65536 3); [lia|lia|]. apply (bool_decide_unpack _). by vm_compute.
  - unfold demo_contexts. set_solver.
  - rewrite length_app. simpl. lia.
Qed.

Lemma demo_buffer_ok : rb_ok demo_buffer.
Proof. split; simpl; unfold frag_in; simpl; try done; lia. Qed.

Lemma RBPut_stores_segment_witness :
  ∃ rbm' b' all',
    RBPut demo_rbm (Some 80000) demo_buffer [1; 2; 3] 3 1 = Some (3, rbm', b')
    ∧ rb_ok b' ∧ not_calloc b'
    ∧ rbm_owns rbm' ((faddr <$> fctx b') ++ []) all'
    ∧ (all' = demo_contexts ++ [70000]
       ∨ (all' = 80000 :: demo_contexts ++ [70000]
          ∧ ((faddr <$> fctx demo_buffer) ++ [] ≡ₚ demo_contexts ++ [70000])))
    ∧ (∀ i, rb_byte b' i = overwrite (rb_byte demo_buffer) (u32 (1 - 4294967290)) [1; 2; 3] i).
Proof.
  apply (RBPut_stores_segment demo_rbm demo_buffer [1; 2; 3] 3 1 80000 [] (demo_contexts ++ [70000]));
    [apply demo_buffer_ok|by apply Forall_singleton| |lia| |simpl; lia..|by vm_compute].
  - apply (demo_owns [70000]); [|set_solver|simpl; lia].
    apply (bool_decide_unpack _). by vm_compute.
  - apply (bool_decide_unpack _). by vm_compute.
Defined.

Lemma RBPut_leaves_rejected_witness :
  RBPut demo_rbm None demo_buffer [1; 2; 3] 3 4294967289 = Some (0, demo_rbm, demo_buffer)
  ∧ RBPut demo_rbm None demo_buffer [1; 2; 3] 3 8 = Some (-2, demo_rbm, demo_buffer).
Proof.
  split.
  - apply (RBPut_leaves_rejected demo_rbm None demo_buffer [1; 2; 3] 3 4294967289);
      [apply demo_buffer_ok|lia|lia|]. right. left. by vm_compute.
  - apply (RBPut_leaves_rejected demo_rbm None demo_buffer [1; 2; 3] 3 8);
      [apply demo_buffer_ok|lia|lia|]. right. right. by vm_compute.
Defined.

(** Four contiguous bytes and a later fragment. *)
Definition demo_ready : tcp_ring_buffer :=
  mk_rb 4096 (replicate 16 7) 4096 0 12 4 4 12 16 100 100
    [mk_frag 70000 100 4 0; mk_frag 70016 110 2 0].

Lemma demo_ready_ok : rb_ok demo_ready.
Proof. split; simpl; unfold frag_in; simpl; try done; lia. Qed.

Lemma RBRemove_shifts_witness :
  ∃ rbm' b' all',
    RBRemove demo_rbm demo_ready 10 AT_APP = Some (4, rbm', b')
    ∧ rb_ok b' ∧ not_calloc b' ∧ rbm_owns rbm' ((faddr <$> fctx b') ++ []) all'
    ∧ (Z.of_nat (length (demo_contexts ++ [70000; 70016])) <= CircQ.capacity (free_fragq demo_rbm) →
       Z.of_nat (length (demo_contexts ++ [70000; 70016])) <= CircQ.capacity (free_fragq_int demo_rbm) →
       all' = demo_contexts ++ [70000; 70016])
    ∧ (∀ i, 0 <= i → rb_byte b' i = rb_byte demo_ready (i + 4))
    ∧ head_seq b' = u32 (head_seq demo_ready + 4) ∧ merged_len b' = merged_len demo_ready - 4.
Proof.
  apply (RBRemove_shifts demo_rbm demo_ready 10 AT_APP [] (demo_contexts ++ [70000; 70016])).
  - apply demo_ready_ok.
  - by repeat constructor.
  - apply (demo_owns [70000; 70016]); [|set_solver|simpl; lia].
    apply (bool_decide_unpack _). by vm_compute.
  - lia.
Defined.

Lemma receive_buffer_delivers_stream_witness :
  ∃ b rbm', RBInit demo_rbm true (replicate 16 0) 4294967290 = (Some b, rbm') ∧
    ∀ s, rtc (Session.step (λ k, k mod 256) demo_contexts) (Session.mk_session rbm' b 0 [] []) s →
      (∀ k v, Session.s_delivered s !! k = Some v → v = Z.of_nat k mod 256)
      ∧ (∀ a pos ln, Session.admissible demo_contexts s a pos ln →
           is_Some (Session.put (λ k, k mod 256) s a pos ln))
      ∧ (∀ ln, 0 <= ln → ∃ r bs rbm'' b'',
           Session.rb_read (Session.s_rbm s) (Session.s_buf s) ln = Some (r, bs, rbm'', b'')
           ∧ Z.of_nat (length bs) = Z.min (merged_len (Session.s_buf s)) ln).
Proof.
  apply (receive_buffer_delivers_stream (λ k, k mod 256) demo_contexts demo_rbm
           (replicate 16 0) 4294967290); try (simpl; lia).
  - exists (MemPool.run 16 4096 2). split; [|done].
    apply (demo_pool_stack 4096 2); [lia|lia|]. apply (bool_decide_unpack _). by vm_compute.
  - apply (demo_owns []); [|set_solver|simpl; lia]. apply (bool_decide_unpack _). by vm_compute.
Defined.

Definition demo_last : tcp_ring_buffer :=
  mk_rb 8192 (replicate 16 7) 8192 0 12 4 4 12 16 100 100
    [mk_frag 70000 100 4 0; mk_frag 70016 110 2 0].

Lemma RBFree_returns_everything_witness :
  rbm_owns (RBFree demo_rbm demo_last) [] (demo_contexts ++ [70000; 70016])
  ∧ pool_free (mp (RBFree demo_rbm demo_last)) (data demo_last :: [4096; 4112])
  ∧ cur_num (RBFree demo_rbm demo_last) = cur_num demo_rbm ⊟ 1.
Proof.
  apply (RBFree_returns_everything demo_rbm demo_last []
           (demo_contexts ++ [70000; 70016]) [4096; 4112]).
  - by repeat constructor.
  - apply (demo_owns [70000; 70016]); [|set_solver|simpl; lia].
    apply (bool_decide_unpack _). by vm_compute.
  - apply (demo_pool_stack 4096 2); [lia|lia|]. apply (bool_decide_unpack _). by vm_compute.
  - done.
  - simpl. set_solver.
  - simpl. lia.
Defined.

Definition demo_exhausted : rb_manager MemPool.mem_pool :=
  mk_rbm _ 16 0 4 (demo_pool 4096 2) (MemPool.mk_pool 65536 0 0 3 16 0 ∅) demo_queue demo_queue.

Lemma calloc_fragment_enters_pool_witness :
  ∃ f rbm', AllocateFragmentContext demo_exhausted (Some 80000) = Some (f, rbm')
    ∧ faddr f = 80000 ∧ is_calloc f = 0
    ∧ pool_free (frag_mp (FreeFragmentContextSingle rbm' f)) [80000].
Proof.
  apply (calloc_fragment_enters_pool demo_exhausted 80000);
    [|apply demo_queue_holds|apply demo_queue_holds|done].
  split; simpl; try lia; try done; [constructor|set_solver].
Defined.

(** [RBPut] relies on its caller to keep segments near the window: exactly half
    of the sequence space ahead, the signed offset is negative, the size test
    passes and the copy is outside the chunk. *)
Example RBPut_half_space_crashes :
  RBPut demo_rbm (Some 80000) (mk_rb 4096 (replicate 16 7) 4096 0 0 0 0 0 16 2147483658 0 [])
    [1] 1 10 = None.
Proof. reflexivity. Qed.
End RB.
#[export] Existing Instance RB.eta_fragment_ctx.
#[export] Existing Instance RB.eta_ring_buffer.
#[export] Existing Instance RB.eta_rb_manager.
