(* ===== verification/SendBuffer.v ===== *)
(** * The send buffer

    [tcp_send_buffer.c]: the bytes the application has written and the peer has
    not acknowledged.  [SBPut] appends (moving the payload to the start of the
    chunk when it would reach its end), [SBRemove] drops acknowledged bytes.

    Specification: a byte FIFO bounded by [size], the list [contents]. *)
From S2P Require Import Prelude CircQueue MemPool.

Module SB.
Record tcp_send_buffer := mk_sb {
  data : Z;               (* address of the chunk *)
  mem : list Z;           (* its bytes *)
  hptr : Z;               (* the pointer [head] *)
  head_off : Z;
  tail_off : Z;
  len : Z;
  cum_len : Z;
  size : Z;
  head_seq : Z;
  init_seq : Z
}.
#[export] Instance eta_sb : Eta tcp_send_buffer :=
  λ r, mk_sb (data r) (mem r) (hptr r) (head_off r) (tail_off r) (len r) (cum_len r)
         (size r) (head_seq r) (init_seq r).

Record sb_manager {P : Type} := mk_sbm {
  chunk_size : Z;
  cur_num : Z;
  cnum : Z;
  mp : P;
  freeq : SBQ.sb_queue tcp_send_buffer
}.
Arguments sb_manager P : clear implicits.
#[export] Instance eta_sbm {P} : Eta (sb_manager P) :=
  λ r, mk_sbm P (chunk_size r) (cur_num r) (cnum r) (mp r) (freeq r).

Section Operations.
Context {P : Type} `{ChunkPool P}.
Implicit Types (sbm : sb_manager P) (buf : tcp_send_buffer).

Definition SBGetCurnum sbm : Z := cur_num sbm.

Definition SBManagerCreate (create : Z → Z → option P) (sbm_ok freeq_ok : bool)
    (chunk_sz num : Z) : option (sb_manager P) :=
  if negb sbm_ok then None else
  match create chunk_sz (u64 (chunk_sz * num)) with
  | None => None
  | Some m =>
    match SBQ.CreateSBQueue num freeq_ok freeq_ok with
    | None => None
    | Some q => Some (mk_sbm P chunk_sz 0 num m q)
    end
  end.

(** [malloc_ok]: the [malloc] of the descriptor succeeds; [bytes]: what a fresh
    chunk contains. *)
Definition SBInit sbm (malloc_ok : bool) (bytes : list Z) (init : Z)
  : option tcp_send_buffer * sb_manager P :=
  let '(b, q) := SBQ.SBDequeue (freeq sbm) in
  let sbm := sbm <| freeq := q |> in
  let '(b, sbm) :=
    match b with
    | Some b => (Some b, sbm)
    | None =>
      if negb malloc_ok then (None, sbm)
      else
        let '(d, m) := pool_alloc (mp sbm) in
        let sbm := sbm <| mp := m |> in
        match d with
        | None => (None, sbm)
        | Some d => (Some (mk_sb d bytes 0 0 0 0 0 0 0 0),
                     sbm <| cur_num := cur_num sbm ⊞ 1 |>)
        end
    end in
  match b with
  | None => (None, sbm)
  | Some b =>
    let b := b <| hptr := data b |> in
    let b := b <| head_off := 0 |> <| tail_off := 0 |> in
    let b := b <| len := 0 |> <| cum_len := 0 |> in
    let b := b <| size := u32 (chunk_size sbm) |> in
    (Some (b <| init_seq := init |> <| head_seq := init |>), sbm)
  end.

Definition SBFree sbm (buf : option tcp_send_buffer) : sb_manager P :=
  match buf with
  | None => sbm
  | Some b => sbm <| freeq := (SBQ.SBEnqueue (freeq sbm) b).2 |>
  end.

(** [size_t] results: [-2] is its 64-bit conversion.  [None]: a copy outside of
    the chunk or of the caller's data. *)
Definition SBPut buf (bytes : list Z) (ln : Z) : option (Z * tcp_send_buffer) :=
  if ln <=? 0 then Some (0, buf)
  else
    let to_put := MIN ln (size buf ⊟ len buf) in
    if to_put <=? 0 then Some (u64 (-2), buf)
    else
      bs ← mem_read bytes 0 to_put;
      buf ←
        (if u64 (tail_off buf + to_put) <? size buf then
           m ← mem_write (mem buf) (tail_off buf) bs;
           let buf := buf <| mem := m |> in
           Some (buf <| tail_off := u32 (tail_off buf + to_put) |>)
         else
           old ← mem_read (mem buf) (hptr buf - data buf) (len buf);
           m ← mem_write (mem buf) 0 old;
           let buf := buf <| mem := m |> in
           let buf := buf <| hptr := data buf |> in
           let buf := buf <| head_off := 0 |> in
           m ← mem_write (mem buf) (hptr buf - data buf + len buf) bs;
           let buf := buf <| mem := m |> in
           Some (buf <| tail_off := u32 (len buf + to_put) |>));
      let buf := buf <| len := u32 (len buf + to_put) |> in
      Some (to_put, buf <| cum_len := u64 (cum_len buf + to_put) |>).

Definition SBRemove buf (ln : Z) : Z * tcp_send_buffer :=
  if ln <=? 0 then (0, buf)
  else
    let to_remove := MIN ln (len buf) in
    if to_remove <=? 0 then (u64 (-2), buf)
    else
      let buf := buf <| head_off := u32 (head_off buf + to_remove) |> in
      let buf := buf <| hptr := data buf + head_off buf |> in
      let buf := buf <| head_seq := u32 (head_seq buf + to_remove) |> in
      let buf := buf <| len := u32 (len buf - to_remove) |> in
      let buf :=
        if (len buf =? 0) && (0 <? head_off buf) then
          let buf := buf <| hptr := data buf |> in
          buf <| tail_off := 0 |> <| head_off := 0 |>
        else buf in
      (to_remove, buf).
End Operations.

(** ** Representation *)
Record sb_ok (b : tcp_send_buffer) : Prop := mk_sb_ok {
  ok_size : 0 < size b < 2147483648;
  ok_mem : Z.of_nat (length (mem b)) = size b;
  ok_head : hptr b = data b + head_off b;
  ok_head_off : 0 <= head_off b;
  ok_len : 0 <= len b;
  ok_tail : tail_off b = head_off b + len b;
  ok_tail_bound : tail_off b <= size b;
  ok_head_seq : is_u32 (head_seq b)
}.

(** The unacknowledged bytes, in order. *)
Definition contents (b : tcp_send_buffer) : list Z :=
  take (Z.to_nat (len b)) (drop (Z.to_nat (head_off b)) (mem b)).

Lemma length_contents b : sb_ok b → Z.of_nat (length (contents b)) = len b.
Proof. intros []. unfold contents. rewrite length_take, length_drop. lia. Qed.

(** A window of a buffer extended at its end. *)
Lemma window_write m m' o n bs :
  0 <= o → 0 <= n → mem_write m (o + n) bs = Some m' →
  take (Z.to_nat (n + Z.of_nat (length bs))) (drop (Z.to_nat o) m')
  = take (Z.to_nat n) (drop (Z.to_nat o) m) ++ bs.
Proof.
  intros Ho Hn E. pose proof (mem_write_length _ _ _ _ E) as Hl.
  pose proof (mem_write_Some _ _ _ _ E) as (_&Hb&_).
  apply list_eq. intros i.
  destruct (Z.lt_ge_cases (Z.of_nat i) n) as [Hi|Hi];
    [|destruct (Z.lt_ge_cases (Z.of_nat i) (n + Z.of_nat (length bs))) as [Hi2|Hi2]].
  - rewrite lookup_take_lt, lookup_drop by lia.
    rewrite lookup_app_l by (rewrite length_take, length_drop; lia).
    rewrite lookup_take_lt, lookup_drop by lia.
    pose proof (byte_at_write_out _ _ _ _ (o + Z.of_nat i) E ltac:(lia)) as Hw.
    rewrite !byte_at_nonneg in Hw by lia.
    by replace (Z.to_nat o + i)%nat with (Z.to_nat (o + Z.of_nat i)) by lia.
  - rewrite lookup_take_lt, lookup_drop by lia.
    rewrite lookup_app_r by (rewrite length_take, length_drop; lia).
    rewrite length_take, length_drop.
    pose proof (byte_at_write_in _ _ _ _ (o + Z.of_nat i) E ltac:(lia)) as Hw.
    rewrite !byte_at_nonneg in Hw by lia.
    replace (Z.to_nat o + i)%nat with (Z.to_nat (o + Z.of_nat i)) by lia.
    rewrite Hw. f_equal. lia.
  - rewrite !lookup_ge_None_2; [done| |].
    + rewrite length_app, length_take, length_drop. lia.
    + rewrite length_take. lia.
Qed.

Lemma SBPut_spec b bytes ln :
  sb_ok b → 0 < ln → ln <= Z.of_nat (length bytes) → len b < size b →
  let n := Z.min ln (size b - len b) in
  ∃ b', SBPut b bytes ln = Some (n, b') ∧ sb_ok b'
    ∧ contents b' = contents b ++ take (Z.to_nat n) bytes
    ∧ len b' = len b + n ∧ size b' = size b ∧ head_seq b' = head_seq b ∧ init_seq b' = init_seq b
    ∧ cum_len b' = u64 (cum_len b + n).
Proof.
  intros Hok Hln Hb Hroom n. pose proof Hok as [Hs Hm Hh Hho Hl Ht Htb Hhs].
  unfold SBPut. destruct (Z.leb_spec ln 0); [lia|].
  rewrite MIN_spec, (u32_id (size b - len b)) by lia. fold n.
  assert (0 < n <= ln ∧ n <= size b - len b) as [Hn Hn2] by lia. clearbody n.
  destruct (Z.leb_spec n 0); [lia|].
  rewrite (mem_read_ok bytes) by lia. simpl. rewrite drop_0.
  set (bs := take (Z.to_nat n) bytes).
  assert (Z.of_nat (length bs) = n) as Hbs by (unfold bs; rewrite length_take; lia).
  rewrite u64_id by lia. destruct (Z.ltb_spec (tail_off b + n) (size b)).
  - destruct (mem_write (mem b) (tail_off b) bs) as [m|] eqn:E.
    2: { rewrite mem_write_ok in E by lia. done. }
    simpl. pose proof (mem_write_length _ _ _ _ E). rec_simpl. rewrite !(u32_id (_ + n)) by lia.
    eexists. split; [reflexivity|]. split; [split; rec_simpl; try done; lia|].
    split_and!; try done. rewrite Ht in E. unfold contents. rec_simpl.
    rewrite <- Hbs at 1. apply window_write; [lia|lia|done].
  - replace (hptr b - data b) with (head_off b) by lia.
    rewrite (mem_read_ok (mem b)) by lia. simpl. fold (contents b).
    pose proof (length_contents b Hok) as Hlc.
    destruct (mem_write (mem b) 0 (contents b)) as [m|] eqn:E.
    2: { rewrite mem_write_ok in E by lia. done. }
    simpl. pose proof (mem_write_length _ _ _ _ E). rec_simpl.
    replace (data b - data b + len b) with (0 + len b) by lia.
    destruct (mem_write m (0 + len b) bs) as [m'|] eqn:E'.
    2: { rewrite mem_write_ok in E' by lia. done. }
    simpl. pose proof (mem_write_length _ _ _ _ E'). rec_simpl. rewrite !(u32_id (len b + n)) by lia.
    eexists. split; [reflexivity|]. split; [split; rec_simpl; try done; lia|].
    split_and!; try done. unfold contents at 1. rec_simpl.
    rewrite <- Hbs at 1. rewrite (window_write m m' 0 (len b) bs ltac:(lia) ltac:(lia) E').
    f_equal. rewrite <- Hlc at 1. replace (0 + 0) with 0 in E by lia.
    rewrite <- (Z.add_0_l (Z.of_nat (length (contents b)))).
    rewrite (window_write (mem b) m 0 0 (contents b) ltac:(lia) ltac:(lia) E). done.
Qed.

Lemma SBRemove_spec b ln :
  sb_ok b → 0 < ln → 0 < len b →
  let n := Z.min ln (len b) in
  (SBRemove b ln).1 = n ∧ sb_ok (SBRemove b ln).2
  ∧ contents (SBRemove b ln).2 = drop (Z.to_nat n) (contents b)
  ∧ len (SBRemove b ln).2 = len b - n ∧ size (SBRemove b ln).2 = size b
  ∧ head_seq (SBRemove b ln).2 = u32 (head_seq b + n)
  ∧ init_seq (SBRemove b ln).2 = init_seq b ∧ cum_len (SBRemove b ln).2 = cum_len b.
Proof.
  intros Hok Hln Hpos n. pose proof Hok as [Hs Hm Hh Hho Hl Ht Htb Hhs].
  unfold SBRemove. destruct (Z.leb_spec ln 0); [lia|]. rewrite MIN_spec. fold n.
  assert (0 < n <= len b) as Hn by lia. clearbody n. destruct (Z.leb_spec n 0); [lia|]. rec_simpl.
  rewrite (u32_id (len b - n)), (u32_id (head_off b + n)) by lia.
  pose proof (u32_range (head_seq b + n)).
  destruct (Z.eqb_spec (len b - n) 0); simpl.
  - destruct (Z.ltb_spec 0 (head_off b + n)); [|lia]. rec_simpl.
    split; [done|]. split; [split; rec_simpl; try done; lia|]. split_and!; try done.
    unfold contents. rec_simpl. replace (len b - n) with 0 by lia. simpl.
    rewrite (drop_ge (take _ _)); [done|]. rewrite length_take. lia.
  - rec_simpl. split; [done|]. split; [split; rec_simpl; try done; lia|]. split_and!; try done.
    unfold contents. rec_simpl. rewrite skipn_firstn_comm, drop_drop.
    f_equal; [lia|]. f_equal. lia.
Qed.

(** ** The abstract byte FIFO *)
Definition fifo_put (cap : Z) (l bytes : list Z) (ln : Z) : Z * list Z :=
  let room := cap - Z.of_nat (length l) in
  if ln <=? 0 then (0, l)
  else if room <=? 0 then (u64 (-2), l)
  else (Z.min ln room, l ++ take (Z.to_nat (Z.min ln room)) bytes).
Definition fifo_remove (l : list Z) (ln : Z) : Z * list Z :=
  let have := Z.of_nat (length l) in
  if ln <=? 0 then (0, l)
  else if have <=? 0 then (u64 (-2), l)
  else (Z.min ln have, drop (Z.to_nat (Z.min ln have)) l).

(** A call of the application ([write]) or of ACK processing. *)
Inductive call := Put (bytes : list Z) | Remove (ln : Z).

(** What one call returns, and the number of bytes that left the buffer. *)
Definition exec (b : tcp_send_buffer) (c : call) : option (Z * tcp_send_buffer) :=
  match c with
  | Put bytes => SBPut b bytes (Z.of_nat (length bytes))
  | Remove ln => Some (SBRemove b ln)
  end.
Definition exec_fifo (cap : Z) (l : list Z) (c : call) : Z * list Z :=
  match c with
  | Put bytes => fifo_put cap l bytes (Z.of_nat (length bytes))
  | Remove ln => fifo_remove l ln
  end.

Fixpoint run (b : tcp_send_buffer) (cs : list call) : option (list Z * tcp_send_buffer) :=
  match cs with
  | [] => Some ([], b)
  | c :: cs => '(r, b) ← exec b c; '(rs, b) ← run b cs; Some (r :: rs, b)
  end.
Fixpoint run_fifo (cap : Z) (l : list Z) (cs : list call) : list Z * list Z :=
  match cs with
  | [] => ([], l)
  | c :: cs =>
    let '(r, l) := exec_fifo cap l c in
    let '(rs, l) := run_fifo cap l cs in (r :: rs, l)
  end.

(** The bytes accepted so far end at sequence number [init_seq + cum_len]. *)
Definition seq_ok (b : tcp_send_buffer) : Prop :=
  u32 (init_seq b + cum_len b) = u32 (head_seq b + len b).

Lemma exec_refines b c :
  sb_ok b → seq_ok b →
  ∃ r b', exec b c = Some (r, b') ∧ sb_ok b' ∧ seq_ok b'
    ∧ size b' = size b ∧ init_seq b' = init_seq b
    ∧ exec_fifo (size b) (contents b) c = (r, contents b').
Proof.
  intros Hok Hseq. pose proof (length_contents b Hok) as Hlc. pose proof Hok as [Hs Hm Hh Hho Hl Ht Htb Hhs].
  destruct c as [bytes|ln]; simpl.
  - unfold fifo_put. rewrite Hlc. destruct (Z.leb_spec (Z.of_nat (length bytes)) 0).
    { exists 0, b. split; [|done]. unfold SBPut.
      destruct (Z.leb_spec (Z.of_nat (length bytes)) 0); [done|lia]. }
    destruct (Z.leb_spec (size b - len b) 0).
    { exists (u64 (-2)), b. split; [|done]. unfold SBPut.
      destruct (Z.leb_spec (Z.of_nat (length bytes)) 0); [lia|].
      rewrite MIN_spec, (u32_id (size b - len b)) by lia.
      destruct (Z.leb_spec (Z.of_nat (length bytes) `min` (size b - len b)) 0); [done|lia]. }
    destruct (SBPut_spec b bytes (Z.of_nat (length bytes)) Hok) as (b'&E&Hok'&Hc&El&Es&Eh&Ei&Ec); [lia..|].
    eexists _, b'. split; [exact E|]. split_and!; try done; [|by rewrite Hc].
    unfold seq_ok in *. rewrite Eh, Ei, Ec, El, <- u32_add_r, u32_u64, u32_add_r.
    rewrite !Z.add_assoc, <- (u32_add_l (init_seq b + _)), Hseq. apply u32_add_l.
  - unfold fifo_remove. rewrite Hlc. destruct (Z.leb_spec ln 0).
    { exists 0, b. split; [|done]. unfold SBRemove.
      destruct (Z.leb_spec ln 0); [done|lia]. }
    destruct (Z.leb_spec (len b) 0).
    { exists (u64 (-2)), b. split; [|done]. unfold SBRemove.
      destruct (Z.leb_spec ln 0); [lia|]. rewrite MIN_spec.
      destruct (Z.leb_spec (ln `min` len b) 0); [done|lia]. }
    destruct (SBRemove_spec b ln Hok) as (E&Hok'&Hc&El&Es&Eh&Ei&Ec); [lia..|].
    eexists _, _. split; [by rewrite (surjective_pairing (SBRemove b ln))|].
    split_and!; try done; [|by rewrite Hc, E].
    unfold seq_ok in *. rewrite Eh, Ei, Ec, El, Hseq, u32_add_l. f_equal. lia.
Qed.

Lemma run_refines cs : ∀ b,
  sb_ok b → seq_ok b →
  ∃ rs b', run b cs = Some (rs, b') ∧ sb_ok b' ∧ seq_ok b' ∧ size b' = size b ∧ init_seq b' = init_seq b
    ∧ run_fifo (size b) (contents b) cs = (rs, contents b').
Proof.
  induction cs as [|c cs IH]; intros b Hok Hs; simpl; [by exists [], b|].
  destruct (exec_refines b c Hok Hs) as (r&b1&E1&Hok1&Hs1&Es1&Ei1&F1).
  destruct (IH b1 Hok1 Hs1) as (rs&b2&E2&Hok2&Hs2&Es2&Ei2&F2).
  exists (r :: rs), b2. rewrite E1. simpl. rewrite E2, F1. simpl. rewrite Es1 in F2. rewrite F2.
  split_and!; try done; congruence.
Qed.

(** A buffer taken from the free queue keeps its chunk; a new one gets a chunk
    from the pool.  Either way [SBInit] leaves it empty. *)
Lemma SBInit_ok {P} `{ChunkPool P} (sbm : sb_manager P) bytes init q :
  is_u32 init → 0 < chunk_size sbm < 2147483648 → Z.of_nat (length bytes) = chunk_size sbm →
  CircQ.holds (freeq sbm) q →
  Forall (λ b, Z.of_nat (length (mem b)) = chunk_size sbm) q →
  q ≠ [] ∨ (∃ l, pool_free (mp sbm) l ∧ l ≠ []) →
  ∃ b sbm', SBInit sbm true bytes init = (Some b, sbm') ∧ sb_ok b ∧ seq_ok b
    ∧ contents b = [] ∧ size b = chunk_size sbm ∧ init_seq b = init ∧ head_seq b = init.
Proof.
  intros Hi Hc Hl Hq Hall Hex. unfold SBInit, SBQ.SBDequeue.
  destruct (CircQ.Dequeue_refines _ _ Hq) as (E1&_&_).
  destruct (CircQ.Dequeue (freeq sbm)) as [o q']. simpl in E1. subst o.
  assert (∀ d m, Z.of_nat (length m) = chunk_size sbm → ∀ b,
    data b = d → mem b = m →
    let b' := b <| hptr := data b |> <| head_off := 0 |> <| tail_off := 0 |> <| len := 0 |>
      <| cum_len := 0 |> <| size := u32 (chunk_size sbm) |> <| init_seq := init |> <| head_seq := init |> in
    sb_ok b' ∧ seq_ok b' ∧ contents b' = [] ∧ size b' = chunk_size sbm ∧ init_seq b' = init
    ∧ head_seq b' = init) as Hinit.
  { intros d m Hm b Ed Em. cbv zeta. unfold seq_ok. rec_simpl. rewrite u32_id by lia. split_and!; try done.
    split; rec_simpl; try done; try lia. by rewrite Em. }
  destruct q as [|b q]; simpl.
  - destruct Hex as [?|(l&Hp&Hne)]; [done|].
    destruct (pool_alloc_some _ _ Hp Hne) as (x&l'&p'&E&_). rec_simpl. rewrite E.
    eexists _, _. split; [reflexivity|]. rec_simpl. by apply (Hinit x bytes).
  - apply Forall_cons in Hall as [Hb _].
    eexists _, _. split; [reflexivity|]. rec_simpl. by apply (Hinit (data b) (mem b)).
Qed.

(** C13: a send buffer obtained from [SBInit], new or recycled, answers every
    sequence of writes and acknowledgements like a byte FIFO bounded by
    [chunk_size]: a write accepts what fits (or returns [-2] when nothing
    does), an acknowledgement drops bytes from the front, no copy leaves the
    chunk, and the buffer ends at sequence number [init_seq + cum_len]. *)
Theorem send_buffer_is_byte_fifo {P} `{ChunkPool P} (sbm : sb_manager P) bytes init q :
  is_u32 init → 0 < chunk_size sbm < 2147483648 → Z.of_nat (length bytes) = chunk_size sbm →
  CircQ.holds (freeq sbm) q →
  Forall (λ b, Z.of_nat (length (mem b)) = chunk_size sbm) q →
  q ≠ [] ∨ (∃ l, pool_free (mp sbm) l ∧ l ≠ []) →
  ∃ b sbm', SBInit sbm true bytes init = (Some b, sbm') ∧
    ∀ cs, ∃ rs b', run b cs = Some (rs, b')
      ∧ run_fifo (chunk_size sbm) [] cs = (rs, contents b')
      ∧ u32 (init + cum_len b') = u32 (head_seq b' + len b').
Proof.
  intros Hi Hc Hl Hq Hall Hex.
  destruct (SBInit_ok sbm bytes init q Hi Hc Hl Hq Hall Hex) as (b&sbm'&E&Hok&Hs&Ec&Es&Ei&_).
  exists b, sbm'. split; [done|]. intros cs.
  destruct (run_refines cs b Hok Hs) as (rs&b'&Er&_&Hs'&_&Ei'&F).
  exists rs, b'. rewrite Es, Ec in F. unfold seq_ok in Hs'. rewrite Ei', Ei in Hs'. done.
Qed.

Definition demo_sbm : sb_manager MemPool.mem_pool :=
  mk_sbm _ 4 0 1 (MemPool.mk_pool 0 0 0 0 16 0 ∅)
    (CircQ.mk_queue 1 0 1 [Some (mk_sb 4096 [9; 9; 9; 9] 4098 2 3 1 7 4 50 40); None]).

Lemma send_buffer_is_byte_fifo_witness :
  ∃ b sbm', SBInit demo_sbm true [0; 0; 0; 0] 4294967295 = (Some b, sbm') ∧
    ∀ cs, ∃ rs b', run b cs = Some (rs, b')
      ∧ run_fifo 4 [] cs = (rs, contents b')
      ∧ u32 (4294967295 + cum_len b') = u32 (head_seq b' + len b').
Proof.
  apply (send_buffer_is_byte_fifo demo_sbm [0; 0; 0; 0] 4294967295
           [mk_sb 4096 [9; 9; 9; 9] 4098 2 3 1 7 4 50 40]).
  - lia.
  - simpl. lia.
  - done.
  - split; simpl; try lia; try done. intros k x Hk.
    apply list_lookup_singleton_Some in Hk as [-> <-]. reflexivity.
  - by apply Forall_singleton.
  - by left.
Defined.
End SB.
#[export] Existing Instance SB.eta_sb.
#[export] Existing Instance SB.eta_sbm.
