(* ===== verification/FlowHash.v ===== *)
(** * The flow table and the listener table

    [fhash.c] with the hash and equality of flows of [tcp_stream.c].  A bucket
    is the list of the items chained in it; an item is the address of the
    stream (or listener) with the key it is hashed by, which the code reads
    through the pointer and never changes while the item is in the table.

    [FlowTable] is what the TCP code relies on: a finite map from flows to
    streams.  [FlowHash] discharges it. *)
From S2P Require Import Prelude.

Record flow := mk_flow { f_saddr : Z; f_daddr : Z; f_sport : Z; f_dport : Z }.

#[export] Instance flow_eq_dec : EqDecision flow.
Proof. solve_decision. Defined.
#[export] Instance flow_countable : Countable flow :=
  inj_countable' (λ f, (f_saddr f, f_daddr f, f_sport f, f_dport f))
    (λ '(a, b, c, d), mk_flow a b c d) (λ '(mk_flow a b c d), eq_refl).

(** ** The interface *)
Class FlowTable (T : Type) := {
  ft_search : T → flow → option Z;
  ft_insert : T → Z → flow → Z * T;
  ft_remove : T → Z → flow → T;
  ft_holds : T → gmap flow Z → Prop;
  ft_search_spec t m f : ft_holds t m → ft_search t f = m !! f;
  ft_insert_spec t m a f : ft_holds t m → m !! f = None → (∀ f', m !! f' ≠ Some a) →
    (ft_insert t a f).1 = 0 ∧ ft_holds (ft_insert t a f).2 (<[f := a]> m);
  ft_remove_spec t m a f : ft_holds t m → m !! f = Some a →
    ft_holds (ft_remove t a f) (delete f m)
}.

Module FlowHash.
Definition NUM_BINS_FLOWS : Z := 131072.
Definition NUM_BINS_LISTENERS : Z := 1024.

(** The bytes of a little-endian field. *)
Definition le_bytes (n : nat) (v : Z) : list Z :=
  (λ i : nat, Z.land (Z.shiftr v (8 * Z.of_nat i)) 255) <$> seq 0 n.

(** The 12 bytes from [saddr] on, in the order of the structure. *)
Definition flow_key (f : flow) : list Z :=
  le_bytes 4 (f_saddr f) ++ le_bytes 4 (f_daddr f) ++ le_bytes 2 (f_sport f) ++ le_bytes 2 (f_dport f).

(** One round: the key byte is a signed [char]. *)
Definition hash_round (hash k : Z) : Z :=
  let hash := u32 (hash + s8 k) in
  let hash := u32 (hash + u32 (Z.shiftl hash 10)) in
  Z.lxor hash (Z.shiftr hash 6).

Definition HashFlow (f : flow) : Z :=
  let hash := foldl hash_round 0 (flow_key f) in
  let hash := u32 (hash + u32 (Z.shiftl hash 3)) in
  let hash := Z.lxor hash (Z.shiftr hash 11) in
  let hash := u32 (hash + u32 (Z.shiftl hash 15)) in
  Z.land hash (NUM_BINS_FLOWS - 1).

Definition EqualFlow (f1 f2 : flow) : bool :=
  (f_saddr f1 =? f_saddr f2) && (f_sport f1 =? f_sport f2)
  && (f_daddr f1 =? f_daddr f2) && (f_dport f1 =? f_dport f2).

(** [saddr.sin_port], in network order. *)
Definition HashListener (port : Z) : Z := Z.land port (NUM_BINS_LISTENERS - 1).
Definition EqualListener (p1 p2 : Z) : bool := p1 =? p2.

(** ** Chained tables, over any key *)
Section Table.
Context {K : Type} (hashfn : K → Z).

Record item := mk_item { it_addr : Z; it_key : K }.

(** [TAILQ_INIT] of all the bins is the empty map. *)
Definition hashtable := gmap Z (list item).
Definition CreateHashtable (ht_ok table_ok : bool) : option hashtable :=
  if negb ht_ok then None else if negb table_ok then None else Some ∅.

Definition bucket (ht : hashtable) (idx : Z) : list item := default [] (ht !! idx).

Definition HTInsert (ht : hashtable) (it : item) : Z * hashtable :=
  let idx := hashfn (it_key it) in
  (0, <[idx := bucket ht idx ++ [it]]> ht).

Definition HTRemove (ht : hashtable) (it : item) : hashtable :=
  let idx := hashfn (it_key it) in
  <[idx := filter (λ x, it_addr x ≠ it_addr it) (bucket ht idx)]> ht.

(** ** Representation of a finite map *)
Context `{Countable K}.

Record holds (ht : hashtable) (m : gmap K Z) : Prop := mk_holds {
  holds_items : ∀ idx x, x ∈ bucket ht idx → hashfn (it_key x) = idx ∧ m !! it_key x = Some (it_addr x);
  holds_all : ∀ k a, m !! k = Some a → mk_item a k ∈ bucket ht (hashfn k);
  holds_inj : ∀ k1 k2 a, m !! k1 = Some a → m !! k2 = Some a → k1 = k2
}.

Lemma bucket_insert ht i j l : bucket (<[i := l]> ht) j = if decide (i = j) then l else bucket ht j.
Proof.
  unfold bucket, hashtable in *. case_decide as E.
  - subst. by rewrite lookup_insert_eq.
  - by rewrite lookup_insert_ne.
Qed.

Lemma HTInsert_spec ht m a k :
  holds ht m → m !! k = None → (∀ k', m !! k' ≠ Some a) →
  (HTInsert ht (mk_item a k)).1 = 0 ∧ holds (HTInsert ht (mk_item a k)).2 (<[k := a]> m).
Proof.
  intros [Hi Ha Hj] Hk Hf. split; [done|]. unfold HTInsert. simpl. split.
  - intros idx x. rewrite bucket_insert. case_decide as E.
    + rewrite elem_of_app, list_elem_of_singleton. intros [Hx| ->]; simpl.
      * apply Hi in Hx as [Hh Hm]. split; [congruence|].
        rewrite lookup_insert_ne; [done|]. intros ->. congruence.
      * split; [done|]. by rewrite lookup_insert_eq.
    + intros Hx. apply Hi in Hx as [Hh Hm]. split; [done|].
      rewrite lookup_insert_ne; [done|]. intros ->. congruence.
  - intros k' a' Hm. rewrite bucket_insert. destruct (decide (k = k')) as [<-|Hne].
    + rewrite lookup_insert_eq in Hm. simplify_eq. rewrite decide_True by done. set_solver.
    + rewrite lookup_insert_ne in Hm by done. apply Ha in Hm. case_decide as E; [|done].
      rewrite E. set_solver.
  - intros k1 k2 a'. rewrite !lookup_insert_Some. naive_solver.
Qed.

Lemma HTRemove_spec ht m a k :
  holds ht m → m !! k = Some a → holds (HTRemove ht (mk_item a k)) (delete k m).
Proof.
  intros [Hi Ha Hj] Hk. unfold HTRemove. simpl. split.
  - intros idx x. rewrite bucket_insert. case_decide as E.
    + rewrite list_elem_of_filter. intros [Hne Hx]. apply Hi in Hx as [Hh Hm]. split; [congruence|].
      rewrite lookup_delete_ne; [done|]. intros ->. congruence.
    + intros Hx. apply Hi in Hx as [Hh Hm]. split; [done|].
      rewrite lookup_delete_ne; [done|]. intros ->. congruence.
  - intros k' a'. rewrite lookup_delete_Some. intros [Hne Hm]. rewrite bucket_insert.
    apply Ha in Hm as Hm'. case_decide as E; [|done].
    rewrite list_elem_of_filter, E. split; [|done]. simpl. intros ->. by apply Hne, (Hj k k' a).
  - intros k1 k2 a'. rewrite !lookup_delete_Some. naive_solver.
Qed.

Lemma empty_holds ht : CreateHashtable true true = Some ht → holds ht ∅.
Proof.
  intros [= <-]. split.
  - intros idx x. unfold bucket, hashtable. rewrite lookup_empty. by intros ?%elem_of_nil.
  - intros k a. by rewrite lookup_empty.
  - intros k1 k2 a. by rewrite lookup_empty.
Qed.
(** Searching compares keys with [eqfn]. *)
Context (eqfn : K → K → bool).

Fixpoint walk (key : K) (l : list item) : option Z :=
  match l with
  | [] => None
  | x :: l => if eqfn (it_key x) key then Some (it_addr x) else walk key l
  end.
Definition HTSearch (ht : hashtable) (key : K) : option Z :=
  walk key (bucket ht (hashfn key)).

Hypothesis eqfn_spec : ∀ k1 k2, eqfn k1 k2 = true ↔ k1 = k2.

Lemma walk_spec key l :
  match walk key l with
  | Some a => mk_item a key ∈ l
  | None => ∀ x, x ∈ l → it_key x ≠ key
  end.
Proof using eqfn_spec.
  induction l as [|x l IH]; simpl; [by intros x ?%elem_of_nil|].
  destruct (eqfn (it_key x) key) eqn:E.
  - apply eqfn_spec in E. rewrite <- E. destruct x. left.
  - destruct (walk key l); [by right|]. intros y Hy Ek.
    apply elem_of_cons in Hy as [->|Hy]; [|by apply (IH y)].
    rewrite (proj2 (eqfn_spec _ _) Ek) in E. done.
Qed.

Lemma HTSearch_spec ht m k : holds ht m → HTSearch ht k = m !! k.
Proof using eqfn_spec.
  intros [Hi Ha _]. unfold HTSearch. pose proof (walk_spec k (bucket ht (hashfn k))) as Hw.
  destruct (walk k _) as [a|] eqn:E.
  - apply Hi in Hw as [_ Hm]. done.
  - destruct (m !! k) as [a|] eqn:Em; [|done]. apply Ha in Em. by apply Hw in Em.
Qed.
End Table.
Arguments item K : clear implicits.
Arguments hashtable K : clear implicits.

Definition StreamHTInsert : hashtable flow → item flow → Z * hashtable flow := HTInsert HashFlow.
Definition StreamHTRemove : hashtable flow → item flow → hashtable flow := HTRemove HashFlow.
Definition StreamHTSearch : hashtable flow → flow → option Z := HTSearch HashFlow EqualFlow.
Definition ListenerHTInsert : hashtable Z → item Z → Z * hashtable Z := HTInsert HashListener.
Definition ListenerHTRemove : hashtable Z → item Z → hashtable Z := HTRemove HashListener.
Definition ListenerHTSearch : hashtable Z → Z → option Z := HTSearch HashListener EqualListener.

Lemma EqualFlow_spec f1 f2 : EqualFlow f1 f2 = true ↔ f1 = f2.
Proof.
  unfold EqualFlow. rewrite !andb_true_iff, !Z.eqb_eq. destruct f1, f2; simpl.
  split; [intros [[[-> ->] ->] ->]; done|by intros [= -> -> -> ->]].
Qed.

(** The bucket index is inside the table. *)
Lemma HashFlow_range f : 0 <= HashFlow f < NUM_BINS_FLOWS.
Proof.
  unfold HashFlow, NUM_BINS_FLOWS. change (131072 - 1) with (Z.ones 17).
  rewrite Z.land_ones by lia. apply Z.mod_pos_bound. lia.
Qed.
Lemma HashListener_range p : 0 <= HashListener p < NUM_BINS_LISTENERS.
Proof.
  unfold HashListener, NUM_BINS_LISTENERS. change (1024 - 1) with (Z.ones 10).
  rewrite Z.land_ones by lia. apply Z.mod_pos_bound. lia.
Qed.
End FlowHash.

#[export] Program Instance FlowHash_FlowTable : FlowTable (FlowHash.hashtable flow) := {
  ft_search := FlowHash.StreamHTSearch;
  ft_insert t a f := FlowHash.StreamHTInsert t (FlowHash.mk_item a f);
  ft_remove t a f := FlowHash.StreamHTRemove t (FlowHash.mk_item a f);
  ft_holds := FlowHash.holds FlowHash.HashFlow
}.
Next Obligation. intros. by apply FlowHash.HTSearch_spec; [exact FlowHash.EqualFlow_spec|]. Qed.
Next Obligation. intros t m a f H1 H2 H3. exact (FlowHash.HTInsert_spec FlowHash.HashFlow t m a f H1 H2 H3). Qed.
Next Obligation. intros t m a f H1 H2. exact (FlowHash.HTRemove_spec FlowHash.HashFlow t m a f H1 H2). Qed.

(** ** Operation sequences *)
Inductive ht_op := HInsert (a : Z) (f : flow) | HRemove (f : flow).

(** The map the operations should compute: a stream is inserted only when its
    flow is not in the table, and removed by the stream found for the flow. *)
Definition ht_valid (m : gmap flow Z) (o : ht_op) : Prop :=
  match o with
  | HInsert a f => m !! f = None ∧ (∀ f', m !! f' ≠ Some a)
  | HRemove f => is_Some (m !! f)
  end.
Definition ht_spec (m : gmap flow Z) (o : ht_op) : gmap flow Z :=
  match o with HInsert a f => <[f := a]> m | HRemove f => delete f m end.
Definition ht_exec (t : FlowHash.hashtable flow) (o : ht_op) : FlowHash.hashtable flow :=
  match o with
  | HInsert a f => (FlowHash.StreamHTInsert t (FlowHash.mk_item a f)).2
  | HRemove f =>
    match FlowHash.StreamHTSearch t f with
    | Some a => FlowHash.StreamHTRemove t (FlowHash.mk_item a f)
    | None => t
    end
  end.

Fixpoint ht_trace (m : gmap flow Z) (os : list ht_op) : Prop :=
  match os with [] => True | o :: os => ht_valid m o ∧ ht_trace (ht_spec m o) os end.

Lemma ht_exec_refines t m o :
  ft_holds t m → ht_valid m o → ft_holds (ht_exec t o) (ht_spec m o).
Proof.
  intros H Hv. destruct o as [a f|f]; unfold ht_exec, ht_spec.
  - destruct Hv as [Hn Hf]. exact (proj2 (ft_insert_spec t m a f H Hn Hf)).
  - destruct Hv as [a Ha].
    pose proof (ft_search_spec t m f H : FlowHash.StreamHTSearch t f = m !! f) as E.
    rewrite E, Ha. exact (ft_remove_spec t m a f H Ha).
Qed.

(** C24: after any sequence of insertions of new flows and removals of present
    ones, [StreamHTSearch] finds exactly the stream that the sequence left for
    a flow, for every flow, whatever buckets collide. *)
Theorem flow_table_is_a_map (os : list ht_op) :
  ht_trace ∅ os →
  ∃ t, FlowHash.CreateHashtable true true = Some t ∧
    ∀ f, FlowHash.StreamHTSearch (foldl ht_exec t os) f = foldl ht_spec ∅ os !! f.
Proof.
  intros Ht. eexists. split; [reflexivity|]. intros f.
  assert (∀ os t m, ft_holds t m → ht_trace m os → ft_holds (foldl ht_exec t os) (foldl ht_spec m os))
    as Hall.
  { clear. intros os. induction os as [|o os IH]; intros t m H Ht; simpl in *; [done|].
    destruct Ht. apply IH; [by apply ht_exec_refines|done]. }
  refine (ft_search_spec (foldl ht_exec ∅ os) (foldl ht_spec ∅ os) f (Hall os ∅ ∅ _ Ht)).
  exact (FlowHash.empty_holds FlowHash.HashFlow ∅ eq_refl).
Qed.

Definition demo_flow (p : Z) : flow := mk_flow 16777226 33554442 p 20480.

Lemma flow_table_is_a_map_witness :
  ∃ t, FlowHash.CreateHashtable true true = Some t ∧
    ∀ f, FlowHash.StreamHTSearch
           (foldl ht_exec t [HInsert 64 (demo_flow 1); HInsert 128 (demo_flow 2); HRemove (demo_flow 1)]) f
         = foldl ht_spec ∅ [HInsert 64 (demo_flow 1); HInsert 128 (demo_flow 2); HRemove (demo_flow 1)] !! f.
Proof.
  apply (flow_table_is_a_map [HInsert 64 (demo_flow 1); HInsert 128 (demo_flow 2); HRemove (demo_flow 1)]).
  unfold ht_trace, ht_valid, ht_spec. split_and!; try done.
  intros f'. rewrite lookup_insert_Some, lookup_empty. naive_solver.
Defined.
