(* ===== verification/Rss.v ===== *)
(** * Receive-side scaling

    [rss.c] computes the queue a NIC delivers a flow to.  [GetRSSHash] is
    proved equal to the Toeplitz hash as it is defined: the exclusive or, over
    the set bits of the input, of the 32-bit window of the key at the bit's
    position. *)
From S2P Require Import Prelude.

Module Rss.
Definition NBBY : Z := 8.
Definition key : list Z :=
  [0x6D; 0x5A; 0x56; 0xDA; 0x25; 0x5B; 0x0E; 0xC2;
   0x41; 0x67; 0x25; 0x3D; 0x43; 0xA3; 0x8F; 0xB0;
   0xD0; 0xCA; 0x2B; 0xCB; 0xAE; 0x7B; 0x30; 0xB4;
   0x77; 0xCB; 0x2D; 0xA3; 0x80; 0x30; 0xF2; 0x0C;
   0x6A; 0x42; 0xB7; 0x3B; 0xBE; 0xAC; 0x01; 0xFA].
Definition key_byte (i : Z) : Z := default 0 (key !! Z.to_nat i).

(** The loop of [BuildKeyCache]: [n] more entries, from index [idx]. *)
Fixpoint build (n : nat) (result idx : Z) : list Z :=
  match n with
  | O => []
  | S n =>
    let shift := u8 (idx mod NBBY) in
    let bit := if negb (Z.land (Z.shiftl (key_byte (idx / NBBY)) shift) 0x80 =? 0) then 1 else 0 in
    result :: build n (Z.lor (u32 (Z.shiftl result 1)) bit) (idx ⊞ 1)
  end.
Definition BuildKeyCache (cache_len : nat) : list Z :=
  build cache_len
    (Z.lor (Z.lor (Z.lor (Z.shiftl (key_byte 0) 24) (Z.shiftl (key_byte 1) 16))
                  (Z.shiftl (key_byte 2) 8)) (key_byte 3)) 32.

Definition MSB32 : Z := 0x80000000.
Definition MSB16 : Z := 0x8000.
Definition KEY_CACHE_LEN : nat := 96.
Definition key_cache : list Z := BuildKeyCache KEY_CACHE_LEN.

(** One of the four loops of [GetRSSHash]: [v] is shifted in a type of width
    [w], the key index starts at [i]. *)
Fixpoint rss_loop (w : Z) (n : nat) (i res v : Z) : Z :=
  match n with
  | O => res
  | S n =>
    let res := if negb (Z.land v (2 ^ (w - 1)) =? 0)
               then Z.lxor res (default 0 (key_cache !! Z.to_nat i)) else res in
    rss_loop w n (i + 1) res (Z.shiftl v 1 mod 2 ^ w)
  end.

Definition GetRSSHash (sip dip sp dp : Z) : Z :=
  let res := rss_loop 32 32 0 0 sip in
  let res := rss_loop 32 32 32 res dip in
  let res := rss_loop 16 16 64 res sp in
  rss_loop 16 16 80 res dp.

Definition RSS_BIT_MASK_IXGBE : Z := 0x7F.
Definition RSS_BIT_MASK_I40E : Z := 0x1FF.

(** [None]: remainder by zero. *)
Definition GetRSSCPUCore (sip dip sp dp num_queues : Z) (endian_check : bool) : option Z :=
  let masked :=
    if endian_check then
      let masked := Z.land (GetRSSHash sip dip sp dp) RSS_BIT_MASK_I40E in
      masked ⊞ default 0 ([u32 3; u32 1; u32 (-1); u32 (-3)] !! Z.to_nat (Z.land masked 3))
    else Z.land (GetRSSHash sip dip sp dp) RSS_BIT_MASK_IXGBE in
  if num_queues =? 0 then None else Some (s32 (masked mod u32 num_queues)).

(** ** The Toeplitz hash *)

(** The key as a number of [320] bits and its 32-bit window at bit [i]. *)
Definition key_number : Z := foldl (λ acc b, acc * 256 + b) 0 key.
Definition window (i : Z) : Z := Z.land (Z.shiftr key_number (320 - 32 - i)) 0xFFFFFFFF.

(** The [n] most significant bits of a [w]-bit value, first bit first. *)
Definition tops (w : Z) (n : nat) (v : Z) : list bool :=
  (λ k : nat, Z.testbit v (w - 1 - Z.of_nat k)) <$> seq 0 n.

Fixpoint toeplitz (i : Z) (input : list bool) : Z :=
  match input with
  | [] => 0
  | b :: input => Z.lxor (if b then window i else 0) (toeplitz (i + 1) input)
  end.

(** The input of the hash: addresses and ports, in network order. *)
Definition rss_input (sip dip sp dp : Z) : list bool :=
  tops 32 32 sip ++ tops 32 32 dip ++ tops 16 16 sp ++ tops 16 16 dp.

(** The cache is the list of the windows of the key. *)
Lemma key_cache_windows : key_cache = window <$> (Z.of_nat <$> seq 0 96).
Proof. by vm_compute. Qed.

Lemma key_cache_at i : 0 <= i < 96 → default 0 (key_cache !! Z.to_nat i) = window i.
Proof.
  intros Hi. rewrite key_cache_windows, !list_lookup_fmap, lookup_seq_lt by lia.
  simpl. f_equal. lia.
Qed.

Lemma land_pow2 v k : 0 <= k → (Z.land v (2 ^ k) =? 0) = negb (Z.testbit v k).
Proof.
  intros Hk. destruct (Z.testbit v k) eqn:E; simpl.
  - apply Z.eqb_neq. intros E0. apply (f_equal (λ z, Z.testbit z k)) in E0.
    rewrite Z.land_spec, E, Z.pow2_bits_true, Z.testbit_0_l in E0 by lia. done.
  - apply Z.eqb_eq. apply Z.bits_inj'. intros n Hn. rewrite Z.land_spec, Z.testbit_0_l.
    destruct (Z.eq_dec n k) as [->|]; [by rewrite E|].
    rewrite Z.pow2_bits_false by lia. apply andb_false_r.
Qed.

Lemma tops_S w n v :
  Z.of_nat (S n) <= w →
  tops w (S n) v = Z.testbit v (w - 1) :: tops w n (Z.shiftl v 1 mod 2 ^ w).
Proof.
  intros Hn. unfold tops. simpl. f_equal; [f_equal; lia|].
  rewrite <- fmap_S_seq, <- list_fmap_compose. apply list_fmap_ext. intros i x Hx.
  apply lookup_seq in Hx as [-> Hx]. unfold compose. simpl.
  rewrite Z.mod_pow2_bits_low, Z.shiftl_spec by lia. f_equal. lia.
Qed.

Lemma rss_loop_spec w n : ∀ i res v,
  0 <= i → i + Z.of_nat n <= 96 → Z.of_nat n <= w →
  rss_loop w n i res v = Z.lxor res (toeplitz i (tops w n v)).
Proof.
  induction n as [|n IH]; intros i res v Hi Hn Hw; [by rewrite Z.lxor_0_r|].
  rewrite tops_S by lia. cbn [rss_loop toeplitz]. rewrite IH by lia.
  rewrite land_pow2, negb_involutive, key_cache_at by lia.
  destruct (Z.testbit v (w - 1)); [by rewrite Z.lxor_assoc|by rewrite Z.lxor_0_l].
Qed.

Lemma toeplitz_app i l1 l2 :
  toeplitz i (l1 ++ l2) = Z.lxor (toeplitz i l1) (toeplitz (i + Z.of_nat (length l1)) l2).
Proof.
  revert i. induction l1 as [|b l1 IH]; intros i; simpl toeplitz; simpl app.
  - by rewrite Z.lxor_0_l, Z.add_0_r.
  - simpl. rewrite IH, Z.lxor_assoc. do 3 f_equal. lia.
Qed.

Lemma length_tops w n v : length (tops w n v) = n.
Proof. unfold tops. by rewrite length_fmap, length_seq. Qed.

Lemma core_in_range sip dip sp dp num_queues endian_check :
  0 < num_queues < 2147483648 →
  ∃ core, GetRSSCPUCore sip dip sp dp num_queues endian_check = Some core ∧ 0 <= core < num_queues.
Proof.
  intros Hq. unfold GetRSSCPUCore. destruct (Z.eqb_spec num_queues 0); [lia|].
  eexists. split; [reflexivity|]. rewrite (u32_id num_queues) by lia.
  set (m := if endian_check then _ else _).
  pose proof (Z.mod_pos_bound m num_queues). rewrite s32_id; lia.
Qed.

(** C36: [GetRSSHash] is the Toeplitz hash of the addresses and ports under the
    key of the source, and [GetRSSCPUCore] maps every flow to one of the
    [num_queues] queues. *)
Theorem rss_is_toeplitz sip dip sp dp num_queues endian_check :
  0 < num_queues < 2147483648 →
  GetRSSHash sip dip sp dp = toeplitz 0 (rss_input sip dip sp dp) ∧
  ∃ core, GetRSSCPUCore sip dip sp dp num_queues endian_check = Some core ∧ 0 <= core < num_queues.
Proof.
  intros Hq. split.
  - unfold GetRSSHash, rss_input. rewrite !toeplitz_app, !length_tops, !rss_loop_spec by lia.
    simpl Z.of_nat. rewrite Z.lxor_0_l, <- !Z.lxor_assoc. done.
  - by apply core_in_range.
Qed.

Lemma rss_is_toeplitz_witness :
  GetRSSHash 1118502159 2717389056 2794 1766 = toeplitz 0 (rss_input 1118502159 2717389056 2794 1766) ∧
  ∃ core, GetRSSCPUCore 1118502159 2717389056 2794 1766 8 false = Some core ∧ 0 <= core < 8.
Proof. apply (rss_is_toeplitz 1118502159 2717389056 2794 1766 8 false). lia. Defined.

(** The published test vector for this key (66.9.149.187:2794 to
    161.142.100.80:1766). *)
Example rss_test_vector : GetRSSHash 0x420995BB 0xA18E6450 2794 1766 = 0x51ccc178.
Proof. by vm_compute. Qed.
End Rss.
