(* ===== verification/AddrPool.v ===== *)
(** * Address pools

    [addr_pool.c]: the local (address, port) pairs that active connections may
    use.  An entry is identified by its index in [pool]; [mapper] finds the
    entry of an address and a port; every entry is on the free list or on the
    used list.

    Removing an entry from a list it is not on corrupts the links: [None]. *)
From S2P Require Import Prelude Rss.

Module AddrPool.
Definition MIN_PORT : Z := 1025.
Definition MAX_PORT : Z := 65536.
Definition INADDR_ANY : Z := 0.
Definition INPORT_ANY : Z := 0.

(** Address and port in network order. *)
Record sockaddr_in := mk_addr { sin_addr : Z; sin_port : Z }.

Record addr_pool := mk_ap {
  pool : list sockaddr_in;
  mapper : gmap (Z * Z) Z;           (* (address index, port) to entry *)
  addr_base : Z;                     (* host order *)
  num_addr : Z;
  num_entry : Z;
  num_free : Z;
  num_used : Z;
  free_list : list Z;
  used_list : list Z
}.
#[export] Instance eta_ap : Eta addr_pool :=
  λ r, mk_ap (pool r) (mapper r) (addr_base r) (num_addr r) (num_entry r) (num_free r)
         (num_used r) (free_list r) (used_list r).

(** Storing one entry: [pool[cnt]], [mapper[i].addrmap[j]] and the free list;
    the arrays have room for [num_entry] entries. *)
Definition add_entry (ap : addr_pool) (i j : Z) (addr : sockaddr_in) : addr_pool :=
  let cnt := Z.of_nat (length (pool ap)) in
  ap <| pool := pool ap ++ [addr] |>
     <| mapper := <[(i, j) := cnt]> (mapper ap) |>
     <| free_list := TAILQ_INSERT_TAIL (free_list ap) cnt |>.

(** The ports of the inner loops. *)
Definition ports : list Z := (λ k : nat, MIN_PORT + Z.of_nat k) <$> seq 0 (Z.to_nat (MAX_PORT - MIN_PORT)).
Definition indices (n : Z) : list Z := Z.of_nat <$> seq 0 (Z.to_nat n).

Definition empty_pool (base n : Z) : addr_pool := mk_ap [] ∅ base n 0 0 0 [] [].

Definition finish (ap : addr_pool) : addr_pool :=
  let cnt := Z.of_nat (length (pool ap)) in
  ap <| num_entry := cnt |> <| num_free := cnt |> <| num_used := 0 |>.

(** The inner loop of [CreateAddressPool]; [full] leaves it. *)
Fixpoint fill (ap : addr_pool) (limit i : Z) (js : list Z) : addr_pool :=
  match js with
  | [] => ap
  | j :: js =>
    let ap := add_entry ap i j (mk_addr (swap32 (addr_base ap ⊞ i)) (swap16 j)) in
    if Z.of_nat (length (pool ap)) >=? limit then ap else fill ap limit i js
  end.

Definition CreateAddressPool (alloc_ok : bool) (base n : Z) : option addr_pool :=
  if negb alloc_ok then None
  else
    let limit := n * (MAX_PORT - MIN_PORT) in
    let ap := empty_pool (swap32 base) n in
    Some (finish (foldl (λ ap i, fill ap limit i ports) ap (indices n))).

(** The inner loop of [CreateAddressPoolPerCore]; the flag says that the outer
    loop must stop as well. *)
Fixpoint fill_core (core num_queues daddr_h dport_h limit max : Z) (endian : bool)
    (ap : addr_pool) (i : Z) (js : list Z) : option (addr_pool * bool) :=
  match js with
  | [] => Some (ap, false)
  | j :: js =>
    if Z.of_nat (length (pool ap)) >=? limit then Some (ap, false)
    else
      let saddr_h := addr_base ap ⊞ i in
      rss_core ← Rss.GetRSSCPUCore daddr_h saddr_h dport_h j num_queues endian;
      if negb (rss_core =? core)
      then fill_core core num_queues daddr_h dport_h limit max endian ap i js
      else
        let ap := add_entry ap i j (mk_addr (swap32 saddr_h) (swap16 j)) in
        if Z.of_nat (length (pool ap)) >? max + 20000 then Some (ap, true)
        else fill_core core num_queues daddr_h dport_h limit max endian ap i js
  end.

Fixpoint fill_cores (core num_queues daddr_h dport_h limit max : Z) (endian : bool)
    (ap : addr_pool) (idxs : list Z) : option addr_pool :=
  match idxs with
  | [] => Some ap
  | i :: idxs =>
    '(ap, flag) ← fill_core core num_queues daddr_h dport_h limit max endian ap i ports;
    if (flag : bool) then Some ap
    else fill_cores core num_queues daddr_h dport_h limit max endian ap idxs
  end.

(** [max] is [CONFIG.max_concurrency], [endian] the result of
    [FetchEndianType]; the inner [None] is a failed allocation. *)
Definition CreateAddressPoolPerCore (alloc_ok : bool) (max : Z) (endian : bool)
    (core num_queues saddr_base n daddr dport : Z) : option (option addr_pool) :=
  if negb alloc_ok then Some None
  else
    if num_queues =? 0 then None
    else
      let limit := Z.quot (n * (MAX_PORT - MIN_PORT)) num_queues in
      ap ← fill_cores core num_queues (swap32 daddr) (swap16 dport) limit max endian
             (empty_pool (swap32 saddr_base) n) (indices n);
      Some (Some (finish ap)).

(** Moving the entry [e] from one list to the other. *)
Definition take_entry (ap : addr_pool) (e : Z) : addr_pool :=
  ap <| free_list := TAILQ_REMOVE (free_list ap) e |>
     <| used_list := TAILQ_INSERT_TAIL (used_list ap) e |>
     <| num_free := s32 (num_free ap - 1) |> <| num_used := s32 (num_used ap + 1) |>.

Definition entry (ap : addr_pool) (e : Z) : option sockaddr_in := pool ap !! Z.to_nat e.

(** The walk of [FetchAddress] along the free list. *)
Fixpoint find_entry (ap : addr_pool) (core num_queues : Z) (endian : bool)
    (daddr saddr : sockaddr_in) (l : list Z) : option (option (Z * sockaddr_in)) :=
  match l with
  | [] => Some None
  | e :: l =>
    a ← entry ap e;
    if negb (sin_addr saddr =? INADDR_ANY) && negb (sin_addr a =? sin_addr saddr)
    then find_entry ap core num_queues endian daddr saddr l
    else if negb (sin_port saddr =? INPORT_ANY) && negb (sin_port a =? sin_port saddr)
    then find_entry ap core num_queues endian daddr saddr l
    else
      rss_core ← Rss.GetRSSCPUCore (swap32 (sin_addr a)) (swap32 (sin_addr daddr))
                   (swap16 (sin_port a)) (swap16 (sin_port daddr)) num_queues endian;
      if core =? rss_core then Some (Some (e, a))
      else find_entry ap core num_queues endian daddr saddr l
  end.

(** Result, the new [*saddr] and the pool. *)
Definition FetchAddress (ap : addr_pool) (endian : bool) (core num_queues : Z)
    (daddr saddr : sockaddr_in) : option (Z * sockaddr_in * addr_pool) :=
  w ← find_entry ap core num_queues endian daddr saddr (free_list ap);
  match w with
  | Some (e, a) => Some (0, a, take_entry ap e)
  | None => Some (-1, saddr, ap)
  end.

Definition FetchAddressPerCore (ap : addr_pool) (saddr : sockaddr_in)
  : option (Z * sockaddr_in * addr_pool) :=
  match TAILQ_FIRST (free_list ap) with
  | Some e => a ← entry ap e; Some (0, a, take_entry ap e)
  | None => Some (-1, saddr, ap)
  end.

Definition FreeAddress (ap : addr_pool) (addr : sockaddr_in) : option (Z * addr_pool) :=
  let addr_h := swap32 (sin_addr addr) in
  let port_h := swap16 (sin_port addr) in
  let index := s32 (addr_h - addr_base ap) in
  let walk := if (0 <=? index) && (index <? num_addr ap)
              then mapper ap !! (index, port_h) else None in
  match walk with
  | Some e =>
    if decide (e ∈ used_list ap) then
      Some (0, ap <| used_list := TAILQ_REMOVE (used_list ap) e |>
                  <| free_list := TAILQ_INSERT_TAIL (free_list ap) e |>
                  <| num_free := s32 (num_free ap + 1) |> <| num_used := s32 (num_used ap - 1) |>)
    else None
  | None => Some (-1, ap)
  end.

(** ** Invariant *)

(** The (address, port) pair of a mapper key, as the entries store it. *)
Definition addr_of (ap : addr_pool) (k : Z * Z) : sockaddr_in :=
  mk_addr (swap32 (addr_base ap ⊞ k.1)) (swap16 k.2).

Record ap_ok (ap : addr_pool) : Prop := mk_ap_ok {
  ok_base : 0 <= addr_base ap ∧ addr_base ap + num_addr ap <= 4294967296 ∧ 0 <= num_addr ap < 2147483648;
  ok_size : Z.of_nat (length (pool ap)) < 2147483648;
  ok_lists : free_list ap ++ used_list ap ≡ₚ indices (Z.of_nat (length (pool ap)));
  ok_free : num_free ap = Z.of_nat (length (free_list ap));
  ok_used : num_used ap = Z.of_nat (length (used_list ap));
  ok_keys : ∀ k e, mapper ap !! k = Some e →
    0 <= k.1 < num_addr ap ∧ MIN_PORT <= k.2 < MAX_PORT ∧ 0 <= e ∧ entry ap e = Some (addr_of ap k);
  ok_entries : ∀ e a, 0 <= e → entry ap e = Some a → ∃ k, mapper ap !! k = Some e
}.

(** What [FetchAddress] looks for: the requested address and port, where the
    request is not a wildcard, on a flow that hashes to the core. *)
Definition suits (core nq : Z) (endian : bool) (daddr saddr a : sockaddr_in) : Prop :=
  (sin_addr saddr = INADDR_ANY ∨ sin_addr a = sin_addr saddr)
  ∧ (sin_port saddr = INPORT_ANY ∨ sin_port a = sin_port saddr)
  ∧ Rss.GetRSSCPUCore (swap32 (sin_addr a)) (swap32 (sin_addr daddr))
      (swap16 (sin_port a)) (swap16 (sin_port daddr)) nq endian = Some core.

Lemma elem_of_indices n e : 0 <= n → e ∈ indices n ↔ 0 <= e < n.
Proof.
  intros Hn. unfold indices. rewrite list_elem_of_fmap. split.
  - intros (k&->&Hk%elem_of_seq). lia.
  - intros He. exists (Z.to_nat e). rewrite elem_of_seq. lia.
Qed.
Lemma NoDup_indices n : NoDup (indices n).
Proof. apply NoDup_fmap_2; [intros ???; lia|apply NoDup_seq]. Qed.
Lemma indices_0 : indices 0 = [].
Proof. done. Qed.
Lemma indices_S n : 0 <= n → indices (n + 1) = indices n ++ [n].
Proof.
  intros Hn. unfold indices. replace (Z.to_nat (n + 1)) with (Z.to_nat n + 1)%nat by lia.
  rewrite seq_app, fmap_app. simpl. do 2 f_equal. lia.
Qed.

Lemma length_indices n : length (indices n) = Z.to_nat n.
Proof. unfold indices. by rewrite length_fmap, length_seq. Qed.

Section Facts.
Context (ap : addr_pool) (Hok : ap_ok ap).

Lemma ok_NoDup : NoDup (free_list ap ++ used_list ap).
Proof using Hok. rewrite (ok_lists _ Hok). apply NoDup_indices. Qed.

Lemma ok_index e : e ∈ free_list ap ∨ e ∈ used_list ap ↔ 0 <= e < Z.of_nat (length (pool ap)).
Proof using Hok.
  rewrite <- elem_of_app, (ok_lists _ Hok). apply elem_of_indices. lia.
Qed.

Lemma ok_entry e : e ∈ free_list ap ∨ e ∈ used_list ap → ∃ a, entry ap e = Some a.
Proof using Hok.
  intros He%ok_index. unfold entry. apply lookup_lt_is_Some. lia.
Qed.

Lemma ok_length : Z.of_nat (length (free_list ap)) + Z.of_nat (length (used_list ap))
  = Z.of_nat (length (pool ap)).
Proof using Hok.
  pose proof (ok_lists _ Hok) as Hp. apply Permutation_length in Hp.
  rewrite length_app, length_indices in Hp. lia.
Qed.

(** Different mapper keys have different addresses, so an address determines
    its entry. *)
Lemma addr_of_inj k1 k2 e1 e2 :
  mapper ap !! k1 = Some e1 → mapper ap !! k2 = Some e2 → addr_of ap k1 = addr_of ap k2 → k1 = k2.
Proof using Hok.
  intros H1 H2 E. apply (ok_keys _ Hok) in H1 as (?&?&_), H2 as (?&?&_).
  pose proof (ok_base _ Hok). unfold MIN_PORT, MAX_PORT in *.
  destruct k1 as [i1 p1], k2 as [i2 p2]. unfold addr_of in E. simpl in *. injection E as E1 E2.
  apply (f_equal swap16) in E2. rewrite !swap16_involutive in E2 by lia.
  apply (f_equal swap32) in E1. rewrite !u32_id in E1 by lia.
  rewrite !swap32_involutive in E1 by lia. f_equal; lia.
Qed.

(** [FreeAddress] finds the entry of an address that is in the pool. *)
Lemma lookup_addr e a :
  0 <= e → entry ap e = Some a →
  let index := s32 (swap32 (sin_addr a) - addr_base ap) in
  (0 <=? index) && (index <? num_addr ap) = true ∧ mapper ap !! (index, swap16 (sin_port a)) = Some e.
Proof using Hok.
  intros He Ha. destruct (ok_entries _ Hok e a He Ha) as ([i j]&Hk).
  pose proof (ok_keys _ Hok _ _ Hk) as (Hi&Hj&_&Ha'). pose proof (ok_base _ Hok).
  unfold MIN_PORT, MAX_PORT in *. simpl in *. rewrite Ha in Ha'. injection Ha' as ->.
  unfold addr_of. simpl. rewrite u32_id, swap32_involutive, swap16_involutive by lia.
  replace (addr_base ap + i - addr_base ap) with i by lia. rewrite s32_id by lia.
  split; [lia|done].
Qed.

Lemma take_entry_ok e : e ∈ free_list ap → ap_ok (take_entry ap e).
Proof using Hok.
  intros He. pose proof ok_NoDup as Hnd. apply NoDup_app in Hnd as (Hnf&Hd&Hnu).
  pose proof ok_length. pose proof (ok_size _ Hok).
  assert (Z.of_nat (length (free_list ap)) > 0) by (destruct (free_list ap); [set_solver|simpl; lia]).
  destruct Hok as [Hb Hs Hl Hf Hu Hk Hen]. unfold take_entry. split; rec_simpl; try done.
  - rewrite <- Hl. unfold TAILQ_INSERT_TAIL, TAILQ_REMOVE.
    rewrite (Permutation_app_comm (used_list ap)), app_assoc. apply Permutation_app_tail.
    rewrite Permutation_app_comm. simpl. apply NoDup_Permutation; [|done|].
    + apply NoDup_cons. rewrite list_elem_of_filter. split; [naive_solver|by apply NoDup_filter].
    + intros x. rewrite elem_of_cons, list_elem_of_filter. destruct (decide (x = e)); naive_solver.
  - rewrite s32_id by lia. by rewrite length_TAILQ_REMOVE, Hf by done.
  - rewrite s32_id by lia. by rewrite length_TAILQ_INSERT_TAIL, Hu.
Qed.

Lemma FreeAddress_spec e a :
  e ∈ used_list ap → entry ap e = Some a →
  ∃ ap', FreeAddress ap a = Some (0, ap') ∧ ap_ok ap'
    ∧ (free_list ap' = free_list ap ++ [e]) ∧ used_list ap' = TAILQ_REMOVE (used_list ap) e
    ∧ pool ap' = pool ap.
Proof using Hok.
  intros He Ha. pose proof (proj1 (ok_index e) (or_intror He)) as Hr.
  destruct (lookup_addr e a ltac:(lia) Ha) as [E1 E2].
  unfold FreeAddress. rewrite E1, E2. rewrite decide_True by done.
  eexists. split; [reflexivity|]. rec_simpl. split; [|done].
  pose proof ok_NoDup as Hnd. apply NoDup_app in Hnd as (Hnf&Hd&Hnu).
  pose proof ok_length. pose proof (ok_size _ Hok).
  assert (Z.of_nat (length (used_list ap)) > 0) by (destruct (used_list ap); [set_solver|simpl; lia]).
  destruct Hok as [Hb Hs Hl Hf Hu Hk Hen]. split; rec_simpl; try done.
  - rewrite <- Hl. unfold TAILQ_INSERT_TAIL, TAILQ_REMOVE. rewrite <- app_assoc.
    apply Permutation_app_head. simpl. apply NoDup_Permutation; [|done|].
    + apply NoDup_cons. rewrite list_elem_of_filter. split; [naive_solver|by apply NoDup_filter].
    + intros x. rewrite elem_of_cons, list_elem_of_filter. destruct (decide (x = e)); naive_solver.
  - rewrite s32_id by lia. by rewrite length_TAILQ_INSERT_TAIL, Hf.
  - rewrite s32_id by lia. by rewrite length_TAILQ_REMOVE, Hu by done.
Qed.

(** An address that is not in use is found by the mapper all the same. *)
Lemma FreeAddress_double e a :
  e ∈ free_list ap → entry ap e = Some a → FreeAddress ap a = None.
Proof using Hok.
  intros He Ha. pose proof (proj1 (ok_index e) (or_introl He)) as Hr.
  destruct (lookup_addr e a ltac:(lia) Ha) as [E1 E2].
  unfold FreeAddress. rewrite E1, E2. rewrite decide_False; [done|].
  pose proof ok_NoDup as Hnd. apply NoDup_app in Hnd as (_&Hd&_). by apply Hd.
Qed.

Lemma find_entry_spec core nq endian daddr saddr l :
  0 < nq < 2147483648 → (∀ e, e ∈ l → e ∈ free_list ap) →
  ∃ w, find_entry ap core nq endian daddr saddr l = Some w ∧
    match w with
    | Some (e, a) => e ∈ l ∧ entry ap e = Some a ∧ suits core nq endian daddr saddr a
    | None => ∀ e a, e ∈ l → entry ap e = Some a → ¬ suits core nq endian daddr saddr a
    end.
Proof using Hok.
  intros Hq. induction l as [|e l IH]; intros Hl; simpl.
  { exists None. split; [done|]. intros e a He. by apply not_elem_of_nil in He. }
  destruct (ok_entry e) as [a Ha]; [left; apply Hl; left|].
  rewrite Ha. simpl. destruct IH as (w&E&Hw); [set_solver|].
  assert (¬ suits core nq endian daddr saddr a →
    ∃ w, find_entry ap core nq endian daddr saddr l = Some w ∧
    match w with
    | Some (e0, a0) => e0 ∈ e :: l ∧ entry ap e0 = Some a0 ∧ suits core nq endian daddr saddr a0
    | None => ∀ e0 a0, e0 ∈ e :: l → entry ap e0 = Some a0 → ¬ suits core nq endian daddr saddr a0
    end) as Hskip.
  { intros Hns. exists w. split; [done|]. destruct w as [[e0 a0]|].
    - destruct Hw as (?&?&?). split_and!; try done. by right.
    - intros e0 a0 [->|He]%elem_of_cons He0; [congruence|by eapply Hw]. }
  unfold suits in *. destruct (Rss.core_in_range (swap32 (sin_addr a)) (swap32 (sin_addr daddr))
      (swap16 (sin_port a)) (swap16 (sin_port daddr)) nq endian Hq) as (c&Ec&_). rewrite Ec in *.
  destruct (Z.eqb_spec (sin_addr saddr) INADDR_ANY), (Z.eqb_spec (sin_addr a) (sin_addr saddr)),
    (Z.eqb_spec (sin_port saddr) INPORT_ANY), (Z.eqb_spec (sin_port a) (sin_port saddr));
    simpl; try (apply Hskip; tauto);
    (destruct (Z.eqb_spec core c) as [->|Hc]; [|apply Hskip; intros (_&_&[= E3]); done]);
    exists (Some (e, a)); (split; [done|]); (split; [left|]); rewrite ?Ec; tauto.
Qed.

(** Two entries never hold the same address. *)
Lemma entry_inj e1 e2 a : 0 <= e1 → 0 <= e2 → entry ap e1 = Some a → entry ap e2 = Some a → e1 = e2.
Proof using Hok.
  intros H1 H2 E1 E2.
  destruct (ok_entries _ Hok _ _ H1 E1) as [k1 K1], (ok_entries _ Hok _ _ H2 E2) as [k2 K2].
  pose proof (ok_keys _ Hok _ _ K1) as (_&_&_&A1). pose proof (ok_keys _ Hok _ _ K2) as (_&_&_&A2).
  rewrite A1 in E1. rewrite A2 in E2. rewrite (addr_of_inj k1 k2 e1 e2 K1 K2) in K1 by congruence.
  congruence.
Qed.
End Facts.

(** ** Creation *)

(** A pool under construction: every entry free, with its mapper key, and
    satisfying [Q] (for a per-core pool: hashing to the core). *)
Record building (base n : Z) (Q : sockaddr_in → Prop) (ap : addr_pool) : Prop := mk_building {
  b_base : addr_base ap = base ∧ num_addr ap = n;
  b_free : free_list ap = indices (Z.of_nat (length (pool ap)));
  b_used : used_list ap = [];
  b_keys : ∀ k e, mapper ap !! k = Some e →
    0 <= k.1 < n ∧ MIN_PORT <= k.2 < MAX_PORT ∧ 0 <= e ∧ entry ap e = Some (addr_of ap k);
  b_entries : ∀ e a, 0 <= e → entry ap e = Some a → (∃ k, mapper ap !! k = Some e) ∧ Q a
}.

Lemma elem_of_ports j : j ∈ ports ↔ MIN_PORT <= j < MAX_PORT.
Proof.
  unfold ports, MIN_PORT, MAX_PORT. rewrite list_elem_of_fmap. split.
  - intros (k&->&Hk%elem_of_seq). lia.
  - intros Hj. exists (Z.to_nat (j - 1025)). rewrite elem_of_seq. lia.
Qed.
Lemma NoDup_ports : NoDup ports.
Proof. apply NoDup_fmap_2; [intros ???; lia|apply NoDup_seq]. Qed.

#[local] Opaque ports indices.

Section Building.
Context (base n : Z) (Q : sockaddr_in → Prop).

Lemma add_entry_building ap i j :
  building base n Q ap → 0 <= i < n → MIN_PORT <= j < MAX_PORT → mapper ap !! (i, j) = None →
  Q (mk_addr (swap32 (base ⊞ i)) (swap16 j)) →
  building base n Q (add_entry ap i j (mk_addr (swap32 (addr_base ap ⊞ i)) (swap16 j))).
Proof.
  intros [[Hb Hn] Hf Hu Hk He] Hi Hj Hnew HQ. rewrite Hb.
  unfold add_entry. split; rec_simpl; try done.
  - rewrite Hf, length_app. simpl. rewrite Nat2Z.inj_add, indices_S by lia. done.
  - intros k e. rewrite lookup_insert_Some. unfold entry, addr_of. rec_simpl. intros [[<- <-]|[Hne Hm]].
    + simpl. split_and!; try lia. rewrite Nat2Z.id, list_lookup_middle by done. by rewrite Hb.
    + destruct (Hk _ _ Hm) as (?&?&?&Hl). split_and!; try lia.
      rewrite lookup_app_l; [exact Hl|]. by apply lookup_lt_Some in Hl.
  - intros e a He0. unfold entry. rec_simpl. rewrite lookup_app_Some. intros [Hl|[Hge Hl]].
    + destruct (He e a He0 Hl) as [[k Hm] HQa]. split; [|done]. exists k.
      rewrite lookup_insert_ne; [done|]. intros <-. congruence.
    + apply list_lookup_singleton_Some in Hl as [Hz <-]. split; [|done]. exists (i, j).
      rewrite lookup_insert_eq. f_equal. lia.
Qed.

Lemma add_entry_mapper ap i j a k :
  k ≠ (i, j) → mapper (add_entry ap i j a) !! k = mapper ap !! k.
Proof. intros. unfold add_entry. rec_simpl. by rewrite lookup_insert_ne. Qed.

Lemma fill_building limit i js : ∀ ap,
  (∀ j, j ∈ js → MIN_PORT <= j < MAX_PORT ∧ mapper ap !! (i, j) = None) → NoDup js →
  (∀ a, Q a) → 0 <= i < n → building base n Q ap →
  building base n Q (fill ap limit i js)
  ∧ (∀ i' j, i' ≠ i → mapper (fill ap limit i js) !! (i', j) = mapper ap !! (i', j)).
Proof.
  induction js as [|j js IH]; intros ap Hjs Hnd HQ Hi Hb; simpl; [done|].
  apply NoDup_cons in Hnd as [Hnj Hnd]. destruct (Hjs j) as [Hj Hn]; [left|].
  pose proof (add_entry_building ap i j Hb Hi Hj Hn (HQ _)) as Hb'.
  set (ap' := add_entry ap i j _) in *.
  assert (∀ k, k ≠ (i, j) → mapper ap' !! k = mapper ap !! k) as Hm by (intros; by apply add_entry_mapper).
  clearbody ap'. destruct (_ >=? limit).
  - split; [done|]. intros i' j' Hne. apply Hm. congruence.
  - destruct (IH ap') as [IH1 IH2]; try done.
    { intros j' Hj'. destruct (Hjs j') as [? Hn']; [by right|]. split; [done|].
      rewrite Hm; [done|]. intros [= ->]. done. }
    split; [done|]. intros i' j' Hne. rewrite IH2 by done. apply Hm. congruence.
Qed.

Lemma fill_core_building core nq daddr_h dport_h limit max endian i js : ∀ ap,
  (∀ a, Q a ↔ Rss.GetRSSCPUCore daddr_h (swap32 (sin_addr a)) dport_h (swap16 (sin_port a)) nq endian
              = Some core) →
  (∀ j, j ∈ js → MIN_PORT <= j < MAX_PORT ∧ mapper ap !! (i, j) = None) → NoDup js →
  0 < nq < 2147483648 → 0 <= base → base + n <= 4294967296 → 0 <= i < n → building base n Q ap →
  ∃ ap' flag, fill_core core nq daddr_h dport_h limit max endian ap i js = Some (ap', flag)
    ∧ building base n Q ap'
    ∧ (∀ i' j, i' ≠ i → mapper ap' !! (i', j) = mapper ap !! (i', j)).
Proof.
  intros ap HQ. revert ap.
  induction js as [|j js IH]; intros ap Hjs Hnd Hq Hb0 Hbn Hi Hb; simpl; [by exists ap, false|].
  apply NoDup_cons in Hnd as [Hnj Hnd]. destruct (Hjs j) as [Hj Hn]; [left|].
  destruct (_ >=? limit); [by exists ap, false|].
  pose proof (b_base _ _ _ _ Hb) as [Hbase _].
  destruct (Rss.core_in_range daddr_h (addr_base ap ⊞ i) dport_h j nq endian Hq) as (c&Ec&_).
  rewrite Ec. simpl. destruct (Z.eqb_spec c core) as [->|]; simpl.
  - assert (Q (mk_addr (swap32 (base ⊞ i)) (swap16 j))) as HQj.
    { apply HQ. simpl. unfold MIN_PORT, MAX_PORT in *. rewrite swap32_involutive, swap16_involutive by (lia || apply u32_range).
      by rewrite <- Hbase. }
    pose proof (add_entry_building ap i j Hb Hi Hj Hn HQj) as Hb'.
    set (ap' := add_entry ap i j _) in *.
    assert (∀ k, k ≠ (i, j) → mapper ap' !! k = mapper ap !! k) as Hm by (intros; by apply add_entry_mapper).
    clearbody ap'. destruct (_ >? max + 20000).
    + exists ap', true. split_and!; try done. intros i' j' Hne. apply Hm. congruence.
    + destruct (IH ap') as (ap2&fl&E&Hb2&Hm2); try done.
      { intros j' Hj'. destruct (Hjs j') as [? Hn']; [by right|]. split; [done|].
        rewrite Hm; [done|]. intros [= ->]. done. }
      exists ap2, fl. split_and!; try done. intros i' j' Hne. rewrite Hm2 by done. apply Hm. congruence.
  - apply IH; try done. intros j' Hj'. apply Hjs. by right.
Qed.

Lemma fill_cores_building core nq daddr_h dport_h limit max endian idxs : ∀ ap,
  (∀ a, Q a ↔ Rss.GetRSSCPUCore daddr_h (swap32 (sin_addr a)) dport_h (swap16 (sin_port a)) nq endian
              = Some core) →
  (∀ i, i ∈ idxs → 0 <= i < n ∧ ∀ j, mapper ap !! (i, j) = None) → NoDup idxs →
  0 < nq < 2147483648 → 0 <= base → base + n <= 4294967296 → building base n Q ap →
  ∃ ap', fill_cores core nq daddr_h dport_h limit max endian ap idxs = Some ap' ∧ building base n Q ap'.
Proof.
  intros ap HQ. revert ap.
  induction idxs as [|i idxs IH]; intros ap Hids Hnd Hq Hb0 Hbn Hb; simpl; [by exists ap|].
  apply NoDup_cons in Hnd as [Hni Hnd]. destruct (Hids i) as [Hi Hn]; [left|].
  destruct (fill_core_building core nq daddr_h dport_h limit max endian i ports ap HQ)
    as (ap'&fl&E&Hb'&Hm); [|apply NoDup_ports|assumption..|].
  { intros j Hj%elem_of_ports. split; [assumption|apply Hn]. }
  rewrite E. simpl. destruct fl; [by exists ap'|]. apply IH; try done.
  intros i' Hi'. destruct (Hids i') as [? Hn']; [by right|]. split; [done|].
  intros j. rewrite Hm; [apply Hn'|]. intros ->. done.
Qed.

Lemma building_empty : building base n Q (empty_pool base n).
Proof. by split. Qed.

Lemma finish_ok ap :
  0 <= base → base + n <= 4294967296 → 0 <= n < 2147483648 →
  Z.of_nat (length (pool ap)) < 2147483648 → building base n Q ap → ap_ok (finish ap).
Proof.
  intros ??? Hl [[Hb Hn] Hf Hu Hk He]. unfold finish. split; rec_simpl; rewrite ?Hb, ?Hn, ?Hu; try done.
  - rewrite app_nil_r, Hf. done.
  - rewrite Hf, length_indices. lia.
  - intros e a He0 Ha. by destruct (He e a He0 Ha).
Qed.
End Building.

Lemma add_entry_length ap i j a : length (pool (add_entry ap i j a)) = S (length (pool ap)).
Proof. unfold add_entry. rec_simpl. rewrite length_app. simpl. lia. Qed.

Lemma fill_core_length core nq dh dp limit max endian i js : ∀ ap ap' fl,
  Z.of_nat (length (pool ap)) <= Z.max 0 limit →
  fill_core core nq dh dp limit max endian ap i js = Some (ap', fl) →
  Z.of_nat (length (pool ap')) <= Z.max 0 limit.
Proof.
  induction js as [|j js IH]; intros ap ap' fl Hl; simpl; [by intros [= <- <-]|].
  rewrite Z.geb_leb. destruct (Z.leb_spec limit (Z.of_nat (length (pool ap)))); [by intros [= <- <-]|].
  destruct (Rss.GetRSSCPUCore _ _ _ _ _ _) as [c|]; [|done]. simpl.
  destruct (negb _); [by apply IH|]. destruct (_ >? _).
  - intros [= <- <-]. rewrite add_entry_length. lia.
  - apply IH. rewrite add_entry_length. lia.
Qed.

Lemma fill_cores_length core nq dh dp limit max endian idxs : ∀ ap ap',
  Z.of_nat (length (pool ap)) <= Z.max 0 limit →
  fill_cores core nq dh dp limit max endian ap idxs = Some ap' →
  Z.of_nat (length (pool ap')) <= Z.max 0 limit.
Proof.
  induction idxs as [|i idxs IH]; intros ap ap' Hl; simpl; [by intros [= <-]|].
  destruct (fill_core _ _ _ _ _ _ _ _ _ _) as [[ap1 fl]|] eqn:E; [|done]. simpl.
  apply fill_core_length in E; [|done]. destruct fl; [by intros [= <-]|]. by apply IH.
Qed.

(** ** Sessions *)

(** The users of a pool: they fetch addresses (any, or one that suits a
    request) and give back the [k]-th of the addresses they hold. *)
Inductive op :=
  | Fetch (core nq : Z) (endian : bool) (daddr saddr : sockaddr_in)
  | FetchAny (saddr : sockaddr_in)
  | Free (k : nat).

Definition op_ok (o : op) : Prop :=
  match o with Fetch _ nq _ _ _ => 0 < nq < 2147483648 | _ => True end.

Definition ap_step (s : addr_pool * list sockaddr_in) (o : op) : option (addr_pool * list sockaddr_in) :=
  let '(ap, held) := s in
  match o with
  | Fetch core nq endian daddr saddr =>
    '(ret, a, ap) ← FetchAddress ap endian core nq daddr saddr;
    Some (ap, if ret =? 0 then held ++ [a] else held)
  | FetchAny saddr =>
    '(ret, a, ap) ← FetchAddressPerCore ap saddr;
    Some (ap, if ret =? 0 then held ++ [a] else held)
  | Free k =>
    match held !! k with
    | Some a => '(ret, ap) ← FreeAddress ap a; Some (ap, if ret =? 0 then delete k held else held)
    | None => Some (ap, held)
    end
  end.

Fixpoint ap_run (s : addr_pool * list sockaddr_in) (os : list op) : option (addr_pool * list sockaddr_in) :=
  match os with
  | [] => Some s
  | o :: os => s ← ap_step s o; ap_run s os
  end.

(** The addresses held are those of the entries on the used list. *)
Definition session_ok (p : list sockaddr_in) (s : addr_pool * list sockaddr_in) : Prop :=
  ap_ok s.1 ∧ pool s.1 = p ∧ Some <$> s.2 ≡ₚ entry s.1 <$> used_list s.1.

Lemma fetch_session_ok p ap held e a :
  session_ok p (ap, held) → e ∈ free_list ap → entry ap e = Some a →
  session_ok p (take_entry ap e, held ++ [a]).
Proof.
  intros (Hok&Hp&Hh) He Ha. simpl in *. split_and!; simpl.
  - by apply take_entry_ok.
  - done.
  - unfold take_entry, TAILQ_INSERT_TAIL. rec_simpl. rewrite !fmap_app, Hh. simpl.
    apply Permutation_app_head. by rewrite <- Ha.
Qed.

Lemma delete_fmap_Permutation {A} (l : list A) k x : l !! k = Some x → l ≡ₚ x :: delete k l.
Proof. apply delete_Permutation. Qed.

Lemma TAILQ_REMOVE_Permutation (l : list Z) e : NoDup l → e ∈ l → l ≡ₚ e :: TAILQ_REMOVE l e.
Proof.
  intros Hnd He. unfold TAILQ_REMOVE. apply NoDup_Permutation; [done| |].
  - apply NoDup_cons. rewrite list_elem_of_filter. split; [naive_solver|by apply NoDup_filter].
  - intros x. rewrite elem_of_cons, list_elem_of_filter. destruct (decide (x = e)); naive_solver.
Qed.

Lemma free_session_ok p ap held k a :
  session_ok p (ap, held) → held !! k = Some a →
  ∃ ap', FreeAddress ap a = Some (0, ap') ∧ session_ok p (ap', delete k held).
Proof.
  intros (Hok&Hp&Hh) Hk. simpl in *.
  assert (∃ e, e ∈ used_list ap ∧ entry ap e = Some a) as (e&He&Ha).
  { assert (Some a ∈ entry ap <$> used_list ap) as Hin.
    { rewrite <- Hh. apply list_elem_of_fmap. exists a. split; [done|]. by eapply list_elem_of_lookup_2. }
    apply list_elem_of_fmap in Hin as (e&?&?). by exists e. }
  destruct (FreeAddress_spec ap Hok e a He Ha) as (ap'&E&Hok'&Hf&Hu&Hpl).
  exists ap'. split; [done|]. split_and!; simpl; [done|congruence|].
  pose proof (ok_NoDup ap Hok) as Hnd. apply NoDup_app in Hnd as (_&_&Hnu).
  rewrite Hu. apply (Permutation_cons_inv (a := Some a)).
  rewrite (delete_Permutation _ _ _ Hk), (TAILQ_REMOVE_Permutation _ _ Hnu He) in Hh.
  simpl in Hh. rewrite Ha in Hh. rewrite Hh. unfold entry. by rewrite Hpl.
Qed.

Lemma step_session_ok p s o :
  op_ok o → session_ok p s → ∃ s', ap_step s o = Some s' ∧ session_ok p s'.
Proof.
  destruct s as [ap held]. intros Ho Hs. pose proof Hs as (Hok&_&_). simpl in Hok.
  destruct o as [core nq endian daddr saddr|saddr|k]; simpl.
  - unfold FetchAddress.
    destruct (find_entry_spec ap Hok core nq endian daddr saddr (free_list ap) Ho (λ _ H, H)) as (w&E&Hw).
    rewrite E. simpl. destruct w as [[e a]|]; simpl; eexists; (split; [reflexivity|]); [|done].
    destruct Hw as (He&Ha&_). by apply fetch_session_ok.
  - unfold FetchAddressPerCore. destruct (TAILQ_FIRST (free_list ap)) as [e|] eqn:E; simpl;
      [|eexists; split; [reflexivity|done]].
    assert (e ∈ free_list ap) as He by (destruct (free_list ap); [done|injection E as ->; left]).
    destruct (ok_entry ap Hok e (or_introl He)) as [a Ha]. rewrite Ha. simpl.
    eexists. split; [reflexivity|]. by apply fetch_session_ok.
  - destruct (held !! k) as [a|] eqn:Ek; [|eexists; split; [reflexivity|done]].
    destruct (free_session_ok p ap held k a Hs Ek) as (ap'&E&Hs'). rewrite E. simpl.
    eexists. split; [reflexivity|done].
Qed.

Lemma run_session_ok p os : ∀ s,
  Forall op_ok os → session_ok p s → ∃ s', ap_run s os = Some s' ∧ session_ok p s'.
Proof.
  induction os as [|o os IH]; intros s Hos Hs; simpl; [by exists s|].
  apply Forall_cons in Hos as [Ho Hos]. destruct (step_session_ok p s o Ho Hs) as (s'&E&Hs').
  rewrite E. simpl. by apply IH.
Qed.

Lemma session_NoDup p s : session_ok p s → NoDup s.2.
Proof.
  intros (Hok&_&Hh). apply (NoDup_fmap_1 Some). rewrite Hh.
  pose proof (ok_NoDup _ Hok) as Hnd. apply NoDup_app in Hnd as (_&_&Hnu).
  apply NoDup_fmap_2_strong; [|done]. intros e1 e2 H1 H2 E.
  pose proof (proj1 (ok_index _ Hok e1) (or_intror H1)). pose proof (proj1 (ok_index _ Hok e2) (or_intror H2)).
  destruct (ok_entry _ Hok e1 (or_intror H1)) as [a Ha].
  eapply (entry_inj _ Hok e1 e2 a); try lia; congruence.
Qed.

Definition demo_pool : addr_pool :=
  finish (add_entry (add_entry (empty_pool 167772161 1) 0 1025 (mk_addr (swap32 167772161) (swap16 1025)))
    0 1026 (mk_addr (swap32 167772161) (swap16 1026))).

Lemma demo_pool_ok : ap_ok demo_pool.
Proof.
  apply (finish_ok 167772161 1 (λ _, True)); try done.
  change (mk_addr (swap32 167772161) (swap16 1026)) with
    (mk_addr (swap32 (addr_base (add_entry (empty_pool 167772161 1) 0 1025
      (mk_addr (swap32 167772161) (swap16 1025))) ⊞ 0)) (swap16 1026)).
  apply add_entry_building; try done.
  change (mk_addr (swap32 167772161) (swap16 1025)) with
    (mk_addr (swap32 (addr_base (empty_pool 167772161 1) ⊞ 0)) (swap16 1025)).
  by apply add_entry_building.
Qed.



(** [FetchAddress] returns a free entry that has the requested address and
    port and hashes to the calling core, and moves that entry to the used list;
    it fails only when no free entry is such, and then changes nothing. *)
Theorem FetchAddress_suits ap endian core nq daddr saddr :
  ap_ok ap → 0 < nq < 2147483648 →
  (∃ e a, e ∈ free_list ap ∧ entry ap e = Some a ∧ suits core nq endian daddr saddr a
    ∧ FetchAddress ap endian core nq daddr saddr = Some (0, a, take_entry ap e))
  ∨ ((∀ e a, e ∈ free_list ap → entry ap e = Some a → ¬ suits core nq endian daddr saddr a)
    ∧ FetchAddress ap endian core nq daddr saddr = Some (-1, saddr, ap)).
Proof.
  intros Hok Hq. unfold FetchAddress.
  destruct (find_entry_spec ap Hok core nq endian daddr saddr (free_list ap) Hq (λ _ H, H)) as (w&E&Hw).
  rewrite E. simpl. destruct w as [[e a]|]; [left|right; done].
  destruct Hw as (He&Ha&Hs). by exists e, a.
Qed.

Lemma FetchAddress_suits_witness :
  let fetch := FetchAddress demo_pool false 0 1 (mk_addr 5 6) (mk_addr 0 (swap16 1026)) in
  (∃ e a, e ∈ free_list demo_pool ∧ entry demo_pool e = Some a
    ∧ suits 0 1 false (mk_addr 5 6) (mk_addr 0 (swap16 1026)) a
    ∧ fetch = Some (0, a, take_entry demo_pool e))
  ∨ ((∀ e a, e ∈ free_list demo_pool → entry demo_pool e = Some a →
        ¬ suits 0 1 false (mk_addr 5 6) (mk_addr 0 (swap16 1026)) a)
    ∧ fetch = Some (-1, mk_addr 0 (swap16 1026), demo_pool)).
Proof. apply (FetchAddress_suits demo_pool); [apply demo_pool_ok|lia]. Defined.

(** A per-core pool holds only addresses whose flow to the destination
    hashes, remote end first, to that core; it starts with every entry free
    and its tables consistent. *)
Theorem CreateAddressPoolPerCore_hashes max endian core nq saddr_base n daddr dport :
  0 < nq < 2147483648 → 0 <= saddr_base < 4294967296 → 0 <= n → n * 64511 < 2147483648 →
  swap32 saddr_base + n <= 4294967296 →
  ∃ ap, CreateAddressPoolPerCore true max endian core nq saddr_base n daddr dport = Some (Some ap)
    ∧ ap_ok ap ∧ used_list ap = [] ∧ num_free ap = Z.of_nat (length (pool ap))
    ∧ ∀ a, a ∈ pool ap →
        Rss.GetRSSCPUCore (swap32 daddr) (swap32 (sin_addr a)) (swap16 dport) (swap16 (sin_port a)) nq endian
        = Some core.
Proof.
  intros Hq Hs Hn Hn2 Hb. unfold CreateAddressPoolPerCore. simpl negb.
  destruct (Z.eqb_spec nq 0); [lia|]. set (limit := Z.quot _ _).
  assert (Z.max 0 limit < 2147483648) as Hlim.
  { unfold limit, MAX_PORT, MIN_PORT. rewrite Z.quot_div_nonneg by lia.
    pose proof (Z.div_le_upper_bound (n * (65536 - 1025)) nq (n * 64511)). nia. }
  set (Q := λ a, Rss.GetRSSCPUCore (swap32 daddr) (swap32 (sin_addr a)) (swap16 dport)
                   (swap16 (sin_port a)) nq endian = Some core).
  pose proof (swap32_range saddr_base) as Hr.
  destruct (fill_cores_building (swap32 saddr_base) n Q core nq (swap32 daddr) (swap16 dport) limit max
    endian (indices n) (empty_pool (swap32 saddr_base) n)) as (ap&E&Hbu);
    [done| |apply NoDup_indices|lia|lia|lia|apply building_empty|].
  { intros i Hi%elem_of_indices; [|lia]. split; [lia|]. intros j. apply lookup_empty. }
  rewrite E. simpl. exists (finish ap). split; [reflexivity|].
  apply fill_cores_length in E; [|simpl; lia].
  split; [apply (finish_ok (swap32 saddr_base) n Q); lia || done|].
  destruct Hbu as [_ Hf Hu _ He]. split_and!; [done..|].
  intros a (k&Hk)%list_elem_of_lookup_1. apply (He (Z.of_nat k) a); [lia|].
  unfold entry. by rewrite Nat2Z.id.
Qed.

Lemma CreateAddressPoolPerCore_hashes_witness :
  ∃ ap, CreateAddressPoolPerCore true 10000 false 3 8 (swap32 167772161) 4 (swap32 167772417) (swap16 80) = Some (Some ap)
    ∧ ap_ok ap ∧ used_list ap = [] ∧ num_free ap = Z.of_nat (length (pool ap))
    ∧ ∀ a, a ∈ pool ap →
        Rss.GetRSSCPUCore (swap32 (swap32 167772417)) (swap32 (sin_addr a)) (swap16 (swap16 80))
          (swap16 (sin_port a)) 8 false = Some 3.
Proof.
  exact (CreateAddressPoolPerCore_hashes 10000 false 3 8 (swap32 167772161) 4 (swap32 167772417) (swap16 80)
    ltac:(lia) (swap32_range _) ltac:(lia) ltac:(lia) ltac:(rewrite swap32_involutive; lia)).
Defined.

(** A pool with the one entry 10.0.0.1:1025, and the server 10.0.1.1:80. *)
Definition client : sockaddr_in := mk_addr (swap32 167772161) (swap16 1025).
Definition server : sockaddr_in := mk_addr (swap32 167772417) (swap16 80).
Definition one_pool : addr_pool := finish (add_entry (empty_pool 167772161 1) 0 1025 client).

(** The two users of the RSS hash order the flow differently.  Of eight
    queues the packets of this flow arrive at core 4 (remote end first, as
    [CreateAddressPoolPerCore] computes it); [FetchAddress] hashes the local
    end first, so it refuses the address to core 4 and gives it to core 1. *)
Theorem FetchAddress_reverses_flow :
  Rss.GetRSSCPUCore (swap32 (sin_addr server)) (swap32 (sin_addr client)) (swap16 (sin_port server))
    (swap16 (sin_port client)) 8 false = Some 4
  ∧ FetchAddress one_pool false 4 8 server (mk_addr INADDR_ANY INPORT_ANY)
    = Some (-1, mk_addr INADDR_ANY INPORT_ANY, one_pool)
  ∧ FetchAddress one_pool false 1 8 server (mk_addr INADDR_ANY INPORT_ANY)
    = Some (0, client, take_entry one_pool 0).
Proof. split_and!; vm_compute; reflexivity. Qed.
End AddrPool.
#[export] Existing Instance AddrPool.eta_ap.
