(* ===== verification/Checksum.v ===== *)
(** * The TCP checksum

    [TCPCalcChecksum] of [tcp_util.c] on the bytes of a segment; 16-bit words
    are read in the little-endian order of the machine, the addresses are in
    network order.  A segment is accepted when the function returns 0. *)
From S2P Require Import Prelude.

Module Checksum.
Definition IPPROTO_TCP : Z := 6.

(** The word at a pointer to two bytes. *)
Definition word (lo hi : Z) : Z := lo + 256 * hi.

(** The loop over the words and the padding of an odd length:
    [*w & ntohs(0xFF00)] keeps the first byte. *)
Fixpoint sum_words (sum : Z) (bs : list Z) : Z :=
  match bs with
  | lo :: hi :: bs => sum_words (u32 (sum + word lo hi)) bs
  | [lo] => u32 (sum + lo)
  | [] => sum
  end.

(** [buf] holds the [len] bytes of the segment. *)
Definition TCPCalcChecksum (buf : list Z) (saddr daddr : Z) : Z :=
  let len := Z.of_nat (length buf) in
  let sum := sum_words 0 buf in
  let sum := u32 (sum + (Z.land saddr 0xFFFF + Z.shiftr saddr 16)) in
  let sum := u32 (sum + (Z.land daddr 0xFFFF + Z.shiftr daddr 16)) in
  let sum := u32 (sum + swap16 len) in
  let sum := u32 (sum + swap16 IPPROTO_TCP) in
  let sum := u32 (Z.shiftr sum 16 + Z.land sum 0xFFFF) in
  let sum := u32 (sum + Z.shiftr sum 16) in
  u16 (Z.lnot sum).

(** ** Specification: the sum modulo 65535 *)

(** The unbounded sum of the words of a segment. *)
Fixpoint word_sum (bs : list Z) : Z :=
  match bs with
  | lo :: hi :: bs => word lo hi + word_sum bs
  | [lo] => lo
  | [] => 0
  end.
Definition pseudo_sum (len saddr daddr : Z) : Z :=
  (saddr mod 65536 + saddr / 65536) + (daddr mod 65536 + daddr / 65536) + swap16 len + 1536.

(** Induction by pairs of bytes. *)
Lemma pairs_ind (Q : list Z → Prop) :
  Q [] → (∀ a, Q [a]) → (∀ a b l, Q l → Q (a :: b :: l)) → ∀ l, Q l.
Proof.
  intros H0 H1 H2 l. enough (Q l ∧ ∀ a, Q (a :: l)) by tauto.
  induction l as [|x l [IH1 IH2]]; [split; auto|]. split; [apply IH2|]. intros a. apply H2, IH1.
Qed.

Lemma word_sum_range bs :
  Forall (λ b, is_u8 b) bs → 0 <= word_sum bs <= Z.of_nat (length bs) * 65535.
Proof.
  induction bs as [|a|a b bs IH] using pairs_ind; intros Hb; [simpl; lia| |].
  - apply Forall_cons in Hb as [? _]. simpl. lia.
  - apply Forall_cons in Hb as [? Hb]. apply Forall_cons in Hb as [? Hb]. specialize (IH Hb).
    simpl. unfold word. lia.
Qed.

Lemma sum_words_spec bs : ∀ sum,
  Forall (λ b, is_u8 b) bs → 0 <= sum → sum + Z.of_nat (length bs) * 65535 < 4294967296 →
  sum_words sum bs = sum + word_sum bs.
Proof.
  induction bs as [|a|a b bs IH] using pairs_ind; intros sum Hb H0 H1; simpl.
  - lia.
  - apply Forall_cons in Hb as [? _]. simpl in H1. rewrite u32_id by lia. lia.
  - apply Forall_cons in Hb as [? Hb]. apply Forall_cons in Hb as [? Hb]. simpl in H1.
    unfold word in *. rewrite (u32_id (sum + _)) by lia. rewrite IH by (done || lia). lia.
Qed.

(** Folding the carries of a 32-bit sum into 16 bits. *)
Definition fold (S : Z) : Z :=
  let s := S / 65536 + S mod 65536 in u16 (65535 - u16 (s + s / 65536)).

Lemma land_ffff z : Z.land z 65535 = z mod 65536.
Proof. change 65535 with (Z.ones 16). by rewrite Z.land_ones by lia. Qed.

Lemma pseudo_sum_range len saddr daddr :
  is_u32 saddr → is_u32 daddr → 0 < pseudo_sum len saddr daddr <= 5 * 65535 + 1536.
Proof.
  intros. unfold pseudo_sum. pose proof (swap16_range len). Z.div_mod_to_equations. lia.
Qed.

(** No addition overflows for a segment of at most 65495 bytes. *)
Lemma TCPCalcChecksum_fold bs saddr daddr :
  Forall (λ b, is_u8 b) bs → Z.of_nat (length bs) < 65496 → is_u32 saddr → is_u32 daddr →
  TCPCalcChecksum bs saddr daddr
  = fold (word_sum bs + pseudo_sum (Z.of_nat (length bs)) saddr daddr).
Proof.
  intros Hb Hl Hs Hd. unfold TCPCalcChecksum.
  pose proof (word_sum_range bs Hb). rewrite sum_words_spec by (done || lia).
  rewrite !land_ffff, !Z.shiftr_div_pow2 by lia. change (2 ^ 16) with 65536.
  change (swap16 IPPROTO_TCP) with 1536.
  pose proof (swap16_range (Z.of_nat (length bs))). unfold pseudo_sum, fold.
  set (S := swap16 _) in *. clearbody S. set (W := word_sum bs) in *. clearbody W.
  assert (0 <= saddr / 65536 < 65536 ∧ 0 <= saddr mod 65536 < 65536) by (Z.div_mod_to_equations; lia).
  assert (0 <= daddr / 65536 < 65536 ∧ 0 <= daddr mod 65536 < 65536) by (Z.div_mod_to_equations; lia).
  set (a := saddr / 65536) in *. set (b := saddr mod 65536) in *.
  set (c := daddr / 65536) in *. set (d := daddr mod 65536) in *. clearbody a b c d.
  rewrite !(u32_id (0 + W + _)), !(u32_id (0 + W + (b + a) + _)), !(u32_id (0 + W + (b + a) + (d + c) + _)) by lia.
  rewrite (u32_id (0 + W + (b + a) + (d + c) + S + 1536)) by lia.
  replace (W + (b + a + (d + c) + S + 1536)) with (0 + W + (b + a) + (d + c) + S + 1536) by lia.
  set (T := 0 + W + (b + a) + (d + c) + S + 1536) in *.
  assert (0 <= T < 4294967296) as HT by lia. clearbody T.
  assert (0 <= T / 65536 + T mod 65536 < 131072) as HT1 by (Z.div_mod_to_equations; lia).
  rewrite (u32_id (T / 65536 + _)) by lia. set (F := T / 65536 + T mod 65536) in *. clearbody F.
  rewrite u32_id by (Z.div_mod_to_equations; lia). unfold Z.lnot. ulia.
Qed.

Lemma fold_zero_iff S : 0 < S < 4294967296 → fold S = 0 ↔ S mod 65535 = 0.
Proof. intros. unfold fold. ulia. Qed.

Lemma fold_range S : 0 <= fold S < 65536.
Proof. apply u16_range. Qed.

Lemma fold_complement S : 0 < S → S + 65535 < 4294967296 → (S + fold S) mod 65535 = 0.
Proof. intros. unfold fold. ulia. Qed.

(** A word at an even offset contributes its value. *)
Lemma word_sum_app pre post : Nat.Even (length pre) → word_sum (pre ++ post) = word_sum pre + word_sum post.
Proof.
  induction pre as [|a|a b pre IH] using pairs_ind; simpl; [done| |].
  - intros [k Hk]. lia.
  - intros [k Hk]. rewrite IH; [lia|]. exists (k - 1)%nat. lia.
Qed.

Definition lo8 (z : Z) : Z := z mod 256.
Definition hi8 (z : Z) : Z := z / 256.
Lemma word_split z : word (lo8 z) (hi8 z) = z.
Proof. unfold word, lo8, hi8. pose proof (Z.div_mod z 256). lia. Qed.
Lemma lo8_hi8_range z : is_u16 z → is_u8 (lo8 z) ∧ is_u8 (hi8 z).
Proof. unfold lo8, hi8. intros. Z.div_mod_to_equations. lia. Qed.

(** The segment with the word [w] stored after the even-length prefix [pre]. *)
Definition with_word (pre : list Z) (w : Z) (post : list Z) : list Z :=
  pre ++ lo8 w :: hi8 w :: post.

Lemma length_with_word pre w post : length (with_word pre w post) = (length pre + 2 + length post)%nat.
Proof. unfold with_word. rewrite length_app. simpl. lia. Qed.
Lemma with_word_bytes pre w post :
  Forall (λ b, is_u8 b) pre → Forall (λ b, is_u8 b) post → is_u16 w →
  Forall (λ b, is_u8 b) (with_word pre w post).
Proof.
  intros Hp Hq Hw. pose proof (lo8_hi8_range w Hw) as [? ?]. unfold with_word.
  apply Forall_app. split; [done|]. by repeat (apply Forall_cons; split; [done|]).
Qed.
Lemma with_word_sum pre w post :
  Nat.Even (length pre) → word_sum (with_word pre w post) = word_sum pre + w + word_sum post.
Proof.
  intros He. unfold with_word. rewrite word_sum_app by done.
  change (word_sum (lo8 w :: hi8 w :: post)) with (word (lo8 w) (hi8 w) + word_sum post).
  rewrite word_split. lia.
Qed.

(** [TCPCalcChecksum] of a segment with a word in the middle. *)
Lemma checksum_with_word pre w post saddr daddr :
  Nat.Even (length pre) → Forall (λ b, is_u8 b) pre → Forall (λ b, is_u8 b) post → is_u16 w →
  Z.of_nat (length pre + 2 + length post) < 65496 → is_u32 saddr → is_u32 daddr →
  ∃ S, 0 < S ∧ S + 65535 + 65535 < 4294967296
    ∧ (∀ w', is_u16 w' → TCPCalcChecksum (with_word pre w' post) saddr daddr = fold (S + w')).
Proof.
  intros He Hp Hq Hw Hl Hs Hd.
  set (len := Z.of_nat (length pre + 2 + length post)) in *.
  pose proof (pseudo_sum_range len saddr daddr Hs Hd).
  pose proof (word_sum_range pre Hp). pose proof (word_sum_range post Hq).
  exists (word_sum pre + word_sum post + pseudo_sum len saddr daddr). split; [lia|]. split; [lia|].
  intros w' Hw'. rewrite TCPCalcChecksum_fold by (auto using with_word_bytes; rewrite length_with_word; lia).
  rewrite with_word_sum, length_with_word by done. fold len. f_equal. lia.
Qed.

(** The word that makes the checksum 0. *)
Lemma checksum_accepts hdr post saddr daddr :
  length hdr = 16%nat → Forall (λ b, is_u8 b) hdr → Forall (λ b, is_u8 b) post →
  Z.of_nat (length post) < 65478 → is_u32 saddr → is_u32 daddr →
  TCPCalcChecksum (with_word hdr (TCPCalcChecksum (with_word hdr 0 post) saddr daddr) post) saddr daddr = 0.
Proof.
  intros Hh Hb Hq Hl Hs Hd.
  destruct (checksum_with_word hdr 0 post saddr daddr) as (S&?&?&E); try done; try lia.
  { rewrite Hh. by exists 8%nat. }
  rewrite (E 0), Z.add_0_r by lia. pose proof (fold_range S). rewrite E by lia.
  apply fold_zero_iff; [lia|]. apply fold_complement; lia.
Qed.

(** A segment sent with the checksum that [TCPCalcChecksum] computes over
    it (its checksum field zero) passes the check of the receiver: there
    [TCPCalcChecksum] returns 0.  The field is the word at offset 16. *)
Theorem checksum_verifies hdr post saddr daddr :
  length hdr = 16%nat → Forall (λ b, is_u8 b) hdr → Forall (λ b, is_u8 b) post →
  Z.of_nat (length post) < 65478 → is_u32 saddr → is_u32 daddr →
  TCPCalcChecksum (with_word hdr (TCPCalcChecksum (with_word hdr 0 post) saddr daddr) post) saddr daddr = 0.
Proof. apply checksum_accepts. Qed.

Lemma checksum_verifies_witness :
  TCPCalcChecksum (with_word (replicate 16 7) (TCPCalcChecksum (with_word (replicate 16 7) 0 [0; 0; 104; 105; 33])
    16777226 33554442) [0; 0; 104; 105; 33]) 16777226 33554442 = 0.
Proof.
  apply (checksum_verifies (replicate 16 7) [0; 0; 104; 105; 33]); try (simpl; lia); try done;
    repeat (apply Forall_cons; split; [lia|]); by apply Forall_nil.
Defined.

(** The check detects the corruption of any one aligned 16-bit word, except
    the exchange of 0x0000 and 0xFFFF, the two zeros of ones' complement. *)
Theorem checksum_detects_word pre w w' post saddr daddr :
  Nat.Even (length pre) → Forall (λ b, is_u8 b) pre → Forall (λ b, is_u8 b) post →
  is_u16 w → is_u16 w' → Z.of_nat (length pre + 2 + length post) < 65496 → is_u32 saddr → is_u32 daddr →
  TCPCalcChecksum (with_word pre w post) saddr daddr = 0 →
  TCPCalcChecksum (with_word pre w' post) saddr daddr = 0 ↔
  w' = w ∨ (w = 0 ∧ w' = 65535) ∨ (w = 65535 ∧ w' = 0).
Proof.
  intros He Hp Hq Hw Hw' Hl Hs Hd.
  destruct (checksum_with_word pre w post saddr daddr) as (S&?&?&E); try done.
  rewrite !E, !fold_zero_iff by lia. intros Hz. split.
  - intros Hz'. Z.div_mod_to_equations. lia.
  - intros Hc. Z.div_mod_to_equations. lia.
Qed.

Lemma checksum_detects_word_witness :
  let c := TCPCalcChecksum (with_word [1; 2] 0 [3; 4]) 5 6 in
  TCPCalcChecksum (with_word [1; 2] c [3; 4]) 5 6 = 0 ∧
  (TCPCalcChecksum (with_word [1; 2] 9 [3; 4]) 5 6 = 0 ↔
    9 = c ∨ (c = 0 ∧ 9 = 65535) ∨ (c = 65535 ∧ 9 = 0)).
Proof.
  split; [vm_compute; reflexivity|].
  apply (checksum_detects_word [1; 2] _ 9 [3; 4] 5 6); try (vm_compute; intuition congruence);
    try (by exists 1%nat); repeat (apply Forall_cons; split; [lia|]); by apply Forall_nil.
Defined.
End Checksum.
