(* ===== verification/EventQueue.v ===== *)
(** * Event queues

    [AddEpollEvent] and the fetching loops of [mtcp_epoll_wait] of
    [eventpoll.c], and [FlushEpollEvents] of [core.c]: the stack thread adds
    events to [mtcp_queue]; once per round they are moved to [usr_queue], where
    the application fetches them.

    An index outside the array of events and a division by a zero size are
    crashes ([None]).  The mutex is held throughout the modelled parts. *)
From S2P Require Import Prelude AddrPool.

Module EQ.
Definition MTCP_EPOLLIN : Z := 0x001.
Definition MTCP_EPOLLOUT : Z := 0x004.
Definition MTCP_EPOLLERR : Z := 0x008.
Definition MTCP_EPOLLHUP : Z := 0x010.
Definition MTCP_EPOLLRDHUP : Z := 0x2000.

Record mtcp_epoll_event_int := mk_ev { ev_sockid : Z; ev_events : Z; ev_data : Z }.

Inductive event_queue_type := USR_EVENT_QUEUE | USR_SHADOW_EVENT_QUEUE | MTCP_EVENT_QUEUE.
#[export] Instance event_queue_type_eq_dec : EqDecision event_queue_type.
Proof. solve_decision. Defined.

Record event_queue := mk_eq {
  events : list mtcp_epoll_event_int;
  start : Z;
  eend : Z;                            (* [end] *)
  size : Z;
  num_events : Z
}.
#[export] Instance eta_eq : Eta event_queue :=
  λ r, mk_eq (events r) (start r) (eend r) (size r) (num_events r).

Record mtcp_epoll_stat := mk_stat {
  wakes : Z;
  issued : Z;
  mtcpq_registered : Z;
  usrq_registered : Z;
  shaw_registered : Z;
  usrq_copied : Z;
  usrq_invalidated : Z;
  mtcpq_handled : Z;
  usrq_handled : Z
}.
#[export] Instance eta_stat : Eta mtcp_epoll_stat :=
  λ r, mk_stat (wakes r) (issued r) (mtcpq_registered r) (usrq_registered r) (shaw_registered r)
         (usrq_copied r) (usrq_invalidated r) (mtcpq_handled r) (usrq_handled r).

Record mtcp_epoll := mk_epoll {
  usr_queue : event_queue;
  usr_shadow_queue : event_queue;
  mtcp_queue : event_queue;
  waiting : bool;
  stat : mtcp_epoll_stat
}.
#[export] Instance eta_epoll : Eta mtcp_epoll :=
  λ r, mk_epoll (usr_queue r) (usr_shadow_queue r) (mtcp_queue r) (waiting r) (stat r).

(** The entry of the socket table ([socket.h]).  [sock_ref] is the union: the
    address of the stream, listener, epoll or pipe, 0 for none. *)
Inductive socket_type := MTCP_SOCK_UNUSED | MTCP_SOCK_STREAM | MTCP_SOCK_PROXY
  | MTCP_SOCK_LISTENER | MTCP_SOCK_EPOLL | MTCP_SOCK_PIPE.
#[export] Instance socket_type_eq_dec : EqDecision socket_type.
Proof. solve_decision. Defined.

Record socket_map := mk_smap {
  sock_id : Z;
  socktype : socket_type;
  opts : Z;
  saddr : AddrPool.sockaddr_in;
  sock_ref : Z;
  epoll : Z;
  sock_events : Z;
  ep_data : Z
}.
#[export] Instance eta_smap : Eta socket_map :=
  λ r, mk_smap (sock_id r) (socktype r) (opts r) (saddr r) (sock_ref r) (epoll r) (sock_events r)
         (ep_data r).

Definition ev_zero : mtcp_epoll_event_int := mk_ev 0 0 0.

Definition CreateEventQueue (eq_ok events_ok : bool) (size : Z) : option event_queue :=
  if negb eq_ok then None else if negb events_ok then None
  else Some (mk_eq (replicate (Z.to_nat size) ev_zero) 0 0 size 0).

Definition EventQueLen (eq : event_queue) : Z := Z.land (eend eq - start eq) (size eq - 1).

Definition c_rem (a b : Z) : option Z := if b =? 0 then None else Some (Z.rem a b).

Definition EventQueFull (eq : event_queue) : option bool :=
  r ← c_rem (eend eq + 1) (size eq); Some (r =? start eq).

Definition get_queue (ep : mtcp_epoll) (t : event_queue_type) : event_queue :=
  match t with
  | MTCP_EVENT_QUEUE => mtcp_queue ep
  | USR_EVENT_QUEUE => usr_queue ep
  | USR_SHADOW_EVENT_QUEUE => usr_shadow_queue ep
  end.
Definition set_queue (ep : mtcp_epoll) (t : event_queue_type) (eq : event_queue) : mtcp_epoll :=
  match t with
  | MTCP_EVENT_QUEUE => ep <| mtcp_queue := eq |>
  | USR_EVENT_QUEUE => ep <| usr_queue := eq |>
  | USR_SHADOW_EVENT_QUEUE => ep <| usr_shadow_queue := eq |>
  end.

Definition count_registered (ep : mtcp_epoll) (t : event_queue_type) : mtcp_epoll :=
  let st := stat ep in
  match t with
  | USR_EVENT_QUEUE => ep <| stat := st <| usrq_registered := u64 (usrq_registered st + 1) |> |>
  | MTCP_EVENT_QUEUE => ep <| stat := st <| mtcpq_registered := u64 (mtcpq_registered st + 1) |> |>
  | USR_SHADOW_EVENT_QUEUE => ep <| stat := st <| shaw_registered := u64 (shaw_registered st + 1) |> |>
  end.

(** A missing socket is dereferenced by the error message. *)
Definition AddEpollEvent (ep : option mtcp_epoll) (queue_type : event_queue_type)
    (socket : option socket_map) (event : Z) : option (Z * option mtcp_epoll * socket_map) :=
  match ep, socket with
  | _, None => None
  | None, Some s => Some (-1, None, s)
  | Some ep, Some s =>
    if event =? 0 then Some (-1, Some ep, s)
    else
      let ep := ep <| stat := (stat ep) <| issued := u64 (issued (stat ep) + 1) |> |> in
      if negb (Z.land (sock_events s) event =? 0) then Some (0, Some ep, s)
      else
        let eq := get_queue ep queue_type in
        full ← EventQueFull eq;
        if (full : bool) then Some (-1, Some ep, s)
        else
          let index := eend eq in
          let s := s <| sock_events := Z.lor (sock_events s) event |> in
          _ ← guard ((0 <=? index) && (index <? Z.of_nat (length (events eq))) = true);
          let eq := eq <| events := <[Z.to_nat index := mk_ev (sock_id s) event (ep_data s)]> (events eq) |> in
          full ← EventQueFull eq;
          let eq := if (full : bool) then eq <| eend := start eq |> else eq in
          e ← c_rem (eend eq + 1) (size eq);
          let eq := eq <| eend := e |> in
          let eq := eq <| num_events := EventQueLen eq |> in
          Some (0, Some (count_registered (set_queue ep queue_type eq) queue_type), s)
  end.

(** The loop of [FlushEpollEvents]; [n] bounds its iterations. *)
Fixpoint flush_loop (n : nat) (ep : mtcp_epoll) : option mtcp_epoll :=
  let usrq := usr_queue ep in
  let mtcpq := mtcp_queue ep in
  full ← EventQueFull usrq;
  if (eend mtcpq =? start mtcpq) || full then Some ep
  else
    match n with
    | O => None
    | S n =>
      ev ← events mtcpq !! Z.to_nat (start mtcpq);
      _ ← guard ((0 <=? eend usrq) && (eend usrq <? Z.of_nat (length (events usrq))) = true);
      let usrq := usrq <| events := <[Z.to_nat (eend usrq) := ev]> (events usrq) |> in
      st ← c_rem (start mtcpq + 1) (size mtcpq);
      let mtcpq := mtcpq <| start := st |> in
      e ← c_rem (eend usrq + 1) (size usrq);
      let usrq := usrq <| eend := e |> in
      let sc := (stat ep) <| mtcpq_handled := u64 (mtcpq_handled (stat ep) + 1) |>
                          <| usrq_copied := u64 (usrq_copied (stat ep) + 1) |> in
      full ← EventQueFull usrq;
      let usrq := if (full : bool) then usrq else usrq <| num_events := EventQueLen usrq |> in
      let mtcpq := if (full : bool) then mtcpq else mtcpq <| num_events := EventQueLen mtcpq |> in
      flush_loop n (ep <| usr_queue := usrq |> <| mtcp_queue := mtcpq |> <| stat := sc |>)
    end.

(** The result says whether the application is signalled; a round moves at
    most [size] events. *)
Definition FlushEpollEvents (ep : mtcp_epoll) : option (bool * mtcp_epoll) :=
  ep ← (if 0 <? EventQueLen (mtcp_queue ep)
        then flush_loop (Z.to_nat (size (mtcp_queue ep))) ep else Some ep);
  if waiting ep && (negb (eend (usr_queue ep) =? start (usr_queue ep))
                    || negb (eend (usr_shadow_queue ep) =? start (usr_shadow_queue ep)))
  then Some (true, ep <| stat := (stat ep) <| wakes := u64 (wakes (stat ep) + 1) |> |>)
  else Some (false, ep).

(** A fetching loop of [mtcp_epoll_wait]: the events returned, the queue and
    the socket table ([smap]) afterwards. *)
Fixpoint fetch_loop (n : nat) (smap : list socket_map) (eq : event_queue) (room : Z)
  : option (list mtcp_epoll_event_int * event_queue * list socket_map) :=
  if (eend eq =? start eq) || (room <=? 0) then Some ([], eq, smap)
  else
    match n with
    | O => None
    | S n =>
      ev ← events eq !! Z.to_nat (start eq);
      _ ← guard (0 <= ev_sockid ev);
      s ← smap !! Z.to_nat (ev_sockid ev);
      let validity := bool_decide (socktype s ≠ MTCP_SOCK_UNUSED)
                      && negb (Z.land (epoll s) (ev_events ev) =? 0)
                      && negb (Z.land (sock_events s) (ev_events ev) =? 0) in
      let s := s <| sock_events := Z.land (sock_events s) (Z.lnot (ev_events ev)) |> in
      let smap := <[Z.to_nat (ev_sockid ev) := s]> smap in
      st ← c_rem (start eq + 1) (size eq);
      let eq := eq <| start := st |> in
      let eq := eq <| num_events := EventQueLen eq |> in
      full ← EventQueFull eq;
      let eq := if (full : bool) then eq <| start := eend eq |> else eq in
      '(evs, eq, smap) ← fetch_loop n smap eq (if (validity : bool) then room - 1 else room);
      Some (if (validity : bool) then ev :: evs else evs, eq, smap)
    end.

(** ** Specification: a queue is the list of its events *)

Record eq_ok (eq : event_queue) : Prop := mk_eq_ok {
  ok_size : 1 < size eq < 1073741824;
  ok_events : Z.of_nat (length (events eq)) = size eq;
  ok_start : 0 <= start eq < size eq;
  ok_end : 0 <= eend eq < size eq
}.

Definition eq_len (eq : event_queue) : Z := (eend eq - start eq) mod size eq.
Definition slot (eq : event_queue) (i : Z) : mtcp_epoll_event_int :=
  default ev_zero (events eq !! Z.to_nat ((start eq + i) mod size eq)).
Definition contents (eq : event_queue) : list mtcp_epoll_event_int :=
  (λ i : nat, slot eq (Z.of_nat i)) <$> seq 0 (Z.to_nat (eq_len eq)).

Lemma length_queue_contents eq : eq_ok eq → Z.of_nat (length (contents eq)) = eq_len eq.
Proof.
  intros [? ? ? ?]. unfold contents. rewrite length_fmap, length_seq.
  unfold eq_len. pose proof (Z.mod_pos_bound (eend eq - start eq) (size eq)). lia.
Qed.

Lemma c_rem_succ a n : 1 < n → 0 <= a < n → c_rem (a + 1) n = Some ((a + 1) mod n).
Proof.
  intros. unfold c_rem. destruct (Z.eqb_spec n 0); [lia|]. by rewrite Z.rem_mod_nonneg by lia.
Qed.

Lemma EventQueFull_spec eq : eq_ok eq → EventQueFull eq = Some (eq_len eq =? size eq - 1).
Proof.
  intros [? ? ? ?]. unfold EventQueFull. rewrite c_rem_succ by lia. simpl. f_equal. unfold eq_len.
  destruct (Z.eqb_spec ((eend eq + 1) mod size eq) (start eq)) as [E|E];
    destruct (Z.eqb_spec ((eend eq - start eq) mod size eq) (size eq - 1)) as [F|F]; try done; exfalso.
  - apply F. destruct (Z.eq_dec (eend eq + 1) (size eq)) as [G|G].
    + rewrite G, Z.mod_same in E by lia. rewrite Z.mod_small; lia.
    + rewrite Z.mod_small in E by lia. replace (eend eq - start eq) with (-1) by lia.
      rewrite <- (Z.mod_add _ 1), Z.mod_small; lia.
  - apply E. destruct (Z.leb_spec (start eq) (eend eq)).
    + rewrite Z.mod_small in F by lia. replace (eend eq + 1) with (size eq) by lia.
      rewrite Z.mod_same; lia.
    + rewrite <- (Z.mod_add _ 1), Z.mod_small in F by lia. rewrite Z.mod_small; lia.
Qed.

Lemma queue_empty_iff eq : eq_ok eq → (eend eq =? start eq) = (eq_len eq =? 0).
Proof.
  intros [? ? ? ?]. unfold eq_len. destruct (Z.eqb_spec (eend eq) (start eq)) as [->|].
  - rewrite Z.sub_diag, Z.mod_0_l by lia. done.
  - symmetry. apply Z.eqb_neq. destruct (Z.leb_spec (start eq) (eend eq)).
    + rewrite Z.mod_small; lia.
    + rewrite <- (Z.mod_add _ 1), Z.mod_small; lia.
Qed.

Section Push.
Context (eq : event_queue) (Hok : eq_ok eq) (e : mtcp_epoll_event_int) (nv : Z).
Definition pushed : event_queue :=
  eq <| events := <[Z.to_nat (eend eq) := e]> (events eq) |>
     <| eend := (eend eq + 1) mod size eq |> <| num_events := nv |>.

Lemma pushed_ok : eq_ok pushed.
Proof using Hok.
  destruct Hok as [? ? ? ?]. unfold pushed. split; rec_simpl; try lia.
  - by rewrite length_insert.
  - apply Z.mod_pos_bound. lia.
Qed.

Lemma pushed_len : eq_len eq < size eq - 1 → eq_len pushed = eq_len eq + 1.
Proof using Hok.
  destruct Hok as [? ? ? ?]. unfold eq_len, pushed. rec_simpl. intros Hf.
  rewrite Zminus_mod_idemp_l. pose proof (Z.mod_pos_bound (eend eq - start eq) (size eq)).
  replace (eend eq + 1 - start eq) with (eend eq - start eq + 1) by lia.
  rewrite <- Zplus_mod_idemp_l. apply Z.mod_small. lia.
Qed.

Lemma pushed_contents : eq_len eq < size eq - 1 → contents pushed = contents eq ++ [e].
Proof using Hok.
  intros Hf. pose proof (pushed_len Hf) as Hl. destruct Hok as [? Hev ? ?].
  unfold contents. rewrite Hl.
  assert (0 <= eq_len eq) by (unfold eq_len; apply Z.mod_pos_bound; lia).
  replace (Z.to_nat (eq_len eq + 1)) with (Z.to_nat (eq_len eq) + 1)%nat by lia.
  rewrite seq_app, fmap_app. simpl. f_equal.
  - apply list_fmap_ext. intros k i Hi. apply lookup_seq in Hi as [-> Hi]. unfold slot, pushed. rec_simpl.
    f_equal. rewrite list_lookup_insert_ne; [done|]. intros E.
    pose proof (Z.mod_pos_bound (start eq + Z.of_nat (0 + k)) (size eq)).
    assert (eend eq = (start eq + Z.of_nat k) mod size eq) as E1 by (simpl in *; lia).
    assert (eq_len eq = Z.of_nat k) as E2; [|lia]. unfold eq_len in *. rewrite E1.
    rewrite Zminus_mod_idemp_l. replace (start eq + Z.of_nat k - start eq) with (Z.of_nat k) by lia.
    rewrite Z.mod_small; [done|]. lia.
  - unfold slot, pushed. rec_simpl. do 2 f_equal.
    replace ((start eq + Z.of_nat (Z.to_nat (eq_len eq))) mod size eq) with (eend eq).
    + rewrite list_lookup_insert_eq by lia. done.
    + unfold eq_len in *. rewrite Z2Nat.id by lia. rewrite Zplus_mod_idemp_r.
      replace (start eq + (eend eq - start eq)) with (eend eq) by lia. by rewrite Z.mod_small by lia.
Qed.
End Push.

Section Pop.
Context (eq : event_queue) (Hok : eq_ok eq) (nv : Z).
Definition popped : event_queue := eq <| start := (start eq + 1) mod size eq |> <| num_events := nv |>.

Lemma popped_ok : eq_ok popped.
Proof using Hok.
  destruct Hok as [? ? ? ?]. unfold popped. split; rec_simpl; try lia. apply Z.mod_pos_bound. lia.
Qed.

Lemma popped_len : 0 < eq_len eq → eq_len popped = eq_len eq - 1.
Proof using Hok.
  destruct Hok as [? ? ? ?]. unfold eq_len, popped. rec_simpl. intros Hf.
  rewrite Zminus_mod_idemp_r. pose proof (Z.mod_pos_bound (eend eq - start eq) (size eq)).
  replace (eend eq - (start eq + 1)) with (eend eq - start eq - 1) by lia.
  rewrite <- Zminus_mod_idemp_l. apply Z.mod_small. lia.
Qed.

Lemma first_event : ∃ e, events eq !! Z.to_nat (start eq) = Some e.
Proof using Hok. destruct Hok as [? ? ? ?]. apply lookup_lt_is_Some. lia. Qed.

Lemma popped_contents e :
  0 < eq_len eq → events eq !! Z.to_nat (start eq) = Some e → contents eq = e :: contents popped.
Proof using Hok.
  intros Hf He. pose proof (popped_len Hf) as Hl. destruct Hok as [? ? ? ?].
  unfold contents. rewrite Hl.
  replace (Z.to_nat (eq_len eq)) with (S (Z.to_nat (eq_len eq - 1))) by lia. simpl. f_equal.
  - unfold slot. simpl. rewrite Z.add_0_r, Z.mod_small by lia. by rewrite He.
  - rewrite <- fmap_S_seq, <- list_fmap_compose. apply list_fmap_ext. intros k i Hi.
    apply lookup_seq in Hi as [-> Hi]. unfold slot, popped, compose. rec_simpl. do 2 f_equal.
    rewrite Zplus_mod_idemp_l. do 2 f_equal. lia.
Qed.
End Pop.

Lemma get_set_queue ep t q : get_queue (count_registered (set_queue ep t q) t) t = q.
Proof. by destruct t. Qed.
Lemma get_set_queue_ne ep t t' q :
  t ≠ t' → get_queue (count_registered (set_queue ep t q) t) t' = get_queue ep t'.
Proof. by destruct t, t'. Qed.
Lemma get_queue_stat ep t st : get_queue (ep <| stat := st |>) t = get_queue ep t.
Proof. by destruct t. Qed.

(** What adding an event does, in all cases. *)
Lemma AddEpollEvent_spec ep t s event :
  eq_ok (get_queue ep t) → event ≠ 0 →
  let q := get_queue ep t in
  ∃ ret ep' s', AddEpollEvent (Some ep) t (Some s) event = Some (ret, Some ep', s')
    ∧ eq_ok (get_queue ep' t)
    ∧ (∀ t', t ≠ t' → get_queue ep' t' = get_queue ep t')
    ∧ (if negb (Z.land (sock_events s) event =? 0)
       then ret = 0 ∧ s' = s ∧ contents (get_queue ep' t) = contents q
       else if Z.of_nat (length (contents q)) =? size q - 1
       then ret = -1 ∧ s' = s ∧ contents (get_queue ep' t) = contents q
       else ret = 0 ∧ s' = s <| sock_events := Z.lor (sock_events s) event |>
            ∧ contents (get_queue ep' t) = contents q ++ [mk_ev (sock_id s) event (ep_data s)]).
Proof.
  intros Hok He q. unfold AddEpollEvent. destruct (Z.eqb_spec event 0); [done|].
  set (ep1 := ep <| stat := _ |>).
  assert (∀ t', get_queue ep1 t' = get_queue ep t') as Hg by (intros; apply get_queue_stat).
  destruct (negb (Z.land (sock_events s) event =? 0)).
  { exists 0, ep1, s. rewrite !Hg. split_and!; done || (intros; apply Hg). }
  rewrite Hg. fold q in Hok |- *. rewrite (EventQueFull_spec q) by done. simpl.
  rewrite length_queue_contents by done.
  destruct (Z.eqb_spec (eq_len q) (size q - 1)) as [Hf|Hf].
  { exists (-1), ep1, s. rewrite !Hg. split_and!; done || (intros; apply Hg). }
  destruct Hok as [Hsz Hev Hst Hen] eqn:Hok'. clear Hok'.
  rewrite (proj2 (Z.leb_le 0 (eend q))), (proj2 (Z.ltb_lt (eend q) _)) by lia. simpl.
  set (e := mk_ev _ event _). set (q1 := q <| events := _ |>).
  assert (eq_ok q1) as Hq1 by (unfold q1; split; rec_simpl; rewrite ?length_insert; lia).
  rewrite EventQueFull_spec by done. change (eq_len q1) with (eq_len q). change (size q1) with (size q).
  destruct (Z.eqb_spec (eq_len q) (size q - 1)); [done|]. simpl.
  change (eend q1) with (eend q). rewrite c_rem_succ by lia. simpl.
  assert (eq_len q < size q - 1) as Hlt.
  { unfold eq_len in *. pose proof (Z.mod_pos_bound (eend q - start q) (size q)). lia. }
  do 3 eexists. split; [reflexivity|]. rewrite get_set_queue.
  change (eq_ok (pushed q e (EventQueLen (q1 <| eend := (eend q + 1) mod size q |>))) ∧
    (∀ t', t ≠ t' → get_queue (count_registered (set_queue ep1 t
      (pushed q e (EventQueLen (q1 <| eend := (eend q + 1) mod size q |>)))) t) t' = get_queue ep t') ∧
    0 = 0 ∧ s <| sock_events := Z.lor (sock_events s) event |> = s <| sock_events := Z.lor (sock_events s) event |> ∧
    contents (pushed q e (EventQueLen (q1 <| eend := (eend q + 1) mod size q |>))) = contents q ++ [e]).
  split_and!; try done.
  - by apply pushed_ok.
  - intros t' Ht. rewrite get_set_queue_ne by done. apply Hg.
  - by apply pushed_contents.
Qed.

(** [AddEpollEvent] on a consistent queue never crashes.  An event already
    pending on the socket is not queued again; a full queue ([size - 1] events)
    refuses with -1 and changes neither queue nor socket; otherwise the event
    is appended behind those already queued and marked on the socket.  The
    other queues are never touched. *)
Theorem AddEpollEvent_appends ep t s event :
  eq_ok (get_queue ep t) → event ≠ 0 →
  let q := get_queue ep t in
  ∃ ret ep' s', AddEpollEvent (Some ep) t (Some s) event = Some (ret, Some ep', s')
    ∧ eq_ok (get_queue ep' t)
    ∧ (∀ t', t ≠ t' → get_queue ep' t' = get_queue ep t')
    ∧ (if negb (Z.land (sock_events s) event =? 0)
       then ret = 0 ∧ s' = s ∧ contents (get_queue ep' t) = contents q
       else if Z.of_nat (length (contents q)) =? size q - 1
       then ret = -1 ∧ s' = s ∧ contents (get_queue ep' t) = contents q
       else ret = 0 ∧ s' = s <| sock_events := Z.lor (sock_events s) event |>
            ∧ contents (get_queue ep' t) = contents q ++ [mk_ev (sock_id s) event (ep_data s)]).
Proof. exact (AddEpollEvent_spec ep t s event). Qed.

Definition demo_queue (size : Z) : event_queue := mk_eq (replicate (Z.to_nat size) ev_zero) 0 0 size 0.
Definition demo_epoll (size : Z) : mtcp_epoll :=
  mk_epoll (demo_queue size) (demo_queue size) (demo_queue size) true (mk_stat 0 0 0 0 0 0 0 0 0).
Definition demo_socket : socket_map :=
  mk_smap 3 MTCP_SOCK_STREAM 0 (AddrPool.mk_addr 0 0) 0 MTCP_EPOLLIN 0 77.

Lemma AddEpollEvent_appends_witness :
  ∃ ret ep' s', AddEpollEvent (Some (demo_epoll 4)) MTCP_EVENT_QUEUE (Some demo_socket) MTCP_EPOLLIN
      = Some (ret, Some ep', s')
    ∧ eq_ok (get_queue ep' MTCP_EVENT_QUEUE)
    ∧ (∀ t', MTCP_EVENT_QUEUE ≠ t' → get_queue ep' t' = get_queue (demo_epoll 4) t')
    ∧ ret = 0 ∧ s' = demo_socket <| sock_events := Z.lor 0 MTCP_EPOLLIN |>
    ∧ contents (get_queue ep' MTCP_EVENT_QUEUE) = [] ++ [mk_ev 3 MTCP_EPOLLIN 77].
Proof.
  apply (AddEpollEvent_appends (demo_epoll 4) MTCP_EVENT_QUEUE demo_socket MTCP_EPOLLIN); [|done].
  by split.
Defined.

(** ** Moving events to the user *)

Lemma flush_loop_spec n : ∀ ep,
  eq_ok (usr_queue ep) → eq_ok (mtcp_queue ep) → eq_len (mtcp_queue ep) <= Z.of_nat n →
  ∃ ep', flush_loop n ep = Some ep' ∧ eq_ok (usr_queue ep') ∧ eq_ok (mtcp_queue ep')
    ∧ waiting ep' = waiting ep ∧ usr_shadow_queue ep' = usr_shadow_queue ep
    ∧ size (usr_queue ep') = size (usr_queue ep)
    ∧ contents (usr_queue ep') ++ contents (mtcp_queue ep')
      = contents (usr_queue ep) ++ contents (mtcp_queue ep)
    ∧ (eq_len (mtcp_queue ep') = 0 ∨ eq_len (usr_queue ep') = size (usr_queue ep') - 1).
Proof.
  induction n as [|n IH]; intros ep Hu Hm Hn; simpl;
    rewrite EventQueFull_spec by done; simpl; rewrite queue_empty_iff by done;
    destruct (Z.eqb_spec (eq_len (mtcp_queue ep)) 0) as [E|E]; simpl; try (exists ep; by auto 10).
  { exfalso. apply E. unfold eq_len in *. destruct Hm as [? ? ? ?].
    pose proof (Z.mod_pos_bound (eend (mtcp_queue ep) - start (mtcp_queue ep)) (size (mtcp_queue ep))). lia. }
  destruct (Z.eqb_spec (eq_len (usr_queue ep)) (size (usr_queue ep) - 1)) as [F|F]; [exists ep; by auto 10|].
  destruct (first_event _ Hm) as [e He]. rewrite He. simpl.
  assert (eq_len (usr_queue ep) < size (usr_queue ep) - 1 ∧ 0 < eq_len (mtcp_queue ep)) as [Hlt Hgt].
  { destruct Hu as [? ? ? ?], Hm as [? ? ? ?]. unfold eq_len in *.
    pose proof (Z.mod_pos_bound (eend (usr_queue ep) - start (usr_queue ep)) (size (usr_queue ep))).
    pose proof (Z.mod_pos_bound (eend (mtcp_queue ep) - start (mtcp_queue ep)) (size (mtcp_queue ep))). lia. }
  pose proof Hu as [? ? ? ?]. pose proof Hm as [? ? ? ?].
  rewrite (proj2 (Z.leb_le 0 (eend (usr_queue ep)))), (proj2 (Z.ltb_lt (eend (usr_queue ep)) _)) by lia. simpl.
  rewrite c_rem_succ by lia. simpl. change (eend (_ <| events := _ |>)) with (eend (usr_queue ep)).
  change (size (_ <| events := _ |>)) with (size (usr_queue ep)). rewrite c_rem_succ by lia. simpl.
  rewrite EventQueFull_spec by (exact (pushed_ok (usr_queue ep) Hu e (num_events (usr_queue ep)))). simpl.
  match goal with |- context [flush_loop n ?e'] => set (ep1 := e') end.
  assert (∃ v, usr_queue ep1 = pushed (usr_queue ep) e v) as [v Eu]
    by (unfold ep1; rec_simpl; destruct (_ =? _); eexists; reflexivity).
  assert (∃ v, mtcp_queue ep1 = popped (mtcp_queue ep) v) as [v' Em]
    by (unfold ep1; rec_simpl; destruct (_ =? _); eexists; reflexivity).
  destruct (IH ep1) as (ep'&E1&H1&H2&H3&H4&H5&H6&H7).
  - rewrite Eu. by apply pushed_ok.
  - rewrite Em. by apply popped_ok.
  - rewrite Em, popped_len by done. lia.
  - exists ep'. rewrite Eu, Em in *. split_and!; try done.
    rewrite H6, pushed_contents by done. rewrite <- app_assoc. f_equal. symmetry. simpl. by apply popped_contents.
Qed.

Lemma contents_nil eq : eq_ok eq → eq_len eq = 0 → contents eq = [].
Proof. intros Hok E. unfold contents. by rewrite E. Qed.

(** When [EventQueLen] of the stack's queue is positive,
    [FlushEpollEvents] moves events to the user queue in order: none is lost,
    duplicated or reordered, and it stops only when the stack's queue is empty
    or the user queue is full; a waiting application is signalled iff it has an
    event to fetch. *)
Theorem FlushEpollEvents_moves ep :
  eq_ok (usr_queue ep) → eq_ok (mtcp_queue ep) → 0 < EventQueLen (mtcp_queue ep) →
  ∃ signal ep', FlushEpollEvents ep = Some (signal, ep')
    ∧ contents (usr_queue ep') ++ contents (mtcp_queue ep')
      = contents (usr_queue ep) ++ contents (mtcp_queue ep)
    ∧ (contents (mtcp_queue ep') = []
       ∨ Z.of_nat (length (contents (usr_queue ep'))) = size (usr_queue ep) - 1)
    ∧ signal = waiting ep && (negb (eend (usr_queue ep') =? start (usr_queue ep'))
        || negb (eend (usr_shadow_queue ep) =? start (usr_shadow_queue ep)))
    ∧ eq_ok (usr_queue ep') ∧ eq_ok (mtcp_queue ep').
Proof.
  intros Hu Hm Hl. unfold FlushEpollEvents. rewrite (proj2 (Z.ltb_lt _ _) Hl).
  destruct (flush_loop_spec (Z.to_nat (size (mtcp_queue ep))) ep Hu Hm) as (ep'&E&H1&H2&H3&H4&H5&H6&H7).
  { destruct Hm as [? ? ? ?]. unfold eq_len.
    pose proof (Z.mod_pos_bound (eend (mtcp_queue ep) - start (mtcp_queue ep)) (size (mtcp_queue ep))). lia. }
  rewrite E. simpl. rewrite H3, H4.
  destruct (waiting ep && _) eqn:Ew; do 2 eexists; (split; [reflexivity|]);
    (split; [exact H6|]); (split; [|by split_and!]);
    (destruct H7 as [H7|H7]; [left; by apply contents_nil|right; rec_simpl; rewrite length_queue_contents by done; lia]).
Qed.

(** A queue of size 4 with one event, and an empty one. *)
Definition demo_pending : mtcp_epoll :=
  (demo_epoll 4) <| mtcp_queue := pushed (demo_queue 4) (mk_ev 3 MTCP_EPOLLIN 77) 1 |>.

Lemma FlushEpollEvents_moves_witness :
  ∃ signal ep', FlushEpollEvents demo_pending = Some (signal, ep')
    ∧ contents (usr_queue ep') ++ contents (mtcp_queue ep') = [mk_ev 3 MTCP_EPOLLIN 77]
    ∧ (contents (mtcp_queue ep') = [] ∨ Z.of_nat (length (contents (usr_queue ep'))) = 3)
    ∧ signal = true && (negb (eend (usr_queue ep') =? start (usr_queue ep')) || negb (0 =? 0))
    ∧ eq_ok (usr_queue ep') ∧ eq_ok (mtcp_queue ep').
Proof. apply (FlushEpollEvents_moves demo_pending); [by split..|done]. Defined.

(** The length is computed by masking with [size - 1], but the size (three
    times [max_concurrency]) is not a power of two: with the size 30000 of
    10000 connections, a queue that holds exactly 16 events has the computed
    length 0, and [FlushEpollEvents] leaves all of them undelivered. *)
Theorem FlushEpollEvents_stalls ep :
  size (mtcp_queue ep) = 30000 → eend (mtcp_queue ep) = start (mtcp_queue ep) + 16 →
  0 <= start (mtcp_queue ep) → start (mtcp_queue ep) + 16 < 30000 →
  length (contents (mtcp_queue ep)) = 16%nat
  ∧ EventQueLen (mtcp_queue ep) = 0
  ∧ ∃ signal ep', FlushEpollEvents ep = Some (signal, ep')
    ∧ mtcp_queue ep' = mtcp_queue ep ∧ usr_queue ep' = usr_queue ep.
Proof.
  intros Hs He H0 H1.
  assert (EventQueLen (mtcp_queue ep) = 0) as E.
  { unfold EventQueLen. rewrite He, Hs. replace (start (mtcp_queue ep) + 16 - start (mtcp_queue ep)) with 16 by lia.
    reflexivity. }
  split_and!; [|done|].
  - unfold contents, eq_len. rewrite length_fmap, length_seq, He, Hs.
    replace (start (mtcp_queue ep) + 16 - start (mtcp_queue ep)) with 16 by lia. reflexivity.
  - unfold FlushEpollEvents. rewrite E. simpl. destruct (_ && _); do 2 eexists; (split; [reflexivity|done]).
Qed.

Definition demo_stalled : mtcp_epoll :=
  (demo_epoll 4) <| mtcp_queue := mk_eq [] 100 116 30000 0 |>.

Lemma FlushEpollEvents_stalls_witness :
  length (contents (mtcp_queue demo_stalled)) = 16%nat
  ∧ EventQueLen (mtcp_queue demo_stalled) = 0
  ∧ ∃ signal ep', FlushEpollEvents demo_stalled = Some (signal, ep')
    ∧ mtcp_queue ep' = mtcp_queue demo_stalled ∧ usr_queue ep' = usr_queue demo_stalled.
Proof. apply (FlushEpollEvents_stalls demo_stalled); done. Defined.

(** ** Fetching by the application *)

Definition sockids_ok (smap : list socket_map) (l : list mtcp_epoll_event_int) : Prop :=
  Forall (λ ev, 0 <= ev_sockid ev < Z.of_nat (length smap)) l.

Lemma fetch_loop_spec n : ∀ smap eq room,
  eq_ok eq → sockids_ok smap (contents eq) → eq_len eq <= Z.of_nat n →
  ∃ evs eq' smap' taken, fetch_loop n smap eq room = Some (evs, eq', smap')
    ∧ eq_ok eq' ∧ length smap' = length smap
    ∧ contents eq = taken ++ contents eq' ∧ sublist evs taken
    ∧ Z.of_nat (length evs) <= Z.max 0 room
    ∧ (contents eq' = [] ∨ Z.max 0 room <= Z.of_nat (length evs)).
Proof.
  induction n as [|n IH]; intros smap eq room Hok Hids Hn; simpl; rewrite queue_empty_iff by done;
    destruct (Z.eqb_spec (eq_len eq) 0) as [E|E]; simpl;
    try (exists [], eq, smap, []; split_and!; try done; try (left; by apply contents_nil); try apply sublist_nil_l; simpl; lia).
  { exfalso. apply E. unfold eq_len in *. destruct Hok as [? ? ? ?].
    pose proof (Z.mod_pos_bound (eend eq - start eq) (size eq)). lia. }
  destruct (Z.leb_spec room 0).
  { exists [], eq, smap, []. split_and!; try done; try (right; simpl; lia); try apply sublist_nil_l; simpl; lia. }
  assert (0 < eq_len eq < size eq) as Hgt.
  { destruct Hok as [? ? ? ?]. unfold eq_len in *. pose proof (Z.mod_pos_bound (eend eq - start eq) (size eq)). lia. }
  destruct (first_event _ Hok) as [e He]. rewrite He. simpl.
  set (nv := EventQueLen (eq <| start := (start eq + 1) mod size eq |>)).
  pose proof (popped_contents eq Hok nv e ltac:(lia) He) as Hc. rewrite Hc in Hids.
  apply Forall_cons in Hids as [Hid Hids].
  destruct (lookup_lt_is_Some_2 smap (Z.to_nat (ev_sockid e)) ltac:(lia)) as [sk Hsk].
  rewrite option_guard_True by lia. simpl. rewrite Hsk. simpl.
  pose proof Hok as [? ? ? ?]. rewrite c_rem_succ by lia. simpl. fold nv.
  change ((eq <| start := (start eq + 1) mod size eq |>) <| num_events := nv |>) with (popped eq nv).
  pose proof (popped_ok eq Hok nv) as Hp. rewrite EventQueFull_spec by done.
  rewrite popped_len by (done || lia). change (size (popped eq nv)) with (size eq).
  destruct (Z.eqb_spec (eq_len eq - 1) (size eq - 1)); [lia|]. simpl.
  set (valid := _ && _ && _). set (smap1 := <[_ := _]> smap).
  assert (length smap1 = length smap) as Hl1 by (unfold smap1; apply length_insert).
  destruct (IH smap1 (popped eq nv) (if valid then room - 1 else room) Hp) as (evs&eq'&smap'&taken&E1&H1&H2&H3&H4&H5&H6).
  { unfold sockids_ok. by rewrite Hl1. }
  { rewrite popped_len by (done || lia). lia. }
  rewrite E1. simpl. exists (if valid then e :: evs else evs), eq', smap', (e :: taken).
  split; [done|]. split; [done|]. split; [lia|]. split; [by rewrite Hc, H3|].
  destruct valid; simpl; (split; [by constructor|]); (split; [lia|]); (destruct H6; [by left|right; lia]).
Qed.

(** Fetching returns events of the queue in the order they were queued,
    without inventing or repeating any (those that became invalid are dropped),
    never more than asked for; it stops early only when the queue is empty. *)
Theorem fetch_delivers smap eq room :
  eq_ok eq → sockids_ok smap (contents eq) →
  ∃ evs eq' smap' taken, fetch_loop (Z.to_nat (size eq)) smap eq room = Some (evs, eq', smap')
    ∧ contents eq = taken ++ contents eq' ∧ sublist evs taken
    ∧ Z.of_nat (length evs) <= Z.max 0 room
    ∧ (contents eq' = [] ∨ Z.max 0 room <= Z.of_nat (length evs))
    ∧ eq_ok eq'.
Proof.
  intros Hok Hids. pose proof Hok as [? ? ? ?].
  destruct (fetch_loop_spec (Z.to_nat (size eq)) smap eq room Hok Hids) as (evs&eq'&smap'&taken&E&H1&H2&H3&H4&H5&H6).
  { unfold eq_len. pose proof (Z.mod_pos_bound (eend eq - start eq) (size eq)). lia. }
  by exists evs, eq', smap', taken.
Qed.

Lemma fetch_delivers_witness :
  let q := mtcp_queue demo_pending in
  ∃ evs eq' smap' taken, fetch_loop (Z.to_nat (size q)) (replicate 4 demo_socket) q 10 = Some (evs, eq', smap')
    ∧ contents q = taken ++ contents eq' ∧ sublist evs taken
    ∧ Z.of_nat (length evs) <= Z.max 0 10
    ∧ (contents eq' = [] ∨ Z.max 0 10 <= Z.of_nat (length evs))
    ∧ eq_ok eq'.
Proof.
  apply (fetch_delivers (replicate 4 demo_socket) (mtcp_queue demo_pending) 10); [by split|].
  apply Forall_cons. split; [simpl; lia|by apply Forall_nil].
Defined.
End EQ.
#[export] Existing Instance EQ.eta_eq.
#[export] Existing Instance EQ.eta_stat.
#[export] Existing Instance EQ.eta_epoll.
#[export] Existing Instance EQ.eta_smap.
