(* ===== verification/TcpTypes.v ===== *)
(** * The state of a stack thread

    The structures of [mtcp.h], [tcp_stream.h], [timer.h] and [socket.h] and the
    monad the TCP code is written in.

    - A stream is identified by the address of its [tcp_stream]; the map
      [streams] holds the streams that are allocated, with their [tcp_recv_vars]
      and [tcp_send_vars].  Using the address of a stream that was freed is a
      [StreamFault].
    - A tail queue is the list of its elements; removing an element that is not
      linked corrupts it: [LinkFault].
    - [senders] holds [g_sender] under the key -1 and [n_sender[i]] under [i].
    - The network interface, the C heap and [rand_r] are the class [World]. *)
From S2P Require Import Prelude SeqNum CircQueue MemPool RingBuffer SendBuffer FlowHash Rss AddrPool EventQueue.

(** ** Constants *)
Definition TCP_FLAG_FIN : Z := 0x01.
Definition TCP_FLAG_SYN : Z := 0x02.
Definition TCP_FLAG_RST : Z := 0x04.
Definition TCP_FLAG_PSH : Z := 0x08.
Definition TCP_FLAG_ACK : Z := 0x10.
Definition TCP_FLAG_URG : Z := 0x20.
Definition TCP_FLAG_SACK : Z := 0x40.
Definition TCP_FLAG_WACK : Z := 0x80.

Definition TCP_DEFAULT_MSS : Z := 1460.
Definition TCP_DEFAULT_WSCALE : Z := 7.
Definition TCP_INITIAL_WINDOW : Z := 14600.
Definition TCP_INITIAL_RTO : Z := 500.
Definition TCP_MAX_RTX : Z := 16.
Definition TCP_MAX_SYN_RETRY : Z := 7.
Definition TCP_MAX_BACKOFF : Z := 7.
Definition TCP_MAX_WINDOW : Z := 65535.
Definition TCP_MAX_SEQ : Z := 4294967295.
Definition TCP_HEADER_LEN : Z := 20.
Definition IP_HEADER_LEN : Z := 20.
Definition ETHERNET_HEADER_LEN : Z := 14.
Definition RTO_HASH : Z := 3000.

Inductive tcp_state :=
  | TCP_ST_CLOSED | TCP_ST_LISTEN | TCP_ST_SYN_SENT | TCP_ST_SYN_RCVD | TCP_ST_ESTABLISHED
  | TCP_ST_FIN_WAIT_1 | TCP_ST_FIN_WAIT_2 | TCP_ST_CLOSE_WAIT | TCP_ST_CLOSING | TCP_ST_LAST_ACK
  | TCP_ST_TIME_WAIT.
#[export] Instance tcp_state_eq_dec : EqDecision tcp_state.
Proof. solve_decision. Defined.

(** The values of the enumeration; the code compares states by them. *)
Definition st_num (s : tcp_state) : Z :=
  match s with
  | TCP_ST_CLOSED => 0 | TCP_ST_LISTEN => 1 | TCP_ST_SYN_SENT => 2 | TCP_ST_SYN_RCVD => 3
  | TCP_ST_ESTABLISHED => 4 | TCP_ST_FIN_WAIT_1 => 5 | TCP_ST_FIN_WAIT_2 => 6 | TCP_ST_CLOSE_WAIT => 7
  | TCP_ST_CLOSING => 8 | TCP_ST_LAST_ACK => 9 | TCP_ST_TIME_WAIT => 10
  end.
Definition st_eqb (a b : tcp_state) : bool := st_num a =? st_num b.

Inductive tcp_close_reason :=
  | TCP_NOT_CLOSED | TCP_ACTIVE_CLOSE | TCP_PASSIVE_CLOSE | TCP_CONN_FAIL | TCP_CONN_LOST | TCP_RESET
  | TCP_NO_MEM | TCP_NOT_ACCEPTED | TCP_TIMEDOUT.
#[export] Instance tcp_close_reason_eq_dec : EqDecision tcp_close_reason.
Proof. solve_decision. Defined.

Inductive ack_opt := ACK_OPT_NOW | ACK_OPT_AGGREGATE | ACK_OPT_WACK.

(** ** Streams *)
Record tcp_recv_vars := mk_rcv {
  rv_addr : Z;
  rcv_wnd : Z;
  irs : Z;
  snd_wl1 : Z;
  snd_wl2 : Z;
  dup_acks : Z;                (* uint8_t *)
  last_ack_seq : Z;
  ts_recent : Z;
  ts_lastack_rcvd : Z;
  ts_last_ts_upd : Z;
  ts_tw_expire : Z;
  srtt : Z;
  mdev : Z;
  mdev_max : Z;
  rttvar : Z;
  rtt_seq : Z;
  rcvbuf : option RB.tcp_ring_buffer
}.
#[export] Instance eta_rcv : Eta tcp_recv_vars :=
  λ r, mk_rcv (rv_addr r) (rcv_wnd r) (irs r) (snd_wl1 r) (snd_wl2 r) (dup_acks r) (last_ack_seq r)
         (ts_recent r) (ts_lastack_rcvd r) (ts_last_ts_upd r) (ts_tw_expire r) (srtt r) (mdev r)
         (mdev_max r) (rttvar r) (rtt_seq r) (rcvbuf r).

Record tcp_send_vars := mk_snd {
  sv_addr : Z;
  ip_id : Z;
  mss : Z;
  eff_mss : Z;
  wscale_mine : Z;
  wscale_peer : Z;
  nif_out : Z;                 (* int8_t *)
  snd_una : Z;
  snd_wnd : Z;
  peer_wnd : Z;
  iss : Z;
  fss : Z;
  nrtx : Z;
  max_nrtx : Z;
  rto : Z;
  ts_rto : Z;
  cwnd : Z;
  ssthresh : Z;
  ts_lastack_sent : Z;
  is_wack : bool;
  ack_cnt : Z;                 (* 6 bits *)
  on_control_list : bool;
  on_send_list : bool;
  on_ack_list : bool;
  on_sendq : bool;
  on_ackq : bool;
  on_closeq : bool;
  on_resetq : bool;
  on_closeq_int : bool;
  on_resetq_int : bool;
  is_fin_sent : bool;
  is_fin_ackd : bool;
  sndbuf : option SB.tcp_send_buffer
}.
#[export] Instance eta_snd : Eta tcp_send_vars :=
  λ r, mk_snd (sv_addr r) (ip_id r) (mss r) (eff_mss r) (wscale_mine r) (wscale_peer r) (nif_out r)
         (snd_una r) (snd_wnd r) (peer_wnd r) (iss r) (fss r) (nrtx r) (max_nrtx r) (rto r) (ts_rto r)
         (cwnd r) (ssthresh r) (ts_lastack_sent r) (is_wack r) (ack_cnt r) (on_control_list r)
         (on_send_list r) (on_ack_list r) (on_sendq r) (on_ackq r) (on_closeq r) (on_resetq r)
         (on_closeq_int r) (on_resetq_int r) (is_fin_sent r) (is_fin_ackd r) (sndbuf r).

Record tcp_stream := mk_stream {
  socket : option Z;           (* index in the socket table *)
  sid : Z;                     (* [id], 24 bits *)
  stream_type : Z;
  saddr : Z;
  daddr : Z;
  sport : Z;
  dport : Z;
  state : tcp_state;
  close_reason : tcp_close_reason;
  on_hash_table : bool;
  on_timewait_list : bool;
  ht_idx : Z;
  closed : bool;
  is_bound_addr : bool;
  need_wnd_adv : bool;
  on_rto_idx : Z;              (* int16_t *)
  on_timeout_list : bool;
  saw_timestamp : bool;
  sack_permit : bool;
  control_list_waiting : bool;
  have_reset : bool;
  is_external : bool;
  snd_nxt : Z;
  rcv_nxt : Z;
  rcvvar : tcp_recv_vars;
  sndvar : tcp_send_vars;
  last_active_ts : Z
}.
#[export] Instance eta_stream : Eta tcp_stream :=
  λ r, mk_stream (socket r) (sid r) (stream_type r) (saddr r) (daddr r) (sport r) (dport r) (state r)
         (close_reason r) (on_hash_table r) (on_timewait_list r) (ht_idx r) (closed r) (is_bound_addr r)
         (need_wnd_adv r) (on_rto_idx r) (on_timeout_list r) (saw_timestamp r) (sack_permit r)
         (control_list_waiting r) (have_reset r) (is_external r) (snd_nxt r) (rcv_nxt r) (rcvvar r)
         (sndvar r) (last_active_ts r).

(** [memset] to zero. *)
Definition zero_rcv (a : Z) : tcp_recv_vars := mk_rcv a 0 0 0 0 0 0 0 0 0 0 0 0 0 0 0 None.
Definition zero_snd (a : Z) : tcp_send_vars :=
  mk_snd a 0 0 0 0 0 0 0 0 0 0 0 0 0 0 0 0 0 0 false 0 false false false false false false false false
    false false false None.
Definition zero_stream (rv sv : Z) : tcp_stream :=
  mk_stream None 0 0 0 0 0 0 TCP_ST_CLOSED TCP_NOT_CLOSED false false 0 false false false 0 false false
    false false false false 0 0 (zero_rcv rv) (zero_snd sv) 0.

Definition flow_of (s : tcp_stream) : flow := mk_flow (saddr s) (daddr s) (sport s) (dport s).

(** ** The thread *)
Record mtcp_sender := mk_sender {
  control_list : list Z;
  send_list : list Z;
  ack_list : list Z;
  control_list_cnt : Z;
  send_list_cnt : Z;
  ack_list_cnt : Z
}.
#[export] Instance eta_sender : Eta mtcp_sender :=
  λ r, mk_sender (control_list r) (send_list r) (ack_list r) (control_list_cnt r) (send_list_cnt r)
         (ack_list_cnt r).

Record rto_hashstore := mk_rto {
  rto_now_idx : Z;
  rto_now_ts : Z;
  rto_list : gmap Z (list Z)     (* a missing entry is an empty list *)
}.
#[export] Instance eta_rto : Eta rto_hashstore := λ r, mk_rto (rto_now_idx r) (rto_now_ts r) (rto_list r).

Record tcp_listener := mk_listener { l_socket : Z; acceptq : StreamQ.stream_queue }.
#[export] Instance eta_listener : Eta tcp_listener := λ r, mk_listener (l_socket r) (acceptq r).

(** [pipe.c]. *)
Inductive pipe_state := PIPE_CLOSED | PIPE_ACTIVE | PIPE_CLOSE_WAIT.
#[export] Instance pipe_state_eq_dec : EqDecision pipe_state.
Proof. solve_decision. Defined.
Record pipe := mk_pipe {
  pp_state : pipe_state;
  pp_socket : Z * Z;           (* indices in the socket table *)
  pp_buf : list Z;
  buf_off : Z;
  buf_tail : Z;
  buf_len : Z;
  buf_size : Z
}.
#[export] Instance eta_pipe : Eta pipe :=
  λ r, mk_pipe (pp_state r) (pp_socket r) (pp_buf r) (buf_off r) (buf_tail r) (buf_len r) (buf_size r).

Record eth_table := mk_eth { ifindex : Z; eth_haddr : list Z; ip_addr : Z }.
Record route_table := mk_route { rt_daddr : Z; rt_mask : Z; rt_masked : Z; rt_prefix : Z; rt_nif : Z }.
Record arp_entry := mk_arp { arp_ip : Z; arp_prefix : Z; ip_mask : Z; ip_masked : Z; arp_haddr : list Z }.
Record mtcp_config := mk_config {
  eths : list eth_table;
  nif_to_eidx : list Z;
  rtable : list route_table;
  gateway : option route_table;
  arp_entries : list arp_entry;
  arp_gateway : option arp_entry;
  max_concurrency : Z;
  sndbuf_size : Z;
  tcp_timewait : Z;
  tcp_timeout : Z
}.
#[export] Instance eta_config : Eta mtcp_config :=
  λ r, mk_config (eths r) (nif_to_eidx r) (rtable r) (gateway r) (arp_entries r) (arp_gateway r)
         (max_concurrency r) (sndbuf_size r) (tcp_timewait r) (tcp_timeout r).

(** A frame handed to the network interface: the interface index, the
    destination address and protocol of the Ethernet header, and the bytes of
    the packet. *)
Record frame := mk_frame { fr_eidx : Z; fr_src : list Z; fr_dst : list Z; fr_proto : Z; fr_data : list Z }.
#[export] Instance eta_frame : Eta frame :=
  λ r, mk_frame (fr_eidx r) (fr_src r) (fr_dst r) (fr_proto r) (fr_data r).

Record arp_queue_entry := mk_arpq { aq_ip : Z; aq_nif : Z; aq_ts : Z }.

(** What the stack uses of its surroundings: a write buffer of the network
    interface may be unavailable; [calloc] may fail; a fresh chunk has
    arbitrary bytes; checksums may be offloaded ([dev_ioctl] absent, failing
    with -1, or not). *)
Class World (IO : Type) := {
  get_wptr : IO → Z → Z → bool * IO;
  calloc : IO → option Z * IO;
  stale_bytes : IO → Z → list Z;
  dev_ioctl : option (Z → Z → Z);
  ip_fast_csum : list Z → Z;
  rand_r : Z → Z * Z
}.

Section Manager.
Context {P IO : Type}.

Record mtcp_manager := mk_mtcp {
  CONFIG : mtcp_config;
  streams : gmap Z tcp_stream;
  flow_pool : P;
  rv_pool : P;
  sv_pool : P;
  rbm_snd : SB.sb_manager P;
  rbm_rcv : RB.rb_manager P;
  tcp_flow_table : FlowHash.hashtable flow;
  smap : gmap Z EQ.socket_map;
  free_smap : list Z;                      (* ids of the unused sockets *)
  ap : option AddrPool.addr_pool;
  ap_if : gmap Z AddrPool.addr_pool;       (* the global [ap[ETH_NUM]] *)
  g_id : Z;
  flow_cnt : Z;
  ep : Z;                                  (* [mtcp->ep], 0 for none *)
  epolls : gmap Z EQ.mtcp_epoll;           (* the epoll structures that are allocated *)
  pipes : gmap Z pipe;
  listeners : FlowHash.hashtable Z;
  listener : gmap Z tcp_listener;
  connectq : StreamQ.stream_queue;
  sendq : StreamQ.stream_queue;
  ackq : StreamQ.stream_queue;
  closeq : StreamQ.stream_queue;
  closeq_int : StreamQInt.stream_queue_int;
  resetq : StreamQ.stream_queue;
  resetq_int : StreamQInt.stream_queue_int;
  destroyq : StreamQ.stream_queue;
  senders : gmap Z mtcp_sender;
  rto_store : rto_hashstore;
  timewait_list : list Z;
  timeout_list : list Z;
  rto_list_cnt : Z;
  timewait_list_cnt : Z;
  timeout_list_cnt : Z;
  cur_ts : Z;
  wakeup_flag : bool;
  stopping : bool;                         (* [ctx->done || ctx->exit] *)
  interrupt : bool;
  errno : Z;                               (* of the application thread *)
  arp_list : list arp_queue_entry;         (* [g_arpm] *)
  next_seed : Z;
  payload_out : Z;
  io : IO;
  out : list frame
}.
#[export] Instance eta_mtcp : Eta mtcp_manager :=
  λ r, mk_mtcp (CONFIG r) (streams r) (flow_pool r) (rv_pool r) (sv_pool r) (rbm_snd r) (rbm_rcv r)
         (tcp_flow_table r) (smap r) (free_smap r) (ap r) (ap_if r) (g_id r) (flow_cnt r) (ep r) (epolls r)
         (pipes r) (listeners r)
         (listener r) (connectq r) (sendq r) (ackq r) (closeq r) (closeq_int r) (resetq r)
         (resetq_int r) (destroyq r) (senders r) (rto_store r) (timewait_list r) (timeout_list r) (rto_list_cnt r)
         (timewait_list_cnt r) (timeout_list_cnt r) (cur_ts r) (wakeup_flag r) (stopping r) (interrupt r) (errno r) (arp_list r) (next_seed r)
         (payload_out r) (io r) (out r).

(** ** The monad: state and faults *)
Inductive fault :=
  | StreamFault                  (* a stream that is not allocated *)
  | SenderFault                  (* a null sender *)
  | LinkFault                    (* removal from a list the stream is not on *)
  | FuelFault                    (* a loop that did not end *)
  | SocketFault                  (* a socket that does not exist, or [AddEpollEvent] fails *)
  | ListenerFault                (* a null listener *)
  | ArithFault                   (* division by zero *)
  | BufferFault                  (* a buffer operation fails, or an array is full *)
  | PacketFault                  (* a read outside the packet *)
  | LoopFault                    (* the option parser does not end *)
  | AddressFault                 (* the address pool is corrupted *)
  | ConfigFault.                 (* a missing gateway or interface *)

Definition M (A : Type) : Type := mtcp_manager → fault + A * mtcp_manager.

Definition ret {A} (a : A) : M A := λ m, inr (a, m).
Definition fail {A} (f : fault) : M A := λ _, inl f.
Definition bind {A B} (c : M A) (k : A → M B) : M B :=
  λ m, match c m with inl f => inl f | inr (a, m') => k a m' end.
Definition gets {A} (f : mtcp_manager → A) : M A := λ m, inr (f m, m).
Definition modify (f : mtcp_manager → mtcp_manager) : M unit := λ m, inr (tt, f m).
Definition lift {A} (f : fault) (o : option A) : M A :=
  match o with Some a => ret a | None => fail f end.
End Manager.
Arguments mtcp_manager : clear implicits.
Arguments M : clear implicits.

Notation "x <- c ;; k" := (bind c (λ x, k))
  (at level 20, c at level 99, k at level 200) : mtcp_scope.
Notation "' x <- c ;; k" := (bind c (λ x, k))
  (at level 20, x pattern, c at level 99, k at level 200) : mtcp_scope.
Notation "c ;;; k" := (bind c (λ _, k)) (at level 100, k at level 200, right associativity) : mtcp_scope.

Section Access.
Context {P IO : Type}.
Local Abbreviation mtcp := (mtcp_manager P IO).
Local Abbreviation M := (M P IO).

Definition when (b : bool) (c : M unit) : M unit := if b then c else ret tt.

Definition getS (p : Z) : M tcp_stream := m <- gets streams ;; lift StreamFault (m !! p).
Definition modS (p : Z) (f : tcp_stream → tcp_stream) : M unit :=
  s <- getS p ;; modify (λ m, m <| streams := <[p := f s]> (streams m) |>).
Definition modSnd (p : Z) (f : tcp_send_vars → tcp_send_vars) : M unit :=
  modS p (λ s, s <| sndvar := f (sndvar s) |>).
Definition modRcv (p : Z) (f : tcp_recv_vars → tcp_recv_vars) : M unit :=
  modS p (λ s, s <| rcvvar := f (rcvvar s) |>).

(** A sender pointer: [None] is NULL. *)
Definition getD (d : option Z) : M mtcp_sender :=
  k <- lift SenderFault d ;; ds <- gets senders ;; lift SenderFault (ds !! k).
Definition modD (d : option Z) (f : mtcp_sender → mtcp_sender) : M unit :=
  k <- lift SenderFault d ;; x <- getD d ;; modify (λ m, m <| senders := <[k := f x]> (senders m) |>).

(** [TAILQ_REMOVE] of a linked element. *)
Definition tq_remove (l : list Z) (p : Z) : M (list Z) :=
  if decide (p ∈ l) then ret (TAILQ_REMOVE l p) else fail LinkFault.

(** [TAILQ_NEXT] of a linked element. *)
Fixpoint TAILQ_NEXT (l : list Z) (p : Z) : option Z :=
  match l with
  | [] => None
  | x :: l => if decide (x = p) then head l else TAILQ_NEXT l p
  end.

(** The list at an index of the hash store. *)
Definition rto_at (m : mtcp) (i : Z) : list Z := default [] (rto_list (rto_store m) !! i).
Definition set_rto_at (m : mtcp) (i : Z) (l : list Z) : mtcp :=
  m <| rto_store := (rto_store m) <| rto_list := <[i := l]> (rto_list (rto_store m)) |> |>.
End Access.
