(* ===== verification/NetOut.v ===== *)
(** * Below TCP on the way out

    [ip_out.c], [eth_out.c] and the requesting half of [arp.c]: choosing the
    output interface, resolving the hardware address, acquiring a write buffer
    of the network interface and writing the Ethernet, ARP and IP headers.

    A frame is added to [out] (newest first) when its buffer is acquired;
    [fill] appends the bytes written behind the Ethernet header. *)
From S2P Require Import Prelude FlowHash TcpTypes MemPool.

Definition ETH_P_IP : Z := 0x0800.
Definition ETH_P_ARP : Z := 0x0806.
Definition PKT_TX_IP_CSUM : Z := 0x01.
Definition PKT_TX_TCPIP_CSUM : Z := 0x04.
Definition PKT_RX_TCP_CSUM : Z := 0x06.
Definition PKT_TX_TCPIP_CSUM_PEEK : Z := 0x07.
Definition IPPROTO_ICMP : Z := 1.
Definition IPPROTO_TCP : Z := 6.

(** Fields of two and four bytes as they are stored; [be] fields are written
    with [htons]/[htonl]. *)
Definition le16 (v : Z) : list Z := FlowHash.le_bytes 2 v.
Definition le32 (v : Z) : list Z := FlowHash.le_bytes 4 v.
Definition be16 (v : Z) : list Z := le16 (swap16 v).
Definition be32 (v : Z) : list Z := le32 (swap32 v).

(** The interface and [*is_external]; the loop ends at the first route that
    matches. *)
Fixpoint route_loop (gw : option route_table) (daddr prefix : Z) (rts : list route_table) : Z * bool :=
  match rts with
  | [] => (-1, false)
  | r :: rts =>
    if Z.land daddr (rt_mask r) =? rt_masked r then
      if rt_prefix r >? prefix then (rt_nif r, false)
      else match gw with Some g => (rt_nif g, true) | None => (-1, false) end
    else route_loop gw daddr prefix rts
  end.
Definition GetOutputInterface (C : mtcp_config) (daddr : Z) : Z * bool :=
  route_loop (gateway C) daddr 0 (rtable C).

(** The loop over the ARP table: an exact entry ([prefix] 1) ends it, otherwise
    the longest matching prefix is kept. *)
Fixpoint arp_loop (dip prefix : Z) (d_haddr : option (list Z)) (es : list arp_entry) : option (list Z) :=
  match es with
  | [] => d_haddr
  | e :: es =>
    if arp_prefix e =? 1 then
      if arp_ip e =? dip then Some (arp_haddr e) else arp_loop dip prefix d_haddr es
    else if (Z.land dip (ip_mask e) =? ip_masked e) && (arp_prefix e >? prefix)
    then arp_loop dip (arp_prefix e) (Some (arp_haddr e)) es
    else arp_loop dip prefix d_haddr es
  end.
Definition GetDestinationHWaddr (C : mtcp_config) (dip : Z) (is_gateway : bool) : option (list Z) :=
  match is_gateway, arp_gateway C with
  | true, Some g => Some (arp_haddr g)
  | _, _ => arp_loop dip 0 None (arp_entries C)
  end.

Section Output.
Context {P IO : Type} `{ChunkPool P, World IO}.
Local Abbreviation mtcp := (mtcp_manager P IO).
Local Abbreviation M := (M P IO).

(** An entry of an array of the configuration. *)
Definition nth_config {A} (l : list A) (i : Z) : M A :=
  lift ConfigFault (if 0 <=? i then l !! Z.to_nat i else None).

Definition wptr (eidx len : Z) : M bool :=
  w <- gets io ;;
  let '(ok, w) := get_wptr w eidx len in
  modify (λ m, m <| io := w |>) ;;; ret ok.

Definition fill (bs : list Z) : M unit :=
  modify (λ m, m <| out := match out m with
                           | [] => []
                           | f :: fs => f <| fr_data := fr_data f ++ bs |> :: fs
                           end |>).

(** [true]: a frame was started. *)
Definition EthernetOutput (h_proto nif : Z) (dst_haddr : list Z) (iplen : Z) : M bool :=
  if nif <? 0 then ret false
  else
    C <- gets CONFIG ;;
    eidx <- nth_config (nif_to_eidx C) nif ;;
    if eidx <? 0 then ret false
    else
      buf <- wptr eidx (iplen + ETHERNET_HEADER_LEN) ;;
      if negb buf then ret false
      else
        e <- nth_config (eths C) eidx ;;
        modify (λ m, m <| out := mk_frame eidx (eth_haddr e) dst_haddr h_proto [] :: out m |>) ;;;
        ret true.

Definition arp_op_request : Z := 1.
Definition arp_op_reply : Z := 2.
Definition sizeof_arphdr : Z := 46.

Definition ARPOutput (nif opcode dst_ip : Z) (dst_haddr : list Z) (target_haddr : option (list Z)) : M Z :=
  arph <- EthernetOutput ETH_P_ARP nif dst_haddr sizeof_arphdr ;;
  if negb arph then ret (-1)
  else
    C <- gets CONFIG ;;
    edix <- nth_config (nif_to_eidx C) nif ;;
    e <- nth_config (eths C) edix ;;
    fill (be16 1 ++ be16 ETH_P_IP ++ [6; 4] ++ be16 opcode ++ eth_haddr e ++ le32 (ip_addr e)
          ++ default dst_haddr target_haddr ++ le32 dst_ip ++ replicate 18 0) ;;;
    ret 0.

Definition RequestARP (ip nif ts : Z) : M unit :=
  l <- gets arp_list ;;
  if existsb (λ e, aq_ip e =? ip) l then ret tt
  else
    modify (λ m, m <| arp_list := arp_list m ++ [mk_arpq ip nif ts] |>) ;;;
    _ <- ARPOutput nif arp_op_request ip (replicate 6 255) (Some (replicate 6 0)) ;;
    ret tt.

Definition MAX_ARPENTRY : Z := 1024.

(** The entry behind the last one of the array is a [BufferFault]. *)
Definition RegisterARPEntry (ip : Z) (haddr : list Z) : M Z :=
  C <- gets CONFIG ;;
  lift BufferFault (guard (Z.of_nat (length (arp_entries C)) < MAX_ARPENTRY)) ;;;
  let e := mk_arp ip 32 4294967295 ip haddr in
  let C := C <| arp_gateway :=
             match gateway C with
             | Some g => if Z.land (rt_daddr g) (ip_mask e) =? ip_masked e then Some e else arp_gateway C
             | None => arp_gateway C
             end |> in
  modify (λ m, m <| CONFIG := C <| arp_entries := arp_entries C ++ [e] |> |>) ;;;
  ret 0.

Definition ioctl (nif cmd : Z) : Z :=
  match dev_ioctl with Some f => f nif cmd | None => -1 end.

(** The 20 bytes of the IP header, with the given checksum field. *)
Definition ip_header (tot_len id protocol check saddr daddr : Z) : list Z :=
  [0x45; 0] ++ be16 tot_len ++ be16 id ++ be16 0x4000 ++ [64; protocol] ++ le16 check ++ le32 saddr ++ le32 daddr.

Definition ip_fill (nif tot_len id protocol saddr daddr : Z) : M unit :=
  let rc := if protocol =? IPPROTO_TCP then ioctl nif PKT_TX_TCPIP_CSUM_PEEK
            else if protocol =? IPPROTO_ICMP then ioctl nif PKT_TX_IP_CSUM else -1 in
  let h := ip_header tot_len id protocol 0 saddr daddr in
  let check := if rc =? -1 then ip_fast_csum h else 0 in
  fill (ip_header tot_len id protocol check saddr daddr).

Definition gateway_daddr : M Z :=
  C <- gets CONFIG ;; g <- lift ConfigFault (gateway C) ;; ret (rt_daddr g).

Definition IPOutputStandalone (protocol ip_id saddr daddr payloadlen : Z) : M bool :=
  C <- gets CONFIG ;;
  let '(nif, is_external) := GetOutputInterface C daddr in
  if nif <? 0 then ret false
  else
    match GetDestinationHWaddr C daddr is_external with
    | None =>
      d <- (if is_external then gateway_daddr else ret daddr) ;;
      ts <- gets cur_ts ;;
      RequestARP d nif ts ;;;
      ret false
    | Some haddr =>
      iph <- EthernetOutput ETH_P_IP nif haddr (u16 (payloadlen + IP_HEADER_LEN)) ;;
      if negb iph then ret false
      else ip_fill nif (IP_HEADER_LEN + payloadlen) ip_id protocol saddr daddr ;;; ret true
    end.

Definition IPOutput (p tcplen : Z) : M bool :=
  s <- getS p ;;
  C <- gets CONFIG ;;
  nif <- (if 0 <=? nif_out (sndvar s) then ret (nif_out (sndvar s))
          else
            let '(nif, ext) := GetOutputInterface C (daddr s) in
            modS p (λ s, s <| sndvar := (sndvar s) <| nif_out := s8 nif |> |> <| is_external := ext |>) ;;;
            ret nif) ;;
  s <- getS p ;;
  match GetDestinationHWaddr C (daddr s) (is_external s) with
  | None =>
    d <- (if is_external s then gateway_daddr else ret (daddr s)) ;;
    ts <- gets cur_ts ;;
    RequestARP d (nif_out (sndvar s)) ts ;;;
    ret false
  | Some haddr =>
    iph <- EthernetOutput ETH_P_IP (nif_out (sndvar s)) haddr (u16 (tcplen + IP_HEADER_LEN)) ;;
    if negb iph then ret false
    else
      modSnd p (λ v, v <| ip_id := u16 (ip_id v + 1) |>) ;;;
      ip_fill nif (IP_HEADER_LEN + tcplen) (ip_id (sndvar s)) IPPROTO_TCP (saddr s) (daddr s) ;;;
      ret true
  end.
End Output.
