(* ===== verification/TcpLists.v ===== *)
(** * The lists of streams

    The sender lists of [tcp_out.c] (control, send and ack), the retransmission
    store, the timewait list and the timeout list of [timer.c], and the
    invariant that ties them to the flags in the streams. *)
From S2P Require Import Prelude SeqNum MemPool FlowHash TcpTypes NetOut.

Section Lists.
Context {P IO : Type} `{ChunkPool P, World IO}.
Local Abbreviation mtcp := (mtcp_manager P IO).
Local Abbreviation M := (M P IO).

(** ** Sender lists *)

(** [None] is the NULL the function returns. *)
Definition GetSender (p : Z) : M (option Z) :=
  s <- getS p ;;
  if nif_out (sndvar s) <? 0 then ret (Some (-1))
  else
    C <- gets CONFIG ;;
    eidx <- nth_config (nif_to_eidx C) (nif_out (sndvar s)) ;;
    if (eidx <? 0) || (Z.of_nat (length (eths C)) <=? eidx) then ret None else ret (Some eidx).

Definition AddtoControlList (p cur_ts : Z) : M unit :=
  s <- getS p ;;
  when (negb (on_control_list (sndvar s)))
    (sender <- GetSender p ;;
     modSnd p (λ v, v <| on_control_list := true |>) ;;;
     modD sender (λ d, d <| control_list := TAILQ_INSERT_TAIL (control_list d) p |>
                         <| control_list_cnt := s32 (control_list_cnt d + 1) |>)).

Definition AddtoSendList (p : Z) : M unit :=
  sender <- GetSender p ;;
  s <- getS p ;;
  match sndbuf (sndvar s) with
  | None => ret tt
  | Some _ =>
    when (negb (on_send_list (sndvar s)))
      (modSnd p (λ v, v <| on_send_list := true |>) ;;;
       modD sender (λ d, d <| send_list := TAILQ_INSERT_TAIL (send_list d) p |>
                           <| send_list_cnt := s32 (send_list_cnt d + 1) |>))
  end.

Definition AddtoACKList (p : Z) : M unit :=
  sender <- GetSender p ;;
  s <- getS p ;;
  when (negb (on_ack_list (sndvar s)))
    (modSnd p (λ v, v <| on_ack_list := true |>) ;;;
     modD sender (λ d, d <| ack_list := TAILQ_INSERT_TAIL (ack_list d) p |>
                         <| ack_list_cnt := s32 (ack_list_cnt d + 1) |>)).

Definition RemoveFromControlList (p : Z) : M unit :=
  sender <- GetSender p ;;
  s <- getS p ;;
  when (on_control_list (sndvar s))
    (modSnd p (λ v, v <| on_control_list := false |>) ;;;
     d <- getD sender ;;
     l <- tq_remove (control_list d) p ;;
     modD sender (λ d, d <| control_list := l |> <| control_list_cnt := s32 (control_list_cnt d - 1) |>)).

Definition RemoveFromSendList (p : Z) : M unit :=
  sender <- GetSender p ;;
  s <- getS p ;;
  when (on_send_list (sndvar s))
    (modSnd p (λ v, v <| on_send_list := false |>) ;;;
     d <- getD sender ;;
     l <- tq_remove (send_list d) p ;;
     modD sender (λ d, d <| send_list := l |> <| send_list_cnt := s32 (send_list_cnt d - 1) |>)).

Definition RemoveFromACKList (p : Z) : M unit :=
  sender <- GetSender p ;;
  s <- getS p ;;
  when (on_ack_list (sndvar s))
    (modSnd p (λ v, v <| on_ack_list := false |>) ;;;
     d <- getD sender ;;
     l <- tq_remove (ack_list d) p ;;
     modD sender (λ d, d <| ack_list := l |> <| ack_list_cnt := s32 (ack_list_cnt d - 1) |>)).

(** The 6-bit counter is promoted to [int] in the comparison, which is always
    true; the increment wraps. *)
Definition EnqueueACK (p cur_ts : Z) (opt : ack_opt) : M unit :=
  s <- getS p ;;
  match opt with
  | ACK_OPT_NOW =>
    when (ack_cnt (sndvar s) <? ack_cnt (sndvar s) + 1)
      (modSnd p (λ v, v <| ack_cnt := (ack_cnt v + 1) mod 64 |>))
  | ACK_OPT_AGGREGATE =>
    when (ack_cnt (sndvar s) =? 0) (modSnd p (λ v, v <| ack_cnt := 1 |>))
  | ACK_OPT_WACK => modSnd p (λ v, v <| is_wack := true |>)
  end ;;;
  AddtoACKList p.

(** ** Timer lists *)

Definition InitRTOHashstore (calloc_ok : bool) : option rto_hashstore :=
  if calloc_ok then Some (mk_rto 0 0 ∅) else None.

(** [diff] is an [int], [rto_now_idx] is unsigned: the sum and the remainder
    are computed in 32 bits without sign. *)
Definition rto_offset (diff idx : Z) : Z := u32 (diff + idx) mod RTO_HASH.

Definition AddtoRTOList (p : Z) : M unit :=
  s <- getS p ;;
  cnt <- gets rto_list_cnt ;;
  when (cnt =? 0)
    (modify (λ m, m <| rto_store := (rto_store m) <| rto_now_idx := 0 |>
                                                  <| rto_now_ts := ts_rto (sndvar s) |> |>)) ;;;
  when (on_rto_idx s <? 0)
    (if on_timewait_list s then ret tt
     else
       hs <- gets rto_store ;;
       let diff := s32 (ts_rto (sndvar s) ⊟ rto_now_ts hs) in
       let idx := if diff <? RTO_HASH then rto_offset diff (rto_now_idx hs) else RTO_HASH in
       modS p (λ s, s <| on_rto_idx := idx |>) ;;;
       modify (λ m, set_rto_at m idx (TAILQ_INSERT_TAIL (rto_at m idx) p)) ;;;
       modify (λ m, m <| rto_list_cnt := s32 (rto_list_cnt m + 1) |>)).

Definition RemoveFromRTOList (p : Z) : M unit :=
  s <- getS p ;;
  when (negb (on_rto_idx s <? 0))
    (m <- gets (λ m, m) ;;
     l <- tq_remove (rto_at m (on_rto_idx s)) p ;;
     modify (λ m, set_rto_at m (on_rto_idx s) l) ;;;
     modS p (λ s, s <| on_rto_idx := -1 |>) ;;;
     modify (λ m, m <| rto_list_cnt := s32 (rto_list_cnt m - 1) |>)).

Definition AddtoTimewaitList (p cur_ts : Z) : M unit :=
  C <- gets CONFIG ;;
  modRcv p (λ r, r <| ts_tw_expire := cur_ts ⊞ tcp_timewait C |>) ;;;
  s <- getS p ;;
  if on_timewait_list s then
    tw <- gets timewait_list ;;
    l <- tq_remove tw p ;;
    modify (λ m, m <| timewait_list := TAILQ_INSERT_TAIL l p |>)
  else
    when (negb (on_rto_idx s <? 0)) (RemoveFromRTOList p) ;;;
    modS p (λ s, s <| on_timewait_list := true |>) ;;;
    modify (λ m, m <| timewait_list := TAILQ_INSERT_TAIL (timewait_list m) p |>
                   <| timewait_list_cnt := s32 (timewait_list_cnt m + 1) |>).

Definition RemoveFromTimewaitList (p : Z) : M unit :=
  s <- getS p ;;
  when (on_timewait_list s)
    (tw <- gets timewait_list ;;
     l <- tq_remove tw p ;;
     modify (λ m, m <| timewait_list := l |>) ;;;
     modS p (λ s, s <| on_timewait_list := false |>) ;;;
     modify (λ m, m <| timewait_list_cnt := s32 (timewait_list_cnt m - 1) |>)).

Definition AddtoTimeoutList (p : Z) : M unit :=
  s <- getS p ;;
  when (negb (on_timeout_list s))
    (modS p (λ s, s <| on_timeout_list := true |>) ;;;
     modify (λ m, m <| timeout_list := TAILQ_INSERT_TAIL (timeout_list m) p |>
                    <| timeout_list_cnt := s32 (timeout_list_cnt m + 1) |>)).

Definition RemoveFromTimeoutList (p : Z) : M unit :=
  s <- getS p ;;
  when (on_timeout_list s)
    (modS p (λ s, s <| on_timeout_list := false |>) ;;;
     tl <- gets timeout_list ;;
     l <- tq_remove tl p ;;
     modify (λ m, m <| timeout_list := l |> <| timeout_list_cnt := s32 (timeout_list_cnt m - 1) |>)).

Definition UpdateTimeoutList (p : Z) : M unit :=
  s <- getS p ;;
  when (on_timeout_list s)
    (tl <- gets timeout_list ;;
     l <- tq_remove tl p ;;
     modify (λ m, m <| timeout_list := TAILQ_INSERT_TAIL l p |>)).

Definition UpdateRetransmissionTimer (p cur_ts : Z) : M unit :=
  modSnd p (λ v, v <| nrtx := 0 |>) ;;;
  s <- getS p ;;
  when (negb (on_rto_idx s <? 0)) (RemoveFromRTOList p) ;;;
  s <- getS p ;;
  when (TCP_SEQ_GT (snd_nxt s) (snd_una (sndvar s)))
    (modSnd p (λ v, v <| ts_rto := cur_ts ⊞ rto v |>) ;;;
     AddtoRTOList p).
End Lists.
