(* ===== verification/TcpInv.v ===== *)
(** * The list invariant and a logic for it

    [inv]: every list of the thread links exactly the allocated streams whose
    flag says so, each once, and the counters count them; no stream is both on
    a retransmission list and on the timewait list; the flow table maps exactly
    the flows of the allocated streams; a stream stays with the sender of its
    output interface.

    [keeps k p c]: run on an allocated stream [p], the operation [c] keeps [inv]
    and the stream, changes no other stream, and never follows a dangling
    stream pointer, dereferences a null sender or corrupts a list.  [frees] is
    the same for operations that may destroy [p]. *)
From S2P Require Import Prelude MemPool FlowHash TcpTypes NetOut TcpLists.

(** ** Counting and tracking streams *)
Section Tracking.
Implicit Types (ss : gmap Z tcp_stream) (s : tcp_stream).

Definition count ss (Q : tcp_stream → bool) : Z :=
  Z.of_nat (size (filter (λ ps, Q ps.2 = true) ss)).

Lemma count_fresh ss Q p s : ss !! p = None → Q s = false → count (<[p := s]> ss) Q = count ss Q.
Proof.
  intros Hp Hq. unfold count. rewrite map_filter_insert_False by (simpl; congruence).
  by rewrite delete_id.
Qed.
Lemma count_new ss Q p s : ss !! p = None → Q s = true → count (<[p := s]> ss) Q = count ss Q + 1.
Proof.
  intros Hp Hq. unfold count. rewrite map_filter_insert_True by done.
  rewrite map_size_insert_None; [lia|]. rewrite map_lookup_filter_None. by left.
Qed.
Lemma count_delete ss Q p s : ss !! p = Some s →
  count ss Q = count (delete p ss) Q + (if Q s then 1 else 0).
Proof.
  intros Hp. rewrite <- (insert_delete_id ss p s) at 1 by done.
  destruct (Q s) eqn:E; [rewrite count_new|rewrite count_fresh]; try done; try lia; apply lookup_delete_eq.
Qed.
Lemma count_insert ss Q p s s' : ss !! p = Some s →
  count (<[p := s']> ss) Q = count ss Q - (if Q s then 1 else 0) + (if Q s' then 1 else 0).
Proof.
  intros Hp. rewrite (count_delete ss Q p s Hp).
  rewrite (count_delete (<[p := s']> ss) Q p s') by apply lookup_insert_eq.
  rewrite delete_insert_eq. lia.
Qed.

(** The list [l] links exactly the streams that satisfy [Q], each once. *)
Definition tracks ss (l : list Z) (Q : Z → tcp_stream → bool) : Prop :=
  NoDup l ∧ ∀ p, p ∈ l ↔ ∃ s, ss !! p = Some s ∧ Q p s = true.

Section Update.
Context (ss : gmap Z tcp_stream) (l : list Z) (Q : Z → tcp_stream → bool) (p : Z) (s s' : tcp_stream).
Context (Ht : tracks ss l Q).

Lemma tracks_mem : ss !! p = Some s → p ∈ l ↔ Q p s = true.
Proof using Ht. intros Hp. rewrite (proj2 Ht p). naive_solver. Qed.

Lemma tracks_live : p ∈ l → ∃ s, ss !! p = Some s ∧ Q p s = true.
Proof using Ht. apply Ht. Qed.

Lemma tracks_upd : ss !! p = Some s → Q p s' = Q p s → tracks (<[p := s']> ss) l Q.
Proof using Ht.
  intros Hp Hq. split; [apply Ht|]. intros q. rewrite (proj2 Ht q).
  destruct (decide (q = p)) as [->|Hne].
  - rewrite lookup_insert_eq. rewrite Hp. naive_solver congruence.
  - by rewrite lookup_insert_ne.
Qed.

Lemma tracks_add : ss !! p = Some s → Q p s = false → Q p s' = true →
  tracks (<[p := s']> ss) (TAILQ_INSERT_TAIL l p) Q.
Proof using Ht.
  intros Hp Hq Hq'. assert (p ∉ l) as Hn by (rewrite tracks_mem by done; congruence). split.
  - apply NoDup_TAILQ_INSERT_TAIL; [apply Ht|done].
  - intros q. rewrite elem_of_TAILQ_INSERT_TAIL, (proj2 Ht q). destruct (decide (q = p)) as [->|Hne].
    + rewrite lookup_insert_eq. naive_solver.
    + rewrite lookup_insert_ne by done. naive_solver.
Qed.

Lemma tracks_add_head : ss !! p = Some s → Q p s = false → Q p s' = true →
  tracks (<[p := s']> ss) (TAILQ_INSERT_HEAD l p) Q.
Proof using Ht.
  intros Hp Hq Hq'. assert (p ∉ l) as Hn by (rewrite tracks_mem by done; congruence). split.
  - apply NoDup_cons. split; [done|apply Ht].
  - intros q. unfold TAILQ_INSERT_HEAD. rewrite elem_of_cons, (proj2 Ht q). destruct (decide (q = p)) as [->|Hne].
    + rewrite lookup_insert_eq. naive_solver.
    + rewrite lookup_insert_ne by done. naive_solver.
Qed.

Lemma tracks_del : Q p s' = false → tracks (<[p := s']> ss) (TAILQ_REMOVE l p) Q.
Proof using Ht.
  intros Hq'. split; [apply NoDup_TAILQ_REMOVE, Ht|].
  intros q. rewrite elem_of_TAILQ_REMOVE, (proj2 Ht q). destruct (decide (q = p)) as [->|Hne].
  - rewrite lookup_insert_eq. naive_solver congruence.
  - rewrite lookup_insert_ne by done. naive_solver.
Qed.

Lemma tracks_fresh : ss !! p = None → Q p s' = false → tracks (<[p := s']> ss) l Q.
Proof using Ht.
  intros Hp Hq. split; [apply Ht|]. intros q. rewrite (proj2 Ht q).
  destruct (decide (q = p)) as [->|Hne].
  - rewrite lookup_insert_eq. rewrite Hp. naive_solver congruence.
  - by rewrite lookup_insert_ne.
Qed.

Lemma tracks_gone : ss !! p = Some s → Q p s = false → tracks (delete p ss) l Q.
Proof using Ht.
  intros Hp Hq. split; [apply Ht|]. intros q. rewrite (proj2 Ht q).
  destruct (decide (q = p)) as [->|Hne].
  - rewrite lookup_delete_eq. rewrite Hp. naive_solver congruence.
  - by rewrite lookup_delete_ne.
Qed.
End Update.

(** Moving a linked stream to the tail. *)
Lemma tracks_rotate ss l Q p : tracks ss l Q → p ∈ l → tracks ss (TAILQ_INSERT_TAIL (TAILQ_REMOVE l p) p) Q.
Proof.
  intros [Hn Hm] Hp. split.
  - apply NoDup_TAILQ_INSERT_TAIL; [by apply NoDup_TAILQ_REMOVE|]. rewrite elem_of_TAILQ_REMOVE. tauto.
  - intros q. rewrite elem_of_TAILQ_INSERT_TAIL, elem_of_TAILQ_REMOVE, <- Hm.
    destruct (decide (q = p)) as [->|]; tauto.
Qed.

(** A tracked list is as long as the number of streams it tracks. *)
Lemma tracks_length ss l Q : tracks ss l (λ _, Q) → Z.of_nat (length l) = count ss Q.
Proof.
  intros [Hn Hm]. unfold count. f_equal.
  rewrite <- (size_list_to_set (C := gset Z) l Hn), <- (size_dom (D := gset Z)).
  f_equal. apply set_eq. intros p. rewrite elem_of_list_to_set, Hm, elem_of_dom. unfold is_Some.
  split; intros (s&Hs); exists s; [apply map_lookup_filter_Some|apply map_lookup_filter_Some in Hs]; naive_solver.
Qed.
End Tracking.

(** The successor of an element. *)
Lemma TAILQ_NEXT_in l p q : TAILQ_NEXT l p = Some q → NoDup l → q ∈ l ∧ q ≠ p.
Proof.
  induction l as [|y l IH]; simpl; [done|]. intros E [Hy Hn]%NoDup_cons. case_decide as Ey.
  - subst y. destruct l as [|z l]; [done|]. injection E as ->. set_solver.
  - destruct (IH E Hn). set_solver.
Qed.

(** ** The invariant *)
Inductive kind := Ctl | Snd | Ack.
#[export] Instance kind_eq_dec : EqDecision kind.
Proof. solve_decision. Defined.

Definition slist (x : kind) (d : mtcp_sender) : list Z :=
  match x with Ctl => control_list d | Snd => send_list d | Ack => ack_list d end.
Definition scnt (x : kind) (d : mtcp_sender) : Z :=
  match x with Ctl => control_list_cnt d | Snd => send_list_cnt d | Ack => ack_list_cnt d end.
Definition sflag (x : kind) (s : tcp_stream) : bool :=
  match x with
  | Ctl => on_control_list (sndvar s) | Snd => on_send_list (sndvar s) | Ack => on_ack_list (sndvar s)
  end.

(** The interface of a destination as the stream stores it, and the sender of
    an interface. *)
Definition nif_for (C : mtcp_config) (daddr : Z) : Z := s8 (GetOutputInterface C daddr).1.
Definition sender_key (C : mtcp_config) (nif : Z) : option Z :=
  if nif <? 0 then Some (-1)
  else
    match nif_to_eidx C !! Z.to_nat nif with
    | Some e => if (e <? 0) || (Z.of_nat (length (eths C)) <=? e) then None else Some e
    | None => None
    end.
Definition at_home (C : mtcp_config) (k : Z) (s : tcp_stream) : bool :=
  bool_decide (sender_key C (nif_out (sndvar s)) = Some k).

(** The flags and fields the lists depend on. *)
Definition links (s : tcp_stream) :=
  (nif_out (sndvar s), flow_of s, (sflag Ctl s, sflag Snd s, sflag Ack s),
   (on_rto_idx s, on_timewait_list s, on_timeout_list s)).

Section Inv.
Context {P IO : Type} `{ChunkPool P, World IO}.
Local Abbreviation mtcp := (mtcp_manager P IO).
Local Abbreviation M := (M P IO).
Implicit Types (m : mtcp) (s : tcp_stream) (C : mtcp_config).

(** A stream whose turn it is in [WriteTCPDataList] is off the send list while
    its flag is still set: [h] is that stream. *)
Definition holed (h : option Z) (x : kind) (p : Z) : bool :=
  match x with Snd => bool_decide (h = Some p) | _ => false end.

Definition on_sender C h x k (p : Z) s : bool := sflag x s && at_home C k s && negb (holed h x p).

(** Every destination leads to a sender, and every sender exists: the global
    one and one per interface. *)
Definition is_sender C (k : Z) : Prop := k = -1 ∨ 0 <= k < Z.of_nat (length (eths C)).
Definition cfg_ok (C : mtcp_config) (ds : gmap Z mtcp_sender) : Prop :=
  (∀ daddr, is_Some (sender_key C (nif_for C daddr))) ∧ (∀ k, is_sender C k → is_Some (ds !! k)).

Lemma sender_key_is_sender C nif k : sender_key C nif = Some k → is_sender C k.
Proof.
  unfold sender_key, is_sender. destruct (nif <? 0); [intros [= <-]; by left|].
  destruct (nif_to_eidx C !! Z.to_nat nif) as [e|]; [|done].
  destruct (Z.ltb_spec e 0); [done|]. destruct (Z.leb_spec (Z.of_nat (length (eths C))) e); [done|].
  intros [= <-]. right. lia.
Qed.

Record inv (h : option Z) (m : mtcp) : Prop := mk_inv {
  inv_cfg : cfg_ok (CONFIG m) (senders m);
  inv_nif : ∀ p s, streams m !! p = Some s → nif_out (sndvar s) = nif_for (CONFIG m) (daddr s);
  inv_sender : ∀ x k d, senders m !! k = Some d →
    tracks (streams m) (slist x d) (on_sender (CONFIG m) h x k);
  inv_scnt : ∀ x k d, senders m !! k = Some d →
    scnt x d = s32 (count (streams m) (λ s, sflag x s && at_home (CONFIG m) k s));
  inv_rto : ∀ i, 0 <= i → tracks (streams m) (rto_at m i) (λ _ s, on_rto_idx s =? i);
  inv_rto_idx : ∀ p s, streams m !! p = Some s → -1 <= on_rto_idx s <= RTO_HASH;
  inv_rto_cnt : rto_list_cnt m = s32 (count (streams m) (λ s, negb (on_rto_idx s <? 0)));
  inv_tw : tracks (streams m) (timewait_list m) (λ _ s, on_timewait_list s);
  inv_tw_cnt : timewait_list_cnt m = s32 (count (streams m) on_timewait_list);
  inv_to : tracks (streams m) (timeout_list m) (λ _ s, on_timeout_list s);
  inv_to_cnt : timeout_list_cnt m = s32 (count (streams m) on_timeout_list);
  inv_to_off : tcp_timeout (CONFIG m) <= 0 →
    ∀ p s, streams m !! p = Some s → on_timeout_list s = false;
  inv_excl : ∀ p s, streams m !! p = Some s → 0 <= on_rto_idx s → on_timewait_list s = false;
  inv_flow : ∃ F, ft_holds (tcp_flow_table m) F ∧
    ∀ f p, F !! f = Some p ↔ ∃ s, streams m !! p = Some s ∧ flow_of s = f;
  inv_flow_cnt : flow_cnt m = u32 (Z.of_nat (size (streams m)));
  inv_pool : ∃ free, pool_free (flow_pool m) free ∧ (∀ p, p ∈ free → streams m !! p = None)
    ∧ (∀ p, is_Some (streams m !! p) → p ≠ 0)
    ∧ Z.of_nat (length free) + Z.of_nat (size (streams m)) < 2147483646;
  inv_now : 0 <= rto_now_idx (rto_store m) < RTO_HASH
}.

(** What [inv] reads of the state. *)
Definition core m :=
  (CONFIG m, streams m, senders m, rto_list (rto_store m), rto_list_cnt m,
   (timewait_list m, timewait_list_cnt m, timeout_list m, timeout_list_cnt m),
   (tcp_flow_table m, flow_cnt m, flow_pool m, rto_now_idx (rto_store m))).

Lemma inv_core h m m' : core m' = core m → inv h m → inv h m'.
Proof.
  unfold core. intros E [].
  injection E as E1 E2 E3 E4 E5 E6 E7 E8 E9 E10 E11 E12 E13.
  split; unfold rto_at in *; rewrite ?E1, ?E2, ?E3, ?E4, ?E5, ?E6, ?E7, ?E8, ?E9, ?E10, ?E11, ?E12, ?E13; done.
Qed.

Lemma core_streams m m' : core m' = core m → CONFIG m' = CONFIG m ∧ streams m' = streams m.
Proof. unfold core. by intros [= -> ->]. Qed.

Definition live m p : Prop := is_Some (streams m !! p).

(** [c] keeps the clock of the retransmission store when [b] is set. *)
Definition clock m := (rto_now_idx (rto_store m), rto_now_ts (rto_store m)).
Definition others (b : bool) (p : Z) m m' : Prop :=
  (∀ q, q ≠ p → streams m' !! q = streams m !! q) ∧ CONFIG m' = CONFIG m
  ∧ (b = true → clock m' = clock m).

Lemma others_refl b p m : others b p m m.
Proof. done. Qed.
Lemma others_trans b p m1 m2 m3 : others b p m1 m2 → others b p m2 m3 → others b p m1 m3.
Proof.
  intros (A1&A2&A3) (B1&B2&B3). split_and!; [|congruence|].
  - intros q Hq. rewrite B1, A1 by done. done.
  - intros Hb. rewrite B3, A3 by done. done.
Qed.

(** Faults that the list structure does not exclude. *)
Definition benign (f : fault) : Prop :=
  match f with StreamFault | SenderFault | LinkFault | FuelFault => False | _ => True end.

Definition spec {A} (b : bool) (h : option Z) (p : Z) (c : M A) (L : A → Prop) : Prop :=
  ∀ m, inv h m → live m p →
  match c m with
  | inl f => benign f
  | inr (a, m') => inv h m' ∧ (L a → live m' p) ∧ others b p m m'
  end.
Definition keeps {A} b h p (c : M A) : Prop := spec b h p c (λ _, True).
Definition frees {A} b h p (c : M A) : Prop := spec b h p c (λ _, False).

Lemma keeps_spec {A} b h p (c : M A) L : keeps b h p c → spec b h p c L.
Proof.
  intros Hc m Hi Hl. specialize (Hc m Hi Hl). destruct (c m) as [|[a m']]; [done|]. tauto.
Qed.
Lemma spec_frees {A} b h p (c : M A) L : spec b h p c L → frees b h p c.
Proof.
  intros Hc m Hi Hl. specialize (Hc m Hi Hl). destruct (c m) as [|[a m']]; [done|]. tauto.
Qed.
Lemma keeps_clock {A} b h p (c : M A) : keeps true h p c → keeps b h p c.
Proof.
  intros Hc m Hi Hl. specialize (Hc m Hi Hl). destruct (c m) as [|[a m']]; [done|].
  destruct Hc as (?&?&?&?&Hk). split; [done|]. split; [done|]. split; [done|]. split; [done|].
  intros _. by apply Hk.
Qed.

Lemma spec_bind {A B} b h p (c : M A) (k : A → M B) L :
  keeps b h p c → (∀ a, spec b h p (k a) L) → spec b h p (bind c k) L.
Proof.
  intros Hc Hk m Hi Hl. specialize (Hc m Hi Hl). unfold bind. destruct (c m) as [|[a m']]; [done|].
  destruct Hc as (Hi'&Hl'&Ho). specialize (Hk a m' Hi' (Hl' I)). destruct (k a m') as [|[a' m'']]; [done|].
  destruct Hk as (?&?&?). split_and!; try done. by eapply others_trans.
Qed.
Lemma spec_bind_L {A B} b h p (c : M A) (k : A → M B) L1 L :
  spec b h p c L1 → (∀ a, L1 a → spec b h p (k a) L) →
  (∀ a, ¬ L1 a → ∃ x, k a = ret x ∧ ¬ L x) → (∀ a, L1 a ∨ ¬ L1 a) → spec b h p (bind c k) L.
Proof.
  intros Hc Hk Hr Hd m Hi Hl. specialize (Hc m Hi Hl). unfold bind. destruct (c m) as [|[a m']]; [done|].
  destruct Hc as (Hi'&Hl'&Ho). destruct (Hd a) as [HL|HL].
  - specialize (Hk a HL m' Hi' (Hl' HL)). destruct (k a m') as [|[a' m'']]; [done|].
    destruct Hk as (?&?&?). split_and!; try done. by eapply others_trans.
  - destruct (Hr a HL) as (x&->&Hx). simpl. split_and!; [done|tauto|done].
Qed.
Lemma frees_ret {A B} b h p (c : M A) (x : B) : frees b h p c → frees b h p (c ;;; ret x).
Proof.
  intros Hc m Hi Hl. specialize (Hc m Hi Hl). unfold bind. by destruct (c m) as [|[a m']].
Qed.
Lemma keeps_ret {A} b h p (a : A) : keeps b h p (ret a).
Proof. intros m Hi Hl. done. Qed.
Lemma keeps_gets {A} b h p (f : mtcp → A) : keeps b h p (gets f).
Proof. intros m Hi Hl. done. Qed.
Lemma keeps_fail {A} b h p f : benign f → keeps b h p (fail f : M A).
Proof. intros Hf m Hi Hl. done. Qed.
Lemma keeps_lift {A} b h p f (o : option A) : benign f → keeps b h p (lift f o).
Proof. intros Hf. destruct o; [apply keeps_ret|by apply keeps_fail]. Qed.
Lemma keeps_modify b h p (f : mtcp → mtcp) :
  (∀ m, core (f m) = core m ∧ clock (f m) = clock m) → keeps b h p (modify f).
Proof.
  intros Hf m Hi Hl. simpl. destruct (Hf m) as [Hc Hk]. split_and!.
  - by eapply inv_core.
  - apply core_streams in Hc as [_ E]. unfold live. by rewrite E.
  - apply core_streams in Hc as [E1 E2]. unfold others. rewrite E1, E2, Hk. done.
Qed.
Lemma keeps_getS b h p : keeps b h p (getS p).
Proof. intros m Hi [s Hs]. unfold getS, bind, gets, lift. rewrite Hs. simpl. by split_and!; [|eexists|]. Qed.

(** ** Replacing one stream *)
Lemma s32_add_l a b : s32 (s32 a + b) = s32 (a + b).
Proof. ulia. Qed.

Lemma at_home_eq C k s s' : nif_out (sndvar s') = nif_out (sndvar s) → at_home C k s' = at_home C k s.
Proof. unfold at_home. by intros ->. Qed.

Lemma daddr_flow s s' : flow_of s' = flow_of s → daddr s' = daddr s.
Proof. unfold flow_of. by intros [= ]. Qed.

Section Replace.
Context (h : option Z) (m : mtcp) (p : Z) (s s' : tcp_stream).
Context (Hi : inv h m) (Hp : streams m !! p = Some s).
Context (Hnif : nif_out (sndvar s') = nif_out (sndvar s)).

Definition senders_ok h' (ds : gmap Z mtcp_sender) : Prop :=
  ∀ x k d, ds !! k = Some d →
    tracks (<[p := s']> (streams m)) (slist x d) (on_sender (CONFIG m) h' x k)
    ∧ scnt x d = s32 (count (<[p := s']> (streams m)) (λ s, sflag x s && at_home (CONFIG m) k s)).

Lemma inv_replace h' m' :
  streams m' = <[p := s']> (streams m) → CONFIG m' = CONFIG m →
  tcp_flow_table m' = tcp_flow_table m → flow_cnt m' = flow_cnt m → flow_pool m' = flow_pool m →
  flow_of s' = flow_of s →
  (∀ k, is_Some (senders m !! k) → is_Some (senders m' !! k)) →
  senders_ok h' (senders m') →
  (∀ i, 0 <= i → tracks (<[p := s']> (streams m)) (rto_at m' i) (λ _ s, on_rto_idx s =? i)) →
  -1 <= on_rto_idx s' <= RTO_HASH →
  rto_list_cnt m' = s32 (count (<[p := s']> (streams m)) (λ s, negb (on_rto_idx s <? 0))) →
  tracks (<[p := s']> (streams m)) (timewait_list m') (λ _ s, on_timewait_list s) →
  timewait_list_cnt m' = s32 (count (<[p := s']> (streams m)) on_timewait_list) →
  tracks (<[p := s']> (streams m)) (timeout_list m') (λ _ s, on_timeout_list s) →
  timeout_list_cnt m' = s32 (count (<[p := s']> (streams m)) on_timeout_list) →
  (tcp_timeout (CONFIG m) <= 0 → on_timeout_list s' = false) →
  (0 <= on_rto_idx s' → on_timewait_list s' = false) →
  rto_now_idx (rto_store m') = rto_now_idx (rto_store m) → inv h' m'.
Proof using Hi Hp Hnif.
  intros E1 E2 E3 E4 E5 Ef Hd Hs H1 H2 H3 H4 H5 H6 H7 H9 H8 Hnow.
  pose proof (daddr_flow _ _ Ef) as Ed. destruct Hi. split; rewrite ?E1, ?E2, ?E3, ?E4, ?E5, ?Hnow; try done.
  - split; [apply inv_cfg0|]. intros k Hk. by apply Hd, inv_cfg0.
  - intros q t Ht. destruct (decide (q = p)) as [->|]; [|rewrite lookup_insert_ne in Ht by done; by eapply inv_nif0].
    rewrite lookup_insert_eq in Ht. injection Ht as <-. rewrite Hnif, Ed. by eapply inv_nif0.
  - intros x k d Hk. by apply Hs.
  - intros x k d Hk. by apply Hs.
  - intros q t Ht. destruct (decide (q = p)) as [->|]; [|rewrite lookup_insert_ne in Ht by done; by eapply inv_rto_idx0].
    rewrite lookup_insert_eq in Ht. by injection Ht as <-.
  - intros Ho q t Ht. destruct (decide (q = p)) as [->|]; [|rewrite lookup_insert_ne in Ht by done; by eapply inv_to_off0].
    rewrite lookup_insert_eq in Ht. injection Ht as <-. by apply H9.
  - intros q t Ht. destruct (decide (q = p)) as [->|]; [|rewrite lookup_insert_ne in Ht by done; by eapply inv_excl0].
    rewrite lookup_insert_eq in Ht. by injection Ht as <-.
  - destruct inv_flow0 as (F&HF&HFm). exists F. split; [done|]. intros f q. rewrite HFm.
    destruct (decide (q = p)) as [->|]; [|by rewrite lookup_insert_ne].
    rewrite lookup_insert_eq, Hp. split; intros (t&[= <-]&Ht); eexists; (split; [done|congruence]).
  - rewrite inv_flow_cnt0. rewrite map_size_insert_Some by (by eexists). done.
  - destruct inv_pool0 as (fr&Hfr&Hd1&Hz&Hb). exists fr. split; [done|]. split; [|split].
    + intros q Hq. rewrite lookup_insert_ne; [by apply Hd1|]. intros <-. rewrite (Hd1 p Hq) in Hp. done.
    + intros q [t Ht]. destruct (decide (q = p)) as [->|]; [apply Hz; by eexists|].
      rewrite lookup_insert_ne in Ht by done. apply Hz. by eexists.
    + rewrite map_size_insert_Some by (by eexists). done.
Qed.

Lemma on_sender_eq x k : sflag x s' = sflag x s → on_sender (CONFIG m) h x k p s' = on_sender (CONFIG m) h x k p s.
Proof using Hnif. intros E. unfold on_sender. by rewrite E, (at_home_eq _ _ _ _ Hnif). Qed.

Lemma senders_same : (∀ x, sflag x s' = sflag x s) → senders_ok h (senders m).
Proof using Hi Hp Hnif.
  intros Hf x k d Hk. split.
  - eapply tracks_upd; [by apply (inv_sender _ _ Hi)|done|by apply on_sender_eq].
  - rewrite (inv_scnt _ _ Hi x k d Hk). rewrite (count_insert _ _ p s s' Hp).
    rewrite Hf, (at_home_eq _ _ _ _ Hnif). f_equal. lia.
Qed.

(** Setting or clearing the flag of one kind, together with its list. *)
Lemma senders_set y (b : bool) k0 d0 d0' :
  sender_key (CONFIG m) (nif_out (sndvar s)) = Some k0 → senders m !! k0 = Some d0 →
  sflag y s = negb b → sflag y s' = b → (∀ x, x ≠ y → sflag x s' = sflag x s) →
  (∀ x, x ≠ y → slist x d0' = slist x d0 ∧ scnt x d0' = scnt x d0) →
  slist y d0' = (if b then TAILQ_INSERT_TAIL (slist y d0) p else TAILQ_REMOVE (slist y d0) p) →
  scnt y d0' = s32 (scnt y d0 + (if b then 1 else -1)) → holed h y p = false →
  senders_ok h (<[k0 := d0']> (senders m)).
Proof using Hi Hp Hnif.
  intros Hk0 Hd0 Hy Hy' Hx Hl Hly Hcy Hh x k d Hk.
  assert (∀ k, at_home (CONFIG m) k s = bool_decide (k = k0)) as Hhome.
  { intros k'. unfold at_home. rewrite Hk0. apply bool_decide_ext. naive_solver. }
  pose proof (at_home_eq (CONFIG m) k s s' Hnif) as Hhome'.
  destruct (decide (k = k0)) as [->|Hne].
  - rewrite lookup_insert_eq in Hk. injection Hk as <-.
    rewrite Hhome, bool_decide_true in Hhome' by done. destruct (decide (x = y)) as [->|Hxy].
    + rewrite Hly, Hcy, (inv_scnt _ _ Hi y k0 d0 Hd0), (count_insert _ _ p s s' Hp).
      rewrite Hy, Hy', Hhome', Hhome, bool_decide_true by done. rewrite s32_add_l.
      pose proof (inv_sender _ _ Hi y k0 d0 Hd0) as Ht.
      destruct b; simpl; (split; [|f_equal; lia]).
      * eapply tracks_add; [done|done|unfold on_sender; by rewrite Hy|].
        unfold on_sender. by rewrite Hy', Hhome', Hh.
      * apply tracks_del; [done|]. unfold on_sender. by rewrite Hy'.
    + destruct (Hl x Hxy) as [-> ->]. split.
      * eapply tracks_upd; [by apply (inv_sender _ _ Hi)|done|apply on_sender_eq; by apply Hx].
      * rewrite (inv_scnt _ _ Hi x k0 d0 Hd0), (count_insert _ _ p s s' Hp).
        rewrite (Hx x Hxy), Hhome', Hhome, bool_decide_true by done. f_equal. lia.
  - rewrite lookup_insert_ne in Hk by done. rewrite Hhome, bool_decide_false in Hhome' by done. split.
    + eapply tracks_upd; [by apply (inv_sender _ _ Hi)|done|]. unfold on_sender.
      by rewrite Hhome', Hhome, bool_decide_false, !andb_false_r by done.
    + rewrite (inv_scnt _ _ Hi x k d Hk), (count_insert _ _ p s s' Hp).
      rewrite Hhome', Hhome, bool_decide_false, !andb_false_r by done. f_equal. lia.
Qed.

Lemma rto_same : on_rto_idx s' = on_rto_idx s →
  (∀ i, 0 <= i → tracks (<[p := s']> (streams m)) (rto_at m i) (λ _ s, on_rto_idx s =? i))
  ∧ rto_list_cnt m = s32 (count (<[p := s']> (streams m)) (λ s, negb (on_rto_idx s <? 0)))
  ∧ -1 <= on_rto_idx s' <= RTO_HASH.
Proof using Hi Hp.
  intros E. split_and!.
  - intros i Hn. eapply tracks_upd; [by apply (inv_rto _ _ Hi)|done|by rewrite E].
  - rewrite (inv_rto_cnt _ _ Hi), (count_insert _ _ p s s' Hp), E. f_equal. lia.
  - pose proof (inv_rto_idx _ _ Hi p s Hp). lia.
  - pose proof (inv_rto_idx _ _ Hi p s Hp). lia.
Qed.
Lemma tw_same : on_timewait_list s' = on_timewait_list s →
  tracks (<[p := s']> (streams m)) (timewait_list m) (λ _ s, on_timewait_list s)
  ∧ timewait_list_cnt m = s32 (count (<[p := s']> (streams m)) on_timewait_list).
Proof using Hi Hp.
  intros E. split.
  - eapply tracks_upd; [by apply (inv_tw _ _ Hi)|done|by rewrite E].
  - rewrite (inv_tw_cnt _ _ Hi), (count_insert _ _ p s s' Hp), E. f_equal. lia.
Qed.
Lemma to_same : on_timeout_list s' = on_timeout_list s →
  tracks (<[p := s']> (streams m)) (timeout_list m) (λ _ s, on_timeout_list s)
  ∧ timeout_list_cnt m = s32 (count (<[p := s']> (streams m)) on_timeout_list).
Proof using Hi Hp.
  intros E. split.
  - eapply tracks_upd; [by apply (inv_to _ _ Hi)|done|by rewrite E].
  - rewrite (inv_to_cnt _ _ Hi), (count_insert _ _ p s s' Hp), E. f_equal. lia.
Qed.
End Replace.

(** ** Updates that leave the links alone *)
Lemma inv_upd h m p s s' :
  inv h m → streams m !! p = Some s → links s' = links s →
  inv h (m <| streams := <[p := s']> (streams m) |>).
Proof.
  unfold links. intros Hi Hp [= E1 F1 F2 F3 F4 E3 E4 E5 E6 E7 E8].
  assert (flow_of s' = flow_of s) as E2 by (unfold flow_of; congruence).
  assert (∀ x, sflag x s' = sflag x s) by (by intros []).
  destruct (rto_same h m p s s' Hi Hp E6) as (R1&R2&R3). destruct (tw_same h m p s s' Hi Hp E7) as [W1 W2].
  destruct (to_same h m p s s' Hi Hp E8) as [T1 T2].
  apply (inv_replace h m p s s' Hi Hp E1 h); try done.
  - by apply (senders_same h m p s).
  - intros Ho. rewrite E8. by eapply inv_to_off.
  - intros Hr. rewrite E7. eapply inv_excl; [done..|]. by rewrite <- E6.
Qed.

Lemma keeps_modS b h p f : (∀ s, links (f s) = links s) → keeps b h p (modS p f).
Proof.
  intros Hf m Hi [s Hs]. unfold modS, getS, bind, gets, lift, modify. rewrite Hs. simpl.
  split; [by eapply inv_upd|]. split; [intros _; unfold live; rec_simpl; by rewrite lookup_insert_eq|].
  split; [|done]. intros q Hq. rec_simpl. by rewrite lookup_insert_ne.
Qed.
Lemma keeps_modSnd b h p f :
  (∀ v, (nif_out (f v), on_control_list (f v), on_send_list (f v), on_ack_list (f v))
      = (nif_out v, on_control_list v, on_send_list v, on_ack_list v)) → keeps b h p (modSnd p f).
Proof.
  intros Hf. apply keeps_modS. intros s. unfold links, sflag. rec_simpl.
  specialize (Hf (sndvar s)). injection Hf as -> -> -> ->. done.
Qed.
Lemma keeps_modRcv b h p f : keeps b h p (modRcv p f).
Proof. by apply keeps_modS. Qed.

Lemma keeps_when b h p (c : bool) (k : M unit) : keeps b h p k → keeps b h p (when c k).
Proof. intros. destruct c; [done|apply keeps_ret]. Qed.

(** ** Running the primitives *)
Lemma bind_inr {A B} (c : M A) (k : A → M B) m a m' : c m = inr (a, m') → bind c k m = k a m'.
Proof. intros E. unfold bind. by rewrite E. Qed.
Lemma bind_gets {A B} (f : mtcp → A) (k : A → M B) m : bind (gets f) k m = k (f m) m.
Proof. done. Qed.
Lemma bind_modify {B} (f : mtcp → mtcp) (k : unit → M B) m : bind (modify f) k m = k tt (f m).
Proof. done. Qed.
Lemma getS_run p m s : streams m !! p = Some s → getS p m = inr (s, m).
Proof. intros E. unfold getS, bind, gets, lift. by rewrite E. Qed.
Lemma modS_run p f m s :
  streams m !! p = Some s → modS p f m = inr (tt, m <| streams := <[p := f s]> (streams m) |>).
Proof. intros E. unfold modS. by rewrite (bind_inr _ _ _ _ _ (getS_run p m s E)). Qed.
Lemma modSnd_run p f m s :
  streams m !! p = Some s →
  modSnd p f m = inr (tt, m <| streams := <[p := s <| sndvar := f (sndvar s) |>]> (streams m) |>).
Proof. apply (modS_run p (λ s, s <| sndvar := f (sndvar s) |>)). Qed.
Lemma getD_run k m d : senders m !! k = Some d → getD (Some k) m = inr (d, m).
Proof. intros E. unfold getD, bind, gets, lift. simpl. by rewrite E. Qed.
Lemma modD_run k f m d :
  senders m !! k = Some d → modD (Some k) f m = inr (tt, m <| senders := <[k := f d]> (senders m) |>).
Proof.
  intros E. unfold modD. rewrite (bind_inr (lift SenderFault (Some k)) _ m k m eq_refl).
  by rewrite (bind_inr _ _ _ _ _ (getD_run k m d E)).
Qed.
Lemma tq_remove_run l p m : p ∈ l → tq_remove l p m = inr (TAILQ_REMOVE l p, m).
Proof. intros E. unfold tq_remove. by rewrite decide_True. Qed.

Lemma GetSender_run h m p s :
  inv h m → streams m !! p = Some s →
  ∃ k d, GetSender p m = inr (Some k, m) ∧ sender_key (CONFIG m) (nif_out (sndvar s)) = Some k
    ∧ senders m !! k = Some d.
Proof.
  intros Hi Hs. destruct (proj1 (inv_cfg _ _ Hi) (daddr s)) as (k&Hk).
  destruct (proj2 (inv_cfg _ _ Hi) k (sender_key_is_sender _ _ _ Hk)) as [d Hd].
  rewrite <- (inv_nif _ _ Hi p s Hs) in Hk. exists k, d. split; [|done].
  unfold GetSender. rewrite (bind_inr _ _ _ _ _ (getS_run p m s Hs)).
  unfold sender_key in Hk. destruct (nif_out (sndvar s) <? 0) eqn:E; [by injection Hk as <-|].
  rewrite bind_gets. unfold nth_config.
  rewrite (proj2 (Z.leb_le 0 _)) by lia.
  destruct (nif_to_eidx (CONFIG m) !! Z.to_nat (nif_out (sndvar s))) as [e|]; [|done].
  rewrite (bind_inr (lift ConfigFault (Some e)) _ m e m eq_refl).
  destruct (_ || _); [done|]. by injection Hk as <-.
Qed.

(** A result state in which only [p] and the lists have changed. *)
Lemma spec_result b h p m m' s s' :
  streams m !! p = Some s → streams m' = <[p := s']> (streams m) → CONFIG m' = CONFIG m →
  (b = true → clock m' = clock m) → inv h m' →
  inv h m' ∧ (True → live m' p) ∧ others b p m m'.
Proof.
  intros Hs E1 E2 E3 Hi. split; [done|]. split.
  - intros _. unfold live. rewrite E1, lookup_insert_eq. by eexists.
  - split; [|done]. intros q Hq. by rewrite E1, lookup_insert_ne.
Qed.

(** Setting or clearing one sender flag, with the list. *)
Lemma inv_sender_set h m p s s' y (b : bool) k d d' :
  inv h m → streams m !! p = Some s →
  sender_key (CONFIG m) (nif_out (sndvar s)) = Some k → senders m !! k = Some d →
  nif_out (sndvar s') = nif_out (sndvar s) → flow_of s' = flow_of s →
  (on_rto_idx s', on_timewait_list s', on_timeout_list s') = (on_rto_idx s, on_timewait_list s, on_timeout_list s) →
  sflag y s = negb b → sflag y s' = b → (∀ x, x ≠ y → sflag x s' = sflag x s) →
  (∀ x, x ≠ y → slist x d' = slist x d ∧ scnt x d' = scnt x d) →
  slist y d' = (if b then TAILQ_INSERT_TAIL (slist y d) p else TAILQ_REMOVE (slist y d) p) →
  scnt y d' = s32 (scnt y d + (if b then 1 else -1)) → holed h y p = false →
  inv h (m <| streams := <[p := s']> (streams m) |> <| senders := <[k := d']> (senders m) |>).
Proof.
  intros Hi Hp Hk Hd E1 E2 [= E6 E7 E8] F1 F2 F3 L1 L2 L3 Hh.
  destruct (rto_same h m p s s' Hi Hp E6) as (R1&R2&R3). destruct (tw_same h m p s s' Hi Hp E7) as [W1 W2].
  destruct (to_same h m p s s' Hi Hp E8) as [T1 T2].
  apply (inv_replace h m p s s' Hi Hp E1 h); try done; rec_simpl.
  - intros k' Hk'. destruct (decide (k' = k)) as [->|]; [rewrite lookup_insert_eq; by eexists|by rewrite lookup_insert_ne].
  - by apply (senders_set h m p s s' Hi Hp E1 y b k d d').
  - intros Ho. rewrite E8. by eapply inv_to_off.
  - intros Hr. rewrite E7. eapply inv_excl; [done..|]. by rewrite <- E6.
Qed.

(** Membership of a flagged stream in the list of its sender. *)
Lemma flagged_on_list h m p s x k d :
  inv h m → streams m !! p = Some s → sender_key (CONFIG m) (nif_out (sndvar s)) = Some k →
  senders m !! k = Some d → sflag x s = true → holed h x p = false → p ∈ slist x d.
Proof.
  intros Hi Hs Hk Hd Hf Hh. rewrite (tracks_mem _ _ _ _ s (inv_sender _ _ Hi x k d Hd) Hs).
  unfold on_sender, at_home. by rewrite Hf, Hh, bool_decide_true.
Qed.

(** ** Clearing flags *)

(** The lists a stream can be on. *)
Inductive membership := OnSender (x : kind) | OnRto | OnTimewait | OnTimeout.
Definition flagged (y : membership) (s : tcp_stream) : bool :=
  match y with
  | OnSender x => sflag x s
  | OnRto => negb (on_rto_idx s <? 0)
  | OnTimewait => on_timewait_list s
  | OnTimeout => on_timeout_list s
  end.

(** [c] takes [p] off the list [y], leaving its other memberships alone. *)
Definition clears (y : membership) h p (c : M unit) : Prop :=
  ∀ m s, inv h m → streams m !! p = Some s →
  ∃ m' s', c m = inr (tt, m') ∧ inv h m' ∧ streams m' = <[p := s']> (streams m)
    ∧ CONFIG m' = CONFIG m ∧ clock m' = clock m
    ∧ flagged y s' = false ∧ ∀ z, z ≠ y → flagged z s' = flagged z s.

Lemma clears_keeps y b h p c : clears y h p c → keeps b h p c.
Proof.
  intros Hc m Hi [s Hs]. destruct (Hc m s Hi Hs) as (m'&s'&E&Hi'&E1&E2&E3&_). rewrite E.
  by apply (spec_result b h p m m' s s').
Qed.

(** A stream that is not on the list. *)
Lemma clears_noop y h p (c : M unit) m s :
  inv h m → streams m !! p = Some s → c m = inr (tt, m) → flagged y s = false →
  ∃ m' s', c m = inr (tt, m') ∧ inv h m' ∧ streams m' = <[p := s']> (streams m)
    ∧ CONFIG m' = CONFIG m ∧ clock m' = clock m
    ∧ flagged y s' = false ∧ ∀ z, z ≠ y → flagged z s' = flagged z s.
Proof. intros Hi Hs E Hf. exists m, s. split_and!; try done. by rewrite insert_id. Qed.

Ltac other_kinds := let x := fresh "x" in intros x Hx; destruct x; done || (split; done).

Lemma keeps_AddtoControlList b h p ts : keeps b h p (AddtoControlList p ts).
Proof.
  intros m Hi [s Hs]. unfold AddtoControlList. rewrite (bind_inr _ _ _ _ _ (getS_run p m s Hs)).
  destruct (on_control_list (sndvar s)) eqn:Ef; simpl; [by split_and!; [|eexists|]|].
  destruct (GetSender_run h m p s Hi Hs) as (k&d&Eg&Hk&Hd).
  rewrite (bind_inr _ _ _ _ _ Eg), (bind_inr _ _ _ _ _ (modSnd_run p _ m s Hs)).
  erewrite modD_run by (rec_simpl; exact Hd).
  eapply spec_result; [done..|]. eapply (inv_sender_set h m p s _ Ctl true); try done; other_kinds.
Qed.
Lemma keeps_AddtoACKList b h p : keeps b h p (AddtoACKList p).
Proof.
  intros m Hi [s Hs]. unfold AddtoACKList. destruct (GetSender_run h m p s Hi Hs) as (k&d&Eg&Hk&Hd).
  rewrite (bind_inr _ _ _ _ _ Eg), (bind_inr _ _ _ _ _ (getS_run p m s Hs)).
  destruct (on_ack_list (sndvar s)) eqn:Ef; simpl; [by split_and!; [|eexists|]|].
  rewrite (bind_inr _ _ _ _ _ (modSnd_run p _ m s Hs)). erewrite modD_run by (rec_simpl; exact Hd).
  eapply spec_result; [done..|]. eapply (inv_sender_set h m p s _ Ack true); try done; other_kinds.
Qed.
Lemma keeps_AddtoSendList b h p : h ≠ Some p → keeps b h p (AddtoSendList p).
Proof.
  intros Hh m Hi [s Hs]. unfold AddtoSendList. destruct (GetSender_run h m p s Hi Hs) as (k&d&Eg&Hk&Hd).
  rewrite (bind_inr _ _ _ _ _ Eg), (bind_inr _ _ _ _ _ (getS_run p m s Hs)).
  destruct (sndbuf (sndvar s)); [|by split_and!; [|eexists|]].
  destruct (on_send_list (sndvar s)) eqn:Ef; simpl; [by split_and!; [|eexists|]|].
  rewrite (bind_inr _ _ _ _ _ (modSnd_run p _ m s Hs)). erewrite modD_run by (rec_simpl; exact Hd).
  eapply spec_result; [done..|]. eapply (inv_sender_set h m p s _ Snd true); try done; try other_kinds.
  simpl. by rewrite bool_decide_false.
Qed.

Tactic Notation "clear_sender" constr(y) constr(flag) reference(op) :=
  match goal with
  | Hi : inv ?h ?m, Hs : streams ?m !! ?p = Some ?s |- _ =>
    let k := fresh "k" in let d := fresh "d" in
    let Eg := fresh "Eg" in let Hk := fresh "Hk" in let Hd := fresh "Hd" in let Ef := fresh "Ef" in
    destruct (GetSender_run h m p s Hi Hs) as (k&d&Eg&Hk&Hd);
    destruct (flag (sndvar s)) eqn:Ef;
    [|apply clears_noop; try done; unfold op;
      rewrite (bind_inr _ _ _ _ _ Eg), (bind_inr _ _ _ _ _ (getS_run p m s Hs)), Ef; done];
    unfold op; rewrite (bind_inr _ _ _ _ _ Eg), (bind_inr _ _ _ _ _ (getS_run p m s Hs)), Ef; simpl;
    rewrite (bind_inr _ _ _ _ _ (modSnd_run p _ m s Hs));
    erewrite bind_inr by (apply getD_run; rec_simpl; exact Hd);
    erewrite bind_inr by (apply tq_remove_run; by eapply (flagged_on_list h m p s y));
    erewrite modD_run by (rec_simpl; exact Hd);
    do 2 eexists; split; [reflexivity|]; split; [|split; [done|split; [done|split; [done|split; [done|]]]]];
    [eapply (inv_sender_set h m p s _ y false); try done; other_kinds
    |intros [[]| | |] Hz; done]
  end.

Lemma clears_RemoveFromControlList h p : clears (OnSender Ctl) h p (RemoveFromControlList p).
Proof.
  intros m s Hi Hs. assert (holed h Ctl p = false) as Hh' by done.
  clear_sender Ctl on_control_list RemoveFromControlList.
Qed.
Lemma clears_RemoveFromSendList h p : h ≠ Some p → clears (OnSender Snd) h p (RemoveFromSendList p).
Proof.
  intros Hh m s Hi Hs. assert (holed h Snd p = false) as Hh' by (simpl; by rewrite bool_decide_false).
  clear_sender Snd on_send_list RemoveFromSendList.
Qed.
Lemma clears_RemoveFromACKList h p : clears (OnSender Ack) h p (RemoveFromACKList p).
Proof.
  intros m s Hi Hs. assert (holed h Ack p = false) as Hh' by done.
  clear_sender Ack on_ack_list RemoveFromACKList.
Qed.

(** ** Timer lists *)
Lemma rto_at_set m i j l : rto_at (set_rto_at m i l) j = if decide (i = j) then l else rto_at m j.
Proof.
  unfold rto_at, set_rto_at. rec_simpl. case_decide as E.
  - subst. by rewrite lookup_insert_eq.
  - by rewrite lookup_insert_ne.
Qed.

(** A state that differs from [m] in the stream [p] and in timer lists. *)
Lemma inv_timers h m p s s' m' :
  inv h m → streams m !! p = Some s → streams m' = <[p := s']> (streams m) →
  (CONFIG m', senders m', tcp_flow_table m', flow_cnt m', flow_pool m')
    = (CONFIG m, senders m, tcp_flow_table m, flow_cnt m, flow_pool m) →
  (nif_out (sndvar s'), flow_of s', sflag Ctl s', sflag Snd s', sflag Ack s')
    = (nif_out (sndvar s), flow_of s, sflag Ctl s, sflag Snd s, sflag Ack s) →
  (∀ i, 0 <= i → tracks (<[p := s']> (streams m)) (rto_at m' i) (λ _ s, on_rto_idx s =? i)) →
  -1 <= on_rto_idx s' <= RTO_HASH →
  rto_list_cnt m' = s32 (count (<[p := s']> (streams m)) (λ s, negb (on_rto_idx s <? 0))) →
  tracks (<[p := s']> (streams m)) (timewait_list m') (λ _ s, on_timewait_list s) →
  timewait_list_cnt m' = s32 (count (<[p := s']> (streams m)) on_timewait_list) →
  tracks (<[p := s']> (streams m)) (timeout_list m') (λ _ s, on_timeout_list s) →
  timeout_list_cnt m' = s32 (count (<[p := s']> (streams m)) on_timeout_list) →
  (tcp_timeout (CONFIG m) <= 0 → on_timeout_list s' = false) →
  (0 <= on_rto_idx s' → on_timewait_list s' = false) →
  rto_now_idx (rto_store m') = rto_now_idx (rto_store m) → inv h m'.
Proof.
  intros Hi Hp E1 [= E2 E3 E4 E5 E6] [= F1 F2 F3 F4 F5 F6 F7 F8] R1 R2 R3 W1 W2 T1 T2 X X' Hnow.
  assert (flow_of s' = flow_of s) by (unfold flow_of; congruence).
  apply (inv_replace h m p s s' Hi Hp F1 h m'); try done; rewrite E3; try done.
  apply (senders_same h m p s s' Hi Hp F1). by intros [].
Qed.

Lemma inv_rto_set h m p s s' (add : bool) i m' :
  inv h m → streams m !! p = Some s → streams m' = <[p := s']> (streams m) →
  (CONFIG m', senders m', tcp_flow_table m', flow_cnt m', flow_pool m',
   (timewait_list m', timewait_list_cnt m', timeout_list m', timeout_list_cnt m'))
    = (CONFIG m, senders m, tcp_flow_table m, flow_cnt m, flow_pool m,
       (timewait_list m, timewait_list_cnt m, timeout_list m, timeout_list_cnt m)) →
  (nif_out (sndvar s'), flow_of s', sflag Ctl s', sflag Snd s', sflag Ack s',
   (on_timewait_list s', on_timeout_list s'))
    = (nif_out (sndvar s), flow_of s, sflag Ctl s, sflag Snd s, sflag Ack s,
       (on_timewait_list s, on_timeout_list s)) →
  0 <= i <= RTO_HASH →
  (if add then on_rto_idx s < 0 ∧ on_rto_idx s' = i ∧ on_timewait_list s = false
   else on_rto_idx s = i ∧ on_rto_idx s' = -1) →
  (∀ j, rto_at m' j = if decide (i = j)
     then (if add then TAILQ_INSERT_TAIL (rto_at m i) p else TAILQ_REMOVE (rto_at m i) p) else rto_at m j) →
  rto_list_cnt m' = s32 (rto_list_cnt m + (if add then 1 else -1)) →
  rto_now_idx (rto_store m') = rto_now_idx (rto_store m) → inv h m'.
Proof.
  intros Hi Hp E1 E2 E3 Hr Ha Hat Hc Hnow. injection E2 as A1 A2 A3 A4 A5 A6 A7 A8 A9.
  injection E3 as B1 B2 B3 B4 B5 B6 B7 B8 B9 B10.
  destruct (tw_same h m p s s' Hi Hp B9) as [W1 W2]. destruct (to_same h m p s s' Hi Hp B10) as [T1 T2].
  pose proof (inv_rto_idx _ _ Hi p s Hp) as Hidx.
  assert (flow_of s' = flow_of s) as Ef by (unfold flow_of; congruence).
  apply (inv_timers h m p s s' m' Hi Hp E1); rewrite ?A6, ?A7, ?A8, ?A9; try done.
  - by rewrite A1, A2, A3, A4, A5.
  - simpl in *. by rewrite B1, Ef, B6, B7, B8.
  - intros j Hj. rewrite Hat. pose proof (inv_rto _ _ Hi j Hj) as Ht. case_decide as E.
    + subst j. destruct add; [eapply tracks_add|apply tracks_del]; try done; lia.
    + eapply tracks_upd; try done. destruct add; lia.
  - unfold RTO_HASH in *. destruct add; lia.
  - rewrite Hc, (inv_rto_cnt _ _ Hi), (count_insert _ _ p s s' Hp), s32_add_l. f_equal.
    destruct add, (Z.ltb_spec (on_rto_idx s) 0), (Z.ltb_spec (on_rto_idx s') 0); simpl; lia.
  - intros Ho. rewrite B10. by eapply inv_to_off.
  - intros Hn. rewrite B9. destruct add; [tauto|lia].
Qed.

Lemma rto_offset_range diff idx : 0 <= rto_offset diff idx < RTO_HASH.
Proof. unfold rto_offset, RTO_HASH. apply Z.mod_pos_bound. lia. Qed.

Lemma keeps_AddtoRTOList h p : keeps false h p (AddtoRTOList p).
Proof.
  intros m Hi [s Hs]. unfold AddtoRTOList. rewrite (bind_inr _ _ _ _ _ (getS_run p m s Hs)).
  rewrite bind_gets.
  set (m1 := if rto_list_cnt m =? 0
    then m <| rto_store := (rto_store m) <| rto_now_idx := 0 |> <| rto_now_ts := ts_rto (sndvar s) |> |> else m).
  assert (inv h m1) as Hi1.
  { unfold m1. destruct (_ =? 0); [|done]. destruct Hi. by split. }
  assert (CONFIG m1 = CONFIG m ∧ streams m1 = streams m) as [Ec Es] by (unfold m1; by destruct (_ =? 0)). assert (streams m1 !! p = Some s) as Hs1 by (by rewrite Es).
  erewrite (bind_inr _ _ m tt m1) by (unfold when, m1; by destruct (_ =? 0)).
  assert (inv h m1 ∧ (True → live m1 p) ∧ others false p m m1) as Hdone.
  { split_and!; [done|by eexists|]. split; [intros; by rewrite Es|done]. }
  clearbody m1. destruct (on_rto_idx s <? 0) eqn:El; [|done]. destruct (on_timewait_list s) eqn:Etw; [done|].
  unfold when. rewrite bind_gets.
  set (idx := if _ <? RTO_HASH then _ else _).
  assert (0 <= idx <= RTO_HASH) as Hidx.
  { unfold idx. destruct (_ <? RTO_HASH); [pose proof (rto_offset_range (s32 (ts_rto (sndvar s) ⊟ rto_now_ts (rto_store m1))) (rto_now_idx (rto_store m1)))|]; unfold RTO_HASH in *; lia. }
  clearbody idx. rewrite (bind_inr _ _ _ _ _ (modS_run p _ m1 s Hs1)). simpl.
  apply (spec_result false h p m _ s (s <| on_rto_idx := idx |>)); try done; [by rewrite <- Es|].
  eapply (inv_rto_set h m1 p s (s <| on_rto_idx := idx |>) true idx); try done.
  - split_and!; [lia|done..].
  - intros j. exact (rto_at_set m1 idx j _).
Qed.

Lemma RemoveFromRTOList_run h m p s :
  inv h m → streams m !! p = Some s → 0 <= on_rto_idx s →
  ∃ m', RemoveFromRTOList p m = inr (tt, m') ∧ inv h m'
    ∧ streams m' = <[p := s <| on_rto_idx := -1 |>]> (streams m)
    ∧ CONFIG m' = CONFIG m ∧ clock m' = clock m.
Proof.
  intros Hi Hs El. unfold RemoveFromRTOList. rewrite (bind_inr _ _ _ _ _ (getS_run p m s Hs)).
  destruct (Z.ltb_spec (on_rto_idx s) 0); [lia|]. simpl. rewrite bind_gets.
  assert (p ∈ rto_at m (on_rto_idx s)) as Hin.
  { apply (tracks_mem _ _ _ _ s (inv_rto _ _ Hi (on_rto_idx s) El) Hs). lia. }
  rewrite (bind_inr _ _ _ _ _ (tq_remove_run _ p m Hin)), bind_modify.
  erewrite bind_inr by (apply modS_run; unfold set_rto_at; rec_simpl; exact Hs). simpl.
  pose proof (inv_rto_idx _ _ Hi p s Hs). eexists. split; [reflexivity|]. split; [|done].
  eapply (inv_rto_set h m p s (s <| on_rto_idx := -1 |>) false (on_rto_idx s)); try done.
  - lia.
  - intros j. exact (rto_at_set m (on_rto_idx s) j _).
Qed.
Lemma clears_RemoveFromRTOList h p : clears OnRto h p (RemoveFromRTOList p).
Proof.
  intros m s Hi Hs. destruct (Z.ltb_spec (on_rto_idx s) 0) as [El|El].
  - apply clears_noop; try done; [|simpl; lia]. unfold RemoveFromRTOList.
    rewrite (bind_inr _ _ _ _ _ (getS_run p m s Hs)). by destruct (Z.ltb_spec (on_rto_idx s) 0); [|lia].
  - destruct (RemoveFromRTOList_run h m p s Hi Hs El) as (m'&E&Hi'&E1&E2&E3).
    exists m', (s <| on_rto_idx := -1 |>). split_and!; try done. intros [[]| | |] Hz; done.
Qed.

(** Setting or clearing the timewait flag of a stream that is on no
    retransmission list, with the list. *)
Lemma inv_tw_set h m p s (add : bool) m' :
  let s' := s <| on_timewait_list := add |> in
  inv h m → streams m !! p = Some s → on_timewait_list s = negb add → (add = true → on_rto_idx s < 0) →
  streams m' = <[p := s']> (streams m) →
  (CONFIG m', senders m', tcp_flow_table m', flow_cnt m', flow_pool m',
   (rto_list (rto_store m'), rto_list_cnt m', timeout_list m', timeout_list_cnt m'))
    = (CONFIG m, senders m, tcp_flow_table m, flow_cnt m, flow_pool m,
       (rto_list (rto_store m), rto_list_cnt m, timeout_list m, timeout_list_cnt m)) →
  timewait_list m' = (if add then TAILQ_INSERT_TAIL (timewait_list m) p else TAILQ_REMOVE (timewait_list m) p) →
  timewait_list_cnt m' = s32 (timewait_list_cnt m + (if add then 1 else -1)) →
  rto_now_idx (rto_store m') = rto_now_idx (rto_store m) → inv h m'.
Proof.
  intros s' Hi Hp Hf Hr E1 E2 Hl Hc Hnow. injection E2 as A1 A2 A3 A4 A5 A6 A7 A8 A9.
  destruct (rto_same h m p s s' Hi Hp eq_refl) as (R1&R2&R3).
  destruct (to_same h m p s s' Hi Hp eq_refl) as [T1 T2].
  apply (inv_timers h m p s s' m' Hi Hp E1); rewrite ?A7, ?A8, ?A9; try done.
  - by rewrite A1, A2, A3, A4, A5.
  - intros i Hn. unfold rto_at. rewrite A6. by apply R1.
  - pose proof (inv_tw _ _ Hi) as Ht. rewrite Hl.
    destruct add; [by eapply tracks_add|by apply tracks_del].
  - rewrite Hc, (inv_tw_cnt _ _ Hi), (count_insert _ _ p s s' Hp), s32_add_l. f_equal.
    rewrite Hf. destruct add; simpl; lia.
  - intros Ho. by eapply (inv_to_off _ _ Hi Ho p s).
  - intros Hn. destruct add; [specialize (Hr eq_refl)|done]. change (on_rto_idx s') with (on_rto_idx s) in Hn. lia.
Qed.

Lemma inv_to_set h m p s (add : bool) m' :
  let s' := s <| on_timeout_list := add |> in
  inv h m → streams m !! p = Some s → on_timeout_list s = negb add →
  (add = true → 0 < tcp_timeout (CONFIG m)) →
  streams m' = <[p := s']> (streams m) →
  (CONFIG m', senders m', tcp_flow_table m', flow_cnt m', flow_pool m',
   (rto_list (rto_store m'), rto_list_cnt m', timewait_list m', timewait_list_cnt m'))
    = (CONFIG m, senders m, tcp_flow_table m, flow_cnt m, flow_pool m,
       (rto_list (rto_store m), rto_list_cnt m, timewait_list m, timewait_list_cnt m)) →
  timeout_list m' = (if add then TAILQ_INSERT_TAIL (timeout_list m) p else TAILQ_REMOVE (timeout_list m) p) →
  timeout_list_cnt m' = s32 (timeout_list_cnt m + (if add then 1 else -1)) →
  rto_now_idx (rto_store m') = rto_now_idx (rto_store m) → inv h m'.
Proof.
  intros s' Hi Hp Hf Ho E1 E2 Hl Hc Hnow. injection E2 as A1 A2 A3 A4 A5 A6 A7 A8 A9.
  destruct (rto_same h m p s s' Hi Hp eq_refl) as (R1&R2&R3).
  destruct (tw_same h m p s s' Hi Hp eq_refl) as [T1 T2].
  apply (inv_timers h m p s s' m' Hi Hp E1); rewrite ?A7, ?A8, ?A9; try done.
  - by rewrite A1, A2, A3, A4, A5.
  - intros i Hn. unfold rto_at. rewrite A6. by apply R1.
  - pose proof (inv_to _ _ Hi) as Ht. rewrite Hl.
    destruct add; [by eapply tracks_add|by apply tracks_del].
  - rewrite Hc, (inv_to_cnt _ _ Hi), (count_insert _ _ p s s' Hp), s32_add_l. f_equal.
    rewrite Hf. destruct add; simpl; lia.
  - intros Hz. destruct add; [specialize (Ho eq_refl); lia|done].
  - exact (inv_excl _ _ Hi p s Hp).
Qed.

Lemma clears_RemoveFromTimewaitList h p : clears OnTimewait h p (RemoveFromTimewaitList p).
Proof.
  intros m s Hi Hs. destruct (on_timewait_list s) eqn:Ef.
  - unfold RemoveFromTimewaitList. rewrite (bind_inr _ _ _ _ _ (getS_run p m s Hs)), Ef. simpl. rewrite bind_gets.
    assert (p ∈ timewait_list m) as Hin by (by apply (tracks_mem _ _ _ _ s (inv_tw _ _ Hi) Hs)).
    rewrite (bind_inr _ _ _ _ _ (tq_remove_run _ p m Hin)), bind_modify.
    erewrite bind_inr by (apply modS_run; rec_simpl; exact Hs). simpl.
    do 2 eexists. split; [reflexivity|]. split; [by eapply (inv_tw_set h m p s false)|].
    split_and!; try done. intros [[]| | |] Hz; done.
  - apply clears_noop; try done. unfold RemoveFromTimewaitList.
    by rewrite (bind_inr _ _ _ _ _ (getS_run p m s Hs)), Ef.
Qed.

Lemma keeps_AddtoTimewaitList b h p ts : keeps b h p (AddtoTimewaitList p ts).
Proof.
  intros m Hi [s Hs]. unfold AddtoTimewaitList, modRcv. rewrite bind_gets.
  rewrite (bind_inr _ _ _ _ _ (modS_run p _ m s Hs)).
  set (s1 := s <| rcvvar := _ |>). set (m1 := m <| streams := _ |>).
  assert (inv h m1) as Hi1 by (by apply (inv_upd h m p s s1)).
  assert (streams m1 !! p = Some s1) as Hs1 by (unfold m1; rec_simpl; apply lookup_insert_eq).
  rewrite (bind_inr _ _ _ _ _ (getS_run p m1 s1 Hs1)).
  destruct (on_timewait_list s1) eqn:Ef.
  - rewrite bind_gets.
    assert (p ∈ timewait_list m1) as Hin by (by apply (tracks_mem _ _ _ _ s1 (inv_tw _ _ Hi1) Hs1)).
    rewrite (bind_inr _ _ _ _ _ (tq_remove_run _ p m1 Hin)). simpl.
    eapply (spec_result b h p m _ s s1); try done. destruct Hi1. split; try done. by apply tracks_rotate.
  - assert (∃ m2 s2, when (negb (on_rto_idx s1 <? 0)) (RemoveFromRTOList p) m1 = inr (tt, m2) ∧ inv h m2
      ∧ streams m2 = <[p := s2]> (streams m) ∧ CONFIG m2 = CONFIG m ∧ clock m2 = clock m
      ∧ on_rto_idx s2 < 0 ∧ on_timewait_list s2 = false) as (m2&s2&E&Hi2&E1&E2&E3&E4&E5).
    { destruct (Z.ltb_spec (on_rto_idx s1) 0) as [El|El]; simpl; [by exists m1, s1|].
      destruct (RemoveFromRTOList_run h m1 p s1 Hi1 Hs1 El) as (m2&E&Hi2&E1&E2&E3).
      exists m2, (s1 <| on_rto_idx := -1 |>). split_and!; try done.
      rewrite E1. unfold m1. rec_simpl. by rewrite insert_insert_eq. }
    assert (streams m2 !! p = Some s2) as Hs2 by (rewrite E1; apply lookup_insert_eq).
    rewrite (bind_inr _ _ _ _ _ E), (bind_inr _ _ _ _ _ (modS_run p _ m2 s2 Hs2)). simpl.
    eapply (spec_result b h p m _ s (s2 <| on_timewait_list := true |>)); try done.
    + rec_simpl. by rewrite E1, insert_insert_eq.
    + by eapply (inv_tw_set h m2 p s2 true).
Qed.

(** The callers guard the call by the configured timeout. *)
Lemma keeps_AddtoTimeoutList b h p :
  keeps b h p (C <- gets CONFIG ;; when (0 <? tcp_timeout C) (AddtoTimeoutList p)).
Proof.
  intros m Hi [s Hs]. rewrite bind_gets. unfold AddtoTimeoutList.
  destruct (Z.ltb_spec 0 (tcp_timeout (CONFIG m))); simpl; [|by split_and!; [|eexists|]].
  rewrite (bind_inr _ _ _ _ _ (getS_run p m s Hs)).
  destruct (on_timeout_list s) eqn:Ef; simpl; [by split_and!; [|eexists|]|].
  rewrite (bind_inr _ _ _ _ _ (modS_run p _ m s Hs)). simpl.
  eapply spec_result; [done..|]. by eapply (inv_to_set h m p s true).
Qed.
Lemma clears_RemoveFromTimeoutList h p : clears OnTimeout h p (RemoveFromTimeoutList p).
Proof.
  intros m s Hi Hs. destruct (on_timeout_list s) eqn:Ef.
  - unfold RemoveFromTimeoutList. rewrite (bind_inr _ _ _ _ _ (getS_run p m s Hs)), Ef. simpl.
    rewrite (bind_inr _ _ _ _ _ (modS_run p _ m s Hs)), bind_gets.
    assert (p ∈ timeout_list m) as Hin by (by apply (tracks_mem _ _ _ _ s (inv_to _ _ Hi) Hs)).
    erewrite bind_inr by (apply tq_remove_run; exact Hin). simpl.
    do 2 eexists. split; [reflexivity|]. split; [by eapply (inv_to_set h m p s false)|].
    split_and!; try done. intros [[]| | |] Hz; done.
  - apply clears_noop; try done. unfold RemoveFromTimeoutList.
    by rewrite (bind_inr _ _ _ _ _ (getS_run p m s Hs)), Ef.
Qed.
Lemma keeps_UpdateTimeoutList b h p : keeps b h p (UpdateTimeoutList p).
Proof.
  intros m Hi [s Hs]. unfold UpdateTimeoutList. rewrite (bind_inr _ _ _ _ _ (getS_run p m s Hs)).
  destruct (on_timeout_list s) eqn:Ef; simpl; [|by split_and!; [|eexists|]]. rewrite bind_gets.
  assert (p ∈ timeout_list m) as Hin by (by apply (tracks_mem _ _ _ _ s (inv_to _ _ Hi) Hs)).
  rewrite (bind_inr _ _ _ _ _ (tq_remove_run _ p m Hin)). simpl.
  split; [|by split; [eexists|]].
  destruct Hi. split; try done. by apply tracks_rotate.
Qed.
End Inv.

#[export] Hint Resolve keeps_ret keeps_gets keeps_getS keeps_modRcv keeps_AddtoControlList
  keeps_AddtoACKList keeps_AddtoSendList keeps_AddtoRTOList keeps_AddtoTimeoutList keeps_UpdateTimeoutList
  keeps_AddtoTimewaitList : tcp.

#[export] Hint Resolve clears_RemoveFromControlList clears_RemoveFromACKList clears_RemoveFromSendList
  clears_RemoveFromRTOList clears_RemoveFromTimewaitList clears_RemoveFromTimeoutList : tcp.
#[export] Hint Extern 4 (keeps _ _ _ _) => (eapply clears_keeps; solve [eauto 2 with tcp]) : tcp.

(** [keep] follows the structure of an operation, closing the goals about
    calls with the lemmas in the database [tcp]. *)
Ltac keep_step :=
  match goal with
  | |- keeps _ _ _ (bind _ _) => apply spec_bind; [|intros ?]
  | |- spec _ _ _ (bind _ _) (λ _, True) => apply spec_bind; [|intros ?]
  | |- keeps _ _ _ (when _ _) => apply keeps_when
  | |- keeps _ _ _ (match ?x with _ => _ end) => destruct x
  | |- keeps _ _ _ (modify _) => apply keeps_modify; intros ?; by split
  | |- keeps _ _ _ (modSnd _ _) => apply keeps_modSnd; by intros ?
  | |- keeps _ _ _ (modS _ _) => apply keeps_modS; by intros ?
  | |- keeps _ _ _ (lift _ _) => by apply keeps_lift
  | |- keeps _ _ _ (fail _) => by apply keeps_fail
  | |- keeps _ _ _ _ => solve [eauto with tcp]
  | |- spec _ _ _ _ (λ _, True) => change (spec ?b ?h ?p ?c (λ _, True)) with (keeps b h p c)
  end.
Ltac keep := repeat (keep_step; cbv beta zeta).

Section Composite.
Context {P IO : Type} `{ChunkPool P, World IO}.
Local Abbreviation M := (M P IO).

Lemma keeps_EnqueueACK b h p ts opt : keeps b h p (EnqueueACK (P := P) (IO := IO) p ts opt).
Proof. unfold EnqueueACK. keep. Qed.

Lemma keeps_UpdateRetransmissionTimer h p ts :
  keeps false h p (UpdateRetransmissionTimer (P := P) (IO := IO) p ts).
Proof. unfold UpdateRetransmissionTimer. keep. Qed.
End Composite.
#[export] Hint Resolve keeps_EnqueueACK keeps_UpdateRetransmissionTimer : tcp.

(** ** Operations that touch no stream and no list *)
Section Quiet.
Context {P IO : Type} `{ChunkPool P, World IO}.
Local Abbreviation mtcp := (mtcp_manager P IO).
Local Abbreviation M := (M P IO).

Definition quiet {A} (c : M A) : Prop :=
  ∀ m, match c m with
       | inl f => benign f
       | inr (_, m') => core m' = core m ∧ clock m' = clock m
       end.

Lemma quiet_keeps {A} b h p (c : M A) : quiet c → keeps b h p c.
Proof.
  intros Hc m Hi Hl. specialize (Hc m). destruct (c m) as [|[a m']]; [done|]. destruct Hc as [Hc Hk].
  destruct (core_streams _ _ Hc) as [E1 E2]. split; [by eapply inv_core|]. unfold live, others.
  by rewrite E1, E2, Hk.
Qed.
Lemma quiet_ret {A} (a : A) : quiet (ret a).
Proof. done. Qed.
Lemma quiet_gets {A} (f : mtcp → A) : quiet (gets f).
Proof. done. Qed.
Lemma quiet_modify (f : mtcp → mtcp) :
  (∀ m, core (f m) = core m ∧ clock (f m) = clock m) → quiet (modify f).
Proof. intros Hf m. apply Hf. Qed.
Lemma quiet_fail {A} f : benign f → quiet (fail f : M A).
Proof. intros Hf m. done. Qed.
Lemma quiet_lift {A} f (o : option A) : benign f → quiet (lift f o).
Proof. intros. destruct o; [apply quiet_ret|by apply quiet_fail]. Qed.
Lemma quiet_bind {A B} (c : M A) (k : A → M B) : quiet c → (∀ a, quiet (k a)) → quiet (bind c k).
Proof.
  intros Hc Hk m. specialize (Hc m). unfold bind. destruct (c m) as [|[a m']]; [done|].
  specialize (Hk a m'). destruct (k a m') as [|[a' m'']]; [done|]. destruct Hc as [<- <-]. done.
Qed.
Lemma quiet_when (b : bool) (c : M unit) : quiet c → quiet (when b c).
Proof. intros. by destruct b; [|apply quiet_ret]. Qed.
End Quiet.

#[export] Hint Resolve quiet_ret quiet_gets : tcp.

Ltac quiet_step :=
  match goal with
  | |- quiet (bind _ _) => apply quiet_bind; [|intros ?]
  | |- quiet (when _ _) => apply quiet_when
  | |- quiet (match ?x with _ => _ end) => destruct x
  | |- quiet (modify _) => apply quiet_modify; intros ?; by split
  | |- quiet (lift _ _) => by apply quiet_lift
  | |- quiet (fail _) => by apply quiet_fail
  | |- quiet _ => solve [eauto with tcp]
  end.
Ltac quiet := repeat (quiet_step; cbv beta zeta).

(** ** Output below TCP *)
Section Out.
Context {P IO : Type} `{ChunkPool P, World IO}.
Local Abbreviation mtcp := (mtcp_manager P IO).
Local Abbreviation M := (M P IO).

Lemma quiet_nth_config {A} (l : list A) i : quiet (nth_config l i : M A).
Proof. unfold nth_config. quiet. Qed.
Lemma quiet_wptr e n : quiet (wptr e n : M bool).
Proof. unfold wptr. quiet. Qed.
Lemma quiet_fill bs : quiet (fill bs : M unit).
Proof. unfold fill. quiet. Qed.
Hint Resolve quiet_nth_config quiet_wptr quiet_fill : tcp.
Lemma quiet_EthernetOutput a b c d : quiet (EthernetOutput a b c d : M bool).
Proof. unfold EthernetOutput. quiet. Qed.
Hint Resolve quiet_EthernetOutput : tcp.
Lemma quiet_ARPOutput a b c d e : quiet (ARPOutput a b c d e : M Z).
Proof. unfold ARPOutput. quiet. Qed.
Hint Resolve quiet_ARPOutput : tcp.
Lemma quiet_RequestARP a b c : quiet (RequestARP a b c : M unit).
Proof. unfold RequestARP. quiet. Qed.
Lemma quiet_ip_fill a b c d e f : quiet (ip_fill a b c d e f : M unit).
Proof. unfold ip_fill. quiet. Qed.
Lemma quiet_gateway_daddr : quiet (gateway_daddr : M Z).
Proof. unfold gateway_daddr. quiet. Qed.
Hint Resolve quiet_RequestARP quiet_ip_fill quiet_gateway_daddr : tcp.
Lemma quiet_IPOutputStandalone a b c d e : quiet (IPOutputStandalone a b c d e : M bool).
Proof. unfold IPOutputStandalone. quiet. Qed.

(** The interface that [IPOutput] stores is the one the stream has. *)
Lemma keeps_IPOutput b h p n : keeps b h p (IPOutput p n : M bool).
Proof.
  assert (∀ nif (ext : bool), keeps b h p (ret nif : M Z)) by (intros; apply keeps_ret).
  intros m Hi [s Hs]. unfold IPOutput. rewrite (bind_inr _ _ _ _ _ (getS_run p m s Hs)), bind_gets.
  match goal with |- context [bind (if 0 <=? nif_out (sndvar s) then ?x else ?y) ?k m] =>
    set (k1 := k); set (y1 := y) end.
  assert (∀ a, keeps b h p (k1 a)) as Hk.
  { intros a. unfold k1. keep; apply quiet_keeps; quiet. }
  clearbody k1. destruct (Z.leb_spec 0 (nif_out (sndvar s))) as [Hn|Hn].
  { apply (Hk _ m Hi). by eexists. }
  pose proof (inv_nif _ _ Hi p s Hs) as Enif. unfold nif_for in Enif.
  unfold y1. destruct (GetOutputInterface (CONFIG m) (daddr s)) as [nif ext]. simpl in Enif.
  set (s1 := s <| sndvar := (sndvar s) <| nif_out := s8 nif |> |> <| is_external := ext |>).
  set (m1 := m <| streams := <[p := s1]> (streams m) |>).
  rewrite (bind_inr _ _ m nif m1) by (rewrite (bind_inr _ _ _ _ _ (modS_run p _ m s Hs)); done).
  assert (inv h m1) as Hi1.
  { apply (inv_upd h m p s s1 Hi Hs). unfold links, sflag, flow_of, s1. rec_simpl. by rewrite Enif. }
  assert (live m1 p) as Hl1 by (unfold live, m1; rec_simpl; rewrite lookup_insert_eq; by eexists).
  specialize (Hk nif m1 Hi1 Hl1). destruct (k1 nif m1) as [|[a m']]; [done|].
  destruct Hk as (?&?&Ho). split_and!; try done. eapply others_trans; [|exact Ho].
  split; [|done]. intros q Hq. unfold m1. rec_simpl. by rewrite lookup_insert_ne.
Qed.
End Out.
#[export] Hint Resolve quiet_nth_config quiet_wptr quiet_fill quiet_EthernetOutput quiet_ARPOutput
  quiet_RequestARP quiet_ip_fill quiet_gateway_daddr quiet_IPOutputStandalone keeps_IPOutput : tcp.
#[export] Hint Extern 5 (keeps _ _ _ _) => (apply quiet_keeps; solve [quiet]) : tcp.
