(* ===== verification/TcpOptions.v ===== *)
(** * TCP options

    Writing options ([tcp_out.c]) and parsing them ([tcp_util.c]).  The parser
    reads bytes of the packet behind the TCP header by index; [OutOfPacket] is
    a read behind the last byte.  Each pass of its loop advances the index,
    except over an option of length zero: [Diverges] is the result when the
    fuel, one more than the length of the options, runs out. *)
From S2P Require Import Prelude SeqNum FlowHash TcpTypes NetOut.

Module Opt.
Definition TCP_OPT_END : Z := 0.
Definition TCP_OPT_NOP : Z := 1.
Definition TCP_OPT_MSS : Z := 2.
Definition TCP_OPT_WSCALE : Z := 3.
Definition TCP_OPT_SACK_PERMIT : Z := 4.
Definition TCP_OPT_SACK : Z := 5.
Definition TCP_OPT_TIMESTAMP : Z := 8.
Definition TCP_OPT_MSS_LEN : Z := 4.
Definition TCP_OPT_WSCALE_LEN : Z := 3.
Definition TCP_OPT_TIMESTAMP_LEN : Z := 10.

Definition has (flags f : Z) : bool := negb (Z.land flags f =? 0).

(** ** Writing *)
Definition CalculateOptionLength (flags : Z) : Z :=
  if has flags TCP_FLAG_SYN
  then u16 (TCP_OPT_MSS_LEN + (TCP_OPT_TIMESTAMP_LEN + 2) + (TCP_OPT_WSCALE_LEN + 1))
  else u16 (TCP_OPT_TIMESTAMP_LEN + 2).

Definition GenerateTCPTimestamp (s : tcp_stream) (cur_ts : Z) : list Z :=
  [TCP_OPT_TIMESTAMP; TCP_OPT_TIMESTAMP_LEN] ++ be32 cur_ts ++ be32 (ts_recent (rcvvar s)).

Definition GenerateTCPOptions (s : tcp_stream) (cur_ts flags : Z) : list Z :=
  if has flags TCP_FLAG_SYN then
    [TCP_OPT_MSS; TCP_OPT_MSS_LEN; u8 (Z.shiftr (mss (sndvar s)) 8); mss (sndvar s) mod 256]
    ++ [TCP_OPT_NOP; TCP_OPT_NOP] ++ GenerateTCPTimestamp s cur_ts
    ++ [TCP_OPT_NOP; TCP_OPT_WSCALE; TCP_OPT_WSCALE_LEN; wscale_mine (sndvar s)]
  else [TCP_OPT_NOP; TCP_OPT_NOP] ++ GenerateTCPTimestamp s cur_ts.

(** ** Parsing *)
Inductive parse (A : Type) := Parsed (a : A) | OutOfPacket | Diverges.
Arguments Parsed {A}. Arguments OutOfPacket {A}. Arguments Diverges {A}.

Definition get {A B} (o : option A) (k : A → parse B) : parse B :=
  match o with Some a => k a | None => OutOfPacket end.

(** [*(uint32_t * )(tcpopt + i)]. *)
Definition rd32 (l : list Z) (i : Z) : option Z :=
  a ← byte_at l i; b ← byte_at l (i + 1); c ← byte_at l (i + 2); d ← byte_at l (i + 3);
  Some (pack32 d c b a).

Definition set_mss (s : tcp_stream) (v : Z) : tcp_stream :=
  s <| sndvar := (sndvar s) <| mss := u16 v |> <| eff_mss := u16 (u16 v - (TCP_OPT_TIMESTAMP_LEN + 2)) |> |>.
Definition set_wscale (s : tcp_stream) (v : Z) : tcp_stream :=
  s <| sndvar := (sndvar s) <| wscale_peer := v |> |>.
Definition set_timestamp (s : tcp_stream) (cur_ts v : Z) : tcp_stream :=
  s <| saw_timestamp := true |>
    <| rcvvar := (rcvvar s) <| ts_recent := v |> <| ts_last_ts_upd := cur_ts |> |>.

Fixpoint parse_options (fuel : nat) (cur_ts : Z) (tcpopt : list Z) (len i : Z) (s : tcp_stream)
  : parse tcp_stream :=
  if negb (i <? len) then Parsed s
  else
    match fuel with
    | O => Diverges
    | S fuel =>
      get (byte_at tcpopt i) (λ opt,
      let i := i + 1 in
      if opt =? TCP_OPT_END then Parsed s
      else if opt =? TCP_OPT_NOP then parse_options fuel cur_ts tcpopt len i s
      else
        get (byte_at tcpopt i) (λ optlen,
        let i := i + 1 in
        if u32 len <? u32 (i + optlen - 2) then Parsed s
        else if opt =? TCP_OPT_MSS then
          get (byte_at tcpopt i) (λ hi, get (byte_at tcpopt (i + 1)) (λ lo,
          parse_options fuel cur_ts tcpopt len (i + 2) (set_mss s (u16 (Z.shiftl hi 8) + lo))))
        else if opt =? TCP_OPT_WSCALE then
          get (byte_at tcpopt i) (λ w, parse_options fuel cur_ts tcpopt len (i + 1) (set_wscale s w))
        else if opt =? TCP_OPT_SACK_PERMIT then
          parse_options fuel cur_ts tcpopt len i (s <| sack_permit := true |>)
        else if opt =? TCP_OPT_TIMESTAMP then
          get (rd32 tcpopt i) (λ t,
          parse_options fuel cur_ts tcpopt len (i + 8) (set_timestamp s cur_ts (swap32 t)))
        else parse_options fuel cur_ts tcpopt len (s32 (i + optlen - 2)) s))
    end.

Definition ParseTCPOptions (s : tcp_stream) (cur_ts : Z) (tcpopt : list Z) (len : Z) : parse tcp_stream :=
  parse_options (S (Z.to_nat len)) cur_ts tcpopt len 0 s.

(** [None]: no timestamp; otherwise [ts_val] and [ts_ref]. *)
Fixpoint parse_timestamp (fuel : nat) (tcpopt : list Z) (len i : Z) : parse (option (Z * Z)) :=
  if negb (i <? len) then Parsed None
  else
    match fuel with
    | O => Diverges
    | S fuel =>
      get (byte_at tcpopt i) (λ opt,
      let i := i + 1 in
      if opt =? TCP_OPT_END then Parsed None
      else if opt =? TCP_OPT_NOP then parse_timestamp fuel tcpopt len i
      else
        get (byte_at tcpopt i) (λ optlen,
        let i := i + 1 in
        if u32 len <? u32 (i + optlen - 2) then Parsed None
        else if opt =? TCP_OPT_TIMESTAMP then
          get (rd32 tcpopt i) (λ v, get (rd32 tcpopt (i + 4)) (λ r, Parsed (Some (swap32 v, swap32 r))))
        else parse_timestamp fuel tcpopt len (s32 (i + optlen - 2))))
    end.

Definition ParseTCPTimestamp (tcpopt : list Z) (len : Z) : parse (option (Z * Z)) :=
  parse_timestamp (S (Z.to_nat len)) tcpopt len 0.

(** ** Round trip *)
Lemma le32_bytes v : is_u32 v → ∃ a b c d, le32 v = [a; b; c; d] ∧ pack32 d c b a = v
  ∧ is_u8 a ∧ is_u8 b ∧ is_u8 c ∧ is_u8 d.
Proof.
  intros Hv. unfold le32, FlowHash.le_bytes. simpl. do 4 eexists. split; [reflexivity|].
  rewrite !land_byte, !Z.shiftr_div_pow2 by lia.
  change (2 ^ (8 * Z.of_nat 0)) with 1. change (2 ^ (8 * Z.of_nat 1)) with 256.
  change (2 ^ (8 * Z.of_nat 2)) with 65536. change (2 ^ (8 * Z.of_nat 3)) with 16777216.
  unfold pack32. Z.div_mod_to_equations. lia.
Qed.
Lemma be32_bytes v : is_u32 v → ∃ a b c d, be32 v = [a; b; c; d] ∧ swap32 (pack32 d c b a) = v.
Proof.
  intros Hv. unfold be32. destruct (le32_bytes (swap32 v) (swap32_range v)) as (a&b&c&d&E&Ep&_).
  exists a, b, c, d. split; [done|]. rewrite Ep. by apply swap32_involutive.
Qed.

(** C33: the options of a SYN that the stack sends are parsed by the stack into
    exactly what the sender meant: its maximum segment size, its timestamp and
    its window scale, and nothing else of the receiver's stream changes. *)
Theorem syn_options_roundtrip (tx rx : tcp_stream) cur_ts now flags :
  has flags TCP_FLAG_SYN = true → is_u16 (mss (sndvar tx)) → is_u32 cur_ts → is_u32 (ts_recent (rcvvar tx)) →
  let opts := GenerateTCPOptions tx cur_ts flags in
  Z.of_nat (length opts) = CalculateOptionLength flags
  ∧ ParseTCPOptions rx now opts (CalculateOptionLength flags)
    = Parsed (set_wscale (set_timestamp (set_mss rx (mss (sndvar tx))) now cur_ts) (wscale_mine (sndvar tx)))
  ∧ ParseTCPTimestamp opts (CalculateOptionLength flags) = Parsed (Some (cur_ts, ts_recent (rcvvar tx))).
Proof.
  intros Hf Hm Ht Hr. unfold GenerateTCPOptions, CalculateOptionLength, GenerateTCPTimestamp. rewrite Hf.
  destruct (be32_bytes cur_ts Ht) as (a&b&c&d&E1&P1). destruct (be32_bytes _ Hr) as (a'&b'&c'&d'&E2&P2).
  rewrite E1, E2. change (u16 (TCP_OPT_MSS_LEN + (TCP_OPT_TIMESTAMP_LEN + 2) + (TCP_OPT_WSCALE_LEN + 1))) with 20.
  assert (u16 (Z.shiftl (u8 (Z.shiftr (mss (sndvar tx)) 8)) 8) + mss (sndvar tx) mod 256 = mss (sndvar tx)) as Em.
  { rewrite Z.shiftr_div_pow2, Z.shiftl_mul_pow2 by lia. change (2 ^ 8) with 256. ulia. }
  split_and!; [done| |].
  - transitivity (Parsed (set_wscale (set_timestamp (set_mss rx
      (u16 (Z.shiftl (u8 (Z.shiftr (mss (sndvar tx)) 8)) 8) + mss (sndvar tx) mod 256)) now
      (swap32 (pack32 d c b a))) (wscale_mine (sndvar tx)))); [reflexivity|]. by rewrite Em, P1.
  - transitivity (Parsed (Some (swap32 (pack32 d c b a), swap32 (pack32 d' c' b' a')))); [reflexivity|].
    by rewrite P1, P2.
Qed.

Definition demo_tx : tcp_stream :=
  (zero_stream 0 0) <| sndvar := (zero_snd 0) <| mss := 1460 |> <| wscale_mine := 7 |> |>
                    <| rcvvar := (zero_rcv 0) <| ts_recent := 99 |> |>.

Lemma syn_options_roundtrip_witness :
  let opts := GenerateTCPOptions demo_tx 123456 TCP_FLAG_SYN in
  Z.of_nat (length opts) = CalculateOptionLength TCP_FLAG_SYN
  ∧ ParseTCPOptions (zero_stream 0 0) 5 opts (CalculateOptionLength TCP_FLAG_SYN)
    = Parsed (set_wscale (set_timestamp (set_mss (zero_stream 0 0) 1460) 5 123456) 7)
  ∧ ParseTCPTimestamp opts (CalculateOptionLength TCP_FLAG_SYN) = Parsed (Some (123456, 99)).
Proof. apply (syn_options_roundtrip demo_tx (zero_stream 0 0) 123456 5 TCP_FLAG_SYN);
  [reflexivity|vm_compute; split; congruence..]. Defined.

(** ** Termination *)

(** The options whose length byte the parser uses to advance. *)
Definition unknown (opt : Z) : bool :=
  negb ((opt =? TCP_OPT_END) || (opt =? TCP_OPT_NOP) || (opt =? TCP_OPT_MSS) || (opt =? TCP_OPT_WSCALE)
        || (opt =? TCP_OPT_SACK_PERMIT) || (opt =? TCP_OPT_TIMESTAMP)).

(** An unknown option of length zero at [i]. *)
Definition stuck_at (tcpopt : list Z) (len i : Z) : Prop :=
  i < len ∧ (∃ opt, byte_at tcpopt i = Some opt ∧ unknown opt = true) ∧ byte_at tcpopt (i + 1) = Some 0.

Section Loop.
Context (cur_ts : Z) (tcpopt : list Z) (len : Z).
Hypothesis (Hlen : 0 <= len <= 40) (Hbytes : Forall (λ b, is_u8 b) tcpopt).

Lemma byte_range j b : byte_at tcpopt j = Some b → is_u8 b.
Proof using Hbytes.
  unfold byte_at. destruct (0 <=? j); [|done]. intros E. exact (Forall_lookup_1 _ _ _ _ Hbytes E).
Qed.

Lemma stuck_diverges i s n : 0 <= i → stuck_at tcpopt len i → parse_options n cur_ts tcpopt len i s = Diverges.
Proof using Hlen.
  intros Hi (Hl&(opt&Ho&Hu)&Hz). unfold unknown in Hu. rewrite negb_true_iff, !orb_false_iff in Hu.
  destruct Hu as [[[[[E1 E2] E3] E4] E5] E6].
  induction n as [|n IH]; simpl; rewrite (proj2 (Z.ltb_lt i len) Hl); [done|].
  rewrite Ho. simpl. rewrite E1, E2, Hz. simpl. rewrite !u32_id by lia.
  destruct (Z.ltb_spec len (i + 1 + 1 + 0 - 2)); [lia|]. rewrite E3, E4, E5, E6.
  replace (s32 (i + 1 + 1 + 0 - 2)) with i by (rewrite s32_id; lia). exact IH.
Qed.

Lemma diverges_stuck n : ∀ i s,
  0 <= i → len - i <= Z.of_nat n → parse_options n cur_ts tcpopt len i s = Diverges →
  ∃ j, i <= j ∧ stuck_at tcpopt len j.
Proof using Hlen Hbytes.
  induction n as [|n IH]; intros i s Hi Hn; simpl; destruct (Z.ltb_spec i len) as [Hl|]; try done; [lia|].
  simpl. destruct (byte_at tcpopt i) as [opt|] eqn:Ho; [|done]. simpl.
  assert (∀ i' s', i + 1 <= i' → parse_options n cur_ts tcpopt len i' s' = Diverges →
    ∃ j, i <= j ∧ stuck_at tcpopt len j) as IH'.
  { intros i' s' Hi' E. destruct (IH i' s') as (j&?&?); [lia|lia|done|]. exists j. split; [lia|done]. }
  destruct (opt =? TCP_OPT_END) eqn:E1; [done|]. destruct (opt =? TCP_OPT_NOP) eqn:E2; [apply IH'; lia|].
  destruct (byte_at tcpopt (i + 1)) as [ol|] eqn:Hol; [|done]. simpl. pose proof (byte_range _ _ Hol).
  destruct (_ <? u32 _); [done|]. destruct (opt =? TCP_OPT_MSS) eqn:E3.
  { destruct (byte_at tcpopt (i + 1 + 1)); [|done]. simpl.
    destruct (byte_at tcpopt (i + 1 + 1 + 1)); [|done]. apply IH'. lia. }
  destruct (opt =? TCP_OPT_WSCALE) eqn:E4; [destruct (byte_at tcpopt (i + 1 + 1)); [|done]; apply IH'; lia|].
  destruct (opt =? TCP_OPT_SACK_PERMIT) eqn:E5; [apply IH'; lia|].
  destruct (opt =? TCP_OPT_TIMESTAMP) eqn:E6; [destruct (rd32 _ _); [|done]; apply IH'; lia|].
  rewrite s32_id by lia. destruct (Z.eq_dec ol 0) as [->|]; [|apply IH'; lia].
  intros _. exists i. split; [lia|]. split; [done|]. split; [|done]. exists opt. split; [done|].
  unfold unknown. by rewrite E1, E2, E3, E4, E5, E6.
Qed.
End Loop.



(** A segment whose options begin with an unknown option of length zero
    makes the parser loop for ever: no amount of fuel gives a result. *)
Theorem zero_length_option_loops s cur_ts opt rest len :
  unknown opt = true → 0 < len <= 40 →
  ∀ n, parse_options n cur_ts (opt :: 0 :: rest) len 0 s = Diverges.
Proof.
  intros Hu Hl n. apply stuck_diverges; [lia|lia|]. split; [lia|]. split; [|done]. by exists opt.
Qed.

Lemma zero_length_option_loops_witness :
  unknown 254 = true ∧ ∀ n, parse_options n 0 [254; 0; 0; 0] 4 0 (zero_stream 0 0) = Diverges.
Proof. split; [reflexivity|]. apply (zero_length_option_loops (zero_stream 0 0) 0 254 [0; 0] 4); [reflexivity|lia]. Defined.

(** The parser writes the segment size, the scale, the permission and the
    timestamp: whatever does not depend on them stays. *)
Lemma parse_options_fixes {T} (f : tcp_stream → T) n cur_ts tcpopt len :
  (∀ s v, f (set_mss s v) = f s) → (∀ s v, f (set_wscale s v) = f s) →
  (∀ s, f (s <| sack_permit := true |>) = f s) → (∀ s v, f (set_timestamp s cur_ts v) = f s) →
  ∀ i s s', parse_options n cur_ts tcpopt len i s = Parsed s' → f s' = f s.
Proof.
  intros F1 F2 F3 F4. induction n as [|n IH]; intros i s s'; simpl; destruct (negb (i <? len)); try (by intros [= <-]).
  destruct (byte_at tcpopt i) as [opt|]; [|done]. simpl. destruct (opt =? TCP_OPT_END); [by intros [= <-]|].
  destruct (opt =? TCP_OPT_NOP); [apply IH|]. destruct (byte_at tcpopt (i + 1)) as [ol|]; [|done]. simpl.
  destruct (_ <? u32 _); [by intros [= <-]|].
  repeat match goal with
  | |- context [if ?b then _ else _] => destruct b
  | |- get ?o _ = _ → _ => destruct o; simpl; [|done]
  end; intros E%IH; rewrite E; done.
Qed.

(** The parser changes no field that a list depends on. *)
Definition list_fields (s : tcp_stream) :=
  (nif_out (sndvar s), flow_of s, (on_control_list (sndvar s), on_send_list (sndvar s), on_ack_list (sndvar s)),
   (on_rto_idx s, on_timewait_list s, on_timeout_list s)).
Lemma parse_options_fields n cur_ts tcpopt len i s s' :
  parse_options n cur_ts tcpopt len i s = Parsed s' → list_fields s' = list_fields s.
Proof. by apply parse_options_fixes. Qed.
End Opt.

Section Parsing.
Context {P IO : Type}.
Local Abbreviation M := (M P IO).

Definition run_parse {A} (r : Opt.parse A) : M A :=
  match r with
  | Opt.Parsed a => ret a
  | Opt.OutOfPacket => fail PacketFault
  | Opt.Diverges => fail LoopFault
  end.

(** The parsers on a stream of the thread. *)
Definition ParseTCPOptions (p cur_ts : Z) (tcpopt : list Z) (len : Z) : M unit :=
  s <- getS p ;;
  s' <- run_parse (Opt.ParseTCPOptions s cur_ts tcpopt len) ;;
  modS p (λ _, s').

Definition ParseTCPTimestamp (tcpopt : list Z) (len : Z) : M (option (Z * Z)) :=
  run_parse (Opt.ParseTCPTimestamp tcpopt len).
End Parsing.
