(* ===== verification/TcpStream.v ===== *)
(** * Streams: events, creation, destruction

    [tcp_stream.c].  The locks of a stream are not modelled: the functions run
    on the thread that owns the stream, and [pthread_spin_init] succeeds. *)
From S2P Require Import Prelude MemPool RingBuffer SendBuffer FlowHash AddrPool EventQueue TcpTypes NetOut TcpLists TcpInv.

Definition TCP_AR_CNT : Z := 3.

Section Stream.
Context {P IO : Type} `{ChunkPool P, World IO}.
Local Abbreviation mtcp := (mtcp_manager P IO).
Local Abbreviation M := (M P IO).

(** ** Events *)
Definition getSock (i : Z) : M EQ.socket_map := sm <- gets smap ;; lift SocketFault (sm !! i).

(** Adding an event to a queue of the epoll structure at the address [e]. *)
Definition add_event (e : Z) (queue : EQ.event_queue_type) (i event : Z) : M Z :=
  sk <- getSock i ;;
  if e =? 0 then ret (-1)
  else
    es <- gets epolls ;;
    x <- lift SocketFault (es !! e) ;;
    '(r, x', sk) <- lift SocketFault (EQ.AddEpollEvent (Some x) queue (Some sk) event) ;;
    modify (λ m, m <| epolls := <[e := default x x']> (epolls m) |> <| smap := <[i := sk]> (smap m) |>) ;;;
    ret r.
(** From the stack thread. *)
Definition AddEpollEvent (i event : Z) : M Z := e <- gets ep ;; add_event e EQ.MTCP_EVENT_QUEUE i event.

(** The events a socket is registered for. *)
Definition registered (i event : Z) : M bool :=
  sk <- getSock i ;; ret (negb (Z.land (EQ.epoll sk) event =? 0)).

Definition raise (i event : Z) : M unit := _ <- AddEpollEvent i event ;; ret tt.

Definition RaiseReadEvent (p : Z) : M unit :=
  s <- getS p ;;
  match socket s with
  | Some i => r <- registered i EQ.MTCP_EPOLLIN ;; when r (raise i EQ.MTCP_EPOLLIN)
  | None => ret tt
  end.

Definition RaiseWriteEvent (p : Z) : M unit :=
  s <- getS p ;;
  match socket s with
  | Some i => r <- registered i EQ.MTCP_EPOLLOUT ;; when r (raise i EQ.MTCP_EPOLLOUT)
  | None => ret tt
  end.

Definition RaiseCloseEvent (p : Z) : M unit :=
  s <- getS p ;;
  match socket s with
  | Some i =>
    r <- registered i EQ.MTCP_EPOLLRDHUP ;;
    if (r : bool) then raise i EQ.MTCP_EPOLLRDHUP
    else r <- registered i EQ.MTCP_EPOLLIN ;; when r (raise i EQ.MTCP_EPOLLIN)
  | None => ret tt
  end.

Definition RaiseErrorEvent (p : Z) : M unit :=
  s <- getS p ;;
  match socket s with
  | Some i => r <- registered i EQ.MTCP_EPOLLERR ;; when r (raise i EQ.MTCP_EPOLLERR)
  | None => ret tt
  end.

(** ** Creation *)
Definition alloc_flow : M (option Z) :=
  q <- gets flow_pool ;;
  let '(a, q) := pool_alloc q in
  modify (λ m, m <| flow_pool := q |>) ;;; ret a.
Definition alloc_rv : M (option Z) :=
  q <- gets rv_pool ;;
  let '(a, q) := pool_alloc q in
  modify (λ m, m <| rv_pool := q |>) ;;; ret a.
Definition alloc_sv : M (option Z) :=
  q <- gets sv_pool ;;
  let '(a, q) := pool_alloc q in
  modify (λ m, m <| sv_pool := q |>) ;;; ret a.
Definition free_flow (a : Z) : M unit := modify (λ m, m <| flow_pool := pool_release (flow_pool m) a |>).
Definition free_rv (a : Z) : M unit := modify (λ m, m <| rv_pool := pool_release (rv_pool m) a |>).
Definition free_sv (a : Z) : M unit := modify (λ m, m <| sv_pool := pool_release (sv_pool m) a |>).

(** The fields [CreateTCPStream] sets in the cleared structures. *)
Definition new_stream (C : mtcp_config) (rv sv id : Z) (sock : option Z) (type sa sp da dp rnd : Z) : tcp_stream :=
  let '(nif, ext) := GetOutputInterface C da in
  let isn := rnd mod TCP_MAX_SEQ in
  (zero_stream rv sv)
    <| sid := id mod 16777216 |> <| saddr := sa |> <| sport := sp |> <| daddr := da |> <| dport := dp |>
    <| ht_idx := TCP_AR_CNT |> <| on_hash_table := true |> <| socket := sock |>
    <| stream_type := u8 type |> <| state := TCP_ST_LISTEN |> <| on_rto_idx := -1 |>
    <| is_external := ext |>
    <| snd_nxt := isn |> <| rcv_nxt := 0 |>
    <| sndvar := (zero_snd sv) <| mss := TCP_DEFAULT_MSS |> <| wscale_mine := TCP_DEFAULT_WSCALE |>
                               <| nif_out := s8 nif |> <| iss := isn |> <| snd_una := isn |>
                               <| snd_wnd := u32 (sndbuf_size C) |> <| rto := TCP_INITIAL_RTO |> |>
    <| rcvvar := (zero_rcv rv) <| rcv_wnd := TCP_INITIAL_WINDOW |> <| snd_wl1 := 0 ⊟ 1 |> |>.

(** The address of the new stream, [None] for NULL. *)
Definition CreateTCPStream (sock : option Z) (type sa sp da dp : Z) : M (option Z) :=
  a <- alloc_flow ;;
  match a with
  | None => ret None
  | Some p =>
    rv <- alloc_rv ;;
    match rv with
    | None => free_flow p ;;; ret None
    | Some rv =>
      sv <- alloc_sv ;;
      match sv with
      | None => free_rv rv ;;; free_flow p ;;; ret None
      | Some sv =>
        C <- gets CONFIG ;;
        id <- gets g_id ;;
        modify (λ m, m <| g_id := id ⊞ 1 |>) ;;;
        seed <- gets next_seed ;;
        let '(rnd, seed) := rand_r seed in
        modify (λ m, m <| next_seed := seed |>) ;;;
        let s := new_stream C rv sv id sock type sa sp da dp rnd in
        modify (λ m, m <| tcp_flow_table :=
                           (FlowHash.StreamHTInsert (tcp_flow_table m) (FlowHash.mk_item p (flow_of s))).2 |>
                       <| streams := <[p := s]> (streams m) |>
                       <| flow_cnt := flow_cnt m ⊞ 1 |>) ;;;
        match sock with
        | Some i => sk <- getSock i ;; modify (λ m, m <| smap := <[i := sk <| EQ.sock_ref := p |>]> (smap m) |>)
        | None => ret tt
        end ;;;
        ret (Some p)
      end
    end
  end.

(** ** Destruction *)

(** Returning the bound address to its pool; the result is only printed. *)
Definition free_bound_address (sa sp : Z) : M unit :=
  a <- gets ap ;;
  let addr := AddrPool.mk_addr sa sp in
  match a with
  | Some q =>
    '(_, q) <- lift AddressFault (AddrPool.FreeAddress q addr) ;;
    modify (λ m, m <| ap := Some q |>)
  | None =>
    C <- gets CONFIG ;;
    let nif := (GetOutputInterface C sa).1 in
    if nif <? 0 then ret tt
    else
      eidx <- nth_config (nif_to_eidx C) nif ;;
      g <- gets ap_if ;;
      match g !! eidx with
      | Some q =>
        '(_, q) <- lift AddressFault (AddrPool.FreeAddress q addr) ;;
        modify (λ m, m <| ap_if := <[eidx := q]> (ap_if m) |>)
      | None => ret tt                      (* FreeAddress(NULL) returns -1 *)
      end
  end.

Definition DestroyTCPStream (p : Z) : M unit :=
  s <- getS p ;;
  let bound_addr := is_bound_addr s in
  RemoveFromControlList p ;;;
  RemoveFromSendList p ;;;
  RemoveFromACKList p ;;;
  s <- getS p ;;
  when (negb (on_rto_idx s <? 0)) (RemoveFromRTOList p) ;;;
  s <- getS p ;;
  when (on_timewait_list s) (RemoveFromTimewaitList p) ;;;
  C <- gets CONFIG ;;
  when (0 <? tcp_timeout C) (RemoveFromTimeoutList p) ;;;
  s <- getS p ;;
  match sndbuf (sndvar s) with
  | Some b => modify (λ m, m <| rbm_snd := SB.SBFree (rbm_snd m) (Some b) |>) ;;;
              modSnd p (λ v, v <| sndbuf := None |>)
  | None => ret tt
  end ;;;
  match rcvbuf (rcvvar s) with
  | Some b => modify (λ m, m <| rbm_rcv := RB.RBFree (rbm_rcv m) b |>) ;;;
              modRcv p (λ r, r <| rcvbuf := None |>)
  | None => ret tt
  end ;;;
  s <- getS p ;;
  modify (λ m, m <| tcp_flow_table := FlowHash.StreamHTRemove (tcp_flow_table m) (FlowHash.mk_item p (flow_of s)) |>
                 <| flow_cnt := flow_cnt m ⊟ 1 |>) ;;;
  free_rv (rv_addr (rcvvar s)) ;;;
  free_sv (sv_addr (sndvar s)) ;;;
  modify (λ m, m <| streams := delete p (streams m) |>
                 <| flow_pool := pool_release (flow_pool m) p |>) ;;;
  when bound_addr (free_bound_address (saddr s) (sport s)).

(** ** Events keep the lists *)
Lemma quiet_getSock i : quiet (getSock i).
Proof. unfold getSock. quiet. Qed.
Hint Resolve quiet_getSock : tcp.
Lemma quiet_add_event e q i ev : quiet (add_event e q i ev).
Proof. unfold add_event. quiet. Qed.
Hint Resolve quiet_add_event : tcp.
Lemma quiet_AddEpollEvent i e : quiet (AddEpollEvent i e).
Proof. unfold AddEpollEvent. quiet. Qed.
Hint Resolve quiet_AddEpollEvent : tcp.
Lemma quiet_raise i e : quiet (raise i e).
Proof. unfold raise. quiet. Qed.
Lemma quiet_registered i e : quiet (registered i e).
Proof. unfold registered. quiet. Qed.
Hint Resolve quiet_raise quiet_registered : tcp.
Lemma keeps_RaiseReadEvent b h p : keeps b h p (RaiseReadEvent p).
Proof. unfold RaiseReadEvent. keep. Qed.
Lemma keeps_RaiseWriteEvent b h p : keeps b h p (RaiseWriteEvent p).
Proof. unfold RaiseWriteEvent. keep. Qed.
Lemma keeps_RaiseCloseEvent b h p : keeps b h p (RaiseCloseEvent p).
Proof. unfold RaiseCloseEvent. keep. Qed.
Lemma keeps_RaiseErrorEvent b h p : keeps b h p (RaiseErrorEvent p).
Proof. unfold RaiseErrorEvent. keep. Qed.

(** ** Destruction *)

(** A stream on no list can be removed. *)
Lemma inv_destroy h (m m' : mtcp) p s :
  inv h m → streams m !! p = Some s → (∀ y, flagged y s = false) →
  streams m' = delete p (streams m) →
  tcp_flow_table m' = FlowHash.StreamHTRemove (tcp_flow_table m) (FlowHash.mk_item p (flow_of s)) →
  flow_cnt m' = flow_cnt m ⊟ 1 → flow_pool m' = pool_release (flow_pool m) p →
  (CONFIG m', senders m', rto_list (rto_store m'), rto_list_cnt m',
   (timewait_list m', timewait_list_cnt m', timeout_list m', timeout_list_cnt m'))
    = (CONFIG m, senders m, rto_list (rto_store m), rto_list_cnt m,
       (timewait_list m, timewait_list_cnt m, timeout_list m, timeout_list_cnt m)) →
  rto_now_idx (rto_store m') = rto_now_idx (rto_store m) → inv h m'.
Proof.
  intros Hi Hp Hf E1 E2 E3 E4 E5 Hnow. injection E5 as A1 A2 A3 A4 A5 A6 A7 A8.
  assert (∀ (Q : tcp_stream → bool), Q s = false → count (delete p (streams m)) Q = count (streams m) Q) as Hcnt.
  { intros Q HQ. rewrite (count_delete (streams m) Q p s Hp), HQ. lia. }
  assert (∀ q t, delete p (streams m) !! q = Some t → q ≠ p ∧ streams m !! q = Some t) as Hdel.
  { intros q t. rewrite lookup_delete_Some. naive_solver. }
  assert (size (delete p (streams m)) = pred (size (streams m))) as Hsz by (apply map_size_delete_Some; by exists s).
  assert (size (streams m) ≠ 0%nat) as Hsz0.
  { intros E. apply map_size_empty_inv in E. by rewrite E, lookup_empty in Hp. }
  destruct Hi as [I_cfg I_nif I_sender I_scnt I_rto I_rto_idx I_rto_cnt I_tw I_tw_cnt I_to I_to_cnt I_to_off I_excl I_flow I_flow_cnt I_pool I_now].
  split; unfold rto_at in *; rewrite ?E1, ?A1, ?A2, ?A3, ?A4, ?A5, ?A6, ?A7, ?A8, ?Hnow; try done.
  - intros q t [_ Ht]%Hdel. by eapply I_nif.
  - intros x k d Hk. eapply tracks_gone; [by apply I_sender|done|].
    unfold on_sender. by rewrite (Hf (OnSender x) : sflag x s = false).
  - intros x k d Hk. rewrite Hcnt; [by apply I_scnt|]. by rewrite (Hf (OnSender x) : sflag x s = false).
  - intros j Hj. eapply tracks_gone; [by apply I_rto|done|]. pose proof (Hf OnRto) as Hr. simpl in Hr. lia.
  - intros q t [_ Ht]%Hdel. by eapply I_rto_idx.
  - rewrite Hcnt; [done|]. apply (Hf OnRto).
  - eapply tracks_gone; [done..|]. apply (Hf OnTimewait).
  - rewrite Hcnt; [done|]. apply (Hf OnTimewait).
  - eapply tracks_gone; [done..|]. apply (Hf OnTimeout).
  - rewrite Hcnt; [done|]. apply (Hf OnTimeout).
  - intros Ho q t [_ Ht]%Hdel. by eapply I_to_off.
  - intros q t [_ Ht]%Hdel. by eapply I_excl.
  - destruct I_flow as (F&HF&HFm). exists (delete (flow_of s) F). rewrite E2. split.
    + refine (ft_remove_spec (tcp_flow_table m) F p (flow_of s) HF _). apply HFm. by exists s.
    + intros f q. rewrite lookup_delete_Some, HFm. split.
      * intros (Hne&t&Ht&Hft). exists t. split; [|done]. apply lookup_delete_Some. split; [|done]. intros <-. congruence.
      * intros (t&[Hne Ht]%lookup_delete_Some&Hft). split; [|by exists t]. intros <-.
        assert (F !! flow_of s = Some q) as Eq by (apply HFm; by exists t).
        assert (F !! flow_of s = Some p) as Ep by (apply HFm; by exists s). congruence.
  - rewrite E3, I_flow_cnt, Hsz, u32_sub_l. f_equal. lia.
  - destruct I_pool as (fr&Hfr&Hd&Hz&Hb). exists (p :: fr). rewrite E4. split_and!.
    + refine (pool_release_free (flow_pool m) fr p Hfr _ _ _).
      * apply Hz. by eexists.
      * intros Hin. rewrite (Hd p Hin) in Hp. done.
      * lia.
    + intros q [->|Hq]%elem_of_cons; [apply lookup_delete_eq|]. apply lookup_delete_None. right. by apply Hd.
    + intros q [t [_ Ht]%Hdel]. apply Hz. by eexists.
    + rewrite Hsz. simpl. lia.
Qed.

(** [p] has left the lists in [X]; the other streams are as in [m0]. *)
Definition leaving h (m0 : mtcp) p (X : list membership) (m : mtcp) s : Prop :=
  inv h m ∧ streams m !! p = Some s ∧ others true p m0 m ∧ ∀ y, y ∈ X → flagged y s = false.

Lemma leaving_clears h m0 p X m s y c :
  clears y h p c → leaving h m0 p X m s →
  ∃ m' s', (∀ B (k : unit → M B), bind c k m = k tt m') ∧ leaving h m0 p (y :: X) m' s'.
Proof.
  intros Hc (Hi&Hs&Ho&HX). destruct (Hc m s Hi Hs) as (m'&s'&E&Hi'&E1&E2&E3&Hy&Hz).
  exists m', s'. split; [intros; by rewrite (bind_inr _ _ _ _ _ E)|]. split; [done|]. split; [by rewrite E1, lookup_insert_eq|].
  split.
  - eapply others_trans; [exact Ho|]. split; [|done]. intros q Hq. by rewrite E1, lookup_insert_ne.
  - intros z [->|Hin]%elem_of_cons; [done|]. destruct (decide (flagged z s' = false)) as [|Hn]; [done|].
    exfalso. apply Hn. assert (z = y ∨ z ≠ y) as [->|Hne] by (destruct z as [[]| | |], y as [[]| | |]; (by left) || by right).
    + done.
    + rewrite Hz by done. by apply HX.
Qed.

Lemma leaving_get {B} h m0 p X m s (k : tcp_stream → M B) :
  leaving h m0 p X m s → bind (getS p) k m = k s m.
Proof. intros (_&Hs&_). by rewrite (bind_inr _ _ _ _ _ (getS_run p m s Hs)). Qed.

Lemma leaving_off h m0 p X m s y (c : M unit) :
  flagged y s = false → leaving h m0 p X m s →
  ∃ m' s', (∀ B (k : unit → M B), bind (when false c) k m = k tt m') ∧ leaving h m0 p (y :: X) m' s'.
Proof.
  intros Hf (Hi&Hs&Ho&HX). exists m, s. split; [done|]. split_and!; try done.
  intros z [->|Hin]%elem_of_cons; [done|by apply HX].
Qed.

Lemma leaving_when h m0 p X m s y (c : M unit) :
  clears y h p c → leaving h m0 p X m s →
  ∃ m' s', (∀ B (k : unit → M B), bind (when (flagged y s) c) k m = k tt m') ∧ leaving h m0 p (y :: X) m' s'.
Proof.
  intros Hc Hl. destruct (flagged y s) eqn:E; [by eapply leaving_clears|by eapply leaving_off].
Qed.

(** The timeout list is left only when timeouts are configured; otherwise no
    stream is on it. *)
Lemma leaving_timeout h m0 p X m s :
  leaving h m0 p X m s →
  ∃ m' s', (∀ B (k : unit → M B), bind (when (0 <? tcp_timeout (CONFIG m)) (RemoveFromTimeoutList p)) k m = k tt m')
    ∧ leaving h m0 p (OnTimeout :: X) m' s'.
Proof.
  intros Hl. destruct (Z.ltb_spec 0 (tcp_timeout (CONFIG m))) as [|Hz].
  - eapply leaving_clears; [apply clears_RemoveFromTimeoutList|done].
  - eapply leaving_off; [|done]. destruct Hl as (Hi&Hs&_). by eapply (inv_to_off _ _ Hi Hz).
Qed.

(** Operations that keep the links. *)
Lemma leaving_links h m0 p X m s (g : mtcp → mtcp) (f : tcp_stream → tcp_stream) :
  (∀ m, core (g m) = core m ∧ clock (g m) = clock m) → (∀ s, links (f s) = links s) →
  leaving h m0 p X m s →
  ∃ m' s', (∀ B (k : unit → M B), bind (modify g ;;; modS p f) k m = k tt m') ∧ leaving h m0 p X m' s'.
Proof.
  intros Hg Hf (Hi&Hs&Ho&HX). destruct (Hg m) as [Hc Hk]. destruct (core_streams _ _ Hc) as [E1 E2].
  assert (streams (g m) !! p = Some s) as Hs' by (by rewrite E2).
  exists ((g m) <| streams := <[p := f s]> (streams (g m)) |>), (f s). split.
  { intros B k. apply bind_inr. rewrite bind_modify. by apply modS_run. }
  split; [eapply inv_upd; [by eapply inv_core|done..]|]. split; [rec_simpl; apply lookup_insert_eq|]. split.
  - destruct Ho as (A1&A2&A3). split_and!; rec_simpl.
    + intros q Hq. rewrite lookup_insert_ne, E2 by done. by apply A1.
    + by rewrite E1.
    + intros Hb. change (clock (g m) = clock m0). by rewrite Hk, A3.
  - intros y Hy. specialize (HX y Hy). specialize (Hf s). unfold links in Hf.
    injection Hf as _ _ _ _ _ L1 L2 L3 L4 L5 L6. destruct y as [[]| | |]; simpl in *; congruence.
Qed.

Lemma leaving_sndbuf h m0 p X m s (o : option SB.tcp_send_buffer) :
  leaving h m0 p X m s →
  ∃ m' s', (∀ B (k : unit → M B), bind (match o with
    | Some b => modify (λ m, m <| rbm_snd := SB.SBFree (rbm_snd m) (Some b) |>) ;;;
                modSnd p (λ v, v <| sndbuf := None |>)
    | None => ret tt end) k m = k tt m') ∧ leaving h m0 p X m' s'.
Proof.
  intros Hl. destruct o as [b|]; [|by exists m, s]. by eapply leaving_links; [intros ?; split| |].
Qed.
Lemma leaving_rcvbuf h m0 p X m s (o : option RB.tcp_ring_buffer) :
  leaving h m0 p X m s →
  ∃ m' s', (∀ B (k : unit → M B), bind (match o with
    | Some b => modify (λ m, m <| rbm_rcv := RB.RBFree (rbm_rcv m) b |>) ;;;
                modRcv p (λ r, r <| rcvbuf := None |>)
    | None => ret tt end) k m = k tt m') ∧ leaving h m0 p X m' s'.
Proof.
  intros Hl. destruct o as [b|]; [|by exists m, s]. by eapply leaving_links; [intros ?; split| |].
Qed.

Lemma quiet_free_bound_address a b : quiet (free_bound_address a b).
Proof. unfold free_bound_address. quiet. Qed.

(** A quiet operation at the end of a destruction. *)
Lemma quiet_end {A} b h p m0 (m m' : mtcp) (c : M A) :
  quiet c → inv h m' → others b p m0 m' →
  match c m' with
  | inl f => benign f
  | inr (a, m'') => inv h m'' ∧ (False → live m'' p) ∧ others b p m0 m''
  end.
Proof.
  intros Hq Hi Ho. specialize (Hq m'). destruct (c m') as [|[a m'']]; [done|]. destruct Hq as [Hc Hk].
  split; [by eapply inv_core|]. split; [done|]. destruct (core_streams _ _ Hc) as [E1 E2].
  destruct Ho as (A1&A2&A3). split_and!.
  - intros q Hne. by rewrite E2, A1.
  - by rewrite E1.
  - intros Hb. by rewrite Hk, A3.
Qed.

Lemma frees_DestroyTCPStream b h p : h ≠ Some p → frees b h p (DestroyTCPStream p).
Proof.
  intros Hh m0 Hi0 [s0 Hs0]. unfold DestroyTCPStream. rewrite (bind_inr _ _ _ _ _ (getS_run p m0 s0 Hs0)).
  assert (leaving h m0 p [] m0 s0) as Hl by (split_and!; try done; intros y Hy; by apply not_elem_of_nil in Hy).
  destruct (leaving_clears _ _ _ _ _ _ _ _ (clears_RemoveFromControlList h p) Hl) as (m1&s1&E1&Hl1). rewrite E1.
  destruct (leaving_clears _ _ _ _ _ _ _ _ (clears_RemoveFromSendList h p Hh) Hl1) as (m2&s2&E2&Hl2). rewrite E2.
  destruct (leaving_clears _ _ _ _ _ _ _ _ (clears_RemoveFromACKList h p) Hl2) as (m3&s3&E3&Hl3). rewrite E3.
  rewrite (leaving_get _ _ _ _ _ _ _ Hl3).
  destruct (leaving_when _ _ _ _ _ _ _ _ (clears_RemoveFromRTOList h p) Hl3) as (m4&s4&E4&Hl4). simpl in E4. rewrite E4.
  rewrite (leaving_get _ _ _ _ _ _ _ Hl4).
  destruct (leaving_when _ _ _ _ _ _ _ _ (clears_RemoveFromTimewaitList h p) Hl4) as (m5&s5&E5&Hl5). simpl in E5. rewrite E5.
  rewrite bind_gets. destruct (leaving_timeout _ _ _ _ _ _ Hl5) as (m6&s6&E6&Hl6). rewrite E6.
  rewrite (leaving_get _ _ _ _ _ _ _ Hl6).
  destruct (leaving_sndbuf _ _ _ _ _ _ (sndbuf (sndvar s6)) Hl6) as (m7&s7&E7&Hl7). rewrite E7.
  destruct (leaving_rcvbuf _ _ _ _ _ _ (rcvbuf (rcvvar s6)) Hl7) as (m8&s8&E8&Hl8). rewrite E8.
  rewrite (leaving_get _ _ _ _ _ _ _ Hl8). destruct Hl8 as (Hi&Hs&Ho&HX).
  rewrite bind_modify. unfold free_rv, free_sv. rewrite !bind_modify.
  assert (∀ y, flagged y s8 = false) as Hf by (intros [[]| | |]; apply HX; repeat constructor).
  apply (quiet_end b h p m0 m0); [apply quiet_when, quiet_free_bound_address| |].
  - by apply (inv_destroy h m8 _ p s8).
  - destruct Ho as (A1&A2&A3). split_and!; try done.
    + intros q Hq. rec_simpl. rewrite lookup_delete_ne by done. by apply A1.
    + intros _. by apply A3.
Qed.

(** ** Creation *)
Lemma pool_alloc_inv h (m : mtcp) p q :
  inv h m → pool_alloc (flow_pool m) = (Some p, q) →
  ∃ l, pool_free q l ∧ (p ∉ l) ∧ (∀ r, r ∈ l → streams m !! r = None) ∧ streams m !! p = None ∧ p ≠ 0
    ∧ Z.of_nat (length l) + 1 + Z.of_nat (size (streams m)) < 2147483646.
Proof.
  intros Hi Ea. destruct (inv_pool _ _ Hi) as (fr&Hfr&Hd&Hz&Hb).
  destruct (decide (fr = [])) as [->|Hne].
  { rewrite (pool_alloc_none _ Hfr) in Ea. done. }
  destruct (pool_alloc_some _ fr Hfr Hne) as (x&l&q'&E&Hx&Hp&Hl). rewrite E in Ea. injection Ea as -> ->.
  pose proof (pool_free_NoDup _ _ Hfr) as Hnd. rewrite Hp in Hnd. apply NoDup_cons in Hnd as [Hpl _].
  exists l. split_and!; try done.
  - intros r Hr. apply Hd. rewrite Hp. by right.
  - apply Hd. rewrite Hp. left.
  - rewrite (Permutation_length Hp) in Hb. simpl in Hb. lia.
Qed.

Lemma inv_unalloc h (m m' : mtcp) p q :
  inv h m → pool_alloc (flow_pool m) = (Some p, q) → flow_pool m' = pool_release q p →
  core (m' <| flow_pool := flow_pool m |>) = core m → inv h m'.
Proof.
  intros Hi Ea Ef Ec. destruct (pool_alloc_inv h m p q Hi Ea) as (l&Hl&Hpl&Hd&Hp&Hp0&Hb).
  pose proof (inv_pool _ _ Hi) as (fr&_&_&Hz&_).
  destruct (inv_core h _ _ Ec Hi) as [I1 I2 I3 I4 I5 I6 I7 I8 I9 I10 I11 I12 I13 I14 I15 _ I17].
  split; try done. destruct (core_streams _ _ Ec) as [_ Es]. simpl in Es. exists (p :: l). rewrite Ef. split_and!.
  - refine (pool_release_free q l p Hl Hp0 Hpl _). lia.
  - rewrite Es. intros r [->|Hr]%elem_of_cons; [done|by apply Hd].
  - rewrite Es. apply Hz.
  - rewrite Es. simpl. lia.
Qed.

Lemma inv_create h (m m' : mtcp) p q s :
  inv h m → pool_alloc (flow_pool m) = (Some p, q) →
  (∀ p' s', streams m !! p' = Some s' → flow_of s' ≠ flow_of s) →
  (∀ y, flagged y s = false) → on_rto_idx s = -1 → nif_out (sndvar s) = nif_for (CONFIG m) (daddr s) →
  streams m' = <[p := s]> (streams m) →
  tcp_flow_table m' = (FlowHash.StreamHTInsert (tcp_flow_table m) (FlowHash.mk_item p (flow_of s))).2 →
  flow_cnt m' = flow_cnt m ⊞ 1 → flow_pool m' = q →
  (CONFIG m', senders m', rto_list (rto_store m'), rto_list_cnt m',
   (timewait_list m', timewait_list_cnt m', timeout_list m', timeout_list_cnt m'))
    = (CONFIG m, senders m, rto_list (rto_store m), rto_list_cnt m,
       (timewait_list m, timewait_list_cnt m, timeout_list m, timeout_list_cnt m)) →
  rto_now_idx (rto_store m') = rto_now_idx (rto_store m) → inv h m'.
Proof.
  intros Hi Ea Hnew Hf Hr Hnif E1 E2 E3 E4 E5 Hnow. injection E5 as A1 A2 A3 A4 A5 A6 A7 A8.
  destruct (pool_alloc_inv h m p q Hi Ea) as (l&Hl&Hpl&Hd&Hp&Hp0&Hb).
  assert (∀ r t, <[p := s]> (streams m) !! r = Some t → (r = p ∧ t = s) ∨ streams m !! r = Some t) as Hins.
  { intros r t [[<- <-]|[_ Ht]]%lookup_insert_Some; [by left|by right]. }
  pose proof (inv_pool _ _ Hi) as (fr&_&_&Hz&_).
  assert (size (<[p := s]> (streams m)) = S (size (streams m))) as Hsz by (by apply map_size_insert_None).
  destruct Hi as [I_cfg I_nif I_sender I_scnt I_rto I_rto_idx I_rto_cnt I_tw I_tw_cnt I_to I_to_cnt I_to_off I_excl
    I_flow I_flow_cnt _ I_now].
  split; unfold rto_at in *; rewrite ?E1, ?A1, ?A2, ?A3, ?A4, ?A5, ?A6, ?A7, ?A8, ?Hnow; try done.
  - intros r t [[-> ->]|Ht]%Hins; [done|by eapply I_nif].
  - intros x k d Hk. apply tracks_fresh; [by apply I_sender|done|].
    unfold on_sender. by rewrite (Hf (OnSender x) : sflag x s = false).
  - intros x k d Hk. rewrite count_fresh; [by apply I_scnt|done|]. by rewrite (Hf (OnSender x) : sflag x s = false).
  - intros j Hj. apply tracks_fresh; [by apply I_rto|done|]. rewrite Hr. lia.
  - intros r t [[-> ->]|Ht]%Hins; [unfold RTO_HASH; lia|by eapply I_rto_idx].
  - rewrite count_fresh; [done..|apply (Hf OnRto)].
  - apply tracks_fresh; [done..|apply (Hf OnTimewait)].
  - rewrite count_fresh; [done..|apply (Hf OnTimewait)].
  - apply tracks_fresh; [done..|apply (Hf OnTimeout)].
  - rewrite count_fresh; [done..|apply (Hf OnTimeout)].
  - intros Ho r t [[-> ->]|Ht]%Hins; [apply (Hf OnTimeout)|by eapply I_to_off].
  - intros r t [[-> ->]|Ht]%Hins; [lia|by eapply I_excl].
  - destruct I_flow as (F&HF&HFm). exists (<[flow_of s := p]> F). rewrite E2. split.
    + refine (proj2 (ft_insert_spec (tcp_flow_table m) F p (flow_of s) HF _ _)).
      * destruct (F !! flow_of s) as [p'|] eqn:EF; [|done]. apply HFm in EF as (t&Ht&Hft). by apply (Hnew p' t) in Hft.
      * intros f' EF. apply HFm in EF as (t&Ht&_). congruence.
    + intros f r. rewrite lookup_insert_Some, HFm. split.
      * intros [[<- <-]|(Hne&t&Ht&Hft)]; [exists s; by rewrite lookup_insert_eq|].
        exists t. split; [|done]. rewrite lookup_insert_ne; [done|]. intros <-. congruence.
      * intros (t&[[-> ->]|Ht]%Hins&Hft); [by left|]. right. split; [|by exists t].
        intros Eq. apply (Hnew r t Ht). congruence.
  - rewrite E3, I_flow_cnt, Hsz, u32_add_l. f_equal. lia.
  - exists l. rewrite E4. split_and!; [done| | |].
    + intros r Hr'. rewrite lookup_insert_ne; [by apply Hd|]. intros <-. done.
    + intros r [t [[-> ->]|Ht]%Hins]; [done|]. apply Hz. by eexists.
    + rewrite Hsz. lia.
Qed.

(** ** Operations that start without a stream *)
Definition safe {A} (c : M A) (Q : A → mtcp → mtcp → Prop) : Prop :=
  ∀ m, inv None m →
  match c m with inl f => benign f | inr (a, m') => inv None m' ∧ Q a m m' end.

(** A new stream is the only change; without memory there is none. *)
Definition created (r : option Z) (m m' : mtcp) : Prop :=
  match r with
  | Some p => streams m !! p = None ∧ live m' p ∧ others true p m m'
  | None => streams m' = streams m ∧ CONFIG m' = CONFIG m
  end.

Lemma alloc_flow_run m {B} (k : option Z → M B) :
  bind alloc_flow k m = k (pool_alloc (flow_pool m)).1 (m <| flow_pool := (pool_alloc (flow_pool m)).2 |>).
Proof. unfold alloc_flow, bind, gets. by destruct (pool_alloc (flow_pool m)). Qed.
Lemma alloc_rv_run m {B} (k : option Z → M B) :
  bind alloc_rv k m = k (pool_alloc (rv_pool m)).1 (m <| rv_pool := (pool_alloc (rv_pool m)).2 |>).
Proof. unfold alloc_rv, bind, gets. by destruct (pool_alloc (rv_pool m)). Qed.
Lemma alloc_sv_run m {B} (k : option Z → M B) :
  bind alloc_sv k m = k (pool_alloc (sv_pool m)).1 (m <| sv_pool := (pool_alloc (sv_pool m)).2 |>).
Proof. unfold alloc_sv, bind, gets. by destruct (pool_alloc (sv_pool m)). Qed.

Lemma new_stream_links C rv sv id sock type sa sp da dp rnd :
  let s := new_stream C rv sv id sock type sa sp da dp rnd in
  flow_of s = mk_flow sa da sp dp ∧ (∀ y, flagged y s = false) ∧ on_rto_idx s = -1
  ∧ nif_out (sndvar s) = nif_for C (daddr s) ∧ state s = TCP_ST_LISTEN.
Proof.
  unfold new_stream, nif_for. destruct (GetOutputInterface C da) as [nif ext] eqn:Eo.
  split_and!; try done; [by intros [[]| | |]|]. transitivity (s8 nif); [done|].
  change (daddr _) with da. by rewrite Eo.
Qed.

Lemma CreateTCPStream_created type sa sp da dp m :
  inv None m → (∀ p s, streams m !! p = Some s → flow_of s ≠ mk_flow sa da sp dp) →
  match CreateTCPStream None type sa sp da dp m with
  | inl f => benign f
  | inr (r, m') => inv None m' ∧ created r m m'
  end.
Proof.
  intros Hi Hnew. unfold CreateTCPStream. rewrite alloc_flow_run.
  destruct (pool_alloc (flow_pool m)) as [[p|] q] eqn:Ea; cbn [fst snd].
  2:{ split; [|done]. destruct (inv_pool _ _ Hi) as (fr&Hfr&Hd&Hz&Hb).
      destruct (decide (fr = [])) as [->|Hne].
      - rewrite (pool_alloc_none _ Hfr) in Ea. injection Ea as <-. by apply (inv_core None m).
      - destruct (pool_alloc_some _ fr Hfr Hne) as (?&?&?&E&_). congruence. }
  rewrite alloc_rv_run. unfold free_flow, free_rv.
  destruct (pool_alloc (rv_pool _)) as [[rv|] q2]; cbn [fst snd];
    [|rewrite !bind_modify; split; [by eapply (inv_unalloc None m _ p q)|done]].
  rewrite alloc_sv_run. destruct (pool_alloc (sv_pool _)) as [[sv|] q3]; cbn [fst snd];
    [|rewrite !bind_modify; split; [by eapply (inv_unalloc None m _ p q)|done]].
  rewrite !bind_gets, bind_modify, bind_gets. cbv beta zeta. destruct (rand_r _) as [rnd seed].
  rewrite !bind_modify.
  set (s := new_stream _ _ _ _ _ _ _ _ _ _ _).
  destruct (new_stream_links (CONFIG m) rv sv (g_id m) None type sa sp da dp rnd) as (Hf1&Hf2&Hf3&Hf4&_).
  change (new_stream _ _ _ _ _ _ _ _ _ _ _) with s in Hf1, Hf2, Hf3, Hf4.
  clearbody s. destruct (pool_alloc_inv None m p q Hi Ea) as (_&_&_&_&Hp&_&_).
  split.
  - eapply (inv_create None m _ p q s); try done. intros p' s'. rewrite Hf1. apply Hnew.
  - split; [done|]. split; [unfold live; rec_simpl; rewrite lookup_insert_eq; by eexists|].
    split; [|done]. intros r Hr. rec_simpl. by rewrite lookup_insert_ne.
Qed.
End Stream.

#[export] Hint Resolve quiet_getSock quiet_add_event quiet_AddEpollEvent quiet_raise quiet_registered keeps_RaiseReadEvent
  keeps_RaiseWriteEvent keeps_RaiseCloseEvent keeps_RaiseErrorEvent frees_DestroyTCPStream : tcp.
