(* ===== verification/TcpFrame.v ===== *)
(** * What an operation leaves alone

    [fixes f p c]: when [c] ends and the stream [p] exists then, it existed
    before with the same value of [f].  The rules follow the structure of an
    operation; [fixing] applies them. *)
From S2P Require Import Prelude MemPool FlowHash TcpTypes NetOut TcpLists TcpInv TcpOptions TcpStream.

Section Frame.
Context {P IO : Type} `{ChunkPool P, World IO}.
Local Abbreviation mtcp := (mtcp_manager P IO).
Local Abbreviation M := (M P IO).

Definition fixes {A T} (f : tcp_stream → T) (p : Z) (c : M A) : Prop :=
  ∀ m a m', c m = inr (a, m') → ∀ s', streams m' !! p = Some s' →
  ∃ s, streams m !! p = Some s ∧ f s' = f s.

(** [c] ends without the stream. *)
Definition kills {A} (p : Z) (c : M A) : Prop :=
  ∀ m a m', c m = inr (a, m') → streams m' !! p = None.

Section Rules.
Context {T : Type} (f : tcp_stream → T) (p : Z).

Lemma fixes_bind {A B} (c : M A) (k : A → M B) : fixes f p c → (∀ a, fixes f p (k a)) → fixes f p (bind c k).
Proof using.
  intros Hc Hk m b m'' E s'' Hs. unfold bind in E. destruct (c m) as [|[a m']] eqn:Ec; [done|].
  destruct (Hk a m' b m'' E s'' Hs) as (s'&Hs'&E1). destruct (Hc m a m' Ec s' Hs') as (s&Hs0&E2).
  exists s. split; [done|congruence].
Qed.
Lemma fixes_ret {A} (a : A) : fixes f p (ret a).
Proof using. intros m x m' [= <- <-] s Hs. by exists s. Qed.
Lemma fixes_gets {A} (g : mtcp → A) : fixes f p (gets g).
Proof using. intros m x m' [= <- <-] s Hs. by exists s. Qed.
Lemma fixes_fail {A} e : fixes f p (fail e : M A).
Proof using. done. Qed.
Lemma fixes_lift {A} e (o : option A) : fixes f p (lift e o).
Proof using. destruct o; [apply fixes_ret|apply fixes_fail]. Qed.
Lemma fixes_when (b : bool) (c : M unit) : fixes f p c → fixes f p (when b c).
Proof using. intros. by destruct b; [|apply fixes_ret]. Qed.
Lemma fixes_modify g : (∀ m, streams (g m) = streams m) → fixes f p (modify g).
Proof using. intros Hg m x m' [= <- <-] s Hs. rewrite Hg in Hs. by exists s. Qed.
Lemma fixes_getS q : fixes f p (getS q).
Proof using. apply fixes_bind; [apply fixes_gets|]. intros. apply fixes_lift. Qed.
Lemma fixes_modS q g : (∀ s, f (g s) = f s) → fixes f p (modS q g).
Proof using.
  intros Hg m x m' E s' Hs. unfold modS, getS, bind, gets, lift in E.
  destruct (streams m !! q) as [s|] eqn:Eq; [|done]. simpl in E. injection E as <- <-. rec_simpl.
  apply lookup_insert_Some in Hs as [[<- <-]|[_ Hs]]; [by exists s|by exists s'].
Qed.
Lemma fixes_getD d : fixes f p (getD d).
Proof using.
  apply fixes_bind; [apply fixes_lift|]. intros k. apply fixes_bind; [apply fixes_gets|]. intros. apply fixes_lift.
Qed.
Lemma fixes_modD d g : fixes f p (modD d g).
Proof using.
  apply fixes_bind; [apply fixes_lift|]. intros k. apply fixes_bind; [apply fixes_getD|]. intros x.
  by apply fixes_modify.
Qed.
Lemma fixes_tq_remove l q : fixes f p (tq_remove l q).
Proof using. unfold tq_remove. case_decide; [apply fixes_ret|apply fixes_fail]. Qed.
Lemma fixes_quiet {A} (c : M A) : quiet c → fixes f p c.
Proof using.
  intros Hc m a m' E s Hs. specialize (Hc m). rewrite E in Hc. destruct Hc as [Hc _].
  apply core_streams in Hc as [_ Es]. rewrite Es in Hs. by exists s.
Qed.
Lemma fixes_kills {A} (c : M A) : kills p c → fixes f p c.
Proof using. intros Hc m a m' E s Hs. by rewrite (Hc m a m' E) in Hs. Qed.
Lemma kills_bind {A B} (c : M A) (k : A → M B) : (∀ a, kills p (k a)) → kills p (bind c k).
Proof using.
  intros Hk m b m'' E. unfold bind in E. destruct (c m) as [|[a m']]; [done|]. by apply (Hk a m' b).
Qed.
End Rules.

Lemma kills_modify p g {B} (k : unit → M B) :
  (∀ m, streams (g m) !! p = None) → (∀ a, quiet (k a)) → kills p (bind (modify g) k).
Proof.
  intros Hg Hk m b m' E. rewrite bind_modify in E. specialize (Hk tt (g m)). rewrite E in Hk.
  destruct Hk as [Hk _]. apply core_streams in Hk as [_ Es]. by rewrite Es.
Qed.

Lemma kills_DestroyTCPStream p : kills p (DestroyTCPStream p).
Proof.
  unfold DestroyTCPStream.
  repeat first [ apply kills_modify; [by intros m; apply lookup_delete_eq
                                     |intros _; apply quiet_when, quiet_free_bound_address]
               | apply kills_bind; intros ? ].
Qed.

Lemma fixes_DestroyTCPStream {T} (f : tcp_stream → T) p : fixes f p (DestroyTCPStream p).
Proof. apply fixes_kills, kills_DestroyTCPStream. Qed.

(** The option parser changes its own fields only. *)
Lemma fixes_ParseTCPOptions {T} (f : tcp_stream → T) p q ts opt len :
  (∀ s v, f (Opt.set_mss s v) = f s) → (∀ s v, f (Opt.set_wscale s v) = f s) →
  (∀ s, f (s <| sack_permit := true |>) = f s) → (∀ s v, f (Opt.set_timestamp s ts v) = f s) →
  fixes f p (ParseTCPOptions q ts opt len : M unit).
Proof.
  intros F1 F2 F3 F4 m x m' E s' Hs. unfold ParseTCPOptions, modS, getS, bind, gets, lift in E.
  destruct (streams m !! q) as [s|] eqn:Eq; [|done]. simpl in E.
  destruct (Opt.ParseTCPOptions s ts opt len) as [s2| |] eqn:Ep; try done. simpl in E.
  rewrite Eq in E. simpl in E. injection E as <- <-. rec_simpl.
  apply lookup_insert_Some in Hs as [[<- <-]|[_ Hs]]; [|by exists s'].
  exists s. split; [done|]. by apply (Opt.parse_options_fixes f) in Ep.
Qed.
End Frame.

#[export] Hint Resolve fixes_ret fixes_gets fixes_fail fixes_lift fixes_getS fixes_getD fixes_modD fixes_tq_remove
  fixes_DestroyTCPStream : tcp.

(** Unfolding the operation at the head of a call. *)
Ltac unfold_head c := match c with ?f _ => unfold_head f | _ => unfold c end.

Ltac fixing_step :=
  match goal with
  | |- fixes _ _ (bind _ _) => apply fixes_bind; [|intros ?]
  | |- fixes _ _ (when _ _) => apply fixes_when
  | |- fixes _ _ (match ?x with _ => _ end) => destruct x
  | |- fixes _ _ (modify _) => apply fixes_modify; by intros ?
  | |- fixes _ _ (modS _ _) => apply fixes_modS; by intros ?
  | |- fixes _ _ (modSnd _ _) => apply fixes_modS; by intros ?
  | |- fixes _ _ (modRcv _ _) => apply fixes_modS; by intros ?
  | |- fixes _ _ (ParseTCPOptions _ _ _ _) => apply fixes_ParseTCPOptions; by intros
  | |- fixes _ _ _ => solve [eauto with tcp]
  | |- fixes _ _ ?c => solve [apply fixes_quiet; quiet]
  | |- fixes _ _ ?c => unfold_head c
  end.
Ltac fixing := repeat (fixing_step; cbv beta zeta).

(** [freeing] is [keep] for operations that may end with the destruction of the
    stream. *)
Ltac freeing_step :=
  match goal with
  | |- frees _ _ _ _ => solve [apply keeps_spec; keep]
  | |- frees _ _ _ _ => solve [eauto with tcp]
  | |- frees _ _ _ (bind _ _) => apply spec_bind; [solve [keep]|intros ?]
  | |- spec _ _ _ (bind _ _) (λ _, False) => apply spec_bind; [solve [keep]|intros ?]
  | |- frees _ _ _ (bind _ (λ _, ret _)) => apply frees_ret
  | |- frees _ _ _ (match ?x with _ => _ end) => destruct x
  | |- frees _ _ _ (when ?b _) => destruct b; unfold when
  | |- spec _ _ _ _ (λ _, False) => change (spec ?b ?h ?p ?c (λ _, False)) with (frees b h p c)
  end.
Ltac freeing := repeat (freeing_step; cbv beta zeta).
