(* ===== verification/Post.v ===== *)
(** * Post-conditions of operations

    [ends c Q m]: run from [m], the operation [c] ends with a result that
    satisfies [Q], or with a fault that the list structure does not exclude
    ([benign]); it never follows a freed stream or corrupts a list.  The rules
    follow a stream through an operation: what each step does to it, what the
    step leaves alone ([fixes]) and what it leaves alone of the thread
    ([stays]). *)
From S2P Require Import Prelude MemPool FlowHash TcpTypes NetOut TcpLists TcpInv TcpOptions TcpStream TcpFrame.

(** A stream without its links, timers of lists and interface. *)
Definition bare (s : tcp_stream) : tcp_stream :=
  s <| on_rto_idx := 0 |> <| on_timewait_list := false |> <| on_timeout_list := false |> <| is_external := false |>
    <| sndvar := (sndvar s) <| on_control_list := false |> <| on_send_list := false |> <| on_ack_list := false |>
                            <| nif_out := 0 |> <| ip_id := 0 |> |>.

Section Post.
Context {P IO : Type} `{ChunkPool P, World IO}.
Local Abbreviation mtcp := (mtcp_manager P IO).
Local Abbreviation M := (M P IO).
Implicit Types (m : mtcp) (s : tcp_stream).

Definition ends {A} (c : M A) (Q : A → mtcp → Prop) m : Prop :=
  match c m with inl f => benign f | inr (a, m') => Q a m' end.

(** [c] leaves the part [g] of the thread alone. *)
Definition stays {A T} (g : mtcp → T) (c : M A) : Prop := ∀ m a m', c m = inr (a, m') → g m' = g m.

(** The stream [p] is [s]; the other streams are as they were in [m0]. *)
Definition at_stream h p m0 m s : Prop := inv h m ∧ streams m !! p = Some s ∧ others false p m0 m.

Lemma at_start h p m s : inv h m → streams m !! p = Some s → at_stream h p m m s.
Proof using. done. Qed.

(** ** Rules *)
Lemma ends_mono {A} (c : M A) (Q R : A → mtcp → Prop) m : ends c Q m → (∀ a m', Q a m' → R a m') → ends c R m.
Proof using. unfold ends. destruct (c m) as [|[]]; auto. Qed.
Lemma ends_bind {A B} (c : M A) (k : A → M B) Q m : ends c (λ a, ends (k a) Q) m → ends (bind c k) Q m.
Proof using. unfold ends, bind. by destruct (c m) as [|[]]. Qed.
Lemma ends_run {A} (c : M A) (Q : A → mtcp → Prop) m a m' : c m = inr (a, m') → ends c Q m → Q a m'.
Proof using. unfold ends. by intros ->. Qed.
Lemma ends_lift {A B} f (o : option A) (k : A → M B) Q m :
  benign f → (∀ a, o = Some a → ends (k a) Q m) → ends (bind (lift f o) k) Q m.
Proof using. intros Hf Hk. destruct o as [a|]; [by apply Hk|done]. Qed.

Lemma ends_gets {A B} (g : mtcp → A) (k : A → M B) Q m : ends (k (g m)) Q m → ends (bind (gets g) k) Q m.
Proof using. done. Qed.

Section At.
Context (h : option Z) (p : Z) (m0 : mtcp).

Lemma ends_getS {B} (k : tcp_stream → M B) Q m s :
  at_stream h p m0 m s → ends (k s) Q m → ends (bind (getS p) k) Q m.
Proof using. intros (_&Hs&_) Hk. unfold ends. by rewrite (bind_inr _ _ _ _ _ (getS_run p m s Hs)). Qed.

Lemma ends_modS {B} f (k : unit → M B) Q m s :
  at_stream h p m0 m s → links (f s) = links s →
  (∀ m', at_stream h p m0 m' (f s) → out m' = out m → ends (k tt) Q m') → ends (bind (modS p f) k) Q m.
Proof using.
  intros (Hi&Hs&Ho) Hl Hk. unfold ends. rewrite (bind_inr _ _ _ _ _ (modS_run p f m s Hs)). apply Hk; [|done].
  split; [by eapply inv_upd|]. rec_simpl. rewrite lookup_insert_eq. split; [done|].
  eapply others_trans; [exact Ho|]. split; [|done]. intros q Hq. rec_simpl. by rewrite lookup_insert_ne.
Qed.

Lemma ends_mod {B} f (k : unit → M B) Q m s :
  at_stream h p m0 m s → (∀ s, links (f s) = links s) →
  (∀ m', at_stream h p m0 m' (f s) → out m' = out m → ends (k tt) Q m') → ends (bind (modS p f) k) Q m.
Proof using. intros Ha Hl. by apply ends_modS. Qed.

(** A step by what it keeps, fixes and stays away from. *)
Lemma ends_step {A T} b (f : tcp_stream → T) (c : M A) (Q : A → mtcp → Prop) m s :
  at_stream h p m0 m s → keeps b h p c → fixes f p c → stays out c →
  (∀ a m' s', at_stream h p m0 m' s' → f s' = f s → out m' = out m → Q a m') → ends c Q m.
Proof using.
  intros (Hi&Hs&Ho) Hk Hf Hg HQ. specialize (Hk m Hi ltac:(by eexists)). unfold ends.
  destruct (c m) as [|[a m']] eqn:E; [done|]. destruct Hk as (Hi'&Hl&Ho'). destruct (Hl I) as [s' Hs'].
  destruct (Hf m a m' E s' Hs') as (s1&Hs1&Ef). rewrite Hs in Hs1. injection Hs1 as <-.
  apply (HQ a m' s'); [|done|by apply (Hg m a)]. split; [done|]. split; [done|].
  eapply others_trans; [exact Ho|]. by destruct Ho' as (?&?&?).
Qed.

Lemma ends_pass {A B T} b (f : tcp_stream → T) (c : M A) (k : A → M B) Q m s :
  at_stream h p m0 m s → keeps b h p c → fixes f p c → stays out c →
  (∀ a m' s', at_stream h p m0 m' s' → f s' = f s → out m' = out m → ends (k a) Q m') → ends (bind c k) Q m.
Proof using. intros Ha Hk Hf Hg HQ. apply ends_bind. by eapply ends_step. Qed.
End At.

(** ** What stays *)
Section Stays.
Context {T : Type} (g : mtcp → T).
Lemma stays_bind {A B} (c : M A) (k : A → M B) : stays g c → (∀ a, stays g (k a)) → stays g (bind c k).
Proof using.
  intros Hc Hk m b m'' E. unfold bind in E. destruct (c m) as [|[a m']] eqn:Ec; [done|].
  rewrite (Hk a m' b m'' E). by apply (Hc m a).
Qed.
Lemma stays_ret {A} (a : A) : stays g (ret a).
Proof using. by intros m x m' [= <- <-]. Qed.
Lemma stays_gets {A} (q : mtcp → A) : stays g (gets q).
Proof using. by intros m x m' [= <- <-]. Qed.
Lemma stays_fail {A} e : stays g (fail e : M A).
Proof using. done. Qed.
Lemma stays_lift {A} e (o : option A) : stays g (lift e o).
Proof using. destruct o; [apply stays_ret|apply stays_fail]. Qed.
Lemma stays_when (b : bool) (c : M unit) : stays g c → stays g (when b c).
Proof using. intros. by destruct b; [|apply stays_ret]. Qed.
Lemma stays_modify f : (∀ m, g (f m) = g m) → stays g (modify f).
Proof using. intros Hf m x m' [= <- <-]. apply Hf. Qed.
Lemma stays_getS q : stays g (getS q).
Proof using. apply stays_bind; [apply stays_gets|]. intros. apply stays_lift. Qed.
Lemma stays_modS q f : (∀ m v, g (m <| streams := v |>) = g m) → stays g (modS q f).
Proof using. intros Hg. apply stays_bind; [apply stays_getS|]. intros s. by apply stays_modify. Qed.
Lemma stays_getD d : stays g (getD d).
Proof using.
  apply stays_bind; [apply stays_lift|]. intros k. apply stays_bind; [apply stays_gets|]. intros. apply stays_lift.
Qed.
Lemma stays_modD d f : (∀ m v, g (m <| senders := v |>) = g m) → stays g (modD d f).
Proof using.
  intros Hg. apply stays_bind; [apply stays_lift|]. intros k. apply stays_bind; [apply stays_getD|]. intros x.
  by apply stays_modify.
Qed.
Lemma stays_tq_remove l q : stays g (tq_remove l q).
Proof using. unfold tq_remove. case_decide; [apply stays_ret|apply stays_fail]. Qed.
End Stays.
End Post.

#[export] Hint Resolve stays_ret stays_gets stays_fail stays_lift stays_getS stays_getD stays_tq_remove : tcp.

Ltac staying_step :=
  match goal with
  | |- stays _ (bind _ _) => apply stays_bind; [|intros ?]
  | |- stays _ (when _ _) => apply stays_when
  | |- stays _ (match ?x with _ => _ end) => destruct x
  | |- stays _ (modify _) => apply stays_modify; by intros ?
  | |- stays _ (modD _ _) => apply stays_modD; by intros ?
  | |- stays _ (modS _ _) => apply stays_modS; by intros ?
  | |- stays _ (modSnd _ _) => apply stays_modS; by intros ?
  | |- stays _ (modRcv _ _) => apply stays_modS; by intros ?
  | |- stays _ _ => solve [eauto with tcp]
  | |- stays _ ?c => unfold_head c
  end.
Ltac staying := repeat (staying_step; cbv beta zeta).

(** A step of an operation that keeps [f] of the stream and the frames. *)
Ltac pass f s m Ha E Eo :=
  match goal with
  | Hat : at_stream _ _ _ ?m1 _ |- ends (bind ?c _) _ ?m1 =>
      eapply (ends_pass _ _ _ false f c); [exact Hat|solve [keep]|solve [fixing]|solve [staying]|];
      clear Hat; intros ? m s Ha E Eo
  end.

Section Output.
Context {P IO : Type} `{ChunkPool P, World IO}.
Local Abbreviation mtcp := (mtcp_manager P IO).
Local Abbreviation M := (M P IO).
Implicit Types (m : mtcp) (s : tcp_stream).

(** A step whose frames do not matter. *)
Lemma ends_touch {A T} b h p m0 (f : tcp_stream → T) (c : M A) (Q : A → mtcp → Prop) m s :
  at_stream h p m0 m s → keeps b h p c → fixes f p c →
  (∀ a m' s', at_stream h p m0 m' s' → f s' = f s → Q a m') → ends c Q m.
Proof using.
  intros (Hi&Hs&Ho) Hk Hf HQ. specialize (Hk m Hi ltac:(by eexists)). unfold ends.
  destruct (c m) as [|[a m']] eqn:E; [done|]. destruct Hk as (Hi'&Hl&Ho'). destruct (Hl I) as [s' Hs'].
  destruct (Hf m a m' E s' Hs') as (s1&Hs1&Ef). rewrite Hs in Hs1. injection Hs1 as <-.
  apply (HQ a m' s'); [|done]. split; [done|]. split; [done|].
  eapply others_trans; [exact Ho|]. by destruct Ho' as (?&?&?).
Qed.

(** A step that touches no stream and no list. *)
Lemma ends_quiet {A} h p m0 (c : M A) (Q : A → mtcp → Prop) m s :
  at_stream h p m0 m s → quiet c → (∀ a m', c m = inr (a, m') → at_stream h p m0 m' s → Q a m') → ends c Q m.
Proof using.
  intros (Hi&Hs&Ho1&Ho2&Ho3) Hq HQ. specialize (Hq m). unfold ends. destruct (c m) as [|[a m']] eqn:E; [done|].
  destruct Hq as [Hc Hk]. destruct (core_streams _ _ Hc) as [E1 E2]. apply HQ; [done|].
  split; [by eapply inv_core|]. unfold others. by rewrite E1, E2.
Qed.

(** A frame that was acquired, or nothing. *)
Lemma EthernetOutput_out proto nif dst n m ok m' :
  EthernetOutput proto nif dst n m = inr (ok, m') →
  if ok then ∃ f, out m' = f :: out m ∧ fr_data f = [] ∧ fr_proto f = proto else out m' = out m.
Proof using.
  unfold EthernetOutput. destruct (nif <? 0); [by intros [= <- <-]|]. rewrite bind_gets.
  unfold nth_config, wptr, bind, gets, modify, ret, lift, fail.
  destruct (if 0 <=? nif then nif_to_eidx (CONFIG m) !! Z.to_nat nif else None) as [e|]; [|done]. cbn beta iota delta [ret].
  destruct (e <? 0); [by intros [= <- <-]|].
  destruct (get_wptr _ _ _) as [[] w]; simpl; [|by intros [= <- <-]].
  destruct (if 0 <=? e then eths (CONFIG m) !! Z.to_nat e else None) as [x|]; [|done]. cbn beta iota delta [ret].
  intros [= <- <-]. rec_simpl. by eexists.
Qed.

(** Only ARP frames were added. *)
Definition arp_only m m' : Prop := ∃ arp, out m' = arp ++ out m ∧ Forall (λ f, fr_proto f = ETH_P_ARP) arp.

Lemma arp_only_refl m m' : out m' = out m → arp_only m m'.
Proof using. intros E. exists []. by split; [|apply Forall_nil]. Qed.

Lemma fill_run bs m f fs : out m = f :: fs →
  fill bs m = inr (tt, m <| out := f <| fr_data := fr_data f ++ bs |> :: fs |>).
Proof using. intros E. unfold fill, modify. by rewrite E. Qed.

Lemma ARPOutput_out nif op ip dst target m r m' : ARPOutput nif op ip dst target m = inr (r, m') → arp_only m m'.
Proof using.
  unfold ARPOutput. unfold bind at 1. destruct (EthernetOutput _ _ _ _ m) as [|[ok m2]] eqn:E; [done|].
  apply EthernetOutput_out in E. destruct ok; cbv beta iota delta [negb]; [|intros [= _ <-]; by apply arp_only_refl].
  destruct E as (f&Ef&_&Ep). rewrite bind_gets. unfold nth_config.
  destruct (if 0 <=? nif then nif_to_eidx (CONFIG m2) !! Z.to_nat nif else None) as [e|]; [|done].
  rewrite (bind_inr (lift ConfigFault (Some e)) _ m2 e m2 eq_refl).
  destruct (if 0 <=? e then eths (CONFIG m2) !! Z.to_nat e else None) as [x|]; [|done].
  rewrite (bind_inr (lift ConfigFault (Some x)) _ m2 x m2 eq_refl), (bind_inr _ _ _ _ _ (fill_run _ m2 f (out m) Ef)).
  intros [= _ <-]. eexists [_]. split; [reflexivity|]. apply Forall_cons. split; [done|by apply Forall_nil].
Qed.

Lemma RequestARP_out ip nif ts m m' : RequestARP ip nif ts m = inr (tt, m') → arp_only m m'.
Proof using.
  unfold RequestARP. rewrite bind_gets. destruct (existsb _ _); [intros [= <-]; by apply arp_only_refl|].
  rewrite bind_modify. set (m1 := m <| arp_list := _ |>). change (arp_only m m') with (arp_only m1 m'). clearbody m1.
  unfold bind. destruct (ARPOutput _ _ _ _ _ m1) as [|[r m2]] eqn:E; [done|]. intros [= <-]. by eapply ARPOutput_out.
Qed.

(** Filling the frame at hand. *)
Lemma ends_fill {B} h p m0 bs (k : unit → M B) Q m s f fs :
  at_stream h p m0 m s → out m = f :: fs →
  (∀ m', at_stream h p m0 m' s → out m' = f <| fr_data := fr_data f ++ bs |> :: fs → ends (k tt) Q m') →
  ends (bind (fill bs) k) Q m.
Proof using.
  intros Ha Ef Hk. apply ends_bind. eapply ends_quiet; [exact Ha|apply quiet_fill|]. intros [] m' E Ha'.
  apply Hk; [done|]. rewrite (fill_run bs m f fs Ef) in E. injection E as <-. done.
Qed.
End Output.

(** ** Faults an operation cannot raise *)
Section Avoids.
Context {P IO : Type} `{ChunkPool P, World IO}.
Local Abbreviation mtcp := (mtcp_manager P IO).
Local Abbreviation M := (M P IO).
Context (e : fault).

Definition avoids {A} (c : M A) : Prop := ∀ m, c m ≠ inl e.

Lemma avoids_bind {A B} (c : M A) (k : A → M B) : avoids c → (∀ a, avoids (k a)) → avoids (bind c k).
Proof using.
  intros Hc Hk m. unfold bind. specialize (Hc m). destruct (c m) as [f|[a m']]; [congruence|]. apply Hk.
Qed.
Lemma avoids_ret {A} (a : A) : avoids (ret a).
Proof using. done. Qed.
Lemma avoids_gets {A} (g : mtcp → A) : avoids (gets g).
Proof using. done. Qed.
Lemma avoids_modify g : avoids (modify g).
Proof using. done. Qed.
Lemma avoids_fail {A} e' : e' ≠ e → avoids (fail e' : M A).
Proof using. intros Hne m [= E]. done. Qed.
Lemma avoids_lift {A} e' (o : option A) : e' ≠ e → avoids (lift e' o).
Proof using. intros Hne. destruct o; [apply avoids_ret|by apply avoids_fail]. Qed.
Lemma avoids_when (b : bool) (c : M unit) : avoids c → avoids (when b c).
Proof using. intros. by destruct b; [|apply avoids_ret]. Qed.
Lemma avoids_getS q : StreamFault ≠ e → avoids (getS q).
Proof using. intros. apply avoids_bind; [apply avoids_gets|]. intros. by apply avoids_lift. Qed.
Lemma avoids_modS q f : StreamFault ≠ e → avoids (modS q f).
Proof using. intros. apply avoids_bind; [by apply avoids_getS|]. intros. apply avoids_modify. Qed.
Lemma avoids_getD d : SenderFault ≠ e → avoids (getD d).
Proof using.
  intros. apply avoids_bind; [by apply avoids_lift|]. intros k. apply avoids_bind; [apply avoids_gets|].
  intros. by apply avoids_lift.
Qed.
Lemma avoids_modD d f : SenderFault ≠ e → avoids (modD d f).
Proof using.
  intros. apply avoids_bind; [by apply avoids_lift|]. intros k. apply avoids_bind; [by apply avoids_getD|].
  intros x. apply avoids_modify.
Qed.
Lemma avoids_tq_remove l q : LinkFault ≠ e → avoids (tq_remove l q).
Proof using. intros. unfold tq_remove. case_decide; [apply avoids_ret|by apply avoids_fail]. Qed.
End Avoids.

#[export] Hint Resolve avoids_ret avoids_gets avoids_modify : tcp.
Ltac avoiding_step :=
  match goal with
  | |- avoids _ (bind _ _) => apply avoids_bind; [|intros ?]
  | |- avoids _ (when _ _) => apply avoids_when
  | |- avoids _ (match ?x with _ => _ end) => destruct x
  | |- avoids _ (lift _ _) => by apply avoids_lift
  | |- avoids _ (fail _) => by apply avoids_fail
  | |- avoids _ (getS _) => by apply avoids_getS
  | |- avoids _ (modS _ _) => by apply avoids_modS
  | |- avoids _ (modSnd _ _) => by apply avoids_modS
  | |- avoids _ (modRcv _ _) => by apply avoids_modS
  | |- avoids _ (getD _) => by apply avoids_getD
  | |- avoids _ (modD _ _) => by apply avoids_modD
  | |- avoids _ (tq_remove _ _) => by apply avoids_tq_remove
  | |- avoids _ _ => solve [eauto with tcp]
  | |- avoids _ ?c => unfold_head c
  end.
Ltac avoiding := repeat (avoiding_step; cbv beta zeta).

(** A post-condition with what the operation fixes. *)
Lemma ends_fixes {P IO A T} (f : tcp_stream → T) p (c : M P IO A) Q (m : mtcp_manager P IO) s :
  streams m !! p = Some s → fixes f p c → ends c Q m →
  ends c (λ a m', Q a m' ∧ ∀ s', streams m' !! p = Some s' → f s' = f s) m.
Proof.
  intros Hs Hf. unfold ends. destruct (c m) as [|[a m']] eqn:E; [done|]. intros HQ. split; [done|].
  intros s' Hs'. destruct (Hf m a m' E s' Hs') as (s1&Hs1&Ef). rewrite Hs in Hs1. by injection Hs1 as <-.
Qed.
