(* ===== verification/TcpOut.v ===== *)
(** * TCP output

    [tcp_out.c]: building segments, flushing the send buffer, control packets
    and the three loops that serve the lists of a sender.

    A loop over a list ends by its threshold or at the element that was last
    when it started; the fuel is the threshold, and running out of it
    ([FuelFault]) is proved impossible.  The loop that flushes the send buffer
    ends when every pass sends data; its fuel is a parameter, and [LoopFault]
    reports that it was not enough. *)
From S2P Require Import Prelude SeqNum MemPool RingBuffer SendBuffer FlowHash Checksum EventQueue TcpTypes NetOut TcpLists TcpInv TcpOptions TcpStream.
From S2P Require Import TcpFrame.
Export Opt (has, CalculateOptionLength, GenerateTCPOptions).

(** The header fields of a segment; [flags] are the control bits as the header
    has them, [urg_ptr] is 0. *)
Definition tcp_header (sport dport seq ack_seq doff flags window check : Z) : list Z :=
  le16 sport ++ le16 dport ++ be32 seq ++ be32 ack_seq ++ [doff * 16; flags] ++ be16 window ++ le16 check ++ [0; 0].

(** The control bits [mask] of [flags]. *)
Definition hdr_bits (flags mask : Z) : Z := Z.land flags mask.

(** [TS_TO_MSEC] on a 32-bit difference of timestamps. *)
Definition TS_TO_MSEC (t : Z) : Z := u32 (t * 1000) / 1000.

Section Out.
Context {P IO : Type} `{ChunkPool P, World IO}.
Local Abbreviation mtcp := (mtcp_manager P IO).
Local Abbreviation M := (M P IO).

(** The segment with its checksum, unless the interface computes it. *)
Definition checksummed (rc : Z) (hdr : Z → list Z) (rest : list Z) (saddr daddr : Z) : list Z :=
  let check := if rc =? -1 then Checksum.TCPCalcChecksum (hdr 0 ++ rest) saddr daddr else 0 in
  hdr check ++ rest.

Definition SendTCPPacketStandalone (saddr sport daddr dport seq ack_seq window flags : Z)
    (payload : option (list Z)) (payloadlen cur_ts echo_ts : Z) : M Z :=
  let optlen := CalculateOptionLength flags in
  if payloadlen + optlen >? TCP_DEFAULT_MSS then ret (-1)
  else
    tcph <- IPOutputStandalone IPPROTO_TCP 0 saddr daddr (u16 (TCP_HEADER_LEN + optlen + payloadlen)) ;;
    if negb tcph then ret (-1)
    else
      let bits := hdr_bits flags 0x1f in
      let ack := if has flags TCP_FLAG_ACK then ack_seq else 0 in
      let opts := [Opt.TCP_OPT_NOP; Opt.TCP_OPT_NOP; Opt.TCP_OPT_TIMESTAMP; Opt.TCP_OPT_TIMESTAMP_LEN]
                    ++ be32 cur_ts ++ be32 echo_ts ++ replicate (Z.to_nat (optlen - 12)) 0 in
      bs <- (if payloadlen >? 0 then lift BufferFault payload else ret []) ;;
      C <- gets CONFIG ;;
      let hdr := λ check, tcp_header sport dport seq ack (Z.shiftr (TCP_HEADER_LEN + optlen) 2) bits
                            (MIN window TCP_MAX_WINDOW) check in
      let rc := ioctl (GetOutputInterface C daddr).1 PKT_TX_TCPIP_CSUM in
      fill (checksummed rc hdr (opts ++ bs) saddr daddr) ;;;
      ret (if has flags TCP_FLAG_SYN || has flags TCP_FLAG_FIN then u16 (payloadlen + 1) else payloadlen).

(** [payloadlen] bytes at [payload] are read when [payloadlen] is not 0. *)
Definition SendTCPPacket (p cur_ts flags : Z) (payload : option (list Z)) (payloadlen : Z) : M Z :=
  let optlen := CalculateOptionLength flags in
  s <- getS p ;;
  if payloadlen + optlen >? mss (sndvar s) then ret (-1)
  else
    tcph <- IPOutput p (u16 (TCP_HEADER_LEN + optlen + payloadlen)) ;;
    if negb tcph then ret (-2)
    else
      s <- getS p ;;
      let fin := negb (has flags TCP_FLAG_WACK) && has flags TCP_FLAG_FIN in
      let syn := has flags TCP_FLAG_SYN in
      let seq := if has flags TCP_FLAG_WACK then snd_nxt s ⊟ 1
                 else if has flags TCP_FLAG_FIN then fss (sndvar s)
                 else snd_nxt s in
      when fin (modSnd p (λ v, v <| is_fin_sent := true |>)) ;;;
      let ack_seq := if has flags TCP_FLAG_ACK then rcv_nxt s else 0 in
      when (has flags TCP_FLAG_ACK)
        (modS p (λ s, s <| sndvar := (sndvar s) <| ts_lastack_sent := cur_ts |> |>
                        <| last_active_ts := cur_ts |>) ;;;
         UpdateTimeoutList p) ;;;
      let wscale := if syn then 0 else wscale_mine (sndvar s) in
      let window32 := Z.shiftr (rcv_wnd (rcvvar s)) wscale in
      when (window32 =? 0) (modS p (λ s, s <| need_wnd_adv := true |>)) ;;;
      let opts := GenerateTCPOptions s cur_ts flags in
      let bits := Z.lor (hdr_bits flags (Z.lor 0x10 0x0e)) (if fin then TCP_FLAG_FIN else 0) in
      bs <- (if payloadlen >? 0 then lift BufferFault payload else ret []) ;;
      when (payloadlen >? 0) (modify (λ m, m <| payload_out := u64 (payload_out m + 1) |>)) ;;;
      let hdr := λ check, tcp_header (sport s) (dport s) seq ack_seq (Z.shiftr (TCP_HEADER_LEN + optlen) 2) bits
                            (u16 (MIN window32 TCP_MAX_WINDOW)) check in
      let rc := ioctl (nif_out (sndvar s)) PKT_TX_TCPIP_CSUM in
      fill (checksummed rc hdr (opts ++ bs) (saddr s) (daddr s)) ;;;
      modS p (λ s, s <| snd_nxt := snd_nxt s ⊞ payloadlen |>) ;;;
      when (syn || fin) (modS p (λ s, s <| snd_nxt := snd_nxt s ⊞ 1 |>)) ;;;
      let payloadlen := if syn || fin then u16 (payloadlen + 1) else payloadlen in
      when (payloadlen >? 0)
        (modSnd p (λ v, v <| ts_rto := cur_ts ⊞ rto v |>) ;;;
         AddtoRTOList p) ;;;
      ret payloadlen.

(** The branch of the source that is compiled.  [wack_sent] stays 0: the loop
    is left where it would be set. *)
Fixpoint flush_loop (fuel : nat) (p cur_ts packets : Z) : M Z :=
  match fuel with
  | O => fail LoopFault
  | S fuel =>
    s <- getS p ;;
    let v := sndvar s in
    b <- lift BufferFault (sndbuf v) ;;
    let seq := snd_nxt s in
    let off := seq ⊟ SB.head_seq b in
    let len := SB.len b ⊟ off in
    if TCP_SEQ_LT seq (SB.head_seq b) then ret packets
    else if TCP_SEQ_LT seq (snd_una v) then ret packets
    else if SB.len b <? off then ret packets
    else if len =? 0 then ret packets
    else
      let remaining_window := s32 (MIN (cwnd v) (peer_wnd v) ⊟ (seq ⊟ snd_una v)) in
      if (remaining_window <=? 0) || ((remaining_window <? mss v) && (seq ⊟ snd_una v >? 0)) then
        when (peer_wnd v <=? cwnd v)
          (when (TS_TO_MSEC (cur_ts ⊟ ts_lastack_sent v) >? 500) (EnqueueACK p cur_ts ACK_OPT_WACK)) ;;;
        ret (-3)
      else
        let len := MIN len remaining_window in
        let pkt_len := MIN len (u32 (mss v - CalculateOptionLength TCP_FLAG_ACK)) in
        let data := mem_read (SB.mem b) (SB.hptr b - SB.data b + off) (u16 pkt_len) in
        sndlen <- SendTCPPacket p cur_ts TCP_FLAG_ACK data (u16 pkt_len) ;;
        if sndlen <? 0 then ret (-3)
        else flush_loop fuel p cur_ts (packets + 1)
  end.

Definition FlushTCPSendingBuffer (fuel : nat) (p cur_ts : Z) : M Z :=
  s <- getS p ;;
  match sndbuf (sndvar s) with
  | None => ret 0
  | Some b => if SB.len b =? 0 then ret 0 else flush_loop fuel p cur_ts 0
  end.

Definition SendControlPacket (p cur_ts : Z) : M Z :=
  s <- getS p ;;
  let v := sndvar s in
  let fin := SendTCPPacket p cur_ts (Z.lor TCP_FLAG_FIN TCP_FLAG_ACK) None 0 in
  let ack := SendTCPPacket p cur_ts TCP_FLAG_ACK None 0 in
  match state s with
  | TCP_ST_SYN_SENT => SendTCPPacket p cur_ts TCP_FLAG_SYN None 0
  | TCP_ST_SYN_RCVD =>
    modS p (λ s, s <| snd_nxt := iss v |>) ;;;
    SendTCPPacket p cur_ts (Z.lor TCP_FLAG_SYN TCP_FLAG_ACK) None 0
  | TCP_ST_ESTABLISHED | TCP_ST_CLOSE_WAIT | TCP_ST_FIN_WAIT_2 | TCP_ST_TIME_WAIT => ack
  | TCP_ST_LAST_ACK | TCP_ST_FIN_WAIT_1 => if on_send_list v || on_ack_list v then ret (-1) else fin
  | TCP_ST_CLOSING => if is_fin_sent v then (if snd_nxt s =? fss v then fin else ack) else fin
  | TCP_ST_CLOSED =>
    if on_send_list v || on_ack_list v then ret (-1)
    else
      r <- SendTCPPacket p cur_ts TCP_FLAG_RST None 0 ;;
      if 0 <=? r then DestroyTCPStream p ;;; ret r else ret r
  | TCP_ST_LISTEN => ret 0
  end.

(** ** The lists of a sender

    The three functions run the same loop over a list of the sender [k]: count
    the element, read its successor, serve it, and stop at the threshold, at the
    element that was last at the start, or when serving says so. *)
Fixpoint list_loop (lst : mtcp_sender → list Z) (body : Z → M bool) (fuel : nat) (k thresh : Z)
    (cur last : option Z) (cnt : Z) : M Z :=
  match cur with
  | None => ret cnt
  | Some p =>
    let cnt := cnt + 1 in
    if cnt >? thresh then ret cnt
    else
      match fuel with
      | O => fail FuelFault
      | S fuel =>
        d <- getD (Some k) ;;
        let next := TAILQ_NEXT (lst d) p in
        stop <- body p ;;
        if (stop : bool) then ret cnt
        else if decide (Some p = last) then ret cnt
        else list_loop lst body fuel k thresh next last cnt
      end
  end.
Definition serve_list (lst : mtcp_sender → list Z) (body : Z → M bool) (k thresh : Z) (d : mtcp_sender) : M Z :=
  list_loop lst body (Z.to_nat thresh) k thresh (TAILQ_FIRST (lst d)) (TAILQ_LAST (lst d)) 0.

(** The body of the loop of [WriteTCPControlList]. *)
Definition serve_control (k cur_ts p : Z) : M bool :=
  d <- getD (Some k) ;;
  l <- tq_remove (control_list d) p ;;
  modD (Some k) (λ d, d <| control_list := l |> <| control_list_cnt := s32 (control_list_cnt d - 1) |>) ;;;
  s <- getS p ;;
  if on_control_list (sndvar s) then
    modSnd p (λ v, v <| on_control_list := false |>) ;;;
    r <- SendControlPacket p cur_ts ;;
    if r =? -2 then
      modD (Some k) (λ d, d <| control_list := TAILQ_INSERT_HEAD (control_list d) p |>) ;;;
      modSnd p (λ v, v <| on_control_list := true |>) ;;;
      modD (Some k) (λ d, d <| control_list_cnt := s32 (control_list_cnt d + 1) |>) ;;;
      ret true
    else if r <? 0 then
      modD (Some k) (λ d, d <| control_list := TAILQ_INSERT_TAIL (control_list d) p |>) ;;;
      modSnd p (λ v, v <| on_control_list := true |>) ;;;
      modD (Some k) (λ d, d <| control_list_cnt := s32 (control_list_cnt d + 1) |>) ;;;
      ret false
    else ret false
  else ret false.

Definition WriteTCPControlList (k cur_ts thresh : Z) : M Z :=
  d <- getD (Some k) ;;
  serve_list control_list (serve_control k cur_ts) k (MIN thresh (control_list_cnt d)) d.

(** After a stream leaves the send or the ack list: the control packet that
    waited for it. *)
Definition wake_control (p cur_ts : Z) (waits_for : tcp_send_vars → bool) : M unit :=
  s <- getS p ;;
  when (control_list_waiting s && negb (waits_for (sndvar s)))
    (modS p (λ s, s <| control_list_waiting := false |>) ;;;
     AddtoControlList p cur_ts).

(** Data is sent in these states only. *)
Definition flush_stream (fuel : nat) (p cur_ts : Z) : M Z :=
  s <- getS p ;;
  match state s with
  | TCP_ST_ESTABLISHED =>
    if on_control_list (sndvar s) then ret (-1) else FlushTCPSendingBuffer fuel p cur_ts
  | TCP_ST_CLOSE_WAIT | TCP_ST_FIN_WAIT_1 | TCP_ST_LAST_ACK => FlushTCPSendingBuffer fuel p cur_ts
  | _ => ret 0
  end.

(** The body of the loop of [WriteTCPDataList]. *)
Definition serve_data (flush_fuel : nat) (k cur_ts p : Z) : M bool :=
  d <- getD (Some k) ;;
  l <- tq_remove (send_list d) p ;;
  modD (Some k) (λ d, d <| send_list := l |>) ;;;
  s <- getS p ;;
  if on_send_list (sndvar s) then
    r <- flush_stream flush_fuel p cur_ts ;;
    if r <? 0 then
      modD (Some k) (λ d, d <| send_list := TAILQ_INSERT_TAIL (send_list d) p |>) ;;;
      ret true
    else
      modSnd p (λ v, v <| on_send_list := false |>) ;;;
      modD (Some k) (λ d, d <| send_list_cnt := s32 (send_list_cnt d - 1) |>) ;;;
      modSnd p (λ v, v <| ack_cnt := if ack_cnt v >? 0 then (if ack_cnt v >? r then ack_cnt v - r else 0)
                                     else ack_cnt v |>) ;;;
      wake_control p cur_ts on_ack_list ;;;
      ret false
  else ret false.

Definition WriteTCPDataList (flush_fuel : nat) (k cur_ts thresh : Z) : M Z :=
  d <- getD (Some k) ;;
  serve_list send_list (serve_data flush_fuel k cur_ts) k thresh d.

(** Whether the queued acknowledgments of a stream are to be sent. *)
Definition to_ack (s : tcp_stream) : bool :=
  match state s with
  | TCP_ST_ESTABLISHED | TCP_ST_CLOSE_WAIT | TCP_ST_FIN_WAIT_1 | TCP_ST_FIN_WAIT_2 | TCP_ST_TIME_WAIT =>
    match rcvbuf (rcvvar s) with
    | Some b => TCP_SEQ_LEQ (rcv_nxt s) (RB.head_seq b ⊞ RB.merged_len b)
    | None => false
    end
  | _ => false
  end.

(** The inner loop: one acknowledgment per pass. *)
Fixpoint send_acks (fuel : nat) (p cur_ts : Z) : M unit :=
  s <- getS p ;;
  if ack_cnt (sndvar s) >? 0 then
    match fuel with
    | O => fail FuelFault
    | S fuel =>
      r <- SendTCPPacket p cur_ts TCP_FLAG_ACK None 0 ;;
      if r <? 0 then ret tt
      else
        modSnd p (λ v, v <| ack_cnt := ack_cnt v - 1 |>) ;;;
        send_acks fuel p cur_ts
    end
  else ret tt.

(** A request for a window advertisement that could not be sent stays. *)
Definition send_wack (p cur_ts : Z) : M unit :=
  s <- getS p ;;
  when (is_wack (sndvar s))
    (modSnd p (λ v, v <| is_wack := false |>) ;;;
     r <- SendTCPPacket p cur_ts (Z.lor TCP_FLAG_ACK TCP_FLAG_WACK) None 0 ;;
     when (r <? 0) (modSnd p (λ v, v <| is_wack := true |>))).

Definition leave_ack_list (k p : Z) : M unit :=
  d <- getD (Some k) ;;
  l <- tq_remove (ack_list d) p ;;
  modD (Some k) (λ d, d <| ack_list := l |> <| ack_list_cnt := s32 (ack_list_cnt d - 1) |>).

(** The body of the loop of [WriteTCPACKList]. *)
Definition serve_acks (k cur_ts p : Z) : M bool :=
  s <- getS p ;;
  (if on_ack_list (sndvar s) then
     (if to_ack s then
        send_acks (Z.to_nat (ack_cnt (sndvar s))) p cur_ts ;;;
        send_wack p cur_ts ;;;
        s <- getS p ;;
        when (negb (negb (ack_cnt (sndvar s) =? 0) || is_wack (sndvar s)))
          (modSnd p (λ v, v <| on_ack_list := false |>) ;;; leave_ack_list k p)
      else
        modSnd p (λ v, v <| on_ack_list := false |> <| ack_cnt := 0 |> <| is_wack := false |>) ;;;
        leave_ack_list k p) ;;;
     wake_control p cur_ts on_send_list
   else leave_ack_list k p) ;;;
  ret false.

Definition WriteTCPACKList (k cur_ts thresh : Z) : M Z :=
  d <- getD (Some k) ;;
  serve_list ack_list (serve_acks k cur_ts) k thresh d.

(** ** Segments keep the lists *)
Lemma quiet_SendTCPPacketStandalone a b c d e f g h i j k l :
  quiet (SendTCPPacketStandalone a b c d e f g h i j k l).
Proof. unfold SendTCPPacketStandalone. quiet. Qed.

Lemma keeps_SendTCPPacket h p ts flags bs n : keeps false h p (SendTCPPacket p ts flags bs n).
Proof. unfold SendTCPPacket. keep. Qed.
Hint Resolve quiet_SendTCPPacketStandalone keeps_SendTCPPacket : tcp.

Lemma keeps_flush_loop h p ts n : ∀ packets, keeps false h p (flush_loop n p ts packets).
Proof. induction n as [|n IH]; intros packets; simpl; keep. Qed.
Hint Resolve keeps_flush_loop : tcp.
Lemma keeps_flush_stream h n p ts : keeps false h p (flush_stream n p ts).
Proof. unfold flush_stream, FlushTCPSendingBuffer. keep. Qed.

(** The flags of the senders and the addresses are not touched by a segment. *)
Definition home (s : tcp_stream) := (flow_of s, (sflag Ctl s, sflag Snd s, sflag Ack s)).

Lemma fixes_SendTCPPacket p ts flags bs n : fixes home p (SendTCPPacket p ts flags bs n).
Proof. fixing. Qed.
Lemma fixes_SendControlPacket p ts : fixes home p (SendControlPacket p ts).
Proof. pose proof fixes_SendTCPPacket. fixing. Qed.
Lemma fixes_flush_loop p ts n : ∀ packets, fixes (λ s, (flow_of s, sflag Snd s)) p (flush_loop n p ts packets).
Proof. induction n as [|n IH]; intros packets; simpl; fixing. Qed.
Lemma fixes_flush_stream n p ts : fixes (λ s, (flow_of s, sflag Snd s)) p (flush_stream n p ts).
Proof. pose proof fixes_flush_loop. fixing. Qed.
Lemma fixes_SendTCPPacket_acks p ts flags bs n :
  fixes (λ s, (home s, ack_cnt (sndvar s))) p (SendTCPPacket p ts flags bs n).
Proof. fixing. Qed.

(** ** The lists of a sender *)
Implicit Types (m : mtcp) (s : tcp_stream) (d : mtcp_sender).

Lemma home_sender h m p s k :
  inv h m → streams m !! p = Some s → sender_key (CONFIG m) (nif_out (sndvar s)) = Some k →
  ∃ d, senders m !! k = Some d.
Proof.
  intros Hi Hs Hk. destruct (GetSender_run h m p s Hi Hs) as (k'&d&_&Hk'&Hd).
  rewrite Hk in Hk'. injection Hk' as <-. by exists d.
Qed.

(** A stream on a list of the sender [k] is there because of its flag. *)
Lemma listed h m x k d p :
  inv h m → senders m !! k = Some d → p ∈ slist x d →
  ∃ s, streams m !! p = Some s ∧ sflag x s = true ∧ sender_key (CONFIG m) (nif_out (sndvar s)) = Some k
    ∧ holed h x p = false.
Proof.
  intros Hi Hd Hp. apply (inv_sender _ _ Hi x k d Hd) in Hp as (s&Hs&Hq). exists s. split; [done|].
  unfold on_sender in Hq. apply andb_true_iff in Hq as [Hq Hh]. apply andb_true_iff in Hq as [Hf Ha].
  apply bool_decide_eq_true in Ha. apply negb_true_iff in Hh. done.
Qed.

(** The same stream later, its flow unchanged, is still at home in [k]. *)
Lemma same_home h h' m m' p s s' k :
  inv h m → inv h' m' → CONFIG m' = CONFIG m → streams m !! p = Some s → streams m' !! p = Some s' →
  flow_of s' = flow_of s → sender_key (CONFIG m) (nif_out (sndvar s)) = Some k →
  sender_key (CONFIG m') (nif_out (sndvar s')) = Some k.
Proof.
  intros Hi Hi' Ec Hs Hs' Ef Hk. rewrite (inv_nif _ _ Hi p s Hs) in Hk.
  by rewrite (inv_nif _ _ Hi' p s' Hs'), Ec, (daddr_flow _ _ Ef).
Qed.

(** Changing one sender, with the streams as they are. *)
Lemma inv_sender_change h h' m k d d' :
  inv h m → senders m !! k = Some d →
  (∀ x, tracks (streams m) (slist x d') (on_sender (CONFIG m) h' x k)
      ∧ scnt x d' = s32 (count (streams m) (λ s, sflag x s && at_home (CONFIG m) k s))) →
  (∀ x k' d'', k' ≠ k → senders m !! k' = Some d'' →
     tracks (streams m) (slist x d'') (on_sender (CONFIG m) h' x k')) →
  inv h' (m <| senders := <[k := d']> (senders m) |>).
Proof.
  intros Hi Hd Hk Hne.
  destruct Hi as [I_cfg I_nif I_sender I_scnt I_rto I_rto_idx I_rto_cnt I_tw I_tw_cnt I_to I_to_cnt I_to_off I_excl
    I_flow I_flow_cnt I_pool I_now].
  split; try done; rec_simpl.
  - split; [apply I_cfg|]. intros k' Hk'. apply I_cfg in Hk' as Hs.
    destruct (decide (k' = k)) as [->|]; [rewrite lookup_insert_eq; by eexists|by rewrite lookup_insert_ne].
  - intros x k' d''. destruct (decide (k' = k)) as [->|].
    + rewrite lookup_insert_eq. intros [= <-]. apply Hk.
    + rewrite lookup_insert_ne by done. by apply Hne.
  - intros x k' d''. destruct (decide (k' = k)) as [->|].
    + rewrite lookup_insert_eq. intros [= <-]. apply Hk.
    + rewrite lookup_insert_ne by done. by apply I_scnt.
Qed.

Lemma tracks_perm ss l l' Q : (l ≡ₚ l') → tracks ss l Q → tracks ss l' Q.
Proof. intros E [Hn Hm]. split; [by rewrite <- E|]. intros p. by rewrite <- E. Qed.

Lemma inv_sender_perm h m k d d' :
  inv h m → senders m !! k = Some d →
  (∀ x, (slist x d ≡ₚ slist x d') ∧ scnt x d' = scnt x d) →
  inv h (m <| senders := <[k := d']> (senders m) |>).
Proof.
  intros Hi Hd Hx. apply (inv_sender_change h h m k d d' Hi Hd).
  - intros x. destruct (Hx x) as [Hp Hc]. split; [eapply tracks_perm; [done|]; by apply (inv_sender _ _ Hi)|].
    rewrite Hc. by apply (inv_scnt _ _ Hi).
  - intros x k' d'' _. apply (inv_sender _ _ Hi).
Qed.

(** Taking a stream off the send list opens the hole; putting it back or
    clearing its flag closes it. *)
Lemma hole_open m p k d :
  inv None m → senders m !! k = Some d → p ∈ send_list d →
  inv (Some p) (m <| senders := <[k := d <| send_list := TAILQ_REMOVE (send_list d) p |>]> (senders m) |>).
Proof.
  intros Hi Hd Hp. destruct (listed None m Snd k d p Hi Hd Hp) as (s&Hs&Hf&Hk&_).
  apply (inv_sender_change None (Some p) m k d _ Hi Hd).
  - intros x. pose proof (inv_sender _ _ Hi x k d Hd) as [Hn Hm]. pose proof (inv_scnt _ _ Hi x k d Hd).
    split; [|by destruct x]. destruct x; [done| |done]. split; [by apply NoDup_TAILQ_REMOVE|].
    intros q. simpl. rewrite elem_of_TAILQ_REMOVE. rewrite (Hm q). unfold on_sender. simpl.
    destruct (decide (q = p)) as [->|Hne].
    + rewrite bool_decide_true by done. split; [tauto|]. intros (t&_&Ht). by rewrite andb_false_r in Ht.
    + rewrite (bool_decide_false (Some p = Some q)) by congruence. tauto.
  - intros x k' d'' Hne Hd''. pose proof (inv_sender _ _ Hi x k' d'' Hd'') as [Hn Hm]. split; [done|].
    intros q. rewrite (Hm q). destruct x; [done| |done]. unfold on_sender. simpl.
    destruct (decide (q = p)) as [->|Hq]; [|by rewrite (bool_decide_false (Some p = Some q)) by congruence].
    unfold at_home. split; intros (t&Ht&Hx).
    + rewrite Hs in Ht. injection Ht as <-. rewrite Hk, bool_decide_false in Hx by congruence.
      by rewrite !andb_false_r in Hx.
    + by rewrite (bool_decide_true (Some p = Some p)), andb_false_r in Hx.
Qed.

(** Without the hole, [p] belongs to the list of its sender. *)
Lemma hole_others m p k0 s :
  inv (Some p) m → streams m !! p = Some s → sender_key (CONFIG m) (nif_out (sndvar s)) = Some k0 →
  ∀ x k d, senders m !! k = Some d → x ≠ Snd ∨ k ≠ k0 ∨ sflag Snd s = false →
  tracks (streams m) (slist x d) (on_sender (CONFIG m) None x k).
Proof.
  intros Hi Hs Hk x k d Hd Hx. pose proof (inv_sender _ _ Hi x k d Hd) as [Hn Hm]. split; [done|].
  intros q. rewrite (Hm q). destruct x; [done| |done]. unfold on_sender, at_home. simpl.
  destruct (decide (q = p)) as [->|Hq]; [|by rewrite (bool_decide_false (Some p = Some q)) by congruence].
  rewrite (bool_decide_true (Some p = Some p)) by done. split; intros (t&Ht&Hb).
  - by rewrite andb_false_r in Hb.
  - rewrite Hs in Ht. injection Ht as <-. apply andb_true_iff in Hb as [Hb _].
    apply andb_true_iff in Hb as [Hb1 Hb2]. apply bool_decide_eq_true in Hb2.
    destruct Hx as [?|[?|Hx]]; [congruence..|]. simpl in Hx. congruence.
Qed.

Lemma hole_put m p k d s :
  inv (Some p) m → streams m !! p = Some s → sflag Snd s = true →
  sender_key (CONFIG m) (nif_out (sndvar s)) = Some k → senders m !! k = Some d →
  inv None (m <| senders := <[k := d <| send_list := TAILQ_INSERT_TAIL (send_list d) p |>]> (senders m) |>).
Proof.
  intros Hi Hs Hf Hk Hd. apply (inv_sender_change (Some p) None m k d _ Hi Hd).
  - intros x. pose proof (inv_scnt _ _ Hi x k d Hd). split; [|by destruct x].
    destruct (decide (x = Snd)) as [->|Hx].
    2:{ pose proof (hole_others m p k s Hi Hs Hk x k d Hd (or_introl Hx)). by destruct x. }
    pose proof (inv_sender _ _ Hi Snd k d Hd) as [Hn Hm].
    assert (p ∉ send_list d) as Hp.
    { intros (t&Ht&Hb)%Hm. unfold on_sender in Hb. simpl in Hb. by rewrite bool_decide_true, andb_false_r in Hb. }
    split; [by apply NoDup_TAILQ_INSERT_TAIL|]. intros q. simpl. rewrite elem_of_TAILQ_INSERT_TAIL, (Hm q).
    unfold on_sender, at_home. simpl. destruct (decide (q = p)) as [->|Hq].
    + split; [intros _|by right]. exists s. simpl in Hf. by rewrite Hf, Hk, bool_decide_true.
    + rewrite (bool_decide_false (Some p = Some q)) by congruence. tauto.
  - intros x k' d'' Hne Hd''. eapply hole_others; [done..|by right; left].
Qed.

Lemma hole_clear m p k d s :
  inv (Some p) m → streams m !! p = Some s → sflag Snd s = true →
  sender_key (CONFIG m) (nif_out (sndvar s)) = Some k → senders m !! k = Some d →
  inv None (m <| streams := <[p := s <| sndvar := (sndvar s) <| on_send_list := false |> |>]> (streams m) |>
              <| senders := <[k := d <| send_list_cnt := s32 (send_list_cnt d - 1) |>]> (senders m) |>).
Proof.
  intros Hi Hs Hf Hk Hd. set (s' := s <| sndvar := _ |>).
  destruct (rto_same (Some p) m p s s' Hi Hs eq_refl) as (R1&R2&R3).
  destruct (tw_same (Some p) m p s s' Hi Hs eq_refl) as [W1 W2].
  destruct (to_same (Some p) m p s s' Hi Hs eq_refl) as [T1 T2].
  apply (inv_replace (Some p) m p s s' Hi Hs eq_refl None); try done; rec_simpl.
  - intros k' Hk'. destruct (decide (k' = k)) as [->|]; [rewrite lookup_insert_eq; by eexists|by rewrite lookup_insert_ne].
  - intros x k' d' Hd'.
    assert (∃ d0, senders m !! k' = Some d0 ∧ slist x d' = slist x d0) as (d0&Hd0&El).
    { destruct (decide (k' = k)) as [->|]; [rewrite lookup_insert_eq in Hd'|rewrite lookup_insert_ne in Hd' by done].
      - injection Hd' as <-. exists d. by destruct x.
      - by exists d'. }
    rewrite El. pose proof (inv_sender _ _ Hi x k' d0 Hd0) as [Hn Hm]. split.
    + split; [done|]. intros q. rewrite (Hm q). unfold on_sender. destruct (decide (q = p)) as [->|Hq].
      * rewrite lookup_insert_eq, Hs. destruct x; simpl.
        -- split; intros (t&[= <-]&Ht); (eexists; split; [done|exact Ht]).
        -- rewrite bool_decide_true by done. split; intros (t&[= <-]&Ht); [by rewrite andb_false_r in Ht|done].
        -- split; intros (t&[= <-]&Ht); (eexists; split; [done|exact Ht]).
      * rewrite lookup_insert_ne by done. destruct x; simpl; [done| |done].
        by rewrite (bool_decide_false (Some p = Some q)) by congruence.
    + rewrite (count_insert _ _ p s s' Hs). rewrite (at_home_eq (CONFIG m) k' s s' eq_refl).
      pose proof (inv_scnt _ _ Hi x k' d0 Hd0) as Hc.
      assert (at_home (CONFIG m) k' s = bool_decide (k' = k)) as ->.
      { unfold at_home. rewrite Hk. apply bool_decide_ext. naive_solver. }
      destruct (decide (k' = k)) as [->|Hne]; [rewrite lookup_insert_eq in Hd'|rewrite lookup_insert_ne in Hd' by done].
      * injection Hd' as <-. rewrite Hd in Hd0. injection Hd0 as <-. rewrite bool_decide_true by done.
        destruct x; simpl; simpl in Hc, Hf; rewrite Hc; rewrite ?Hf; simpl; try (by f_equal; lia); ulia.
      * rewrite bool_decide_false by done. rewrite Hd' in Hd0. injection Hd0 as <-. rewrite Hc.
        rewrite !andb_false_r. f_equal. lia.
  - intros Ho. by eapply (inv_to_off _ _ Hi Ho p s).
  - exact (inv_excl _ _ Hi p s Hs).
Qed.

(** ** Serving a list *)

(** Serving a stream of the list [x] of [k] keeps [inv] and the other streams. *)
Definition served {A} (c : M A) (p : Z) (m : mtcp) : Prop :=
  match c m with inl f => benign f | inr (_, m') => inv None m' ∧ others false p m m' end.
Definition serves (x : kind) (k : Z) (body : Z → M bool) : Prop :=
  ∀ m p d, inv None m → senders m !! k = Some d → p ∈ slist x d → served (body p) p m.

(** Another stream of the list is still on it. *)
Lemma still_listed x k m m' p q d :
  inv None m → inv None m' → others false p m m' → senders m !! k = Some d → q ∈ slist x d → q ≠ p →
  ∃ d', senders m' !! k = Some d' ∧ q ∈ slist x d'.
Proof.
  intros Hi Hi' (Ho&Ec&_) Hd Hq Hne. destruct (listed None m x k d q Hi Hd Hq) as (s&Hs&Hf&Hk&Hh).
  assert (streams m' !! q = Some s) as Hs' by (by rewrite Ho). rewrite <- Ec in Hk.
  destruct (home_sender None m' q s k Hi' Hs' Hk) as (d'&Hd'). exists d'. split; [done|].
  by apply (flagged_on_list None m' q s x k d').
Qed.

(** The loop ends within its fuel, without a fault of the lists. *)
Definition endures {A} (c : M A) : Prop :=
  ∀ m, inv None m → match c m with inl f => benign f | inr (_, m') => inv None m' ∧ CONFIG m' = CONFIG m end.

Lemma list_loop_endures x k body thresh last :
  serves x k body → ∀ fuel cur cnt m, inv None m → thresh - cnt <= Z.of_nat fuel →
  (∀ p, cur = Some p → ∃ d, senders m !! k = Some d ∧ p ∈ slist x d) →
  match list_loop (slist x) body fuel k thresh cur last cnt m with
  | inl f => benign f
  | inr (_, m') => inv None m' ∧ CONFIG m' = CONFIG m
  end.
Proof.
  intros Hb. induction fuel as [|fuel IH]; intros cur cnt m Hi Hf Hc; destruct cur as [p|]; try done; simpl.
  - destruct (Z.gtb_spec (cnt + 1) thresh); [done|lia].
  - destruct (Z.gtb_spec (cnt + 1) thresh); [done|]. destruct (Hc p eq_refl) as (d&Hd&Hp).
    rewrite (bind_inr _ _ _ _ _ (getD_run k m d Hd)). specialize (Hb m p d Hi Hd Hp). unfold served in Hb.
    unfold bind. destruct (body p m) as [f|[stop m']]; [done|]. destruct Hb as [Hi' Ho].
    destruct stop; [by split; [|apply Ho]|]. case_decide; [by split; [|apply Ho]|].
    assert (CONFIG m' = CONFIG m) as <- by apply Ho. apply IH; [done|lia|]. intros q Hq.
    apply TAILQ_NEXT_in in Hq as [Hq Hne]; [|apply (inv_sender _ _ Hi x k d Hd)].
    by eapply (still_listed x k m m' p q d).
Qed.

Lemma serve_list_endures x k body thresh m d :
  serves x k body → inv None m → senders m !! k = Some d →
  match serve_list (slist x) body k thresh d m with
  | inl f => benign f
  | inr (_, m') => inv None m' ∧ CONFIG m' = CONFIG m
  end.
Proof.
  intros Hb Hi Hd. apply list_loop_endures; [done|done|lia|]. intros p Hp. exists d. split; [done|].
  unfold TAILQ_FIRST in Hp. destruct (slist x d); [done|]. injection Hp as ->. left.
Qed.

(** *** Control packets *)
Lemma spec_SendControlPacket h p ts : h ≠ Some p → spec false h p (SendControlPacket p ts) (λ r, r < 0).
Proof.
  intros Hh. unfold SendControlPacket. apply spec_bind; [apply keeps_getS|]. intros s. cbv beta zeta.
  destruct (state s); try (apply keeps_spec; by keep).
  destruct (_ || _); [apply keeps_spec, keeps_ret|]. apply spec_bind; [apply keeps_SendTCPPacket|]. intros r.
  destruct (Z.leb_spec 0 r) as [Hr|Hr]; [|apply keeps_spec, keeps_ret].
  intros m Hi Hl. pose proof (frees_DestroyTCPStream false h p Hh m Hi Hl) as Hd. unfold bind.
  destruct (DestroyTCPStream p m) as [|[? m']]; [done|]. simpl. destruct Hd as (?&_&?). split_and!; try done. lia.
Qed.

Lemma control_reinsert (f : list Z → list Z) p m s k d {B} (c : unit → M B) :
  inv None m → streams m !! p = Some s → sflag Ctl s = false →
  sender_key (CONFIG m) (nif_out (sndvar s)) = Some k → senders m !! k = Some d →
  (f (control_list d) ≡ₚ TAILQ_INSERT_TAIL (control_list d) p) →
  ∃ m', (modD (Some k) (λ d, d <| control_list := f (control_list d) |>) ;;;
         modSnd p (λ v, v <| on_control_list := true |>) ;;;
         (bind (modD (Some k) (λ d, d <| control_list_cnt := s32 (control_list_cnt d + 1) |>)) c)) m = c tt m'
    ∧ inv None m' ∧ others false p m m'.
Proof.
  intros Hi Hs Hf Hk Hd Hl. rewrite (bind_inr _ _ _ _ _ (modD_run k _ m d Hd)).
  erewrite bind_inr by (apply modSnd_run; rec_simpl; exact Hs).
  erewrite bind_inr by (apply modD_run; rec_simpl; apply lookup_insert_eq).
  eexists. split; [reflexivity|]. split.
  - set (d1 := d <| control_list := TAILQ_INSERT_TAIL (control_list d) p |>
                 <| control_list_cnt := s32 (control_list_cnt d + 1) |>).
    set (s' := s <| sndvar := (sndvar s) <| on_control_list := true |> |>).
    pose proof (inv_sender_set None m p s s' Ctl true k d d1 Hi Hs Hk Hd) as Hset.
    assert (inv None (m <| streams := <[p := s']> (streams m) |> <| senders := <[k := d1]> (senders m) |>)) as Hi1.
    { apply Hset; try done; intros [] Hx; done || (split; done). }
    set (m1 := m <| streams := _ |> <| senders := _ |>) in Hi1.
    assert (senders m1 !! k = Some d1) as Hd1 by apply lookup_insert_eq.
    set (d2 := d <| control_list := f (control_list d) |> <| control_list_cnt := s32 (control_list_cnt d + 1) |>).
    eapply inv_core; [|apply (inv_sender_perm None m1 k d1 d2 Hi1 Hd1)].
    + unfold core, m1. rec_simpl. by rewrite !insert_insert_eq.
    + intros []; done.
  - split; [|done]. intros q Hq. rec_simpl. by rewrite lookup_insert_ne.
Qed.

(** Taking a flagged stream off the control list or the ack list of [k]. *)
Lemma flag_cleared x m p s s' k d d' :
  inv None m → streams m !! p = Some s → sflag x s = true →
  sender_key (CONFIG m) (nif_out (sndvar s)) = Some k → senders m !! k = Some d →
  links s' = links (match x with
    | Ctl => s <| sndvar := (sndvar s) <| on_control_list := false |> |>
    | Snd => s <| sndvar := (sndvar s) <| on_send_list := false |> |>
    | Ack => s <| sndvar := (sndvar s) <| on_ack_list := false |> |> end) →
  (∀ y, y ≠ x → slist y d' = slist y d ∧ scnt y d' = scnt y d) →
  slist x d' = TAILQ_REMOVE (slist x d) p → scnt x d' = s32 (scnt x d - 1) →
  inv None (m <| streams := <[p := s']> (streams m) |> <| senders := <[k := d']> (senders m) |>).
Proof.
  intros Hi Hs Hf Hk Hd Hl Hy H1 H2. unfold links in Hl.
  injection Hl as E1 E2 E3 E4 E5 E6 E7 E8 E9 E10 E11.
  assert (flow_of s' = flow_of s) by (unfold flow_of; destruct x; simpl in *; congruence).
  apply (inv_sender_set None m p s s' x false k d d'); try done; destruct x; simpl in *;
    try congruence; try done; intros [] ?; simpl; congruence.
Qed.

Lemma serves_control k ts : serves Ctl k (serve_control k ts).
Proof.
  intros m p d Hi Hd Hp. destruct (listed None m Ctl k d p Hi Hd Hp) as (s&Hs&Hf&Hk&_).
  unfold served, serve_control. rewrite (bind_inr _ _ _ _ _ (getD_run k m d Hd)).
  rewrite (bind_inr _ _ _ _ _ (tq_remove_run _ p m Hp)), (bind_inr _ _ _ _ _ (modD_run k _ m d Hd)).
  erewrite bind_inr by (apply getS_run; rec_simpl; exact Hs). simpl in Hf. rewrite Hf.
  erewrite bind_inr by (apply modSnd_run; rec_simpl; exact Hs).
  match goal with |- context [bind (SendControlPacket p ts) _ ?x] => set (m1 := x) end.
  set (s1 := s <| sndvar := (sndvar s) <| on_control_list := false |> |>).
  assert (inv None m1) as Hi1.
  { refine (flag_cleared Ctl m p s s1 k d (d <| control_list := TAILQ_REMOVE (control_list d) p |>
      <| control_list_cnt := s32 (control_list_cnt d - 1) |>) Hi Hs Hf Hk Hd eq_refl _ eq_refl eq_refl).
    intros [] Hx; done. }
  assert (streams m1 !! p = Some s1) as Hs1 by apply lookup_insert_eq.
  assert (others false p m m1) as Ho1.
  { split; [|done]. intros q Hq. unfold m1. rec_simpl. by rewrite lookup_insert_ne. }
  assert (CONFIG m1 = CONFIG m) as Ec1 by done. clearbody m1.
  pose proof (spec_SendControlPacket None p ts ltac:(done) m1 Hi1 ltac:(by eexists)) as Hsp.
  unfold bind at 1. destruct (SendControlPacket p ts m1) as [f|[r m2]] eqn:Er; [done|].
  destruct Hsp as (Hi2&Hl2&Ho2). pose proof (fixes_SendControlPacket p ts m1 r m2 Er) as Hfix.
  assert (others false p m m2) as Ho by (by eapply others_trans).
  assert (∀ g, (∀ l, g l ≡ₚ TAILQ_INSERT_TAIL l p) → r < 0 → ∀ b : bool, served
    (modD (Some k) (λ d, d <| control_list := g (control_list d) |>) ;;;
     modSnd p (λ v, v <| on_control_list := true |>) ;;;
     modD (Some k) (λ d, d <| control_list_cnt := s32 (control_list_cnt d + 1) |>) ;;; ret b) p m2) as Hre.
  { intros g Hg Hr b. destruct (Hl2 Hr) as [s2 Hs2]. destruct (Hfix s2 Hs2) as (s1'&Hs1'&Eh).
    rewrite Hs1 in Hs1'. injection Hs1' as <-. injection Eh as E1 E2 E3 E4 E5 E6 E7.
    assert (flow_of s2 = flow_of s) as Ef by (unfold flow_of; by rewrite E1, E2, E3, E4).
    assert (CONFIG m2 = CONFIG m) as Ec2 by apply Ho.
    pose proof (same_home None None m m2 p s s2 k Hi Hi2 Ec2 Hs Hs2 Ef Hk) as Hk2.
    destruct (home_sender None m2 p s2 k Hi2 Hs2 Hk2) as (d2&Hd2).
    destruct (control_reinsert g p m2 s2 k d2 (λ _, ret b) Hi2 Hs2 E5 Hk2 Hd2 (Hg _)) as (m3&E&Hi3&Ho3).
    unfold served. rewrite E. done. }
  assert (∀ A (c : M A), served c p m2 → match c m2 with inl f => benign f
    | inr (_, m') => inv None m' ∧ others false p m m' end) as Hthen.
  { intros A c Hc. unfold served in Hc. destruct (c m2) as [|[a m3]]; [done|]. destruct Hc as [? Ho3].
    split; [done|]. by eapply others_trans. }
  destruct (Z.eqb_spec r (-2)) as [->|]; [|destruct (Z.ltb_spec r 0); [|by split]].
  - apply Hthen, (Hre (λ l, TAILQ_INSERT_HEAD l p)); [|lia]. intros l. apply Permutation_cons_append.
  - apply Hthen, (Hre (λ l, TAILQ_INSERT_TAIL l p)); [done|lia].
Qed.

Lemma endures_WriteTCPControlList k ts thresh m :
  inv None m → is_Some (senders m !! k) →
  match WriteTCPControlList k ts thresh m with
  | inl f => benign f
  | inr (_, m') => inv None m' ∧ CONFIG m' = CONFIG m
  end.
Proof.
  intros Hi [d Hd]. unfold WriteTCPControlList. rewrite (bind_inr _ _ _ _ _ (getD_run k m d Hd)).
  apply (serve_list_endures Ctl); [apply serves_control|done|done].
Qed.

(** *** Data *)
Lemma keeps_wake_control b h p ts w : keeps b h p (wake_control p ts w).
Proof. unfold wake_control. keep. Qed.
Hint Resolve keeps_wake_control : tcp.

(** A step that leaves [p] alive, then an operation that keeps it. *)
Lemma served_keeps {A} (c : M A) p m m' :
  inv None m' → live m' p → others false p m m' → keeps false None p c →
  match c m' with inl f => benign f | inr (_, m'') => inv None m'' ∧ others false p m m'' end.
Proof.
  intros Hi Hl Ho Hc. specialize (Hc m' Hi Hl). destruct (c m') as [|[a m'']]; [done|].
  destruct Hc as (?&_&?). split; [done|]. by eapply others_trans.
Qed.

Lemma serves_data n k ts : serves Snd k (serve_data n k ts).
Proof.
  intros m p d Hi Hd Hp. destruct (listed None m Snd k d p Hi Hd Hp) as (s&Hs&Hf&Hk&_).
  unfold served, serve_data. rewrite (bind_inr _ _ _ _ _ (getD_run k m d Hd)).
  rewrite (bind_inr _ _ _ _ _ (tq_remove_run _ p m Hp)), (bind_inr _ _ _ _ _ (modD_run k _ m d Hd)).
  pose proof (hole_open m p k d Hi Hd Hp) as Hi1. simpl slist.
  set (m1 := m <| senders := <[k := d <| send_list := TAILQ_REMOVE (send_list d) p |>]> (senders m) |>) in *.
  assert (streams m1 !! p = Some s) as Hs1 by done.
  assert (others false p m m1) as Ho1 by done. clearbody m1.
  rewrite (bind_inr _ _ _ _ _ (getS_run p m1 s Hs1)). simpl in Hf. rewrite Hf.
  pose proof (keeps_flush_stream (Some p) n p ts m1 Hi1 ltac:(by eexists)) as Hsp.
  unfold bind at 1. destruct (flush_stream n p ts m1) as [f|[r m2]] eqn:Er; [done|].
  destruct Hsp as (Hi2&Hl2&Ho2). destruct (Hl2 I) as [s2 Hs2].
  destruct (fixes_flush_stream n p ts m1 r m2 Er s2 Hs2) as (s'&Hs'&Eh).
  rewrite Hs1 in Hs'. injection Hs' as <-. injection Eh as E1 E2 E3 E4 E5.
  assert (flow_of s2 = flow_of s) as Ef by (unfold flow_of; by rewrite E1, E2, E3, E4).
  assert (others false p m m2) as Ho by (by eapply others_trans).
  pose proof (same_home None (Some p) m m2 p s s2 k Hi Hi2 (proj1 (proj2 Ho)) Hs Hs2 Ef Hk) as Hk2.
  destruct (home_sender (Some p) m2 p s2 k Hi2 Hs2 Hk2) as (d2&Hd2). rewrite Hf in E5.
  destruct (r <? 0).
  - rewrite (bind_inr _ _ _ _ _ (modD_run k _ m2 d2 Hd2)). split; [by apply (hole_put m2 p k d2 s2)|].
    by eapply others_trans.
  - rewrite (bind_inr _ _ _ _ _ (modSnd_run p _ m2 s2 Hs2)).
    erewrite bind_inr by (apply modD_run; rec_simpl; exact Hd2).
    match goal with |- context [bind (modSnd p ?f) ?c ?x] => set (c1 := bind (modSnd p f) c); set (m3 := x) end.
    apply (served_keeps c1 p m m3).
    + by apply (hole_clear m2 p k d2 s2).
    + eexists. apply lookup_insert_eq.
    + eapply others_trans; [exact Ho|]. split; [|done]. intros q Hq. unfold m3. rec_simpl. by rewrite lookup_insert_ne.
    + unfold c1. keep.
Qed.

Lemma endures_WriteTCPDataList n k ts thresh m :
  inv None m → is_Some (senders m !! k) →
  match WriteTCPDataList n k ts thresh m with
  | inl f => benign f
  | inr (_, m') => inv None m' ∧ CONFIG m' = CONFIG m
  end.
Proof.
  intros Hi [d Hd]. unfold WriteTCPDataList. rewrite (bind_inr _ _ _ _ _ (getD_run k m d Hd)).
  apply (serve_list_endures Snd); [apply serves_data|done|done].
Qed.

(** *** Acknowledgments *)
Lemma fixes_send_acks n p ts : fixes home p (send_acks n p ts).
Proof. pose proof fixes_SendTCPPacket. induction n as [|n IH]; simpl; fixing. Qed.
Lemma fixes_send_wack p ts : fixes home p (send_wack p ts).
Proof. pose proof fixes_SendTCPPacket. fixing. Qed.

(** The inner loop ends within its fuel: a segment leaves the counter alone. *)
Lemma send_acks_ends p ts n : ∀ m s, inv None m → streams m !! p = Some s → ack_cnt (sndvar s) <= Z.of_nat n →
  match send_acks n p ts m with
  | inl f => benign f
  | inr (_, m') => inv None m' ∧ live m' p ∧ others false p m m'
  end.
Proof.
  induction n as [|n IH]; intros m s Hi Hs Hn; simpl; rewrite (bind_inr _ _ _ _ _ (getS_run p m s Hs)).
  - destruct (Z.gtb_spec (ack_cnt (sndvar s)) 0); [lia|]. by split_and!; [|eexists|].
  - destruct (Z.gtb_spec (ack_cnt (sndvar s)) 0); [|by split_and!; [|eexists|]].
    pose proof (keeps_SendTCPPacket None p ts TCP_FLAG_ACK None 0 m Hi ltac:(by eexists)) as Hk.
    unfold bind at 1. destruct (SendTCPPacket p ts TCP_FLAG_ACK None 0 m) as [f|[r m1]] eqn:E; [done|].
    destruct Hk as (Hi1&Hl1&Ho1). destruct (Hl1 I) as [s1 Hs1].
    destruct (r <? 0); [by split_and!; [|eexists|]|].
    destruct (fixes_SendTCPPacket_acks p ts TCP_FLAG_ACK None 0 m r m1 E s1 Hs1) as (s'&Hs'&Ea).
    rewrite Hs in Hs'. injection Hs' as <-. injection Ea as _ _ _ _ _ _ _ Ea.
    rewrite (bind_inr _ _ _ _ _ (modSnd_run p _ m1 s1 Hs1)).
    set (s2 := s1 <| sndvar := _ |>). set (m2 := m1 <| streams := _ |>).
    assert (inv None m2) as Hi2 by (by apply (inv_upd None m1 p s1 s2)).
    assert (streams m2 !! p = Some s2) as Hs2 by apply lookup_insert_eq.
    specialize (IH m2 s2 Hi2 Hs2). destruct (send_acks n p ts m2) as [|[? m3]]; [apply IH; simpl; lia|].
    destruct IH as (?&?&Ho3); [simpl; lia|]. split_and!; [done|done|].
    apply (others_trans _ _ _ m1); [done|]. eapply others_trans; [|exact Ho3].
    split; [|done]. intros q Hq. unfold m2. rec_simpl. by rewrite lookup_insert_ne.
Qed.

Lemma ack_leave (g : tcp_send_vars → tcp_send_vars) p m s k :
  inv None m → streams m !! p = Some s → sflag Ack s = true →
  sender_key (CONFIG m) (nif_out (sndvar s)) = Some k →
  links (s <| sndvar := g (sndvar s) |>) = links (s <| sndvar := (sndvar s) <| on_ack_list := false |> |>) →
  ∃ m', (modSnd p g ;;; leave_ack_list k p) m = inr (tt, m') ∧ inv None m' ∧ live m' p ∧ others false p m m'.
Proof.
  intros Hi Hs Hf Hk Hg. destruct (home_sender None m p s k Hi Hs Hk) as (d&Hd).
  rewrite (bind_inr _ _ _ _ _ (modSnd_run p _ m s Hs)). unfold leave_ack_list.
  erewrite bind_inr by (apply getD_run; rec_simpl; exact Hd).
  assert (p ∈ ack_list d) as Hp by (by apply (flagged_on_list None m p s Ack k d)).
  erewrite bind_inr by (apply tq_remove_run; exact Hp).
  erewrite modD_run by (rec_simpl; exact Hd). eexists. split; [reflexivity|]. split; [|split].
  - eapply (flag_cleared Ack m p s _ k d); try done. intros [] Hx; done.
  - eexists. apply lookup_insert_eq.
  - split; [|done]. intros q Hq. rec_simpl. by rewrite lookup_insert_ne.
Qed.

(** The acknowledgments and the window request of a stream that keeps them. *)
Lemma acks_sent p ts k m s :
  inv None m → streams m !! p = Some s → sflag Ack s = true →
  sender_key (CONFIG m) (nif_out (sndvar s)) = Some k →
  match (send_acks (Z.to_nat (ack_cnt (sndvar s))) p ts ;;; send_wack p ts) m with
  | inl f => benign f
  | inr (_, m') => inv None m' ∧ others false p m m' ∧ ∃ s', streams m' !! p = Some s' ∧ sflag Ack s' = true
      ∧ sender_key (CONFIG m') (nif_out (sndvar s')) = Some k
  end.
Proof.
  intros Hi Hs Hf Hk. pose proof (send_acks_ends p ts (Z.to_nat (ack_cnt (sndvar s))) m s Hi Hs ltac:(lia)) as H1.
  unfold bind. destruct (send_acks _ p ts m) as [|[u m1]] eqn:E1; [done|]. destruct H1 as (Hi1&[s1 Hs1]&Ho1).
  assert (keeps false None p (send_wack p ts)) as Hw by (unfold send_wack; keep).
  specialize (Hw m1 Hi1 ltac:(by eexists)). destruct (send_wack p ts m1) as [|[u2 m2]] eqn:E2; [done|].
  destruct Hw as (Hi2&Hl2&Ho2). destruct (Hl2 I) as [s2 Hs2].
  destruct (fixes_send_wack p ts m1 u2 m2 E2 s2 Hs2) as (s1'&Hs1'&Eh2).
  destruct (fixes_send_acks _ p ts m u m1 E1 s1' Hs1') as (s'&Hs'&Eh1). rewrite Hs in Hs'. injection Hs' as <-.
  rewrite Eh1 in Eh2. assert (others false p m m2) as Ho by (by eapply others_trans).
  split; [done|]. split; [done|]. exists s2. injection Eh2 as F1 F2 F3 F4 F5 F6 F7. split; [done|].
  split; [simpl in *; congruence|]. apply (same_home None None m m2 p s s2 k Hi Hi2 (proj1 (proj2 Ho)) Hs Hs2); [|done].
  unfold flow_of. congruence.
Qed.

Lemma serves_acks k ts : serves Ack k (serve_acks k ts).
Proof.
  intros m p d Hi Hd Hp. destruct (listed None m Ack k d p Hi Hd Hp) as (s&Hs&Hf&Hk&_).
  unfold served, serve_acks. rewrite (bind_inr _ _ _ _ _ (getS_run p m s Hs)). simpl in Hf. rewrite Hf.
  assert (keeps false None p (wake_control p ts on_send_list)) as Hw by apply keeps_wake_control.
  assert (∀ m', inv None m' → live m' p → others false p m m' →
    match (wake_control p ts on_send_list ;;; ret false) m' with
    | inl f => benign f
    | inr (_, m'') => inv None m'' ∧ others false p m m'' end) as Hend.
  { intros m' ???. apply (served_keeps _ p m m'); try done. keep. }
  assert (∀ (c1 c2 : M unit) m0, ((c1 ;;; c2) ;;; ret false) m0 = (c1 ;;; (c2 ;;; ret false)) m0) as Hassoc.
  { intros c1 c2 m0. unfold bind. by destruct (c1 m0) as [|[]]. }
  rewrite Hassoc. destruct (to_ack s).
  - pose proof (acks_sent p ts k m s Hi Hs Hf Hk) as Ha. unfold bind in Ha. unfold bind at 1 2 3.
    destruct (send_acks _ p ts m) as [|[u m1]]; [done|]. destruct (send_wack p ts m1) as [|[u2 m2]]; [done|].
    destruct Ha as (Hi2&Ho2&s2&Hs2&Hf2&Hk2). rewrite (bind_inr _ _ _ _ _ (getS_run p m2 s2 Hs2)).
    destruct (negb _).
    + destruct (ack_leave (λ v, v <| on_ack_list := false |>) p m2 s2 k Hi2 Hs2 Hf2 Hk2)
        as (m3&E3&Hi3&Hl3&Ho3); [done|]. unfold when. rewrite E3. apply Hend; [done..|]. by eapply others_trans.
    + apply Hend; [done|by eexists|done].
  - destruct (ack_leave (λ v, v <| on_ack_list := false |> <| ack_cnt := 0 |> <| is_wack := false |>) p m s k
      Hi Hs Hf Hk) as (m3&E3&Hi3&Hl3&Ho3); [done|]. rewrite (bind_inr _ _ _ _ _ E3). by apply Hend.
Qed.

Lemma endures_WriteTCPACKList k ts thresh m :
  inv None m → is_Some (senders m !! k) →
  match WriteTCPACKList k ts thresh m with
  | inl f => benign f
  | inr (_, m') => inv None m' ∧ CONFIG m' = CONFIG m
  end.
Proof.
  intros Hi [d Hd]. unfold WriteTCPACKList. rewrite (bind_inr _ _ _ _ _ (getD_run k m d Hd)).
  apply (serve_list_endures Ack); [apply serves_acks|done|done].
Qed.
End Out.

#[export] Hint Resolve quiet_SendTCPPacketStandalone keeps_SendTCPPacket keeps_wake_control : tcp.
