(* ===== verification/Timer.v ===== *)
(** * The timers

    [timer.c]: the retransmission timeout, the retransmission store (a wheel of
    [RTO_HASH] slots of one tick and a list of far timers), the timewait and
    the connection timeouts.

    The walks over a list end by their threshold, the turns of the wheel when
    its clock passes the current time; running out of fuel is proved
    impossible. *)
From S2P Require Import Prelude SeqNum MemPool FlowHash EventQueue TcpTypes NetOut TcpLists TcpInv TcpStream TcpFrame.

Section Timer.
Context {P IO : Type} `{ChunkPool P, World IO}.
Local Abbreviation mtcp := (mtcp_manager P IO).
Local Abbreviation M := (M P IO).

(** ** The retransmission timeout *)

(** The application is told through its socket; a stream without one goes. *)
Definition report_or_destroy (p : Z) : M unit :=
  s <- getS p ;;
  match socket s with Some _ => RaiseErrorEvent p | None => DestroyTCPStream p end.

Definition close_stream (p : Z) (reason : tcp_close_reason) : M unit :=
  modS p (λ s, s <| state := TCP_ST_CLOSED |> <| close_reason := reason |>).

(** The timeout after the [nrtx]-th expiry. *)
Definition backed_off_rto (s : tcp_stream) : Z :=
  let v := sndvar s in
  if st_num TCP_ST_ESTABLISHED <=? st_num (state s) then
    let backoff := MIN (nrtx v) TCP_MAX_BACKOFF in
    let r := u32 (Z.shiftl (Z.shiftr (srtt (rcvvar s)) 3 ⊞ rttvar (rcvvar s)) backoff) in
    if r <=? 0 then rto v else r
  else if st_num TCP_ST_SYN_SENT <=? st_num (state s) then
    if nrtx v <? TCP_MAX_BACKOFF then u32 (Z.shiftl (rto v) 1) else rto v
  else rto v.

Definition reduced_ssthresh (v : tcp_send_vars) : Z :=
  let t := MIN (cwnd v) (peer_wnd v) / 2 in
  if t <? 2 * mss v then mss v * 2 else t.

(** Queueing the retransmission. *)
Definition retransmit (p cur_ts : Z) : M unit :=
  modS p (λ s, s <| snd_nxt := snd_una (sndvar s) |>) ;;;
  s <- getS p ;;
  match state s with
  | TCP_ST_ESTABLISHED | TCP_ST_CLOSE_WAIT => AddtoSendList p
  | TCP_ST_FIN_WAIT_1 | TCP_ST_CLOSING | TCP_ST_LAST_ACK =>
    if TCP_SEQ_LT (snd_nxt s) (fss (sndvar s)) then
      when (on_control_list (sndvar s)) (RemoveFromControlList p) ;;;
      modS p (λ s, s <| control_list_waiting := true |>) ;;;
      AddtoSendList p
    else AddtoControlList p cur_ts
  | _ => AddtoControlList p cur_ts
  end.

Definition HandleRTO (p cur_ts : Z) : M Z :=
  s <- getS p ;;
  if negb (bool_decide (close_reason s = TCP_NOT_CLOSED)) then ret 0
  else if negb (nrtx (sndvar s) <? TCP_MAX_RTX) then
    (if st_num (state s) <? st_num TCP_ST_ESTABLISHED
     then close_stream p TCP_CONN_FAIL ;;; DestroyTCPStream p
     else close_stream p TCP_CONN_LOST ;;; report_or_destroy p) ;;;
    ret (-1)
  else
    modSnd p (λ v, v <| nrtx := u8 (nrtx v + 1) |>) ;;;
    modSnd p (λ v, v <| max_nrtx := if nrtx v >? max_nrtx v then nrtx v else max_nrtx v |>) ;;;
    modS p (λ s, s <| sndvar := (sndvar s) <| rto := backed_off_rto s |> |>) ;;;
    modSnd p (λ v, v <| ssthresh := reduced_ssthresh v |>) ;;;
    modSnd p (λ v, v <| cwnd := mss v |>) ;;;
    s <- getS p ;;
    match state s with
    | TCP_ST_SYN_SENT =>
      if nrtx (sndvar s) >? TCP_MAX_SYN_RETRY
      then (close_stream p TCP_CONN_FAIL ;;; report_or_destroy p) ;;; ret (-1)
      else retransmit p cur_ts ;;; ret 0
    | TCP_ST_SYN_RCVD =>
      if have_reset s then DestroyTCPStream p ;;; ret 0 else retransmit p cur_ts ;;; ret 0
    | TCP_ST_ESTABLISHED | TCP_ST_CLOSE_WAIT | TCP_ST_LAST_ACK | TCP_ST_FIN_WAIT_1 | TCP_ST_CLOSING =>
      retransmit p cur_ts ;;; ret 0
    | _ => ret (-1)
    end.

(** ** Walking a list with a threshold *)
Fixpoint walk_loop (lst : mtcp → list Z) (body : Z → M bool) (fuel : nat) (thresh : Z) (walk : option Z) (cnt : Z)
  : M Z :=
  match walk with
  | None => ret cnt
  | Some p =>
    let cnt := cnt + 1 in
    if cnt >? thresh then ret cnt
    else
      match fuel with
      | O => fail FuelFault
      | S fuel =>
        l <- gets lst ;;
        let next := TAILQ_NEXT l p in
        stop <- body p ;;
        if (stop : bool) then ret cnt else walk_loop lst body fuel thresh next cnt
      end
  end.
Definition walk_list (lst : mtcp → list Z) (body : Z → M bool) (thresh cnt : Z) : M Z :=
  l <- gets lst ;; walk_loop lst body (Z.to_nat (thresh - cnt)) thresh (TAILQ_FIRST l) cnt.

(** ** The retransmission store *)

(** The far timers; the loop visits each element of the list once. *)
Fixpoint rearrange_loop (fuel : nat) (walk : option Z) : M unit :=
  match walk with
  | None => ret tt
  | Some p =>
    match fuel with
    | O => fail FuelFault
    | S fuel =>
      m <- gets (λ m, m) ;;
      let next := TAILQ_NEXT (rto_at m RTO_HASH) p in
      s <- getS p ;;
      let diff := s32 (rto_now_ts (rto_store m) ⊟ ts_rto (sndvar s)) in
      when (diff <? RTO_HASH)
        (let offset := rto_offset diff (rto_now_idx (rto_store m)) in
         l <- tq_remove (rto_at m RTO_HASH) p ;;
         modify (λ m, set_rto_at m RTO_HASH l) ;;;
         modS p (λ s, s <| on_rto_idx := offset |>) ;;;
         modify (λ m, set_rto_at m offset (TAILQ_INSERT_TAIL (rto_at m offset) p))) ;;;
      rearrange_loop fuel next
    end
  end.
Definition RearrangeRTOStore : M unit :=
  l <- gets (λ m, rto_at m RTO_HASH) ;; rearrange_loop (length l) (TAILQ_FIRST l).

(** One expired timer of the slot [idx]. *)
Definition expire_rto (idx cur_ts p : Z) : M bool :=
  s <- getS p ;;
  when (0 <=? on_rto_idx s)
    (m <- gets (λ m, m) ;;
     l <- tq_remove (rto_at m idx) p ;;
     modify (λ m, set_rto_at m idx l) ;;;
     modify (λ m, m <| rto_list_cnt := s32 (rto_list_cnt m - 1) |>) ;;;
     modS p (λ s, s <| on_rto_idx := -1 |>) ;;;
     _ <- HandleRTO p cur_ts ;;
     ret tt) ;;;
  ret false.

(** One tick of the wheel. *)
Definition tick : M unit :=
  modify (λ m, m <| rto_store := (rto_store m) <| rto_now_idx := (rto_now_idx (rto_store m) + 1) mod RTO_HASH |>
                                               <| rto_now_ts := rto_now_ts (rto_store m) ⊞ 1 |> |>) ;;;
  hs <- gets rto_store ;;
  when (rto_now_idx hs mod 1000 =? 0) RearrangeRTOStore.

Fixpoint rtm_loop (fuel : nat) (cur_ts thresh cnt : Z) : M unit :=
  hs <- gets rto_store ;;
  let idx := rto_now_idx hs in
  if s32 (cur_ts ⊟ rto_now_ts hs) <? 0 then ret tt
  else
    match fuel with
    | O => fail FuelFault
    | S fuel =>
      cnt <- walk_list (λ m, rto_at m idx) (expire_rto idx cur_ts) thresh cnt ;;
      if cnt >? thresh then ret tt
      else tick ;;; rtm_loop fuel cur_ts thresh cnt
    end.

Definition CheckRtmTimeout (cur_ts thresh : Z) : M unit :=
  cnt <- gets rto_list_cnt ;;
  if cnt =? 0 then ret tt
  else
    hs <- gets rto_store ;;
    rtm_loop (Z.to_nat (s32 (cur_ts ⊟ rto_now_ts hs) + 1)) cur_ts thresh 0.

(** ** The other timeouts *)
Definition expire_timewait (cur_ts p : Z) : M bool :=
  s <- getS p ;;
  if on_timewait_list s then
    if 0 <=? s32 (cur_ts ⊟ ts_tw_expire (rcvvar s)) then
      when (negb (on_control_list (sndvar s)))
        (tw <- gets timewait_list ;;
         l <- tq_remove tw p ;;
         modify (λ m, m <| timewait_list := l |>) ;;;
         modS p (λ s, s <| on_timewait_list := false |>) ;;;
         modify (λ m, m <| timewait_list_cnt := s32 (timewait_list_cnt m - 1) |>) ;;;
         close_stream p TCP_ACTIVE_CLOSE ;;;
         DestroyTCPStream p) ;;;
      ret false
    else ret true
  else ret false.
Definition CheckTimewaitExpire (cur_ts thresh : Z) : M unit :=
  walk_list timewait_list (expire_timewait cur_ts) thresh 0 ;;; ret tt.

Definition expire_connection (cur_ts p : Z) : M bool :=
  s <- getS p ;;
  C <- gets CONFIG ;;
  if tcp_timeout C <=? s32 (cur_ts ⊟ last_active_ts s) then
    modS p (λ s, s <| on_timeout_list := false |>) ;;;
    tl <- gets timeout_list ;;
    l <- tq_remove tl p ;;
    modify (λ m, m <| timeout_list := l |> <| timeout_list_cnt := s32 (timeout_list_cnt m - 1) |>) ;;;
    close_stream p TCP_TIMEDOUT ;;;
    report_or_destroy p ;;;
    ret false
  else ret true.
Definition CheckConnectionTimeout (cur_ts thresh : Z) : M unit :=
  walk_list timeout_list (expire_connection cur_ts) thresh 0 ;;; ret tt.

(** ** Expiry keeps the lists *)
Lemma frees_report b h p : h ≠ Some p → frees b h p (report_or_destroy p).
Proof. intros Hh. unfold report_or_destroy. freeing. Qed.
Lemma keeps_close_stream b h p r : keeps b h p (close_stream p r).
Proof. unfold close_stream. keep. Qed.
Lemma keeps_retransmit b h p ts : h ≠ Some p → keeps b h p (retransmit p ts).
Proof. intros Hh. unfold retransmit. keep. Qed.
Hint Resolve frees_report keeps_close_stream keeps_retransmit : tcp.

Lemma frees_HandleRTO b h p ts : h ≠ Some p → frees b h p (HandleRTO p ts).
Proof. intros Hh. unfold HandleRTO. freeing. Qed.

(** ** Walking a list *)
Implicit Types (m : mtcp) (s : tcp_stream).

(** The outcome of serving [p] from the state [m]. *)
Definition okay {A} (b : bool) (p : Z) m (r : fault + A * mtcp) : Prop :=
  match r with inl f => benign f | inr (_, m') => inv None m' ∧ others b p m m' end.

Lemma okay_ret {A B} b p m m0 (c : M A) (x : B) : okay b p m (c m0) → okay b p m ((c ;;; ret x) m0).
Proof. unfold bind. by destruct (c m0) as [|[]]. Qed.

Section Walk.
Context (lst : mtcp → list Z) (Q : tcp_stream → bool) (body : Z → M bool) (b : bool).
Hypothesis lst_tracks : ∀ m, inv None m → tracks (streams m) (lst m) (λ _, Q).
Hypothesis body_safe : ∀ m p s, inv None m → streams m !! p = Some s → Q s = true → p ∈ lst m →
  okay b p m (body p m).

Lemma walk_loop_endures thresh : ∀ fuel walk cnt m,
  inv None m → thresh - cnt <= Z.of_nat fuel → (∀ p, walk = Some p → p ∈ lst m) →
  match walk_loop lst body fuel thresh walk cnt m with
  | inl f => benign f
  | inr (_, m') => inv None m' ∧ CONFIG m' = CONFIG m ∧ (b = true → clock m' = clock m)
  end.
Proof using lst_tracks body_safe.
  induction fuel as [|fuel IH]; intros walk cnt m Hi Hf Hw; destruct walk as [p|]; try done; simpl.
  - destruct (Z.gtb_spec (cnt + 1) thresh); [done|lia].
  - destruct (Z.gtb_spec (cnt + 1) thresh); [done|]. rewrite bind_gets.
    pose proof (lst_tracks m Hi) as Ht. pose proof (Hw p eq_refl) as Hp.
    destruct (tracks_live _ _ _ p Ht Hp) as (s&Hs&Hq).
    pose proof (body_safe m p s Hi Hs Hq Hp) as Hb. unfold okay in Hb. unfold bind.
    destruct (body p m) as [f|[stop m']]; [done|]. destruct Hb as [Hi' (Ho1&Ho2&Ho3)].
    destruct stop; [done|].
    assert (∀ q, TAILQ_NEXT (lst m) p = Some q → q ∈ lst m') as Hnext.
    { intros q Hn. apply TAILQ_NEXT_in in Hn as [Hn Hne]; [|apply Ht].
      apply (lst_tracks m' Hi'). rewrite Ho1 by done. by apply Ht. }
    specialize (IH (TAILQ_NEXT (lst m) p) (cnt + 1) m' Hi' ltac:(lia) Hnext).
    destruct (walk_loop _ _ _ _ _ _ m') as [|[c m'']]; [done|]. destruct IH as (?&?&Hk).
    split_and!; [done|congruence|]. intros Hb. rewrite Hk, Ho3 by done. done.
Qed.

Lemma walk_list_endures thresh cnt m : inv None m →
  match walk_list lst body thresh cnt m with
  | inl f => benign f
  | inr (_, m') => inv None m' ∧ CONFIG m' = CONFIG m ∧ (b = true → clock m' = clock m)
  end.
Proof using lst_tracks body_safe.
  intros Hi. unfold walk_list. rewrite bind_gets. apply walk_loop_endures; [done|lia|].
  intros p Hp. unfold TAILQ_FIRST in Hp. destruct (lst m); [done|]. injection Hp as ->. left.
Qed.
End Walk.

(** A part that keeps the stream, then one that may destroy it. *)
Lemma then_frees {A} b p (c : M A) m m' s' :
  inv None m' → streams m' !! p = Some s' → others b p m m' → frees b None p c → okay b p m (c m').
Proof.
  intros Hi Hs Ho Hc. specialize (Hc m' Hi ltac:(by eexists)). unfold okay. destruct (c m') as [|[a m'']]; [done|].
  destruct Hc as (?&_&?). split; [done|]. by eapply others_trans.
Qed.

Lemma others_insert b p m m' s : streams m' = <[p := s]> (streams m) → CONFIG m' = CONFIG m → clock m' = clock m →
  others b p m m'.
Proof. intros E1 E2 E3. split; [|done]. intros q Hq. by rewrite E1, lookup_insert_ne. Qed.

Lemma expire_rto_safe idx ts m p s :
  0 <= idx → inv None m → streams m !! p = Some s → on_rto_idx s = idx → p ∈ rto_at m idx →
  okay true p m (expire_rto idx ts p m).
Proof.
  intros Hidx Hi Hs Hq Hp. unfold expire_rto. rewrite (bind_inr _ _ _ _ _ (getS_run p m s Hs)).
  rewrite (proj2 (Z.leb_le 0 (on_rto_idx s))) by lia. apply okay_ret. unfold when.
  rewrite bind_gets, (bind_inr _ _ _ _ _ (tq_remove_run _ p m Hp)), !bind_modify.
  erewrite bind_inr by (apply modS_run; exact Hs). apply okay_ret.
  match goal with |- okay _ _ _ (_ ?x) => set (m1 := x) end.
  apply (then_frees true p _ m m1 (s <| on_rto_idx := -1 |>)).
  - pose proof (inv_rto_idx _ _ Hi p s Hs).
    eapply (inv_rto_set None m p s (s <| on_rto_idx := -1 |>) false idx); try done.
    + lia.
    + intros j. exact (rto_at_set m idx j _).
  - apply lookup_insert_eq.
  - by eapply others_insert.
  - by apply frees_HandleRTO.
Qed.

Lemma expire_timewait_safe ts m p s :
  inv None m → streams m !! p = Some s → on_timewait_list s = true → p ∈ timewait_list m →
  okay true p m (expire_timewait ts p m).
Proof.
  intros Hi Hs Hq Hp. unfold expire_timewait. rewrite (bind_inr _ _ _ _ _ (getS_run p m s Hs)), Hq.
  destruct (0 <=? _); [|done]. destruct (on_control_list _); [done|]. apply okay_ret. simpl. rewrite bind_gets.
  rewrite (bind_inr _ _ _ _ _ (tq_remove_run _ p m Hp)), bind_modify.
  erewrite bind_inr by (apply modS_run; exact Hs). rewrite bind_modify.
  match goal with |- okay _ _ _ (_ ?x) => set (m1 := x) end.
  apply (then_frees true p _ m m1 (s <| on_timewait_list := false |>)).
  - by eapply (inv_tw_set None m p s false).
  - apply lookup_insert_eq.
  - by eapply others_insert.
  - freeing.
Qed.

Lemma expire_connection_safe ts m p s :
  inv None m → streams m !! p = Some s → on_timeout_list s = true → p ∈ timeout_list m →
  okay true p m (expire_connection ts p m).
Proof.
  intros Hi Hs Hq Hp. unfold expire_connection. rewrite (bind_inr _ _ _ _ _ (getS_run p m s Hs)), bind_gets.
  destruct (_ <=? _); [|done]. rewrite (bind_inr _ _ _ _ _ (modS_run p _ m s Hs)), bind_gets.
  erewrite bind_inr by (apply tq_remove_run; exact Hp). rewrite bind_modify.
  match goal with |- okay _ _ _ (_ ?x) => set (m1 := x) end.
  apply (then_frees true p _ m m1 (s <| on_timeout_list := false |>)).
  - by eapply (inv_to_set None m p s false).
  - apply lookup_insert_eq.
  - by eapply others_insert.
  - freeing.
Qed.

Lemma CheckTimewaitExpire_endures ts thresh m : inv None m →
  match CheckTimewaitExpire ts thresh m with
  | inl f => benign f
  | inr (_, m') => inv None m' ∧ CONFIG m' = CONFIG m
  end.
Proof.
  intros Hi. unfold CheckTimewaitExpire. unfold bind at 1.
  pose proof (walk_list_endures timewait_list on_timewait_list (expire_timewait ts) true
    (inv_tw None) (expire_timewait_safe ts) thresh 0 m Hi) as Hw.
  destruct (walk_list _ _ _ _ m) as [|[c m']]; [done|]. by destruct Hw as (?&?&_).
Qed.
Lemma CheckConnectionTimeout_endures ts thresh m : inv None m →
  match CheckConnectionTimeout ts thresh m with
  | inl f => benign f
  | inr (_, m') => inv None m' ∧ CONFIG m' = CONFIG m
  end.
Proof.
  intros Hi. unfold CheckConnectionTimeout. unfold bind at 1.
  pose proof (walk_list_endures timeout_list on_timeout_list (expire_connection ts) true
    (inv_to None) (expire_connection_safe ts) thresh 0 m Hi) as Hw.
  destruct (walk_list _ _ _ _ m) as [|[c m']]; [done|]. by destruct Hw as (?&?&_).
Qed.

(** ** The far timers *)
Lemma TAILQ_split (pre post : list Z) p : NoDup (pre ++ p :: post) →
  TAILQ_NEXT (pre ++ p :: post) p = head post ∧ TAILQ_REMOVE (pre ++ p :: post) p = pre ++ post.
Proof.
  intros (Hn1&Hd&[Hp Hn2]%NoDup_cons)%NoDup_app. split.
  - induction pre as [|x pre IH]; simpl; [by rewrite decide_True|].
    apply NoDup_cons in Hn1 as [Hx Hn1]. rewrite decide_False; [apply IH; [done|set_solver]|].
    intros ->. apply (Hd p); set_solver.
  - change (pre ++ p :: post) with (pre ++ [p] ++ post). unfold TAILQ_REMOVE. rewrite !filter_app.
    rewrite filter_cons_False by (intros Hx; by apply Hx). simpl. f_equal; apply TAILQ_REMOVE_not_in; set_solver.
Qed.

(** Moving a timer from the far list to a slot. *)
Lemma inv_rto_move m p s offset :
  inv None m → streams m !! p = Some s → on_rto_idx s = RTO_HASH → 0 <= offset < RTO_HASH →
  inv None (set_rto_at ((set_rto_at m RTO_HASH (TAILQ_REMOVE (rto_at m RTO_HASH) p))
              <| streams := <[p := s <| on_rto_idx := offset |>]> (streams m) |>)
            offset (TAILQ_INSERT_TAIL (rto_at m offset) p)).
Proof.
  intros Hi Hs Hq Ho.
  set (m1 := (set_rto_at m RTO_HASH (TAILQ_REMOVE (rto_at m RTO_HASH) p))
    <| streams := <[p := s <| on_rto_idx := -1 |>]> (streams m) |> <| rto_list_cnt := s32 (rto_list_cnt m - 1) |>).
  assert (inv None m1) as Hi1.
  { eapply (inv_rto_set None m p s (s <| on_rto_idx := -1 |>) false RTO_HASH); try done.
    intros j. exact (rto_at_set m RTO_HASH j _). }
  assert (streams m1 !! p = Some (s <| on_rto_idx := -1 |>)) as Hs1 by apply lookup_insert_eq.
  set (m2 := (set_rto_at m1 offset (TAILQ_INSERT_TAIL (rto_at m1 offset) p))
    <| streams := <[p := s <| on_rto_idx := offset |>]> (streams m1) |> <| rto_list_cnt := s32 (rto_list_cnt m1 + 1) |>).
  assert (inv None m2) as Hi2.
  { pose proof (inv_excl _ _ Hi p s Hs) as Hx.
    eapply (inv_rto_set None m1 p _ (s <| on_rto_idx := offset |>) true offset); try done.
    - lia.
    - split_and!; [done|done|]. apply Hx. unfold RTO_HASH in *. lia.
    - intros j. exact (rto_at_set m1 offset j _). }
  eapply inv_core; [|exact Hi2].
  assert (rto_at m1 offset = rto_at m offset) as Ea.
  { rewrite (rto_at_set m RTO_HASH offset _ : rto_at m1 offset = _). rewrite decide_False by lia. done. }
  unfold core, m2. rewrite Ea. unfold m1, set_rto_at. rec_simpl. rewrite insert_insert_eq.
  rewrite (inv_rto_cnt _ _ Hi). replace (s32 (s32 _ + 1)) with (s32 (count (streams m) (λ s, negb (on_rto_idx s <? 0))));
    [done|ulia].
Qed.

Lemma rearrange_loop_endures : ∀ fuel pre post m, inv None m → rto_at m RTO_HASH = pre ++ post →
  (length post <= fuel)%nat →
  ∃ m', rearrange_loop fuel (head post) m = inr (tt, m') ∧ inv None m' ∧ CONFIG m' = CONFIG m ∧ clock m' = clock m.
Proof.
  induction fuel as [|fuel IH]; intros pre post m Hi El Hf; destruct post as [|p post]; simpl in *; try lia;
    [by exists m|by exists m|].
  pose proof (inv_rto _ _ Hi RTO_HASH ltac:(done)) as Ht. rewrite bind_gets. rewrite El in Ht |- *.
  destruct (TAILQ_split pre post p (proj1 Ht)) as [En Er]. rewrite En.
  assert (p ∈ pre ++ p :: post) as Hp by set_solver.
  destruct (tracks_live _ _ _ p Ht Hp) as (s&Hs&Hq). apply Z.eqb_eq in Hq.
  rewrite (bind_inr _ _ _ _ _ (getS_run p m s Hs)).
  destruct (_ <? RTO_HASH).
  - simpl when. set (off := rto_offset _ _).
    assert (0 <= off < RTO_HASH) as Ho by apply rto_offset_range. clearbody off.
    pose proof (inv_rto_move m p s off Hi Hs Hq Ho) as Hi1. rewrite El, Er in Hi1.
    set (m1 := set_rto_at _ off _) in Hi1.
    assert (CONFIG m1 = CONFIG m ∧ clock m1 = clock m) as [<- <-] by done.
    rewrite (bind_inr _ _ m tt m1).
    + apply (IH (pre) post m1); [done| |lia]. unfold m1. rewrite rto_at_set, decide_False by lia.
      change (rto_at (set_rto_at m RTO_HASH (pre ++ post)) RTO_HASH = pre ++ post).
      by rewrite rto_at_set, decide_True.
    + rewrite (bind_inr _ _ _ _ _ (tq_remove_run _ p m Hp)), bind_modify.
      erewrite bind_inr by (apply modS_run; exact Hs). rewrite Er. unfold modify, m1. do 2 f_equal. f_equal.
      f_equal. refine (eq_trans (rto_at_set m RTO_HASH off _) _). by rewrite decide_False by lia.
  - apply (IH (pre ++ [p]) post m Hi); [by rewrite <- app_assoc|lia].
Qed.

Lemma tick_endures m : inv None m →
  ∃ m', tick m = inr (tt, m') ∧ inv None m' ∧ CONFIG m' = CONFIG m
    ∧ rto_now_ts (rto_store m') = rto_now_ts (rto_store m) ⊞ 1.
Proof.
  intros Hi. unfold tick. rewrite bind_modify, bind_gets.
  match goal with |- context [when _ _ ?x] => set (m1 := x) end.
  assert (inv None m1) as Hi1.
  { destruct Hi. split; try done. unfold m1. rec_simpl. apply Z.mod_pos_bound. done. }
  destruct (_ =? 0); [|by exists m1]. unfold when, RearrangeRTOStore. rewrite bind_gets.
  destruct (rearrange_loop_endures (length (rto_at m1 RTO_HASH)) [] (rto_at m1 RTO_HASH) m1 Hi1 eq_refl ltac:(lia))
    as (m2&E&Hi2&E1&E2). exists m2. split; [done|]. split; [done|]. split; [done|].
  by injection E2 as _ ->.
Qed.

Lemma next_tick ts now : 0 <= s32 (ts ⊟ now) → s32 (ts ⊟ (now ⊞ 1)) = s32 (ts ⊟ now) - 1.
Proof. intros. ulia. Qed.

(** The wheel reaches the current time within its fuel. *)
Lemma rtm_loop_endures ts thresh : ∀ fuel cnt m, inv None m →
  s32 (ts ⊟ rto_now_ts (rto_store m)) + 1 <= Z.of_nat fuel →
  match rtm_loop fuel ts thresh cnt m with
  | inl f => benign f
  | inr (_, m') => inv None m' ∧ CONFIG m' = CONFIG m
  end.
Proof.
  induction fuel as [|fuel IH]; intros cnt m Hi Hf; cbn [rtm_loop]; rewrite bind_gets;
    (destruct (Z.ltb_spec (s32 (ts ⊟ rto_now_ts (rto_store m))) 0); [done|]); [lia|].
  set (idx := rto_now_idx (rto_store m)). pose proof (inv_now _ _ Hi) as Hnow.
  pose proof (walk_list_endures (λ m, rto_at m idx) (λ s, on_rto_idx s =? idx) (expire_rto idx ts) true) as Hw.
  specialize (Hw (λ m Hi, inv_rto _ _ Hi idx (proj1 Hnow))).
  assert (∀ m p s, inv None m → streams m !! p = Some s → (on_rto_idx s =? idx) = true → p ∈ rto_at m idx →
    okay true p m (expire_rto idx ts p m)) as Hb.
  { intros m0 p s Hi0 Hs Hq Hp. apply (expire_rto_safe idx ts m0 p s); try done; lia. }
  specialize (Hw Hb thresh cnt m Hi). unfold bind at 1.
  destruct (walk_list _ _ _ _ m) as [|[c m1]]; [done|]. destruct Hw as (Hi1&E1&Ek). injection (Ek eq_refl) as _ Ets.
  destruct (c >? thresh); [done|]. destruct (tick_endures m1 Hi1) as (m2&E&Hi2&E2&Ets2).
  rewrite (bind_inr _ _ _ _ _ E). specialize (IH c m2 Hi2).
  rewrite Ets2, Ets, next_tick in IH by done. specialize (IH ltac:(lia)).
  destruct (rtm_loop fuel ts thresh c m2) as [|[? m3]]; [done|]. destruct IH. split; [done|congruence].
Qed.

Lemma CheckRtmTimeout_endures ts thresh m : inv None m →
  match CheckRtmTimeout ts thresh m with
  | inl f => benign f
  | inr (_, m') => inv None m' ∧ CONFIG m' = CONFIG m
  end.
Proof.
  intros Hi. unfold CheckRtmTimeout. rewrite bind_gets. destruct (_ =? 0); [done|]. rewrite bind_gets.
  apply rtm_loop_endures; [done|lia].
Qed.
End Timer.
#[export] Hint Resolve frees_report keeps_close_stream keeps_retransmit frees_HandleRTO : tcp.
