(* ===== verification/TcpIn.v ===== *)
(** * TCP input

    [tcp_in.c]: one received segment from the checksum to the state machine.
    The packet is the list of bytes from the IP header on; a read outside of it
    is a [PacketFault].  Values that a segment reports are kept as [segment]. *)
From S2P Require Import Prelude SeqNum CircQueue MemPool RingBuffer SendBuffer FlowHash AddrPool Checksum EventQueue TcpTypes NetOut TcpLists TcpInv.
From S2P Require Import TcpOptions TcpStream TcpFrame TcpOut.

Definition MTCP_SOCK_STREAM : Z := 1.

(** ** Reading a packet *)
Record segment := mk_seg {
  g_saddr : Z;
  g_daddr : Z;
  g_source : Z;                (* in network order, as the flows have it *)
  g_dest : Z;
  g_seq : Z;
  g_ack_seq : Z;
  g_doff : Z;
  g_fin : bool;
  g_syn : bool;
  g_rst : bool;
  g_ack : bool;
  g_window : Z;
  g_tcpopt : list Z;           (* the bytes behind the fixed header *)
  g_optlen : Z;
  g_payload : list Z;          (* the bytes behind the options *)
  g_payloadlen : Z
}.

Definition rd16 (l : list Z) (i : Z) : option Z :=
  a ← byte_at l i; b ← byte_at l (i + 1); Some (a + 256 * b).

Definition view (pkt : list Z) (ip_len : Z) : option segment :=
  b0 ← byte_at pkt 0;
  let t := Z.land b0 15 * 4 in
  sa ← Opt.rd32 pkt 12;
  da ← Opt.rd32 pkt 16;
  sp ← rd16 pkt t;
  dp ← rd16 pkt (t + 2);
  sq ← Opt.rd32 pkt (t + 4);
  aq ← Opt.rd32 pkt (t + 8);
  b12 ← byte_at pkt (t + 12);
  b13 ← byte_at pkt (t + 13);
  w ← rd16 pkt (t + 14);
  let doff := Z.shiftr b12 4 in
  let p := t + doff * 4 in
  Some (mk_seg sa da sp dp (swap32 sq) (swap32 aq) doff
          (has b13 TCP_FLAG_FIN) (has b13 TCP_FLAG_SYN) (has b13 TCP_FLAG_RST) (has b13 TCP_FLAG_ACK) (swap16 w)
          (drop (Z.to_nat (t + TCP_HEADER_LEN)) pkt) (doff * 4 - TCP_HEADER_LEN)
          (drop (Z.to_nat p) pkt) (ip_len - p)).

Definition seg_flow (g : segment) : flow := mk_flow (g_daddr g) (g_saddr g) (g_dest g) (g_source g).

(** A 32-bit shift to the left; counts of 32 and more are undefined in C. *)
Definition shl32 (v n : Z) : Z := u32 (Z.shiftl v n).

(** ** The round-trip estimator *)
Definition EstimateRTT (s : tcp_stream) (mrtt : Z) : tcp_recv_vars :=
  let tcp_rto_min := 0 in
  let r := rcvvar s in
  let m := if mrtt =? 0 then 1 else mrtt in
  if negb (srtt r =? 0) then
    let m := m - Z.shiftr (srtt r) 3 in
    let r := r <| srtt := u32 (srtt r + m) |> in
    let m := if m <? 0 then
               let m := - m - Z.shiftr (mdev r) 2 in
               if m >? 0 then Z.shiftr m 3 else m
             else m - Z.shiftr (mdev r) 2 in
    let r := r <| mdev := u32 (mdev r + m) |> in
    let r := if mdev r >? mdev_max r then
               let r := r <| mdev_max := mdev r |> in
               if mdev_max r >? rttvar r then r <| rttvar := mdev_max r |> else r
             else r in
    if TCP_SEQ_GT (snd_una (sndvar s)) (rtt_seq r) then
      let r := if mdev_max r <? rttvar r
               then r <| rttvar := rttvar r ⊟ Z.shiftr (rttvar r ⊟ mdev_max r) 2 |> else r in
      r <| rtt_seq := snd_nxt s |> <| mdev_max := tcp_rto_min |>
    else r
  else
    let r := r <| srtt := u32 (Z.shiftl m 3) |> <| mdev := u32 (Z.shiftl m 1) |> in
    let v := MAX (mdev r) tcp_rto_min in
    r <| rttvar := v |> <| mdev_max := v |> <| rtt_seq := snd_nxt s |>.

(** ** Congestion control *)

(** The packets an acknowledgment of [rmlen] bytes counts for; [None]: division
    by zero. *)
Definition acked_packets (rmlen eff : Z) : option Z :=
  if eff =? 0 then None
  else
    let packets := u16 (rmlen / eff) in
    Some (if u32 (rmlen / eff * eff) >? rmlen then u16 (packets + 1) else packets).

(** [cwnd] after new data is acknowledged. *)
Definition grown_cwnd (v : tcp_send_vars) (packets : Z) : option Z :=
  if cwnd v <? ssthresh v then
    Some (if cwnd v ⊞ mss v >? cwnd v then u32 (cwnd v + mss v * packets) else cwnd v)
  else if cwnd v =? 0 then None
  else
    let new_cwnd := cwnd v ⊞ u32 (packets * mss v * mss v) / cwnd v in
    Some (if new_cwnd >? cwnd v then new_cwnd else cwnd v).

(** After the third duplicate acknowledgment. *)
Definition halved_ssthresh (v : tcp_send_vars) : Z :=
  let t := MIN (cwnd v) (peer_wnd v) / 2 in
  if t <? 2 * mss v then 2 * mss v else t.

Section In.
Context {P IO : Type} `{ChunkPool P, World IO}.
Local Abbreviation mtcp := (mtcp_manager P IO).
Local Abbreviation M := (M P IO).

(** ** Opening *)
Definition FilterSYNPacket (ip port : Z) : M bool :=
  ls <- gets listeners ;;
  match FlowHash.ListenerHTSearch ls port with
  | None => ret false
  | Some a =>
    lm <- gets listener ;;
    l <- lift ListenerFault (lm !! a) ;;
    sk <- getSock (l_socket l) ;;
    let addr := EQ.saddr sk in
    if AddrPool.sin_port addr =? port then
      if negb (AddrPool.sin_addr addr =? AddrPool.INADDR_ANY) then ret (ip =? AddrPool.sin_addr addr)
      else C <- gets CONFIG ;; ret (existsb (λ e, ip =? ip_addr e) (eths C))
    else ret false
  end.

Definition HandlePassiveOpen (cur_ts : Z) (g : segment) : M (option Z) :=
  a <- CreateTCPStream None MTCP_SOCK_STREAM (g_daddr g) (g_dest g) (g_saddr g) (g_source g) ;;
  match a with
  | None => ret None
  | Some p =>
    modRcv p (λ r, r <| irs := g_seq g |>) ;;;
    modSnd p (λ v, v <| peer_wnd := g_window g |>) ;;;
    modS p (λ s, s <| rcv_nxt := irs (rcvvar s) |>) ;;;
    modSnd p (λ v, v <| cwnd := 1 |>) ;;;
    ParseTCPOptions p cur_ts (g_tcpopt g) (g_optlen g) ;;;
    ret (Some p)
  end.

Definition HandleActiveOpen (p cur_ts : Z) (g : segment) : M bool :=
  modRcv p (λ r, r <| irs := g_seq g |>) ;;;
  modS p (λ s, s <| snd_nxt := g_ack_seq g |>) ;;;
  modSnd p (λ v, v <| peer_wnd := g_window g |>) ;;;
  modS p (λ s, s <| rcvvar := (rcvvar s) <| snd_wl1 := irs (rcvvar s) ⊟ 1 |> |>) ;;;
  modS p (λ s, s <| rcv_nxt := irs (rcvvar s) ⊞ 1 |>) ;;;
  modRcv p (λ r, r <| last_ack_seq := g_ack_seq g |>) ;;;
  ParseTCPOptions p cur_ts (g_tcpopt g) (g_optlen g) ;;;
  modSnd p (λ v, v <| cwnd := if cwnd v =? 1 then mss v * 2 else mss v |>) ;;;
  modSnd p (λ v, v <| ssthresh := mss v * 10 |>) ;;;
  UpdateRetransmissionTimer p cur_ts ;;;
  ret true.

(** ** Checking a segment *)

(** PAWS: [true] when the timestamp is acceptable. *)
Definition check_timestamp (p cur_ts : Z) (g : segment) : M bool :=
  s <- getS p ;;
  if negb (g_rst g) && saw_timestamp s then
    ts <- ParseTCPTimestamp (g_tcpopt g) (g_optlen g) ;;
    match ts with
    | None => ret false
    | Some (ts_val, ts_ref) =>
      if TCP_SEQ_LT ts_val (ts_recent (rcvvar s)) then
        EnqueueACK p cur_ts ACK_OPT_NOW ;;; ret false
      else
        when (TCP_SEQ_GT ts_val (ts_recent (rcvvar s))) (modRcv p (λ r, r <| ts_last_ts_upd := cur_ts |>)) ;;;
        modRcv p (λ r, r <| ts_recent := ts_val |> <| ts_lastack_rcvd := ts_ref |>) ;;;
        ret true
    end
  else ret true.

Definition ValidateSequence (p cur_ts : Z) (g : segment) : M bool :=
  ok <- check_timestamp p cur_ts g ;;
  if negb ok then ret false
  else
    s <- getS p ;;
    if negb (TCP_SEQ_BETWEEN (g_seq g ⊞ g_payloadlen g) (rcv_nxt s) (rcv_nxt s ⊞ rcv_wnd (rcvvar s))) then
      if g_rst g then ret false
      else
        match state s with
        | TCP_ST_ESTABLISHED =>
          if g_seq g ⊞ 1 =? rcv_nxt s then EnqueueACK p cur_ts ACK_OPT_AGGREGATE ;;; ret false
          else if TCP_SEQ_LEQ (g_seq g) (rcv_nxt s) then EnqueueACK p cur_ts ACK_OPT_AGGREGATE ;;; ret false
          else EnqueueACK p cur_ts ACK_OPT_NOW ;;; ret false
        | TCP_ST_TIME_WAIT => AddtoTimewaitList p cur_ts ;;; AddtoControlList p cur_ts ;;; ret false
        | _ => AddtoControlList p cur_ts ;;; ret false
        end
    else ret true.

Definition ProcessRST (p ack_seq : Z) : M bool :=
  s <- getS p ;;
  match state s with
  | TCP_ST_CLOSED | TCP_ST_LISTEN | TCP_ST_SYN_SENT => ret false
  | TCP_ST_SYN_RCVD =>
    when (ack_seq =? snd_nxt s)
      (modS p (λ s, s <| state := TCP_ST_CLOSED |> <| close_reason := TCP_RESET |>) ;;; DestroyTCPStream p) ;;;
    ret true
  | TCP_ST_FIN_WAIT_1 | TCP_ST_FIN_WAIT_2 | TCP_ST_LAST_ACK | TCP_ST_CLOSING | TCP_ST_TIME_WAIT =>
    (modS p (λ s, s <| state := TCP_ST_CLOSED |> <| close_reason := TCP_ACTIVE_CLOSE |>) ;;; DestroyTCPStream p) ;;;
    ret true
  | TCP_ST_ESTABLISHED | TCP_ST_CLOSE_WAIT =>
    let v := sndvar s in
    when (negb (on_closeq v || on_closeq_int v || on_resetq v || on_resetq_int v))
      (modS p (λ s, s <| state := TCP_ST_CLOSE_WAIT |> <| close_reason := TCP_RESET |>) ;;; RaiseCloseEvent p) ;;;
    ret true
  end.

(** ** Acknowledgments *)

(** An acknowledgment of our FIN counts as one of the data before it. *)
Definition data_ack (s : tcp_stream) (ack_seq : Z) : Z :=
  match state s with
  | TCP_ST_FIN_WAIT_1 | TCP_ST_FIN_WAIT_2 | TCP_ST_CLOSING | TCP_ST_CLOSE_WAIT | TCP_ST_LAST_ACK =>
    if is_fin_sent (sndvar s) && (ack_seq =? fss (sndvar s) ⊞ 1) then ack_seq ⊟ 1 else ack_seq
  | _ => ack_seq
  end.

Definition update_window (p seq ack_seq cwindow : Z) : M unit :=
  s <- getS p ;;
  let r := rcvvar s in
  let v := sndvar s in
  when (TCP_SEQ_LT (snd_wl1 r) seq || ((snd_wl1 r =? seq) && TCP_SEQ_LT (snd_wl2 r) ack_seq)
        || ((snd_wl2 r =? ack_seq) && (cwindow >? peer_wnd v)))
    (modSnd p (λ v, v <| peer_wnd := cwindow |>) ;;;
     modRcv p (λ r, r <| snd_wl1 := seq |> <| snd_wl2 := ack_seq |>) ;;;
     when ((peer_wnd v <? snd_nxt s ⊟ snd_una v) && (snd_nxt s ⊟ snd_una v <=? cwindow)) (RaiseWriteEvent p)).

(** Whether the segment is a duplicate acknowledgment; [dup_acks] is promoted
    to [int] in the comparison, which is always true, and wraps. *)
Definition count_dup (p ack_seq payloadlen right_wnd_edge : Z) : M bool :=
  s <- getS p ;;
  let r := rcvvar s in
  let dup := TCP_SEQ_LT ack_seq (snd_nxt s) && ((ack_seq =? last_ack_seq r) && (payloadlen =? 0))
             && (snd_wl2 r ⊞ peer_wnd (sndvar s) =? right_wnd_edge) in
  (if dup then when (dup_acks r + 1 >? dup_acks r) (modRcv p (λ r, r <| dup_acks := u8 (dup_acks r + 1) |>))
   else modRcv p (λ r, r <| dup_acks := 0 |> <| last_ack_seq := ack_seq |>)) ;;;
  ret dup.

Definition fast_retransmit (p ack_seq : Z) : M unit :=
  modS p (λ s, s <| snd_nxt := if TCP_SEQ_LT ack_seq (snd_nxt s) then ack_seq else snd_nxt s |>) ;;;
  modSnd p (λ v, v <| ssthresh := halved_ssthresh v |>) ;;;
  modSnd p (λ v, v <| cwnd := u32 (ssthresh v + 3 * mss v) |>) ;;;
  modSnd p (λ v, v <| nrtx := if nrtx v <? TCP_MAX_RTX then u8 (nrtx v + 1) else nrtx v |>) ;;;
  AddtoSendList p.

Definition react_to_dups (p ack_seq : Z) (dup : bool) : M unit :=
  s <- getS p ;;
  if dup && (dup_acks (rcvvar s) =? 3) then fast_retransmit p ack_seq
  else
    when (dup_acks (rcvvar s) >? 3)
      (modSnd p (λ v, v <| cwnd := if cwnd v ⊞ mss v >? cwnd v then cwnd v ⊞ mss v else cwnd v |>)).

(** Recovery after loss: the acknowledgment is ahead of [snd_nxt]. *)
Definition recover (p ack_seq : Z) : M unit :=
  s <- getS p ;;
  when (TCP_SEQ_GT ack_seq (snd_nxt s))
    (modS p (λ s, s <| snd_nxt := ack_seq |>) ;;;
     b <- lift BufferFault (sndbuf (sndvar s)) ;;
     when (SB.len b =? 0) (RemoveFromSendList p)).

(** New data is acknowledged: estimate, grow the window, drop the data. *)
Definition ack_data (p cur_ts ack_seq rmlen : Z) : M unit :=
  s <- getS p ;;
  packets <- lift ArithFault (acked_packets rmlen (eff_mss (sndvar s))) ;;
  when (saw_timestamp s)
    (modS p (λ s, s <| rcvvar := EstimateRTT s (cur_ts ⊟ ts_lastack_rcvd (rcvvar s)) |>) ;;;
     modS p (λ s, s <| sndvar := (sndvar s) <| rto := Z.shiftr (srtt (rcvvar s)) 3 ⊞ rttvar (rcvvar s) |> |>)) ;;;
  when (st_num TCP_ST_ESTABLISHED <=? st_num (state s))
    (w <- lift ArithFault (grown_cwnd (sndvar s) packets) ;;
     modSnd p (λ v, v <| cwnd := w |>)) ;;;
  b <- lift BufferFault (sndbuf (sndvar s)) ;;
  let b := (SB.SBRemove b rmlen).2 in
  modSnd p (λ v, v <| sndbuf := Some b |> <| snd_una := ack_seq |>) ;;;
  let snd_wnd_prev := snd_wnd (sndvar s) in
  modSnd p (λ v, v <| snd_wnd := SB.size b ⊟ SB.len b |>) ;;;
  when (snd_wnd_prev <=? 0) (RaiseWriteEvent p) ;;;
  UpdateRetransmissionTimer p cur_ts.

Definition ProcessACK (p cur_ts : Z) (g : segment) : M unit :=
  s <- getS p ;;
  let v := sndvar s in
  let cwindow := if g_syn g then g_window g else shl32 (g_window g) (wscale_peer v) in
  let right_wnd_edge := peer_wnd v ⊞ snd_wl2 (rcvvar s) in
  let ack_seq := data_ack s (g_ack_seq g) in
  b <- lift BufferFault (sndbuf v) ;;
  if TCP_SEQ_GT ack_seq (SB.head_seq b ⊞ SB.len b) then ret tt
  else
    update_window p (g_seq g) ack_seq cwindow ;;;
    dup <- count_dup p ack_seq (g_payloadlen g) right_wnd_edge ;;
    react_to_dups p ack_seq dup ;;;
    recover p ack_seq ;;;
    if TCP_SEQ_GEQ (SB.head_seq b) ack_seq then ret tt
    else
      let rmlen := ack_seq ⊟ SB.head_seq b in
      when (rmlen >? 0) (ack_data p cur_ts ack_seq rmlen).

(** ** Payload *)
Definition heap_alloc : M (option Z) :=
  w <- gets io ;;
  let '(a, w) := calloc w in
  modify (λ m, m <| io := w |>) ;;; ret a.

(** The receive buffer of a stream, [None] without memory. *)
Definition receive_buffer (p : Z) : M (option RB.tcp_ring_buffer) :=
  s <- getS p ;;
  match rcvbuf (rcvvar s) with
  | Some b => ret (Some b)
  | None =>
    a <- heap_alloc ;;
    w <- gets io ;;
    rbm <- gets rbm_rcv ;;
    let '(b, rbm) := RB.RBInit rbm (bool_decide (is_Some a)) (stale_bytes w (RB.chunk_size rbm))
                       (irs (rcvvar s) ⊞ 1) in
    modify (λ m, m <| rbm_rcv := rbm |>) ;;;
    modRcv p (λ r, r <| rcvbuf := b |>) ;;;
    ret b
  end.

(** TRUE is 1, FALSE is 0, ERROR is -1. *)
Definition ProcessTCPPayload (p cur_ts : Z) (payload : list Z) (seq payloadlen : Z) : M Z :=
  s <- getS p ;;
  if TCP_SEQ_LT (seq ⊞ payloadlen) (rcv_nxt s) then ret 0
  else if TCP_SEQ_GT (seq ⊞ payloadlen) (rcv_nxt s ⊞ rcv_wnd (rcvvar s)) then ret 0
  else
    b <- receive_buffer p ;;
    match b with
    | None =>
      modS p (λ s, s <| state := TCP_ST_CLOSED |> <| close_reason := TCP_NO_MEM |>) ;;;
      RaiseErrorEvent p ;;;
      ret (-1)
    | Some b =>
      let prev_rcv_nxt := rcv_nxt s in
      h <- heap_alloc ;;
      rbm <- gets rbm_rcv ;;
      '(_, rbm, b) <- lift BufferFault (RB.RBPut rbm h b payload (u32 payloadlen) seq) ;;
      '(rbm, b) <- (match state s with
                    | TCP_ST_FIN_WAIT_1 | TCP_ST_FIN_WAIT_2 =>
                      '(_, rbm, b) <- lift BufferFault (RB.RBRemove rbm b (u64 (RB.merged_len b)) RB.AT_MTCP) ;;
                      ret (rbm, b)
                    | _ => ret (rbm, b)
                    end) ;;
      modify (λ m, m <| rbm_rcv := rbm |>) ;;;
      modRcv p (λ r, r <| rcvbuf := Some b |> <| rcv_wnd := u32 (RB.rsize b - RB.merged_len b) |>) ;;;
      let nxt := u32 (RB.head_seq b + RB.merged_len b) in
      modS p (λ s, s <| rcv_nxt := nxt |>) ;;;
      if TCP_SEQ_LEQ nxt prev_rcv_nxt then ret 0
      else
        when (st_eqb (state s) TCP_ST_ESTABLISHED) (RaiseReadEvent p) ;;;
        ret 1
    end.

(** ** A segment without a stream *)
Definition refuse (cur_ts : Z) (g : segment) (seq ack_seq flags : Z) : M unit :=
  _ <- SendTCPPacketStandalone (g_daddr g) (g_dest g) (g_saddr g) (g_source g) seq ack_seq 0 flags None 0 cur_ts 0 ;;
  ret tt.
Definition RST_ACK : Z := Z.lor TCP_FLAG_RST TCP_FLAG_ACK.

Definition CreateNewFlowHTEntry (cur_ts : Z) (g : segment) : M (option Z) :=
  if g_syn g && negb (g_ack g) then
    ok <- FilterSYNPacket (g_daddr g) (g_dest g) ;;
    if negb ok then refuse cur_ts g 0 (g_seq g ⊞ g_payloadlen g ⊞ 1) RST_ACK ;;; ret None
    else
      a <- HandlePassiveOpen cur_ts g ;;
      match a with
      | None => refuse cur_ts g 0 (g_seq g ⊞ g_payloadlen g ⊞ 1) RST_ACK ;;; ret None
      | Some p => ret (Some p)
      end
  else if g_rst g then ret None
  else if g_ack g then refuse cur_ts g (g_ack_seq g) 0 TCP_FLAG_RST ;;; ret None
  else refuse cur_ts g 0 (g_seq g ⊞ g_payloadlen g) RST_ACK ;;; ret None.

(** ** The state machine *)
Definition Handle_TCP_ST_LISTEN (p cur_ts : Z) (g : segment) : M unit :=
  if g_syn g then
    s <- getS p ;;
    when (st_eqb (state s) TCP_ST_LISTEN) (modS p (λ s, s <| rcv_nxt := rcv_nxt s ⊞ 1 |>)) ;;;
    modS p (λ s, s <| state := TCP_ST_SYN_RCVD |>) ;;;
    AddtoControlList p cur_ts
  else ret tt.

Definition guarded_timeout (p : Z) : M unit :=
  C <- gets CONFIG ;; when (0 <? tcp_timeout C) (AddtoTimeoutList p).

(** A SYN/ACK in SYN_SENT. *)
Definition connect_established (p cur_ts : Z) (g : segment) : M unit :=
  _ <- HandleActiveOpen p cur_ts g ;;
  modSnd p (λ v, v <| nrtx := 0 |>) ;;;
  modS p (λ s, s <| rcv_nxt := irs (rcvvar s) ⊞ 1 |>) ;;;
  RemoveFromRTOList p ;;;
  modS p (λ s, s <| state := TCP_ST_ESTABLISHED |>) ;;;
  s <- getS p ;;
  match socket s with
  | Some _ =>
    RaiseWriteEvent p ;;;
    AddtoControlList p cur_ts ;;;
    guarded_timeout p
  | None =>
    refuse cur_ts g 0 (g_seq g ⊞ g_payloadlen g ⊞ 1) RST_ACK ;;;
    modS p (λ s, s <| close_reason := TCP_ACTIVE_CLOSE |>) ;;;
    DestroyTCPStream p
  end.

Definition Handle_TCP_ST_SYN_SENT (p cur_ts : Z) (g : segment) : M unit :=
  s <- getS p ;;
  if g_ack g && (TCP_SEQ_LEQ (g_ack_seq g) (iss (sndvar s)) || TCP_SEQ_GT (g_ack_seq g) (snd_nxt s))
  then when (negb (g_rst g)) (refuse cur_ts g (g_ack_seq g) 0 TCP_FLAG_RST)
  else
    when (g_ack g) (modSnd p (λ v, v <| snd_una := snd_una v ⊞ 1 |>)) ;;;
    if g_rst g then
      when (g_ack g)
        (modS p (λ s, s <| state := TCP_ST_CLOSE_WAIT |> <| close_reason := TCP_RESET |>) ;;;
         match socket s with Some _ => RaiseErrorEvent p | None => DestroyTCPStream p end)
    else
      when (g_syn g)
        (if g_ack g then connect_established p cur_ts g
         else
           modS p (λ s, s <| state := TCP_ST_SYN_RCVD |> <| snd_nxt := iss (sndvar s) |>) ;;;
           AddtoControlList p cur_ts).

(** The listener gets the stream; a full backlog closes it. *)
Definition offer_to_listener (p cur_ts port : Z) : M unit :=
  ls <- gets listeners ;;
  a <- lift ListenerFault (FlowHash.ListenerHTSearch ls port) ;;
  lm <- gets listener ;;
  l <- lift ListenerFault (lm !! a) ;;
  let '(r, q) := StreamQ.StreamEnqueue (acceptq l) p in
  modify (λ m, m <| listener := <[a := l <| acceptq := q |>]> (listener m) |>) ;;;
  when (r <? 0)
    (modS p (λ s, s <| close_reason := TCP_NOT_ACCEPTED |> <| state := TCP_ST_CLOSED |>) ;;;
     AddtoControlList p cur_ts) ;;;
  guarded_timeout p ;;;
  e <- registered (l_socket l) EQ.MTCP_EPOLLIN ;;
  when e (raise (l_socket l) EQ.MTCP_EPOLLIN).

Definition Handle_TCP_ST_SYN_RCVD (p cur_ts : Z) (g : segment) : M unit :=
  s <- getS p ;;
  if g_ack g then
    if negb (g_ack_seq g =? iss (sndvar s) ⊞ 1) then ret tt
    else
      modSnd p (λ v, v <| snd_una := snd_una v ⊞ 1 |>) ;;;
      modS p (λ s, s <| snd_nxt := g_ack_seq g |>) ;;;
      modSnd p (λ v, v <| cwnd := if cwnd v =? 1 then mss v * 2 else mss v |>) ;;;
      modSnd p (λ v, v <| nrtx := 0 |>) ;;;
      modS p (λ s, s <| rcv_nxt := irs (rcvvar s) ⊞ 1 |>) ;;;
      RemoveFromRTOList p ;;;
      modS p (λ s, s <| state := TCP_ST_ESTABLISHED |>) ;;;
      offer_to_listener p cur_ts (g_dest g)
  else
    modS p (λ s, s <| snd_nxt := iss (sndvar s) |>) ;;;
    AddtoControlList p cur_ts.

(** Payload and its acknowledgment; ERROR counts as TRUE. *)
Definition receive_payload (p cur_ts : Z) (g : segment) : M unit :=
  when (g_payloadlen g >? 0)
    (r <- ProcessTCPPayload p cur_ts (g_payload g) (g_seq g) (g_payloadlen g) ;;
     EnqueueACK p cur_ts (if negb (r =? 0) then ACK_OPT_AGGREGATE else ACK_OPT_NOW)).

Definition receive_ack (p cur_ts : Z) (g : segment) : M unit :=
  s <- getS p ;;
  match sndbuf (sndvar s) with Some _ => ProcessACK p cur_ts g | None => ret tt end.

Definition Handle_TCP_ST_ESTABLISHED (p cur_ts : Z) (g : segment) : M unit :=
  if g_syn g then
    modS p (λ s, s <| snd_nxt := g_ack_seq g |>) ;;;
    AddtoControlList p cur_ts
  else
    receive_payload p cur_ts g ;;;
    when (g_ack g) (receive_ack p cur_ts g) ;;;
    when (g_fin g)
      (s <- getS p ;;
       if g_seq g ⊞ g_payloadlen g =? rcv_nxt s then
         modS p (λ s, s <| state := TCP_ST_CLOSE_WAIT |> <| rcv_nxt := rcv_nxt s ⊞ 1 |>) ;;;
         AddtoControlList p cur_ts ;;;
         RaiseReadEvent p
       else EnqueueACK p cur_ts ACK_OPT_NOW).

Definition Handle_TCP_ST_CLOSE_WAIT (p cur_ts : Z) (g : segment) : M unit :=
  s <- getS p ;;
  if TCP_SEQ_LT (g_seq g) (rcv_nxt s) then AddtoControlList p cur_ts else receive_ack p cur_ts g.

Definition Handle_TCP_ST_LAST_ACK (p cur_ts : Z) (g : segment) : M unit :=
  s <- getS p ;;
  if TCP_SEQ_LT (g_seq g) (rcv_nxt s) then ret tt
  else if g_ack g then
    receive_ack p cur_ts g ;;;
    s <- getS p ;;
    if negb (is_fin_sent (sndvar s)) then ret tt
    else if g_ack_seq g =? fss (sndvar s) ⊞ 1 then
      modSnd p (λ v, v <| snd_una := snd_una v ⊞ 1 |>) ;;;
      UpdateRetransmissionTimer p cur_ts ;;;
      modS p (λ s, s <| state := TCP_ST_CLOSED |> <| close_reason := TCP_PASSIVE_CLOSE |>) ;;;
      DestroyTCPStream p
    else AddtoControlList p cur_ts
  else AddtoControlList p cur_ts.

Definition Handle_TCP_ST_FIN_WAIT_1 (p cur_ts : Z) (g : segment) : M unit :=
  s <- getS p ;;
  if TCP_SEQ_LT (g_seq g) (rcv_nxt s) then AddtoControlList p cur_ts
  else if negb (g_ack g) then ret tt
  else
    receive_ack p cur_ts g ;;;
    s <- getS p ;;
    when (is_fin_sent (sndvar s) && (g_ack_seq g =? fss (sndvar s) ⊞ 1))
      (modSnd p (λ v, v <| snd_una := g_ack_seq g |>) ;;;
       modS p (λ s, s <| snd_nxt := if TCP_SEQ_GT (g_ack_seq g) (snd_nxt s) then g_ack_seq g else snd_nxt s |>) ;;;
       modSnd p (λ v, v <| nrtx := 0 |>) ;;;
       RemoveFromRTOList p ;;;
       modS p (λ s, s <| state := TCP_ST_FIN_WAIT_2 |>)) ;;;
    receive_payload p cur_ts g ;;;
    when (g_fin g)
      (s <- getS p ;;
       when (g_seq g ⊞ g_payloadlen g =? rcv_nxt s)
         (modS p (λ s, s <| rcv_nxt := rcv_nxt s ⊞ 1 |>) ;;;
          match state s with
          | TCP_ST_FIN_WAIT_1 => modS p (λ s, s <| state := TCP_ST_CLOSING |>)
          | TCP_ST_FIN_WAIT_2 => modS p (λ s, s <| state := TCP_ST_TIME_WAIT |>) ;;; AddtoTimewaitList p cur_ts
          | _ => ret tt
          end ;;;
          AddtoControlList p cur_ts)).

Definition Handle_TCP_ST_FIN_WAIT_2 (p cur_ts : Z) (g : segment) : M unit :=
  if negb (g_ack g) then ret tt
  else
    receive_ack p cur_ts g ;;;
    receive_payload p cur_ts g ;;;
    when (g_fin g)
      (s <- getS p ;;
       when (g_seq g ⊞ g_payloadlen g =? rcv_nxt s)
         (modS p (λ s, s <| state := TCP_ST_TIME_WAIT |> <| rcv_nxt := rcv_nxt s ⊞ 1 |>) ;;;
          AddtoTimewaitList p cur_ts ;;;
          AddtoControlList p cur_ts)).

Definition Handle_TCP_ST_CLOSING (p cur_ts : Z) (g : segment) : M unit :=
  if negb (g_ack g) then ret tt
  else
    receive_ack p cur_ts g ;;;
    s <- getS p ;;
    if negb (is_fin_sent (sndvar s)) then ret tt
    else if negb (g_ack_seq g =? fss (sndvar s) ⊞ 1) then ret tt
    else
      modS p (λ s, s <| sndvar := (sndvar s) <| snd_una := g_ack_seq g |> |> <| snd_nxt := g_ack_seq g |>) ;;;
      UpdateRetransmissionTimer p cur_ts ;;;
      modS p (λ s, s <| state := TCP_ST_TIME_WAIT |>) ;;;
      AddtoTimewaitList p cur_ts.

(** The [switch] of [ProcessTCPPacket]. *)
Definition dispatch (p cur_ts : Z) (g : segment) : M unit :=
  s <- getS p ;;
  match state s with
  | TCP_ST_LISTEN => Handle_TCP_ST_LISTEN p cur_ts g
  | TCP_ST_SYN_SENT => Handle_TCP_ST_SYN_SENT p cur_ts g
  | TCP_ST_SYN_RCVD =>
    if g_syn g && (g_seq g =? irs (rcvvar s)) then Handle_TCP_ST_LISTEN p cur_ts g
    else
      Handle_TCP_ST_SYN_RCVD p cur_ts g ;;;
      s <- getS p ;;
      when ((g_payloadlen g >? 0) && st_eqb (state s) TCP_ST_ESTABLISHED) (Handle_TCP_ST_ESTABLISHED p cur_ts g)
  | TCP_ST_ESTABLISHED => Handle_TCP_ST_ESTABLISHED p cur_ts g
  | TCP_ST_CLOSE_WAIT => Handle_TCP_ST_CLOSE_WAIT p cur_ts g
  | TCP_ST_LAST_ACK => Handle_TCP_ST_LAST_ACK p cur_ts g
  | TCP_ST_FIN_WAIT_1 => Handle_TCP_ST_FIN_WAIT_1 p cur_ts g
  | TCP_ST_FIN_WAIT_2 => Handle_TCP_ST_FIN_WAIT_2 p cur_ts g
  | TCP_ST_CLOSING => Handle_TCP_ST_CLOSING p cur_ts g
  | TCP_ST_TIME_WAIT =>
    when (on_timewait_list s) (RemoveFromTimewaitList p ;;; AddtoTimewaitList p cur_ts) ;;;
    AddtoControlList p cur_ts
  | TCP_ST_CLOSED => ret tt
  end.

(** A segment of the stream [p]. *)
Definition process_segment (p cur_ts : Z) (g : segment) : M unit :=
  s <- getS p ;;
  ok <- (if st_num TCP_ST_SYN_RCVD <? st_num (state s) then ValidateSequence p cur_ts g else ret true) ;;
  if negb ok then ret tt
  else
    modSnd p (λ v, v <| peer_wnd := if g_syn g then g_window g else shl32 (g_window g) (wscale_peer v) |>) ;;;
    modS p (λ s, s <| last_active_ts := cur_ts |>) ;;;
    UpdateTimeoutList p ;;;
    when (g_rst g) (modS p (λ s, s <| have_reset := true |>)) ;;;
    s <- getS p ;;
    done <- (if g_rst g && (st_num TCP_ST_SYN_SENT <? st_num (state s)) then ProcessRST p (g_ack_seq g)
             else ret false) ;;
    if (done : bool) then ret tt else dispatch p cur_ts g.

(** The segment covers [ip_len] minus the IP header. *)
Definition tcp_bytes (pkt : list Z) (ip_len : Z) : option (list Z) :=
  b0 ← byte_at pkt 0; let t := Z.land b0 15 * 4 in mem_read pkt t (ip_len - t).

Definition ProcessTCPPacket (cur_ts ifidx : Z) (pkt : list Z) (ip_len : Z) : M Z :=
  g <- lift PacketFault (view pkt ip_len) ;;
  if g_payloadlen g <? 0 then ret (-1)
  else
    seg <- (if ioctl ifidx PKT_RX_TCP_CSUM =? -1 then lift PacketFault (tcp_bytes pkt ip_len) else ret []) ;;
    if (ioctl ifidx PKT_RX_TCP_CSUM =? -1)
       && negb (Checksum.TCPCalcChecksum seg (g_saddr g) (g_daddr g) =? 0) then ret (-1)
    else
      t <- gets tcp_flow_table ;;
      a <- (match FlowHash.StreamHTSearch t (seg_flow g) with
            | Some p => ret (Some p)
            | None => CreateNewFlowHTEntry cur_ts g
            end) ;;
      match a with
      | None => ret 1
      | Some p => process_segment p cur_ts g ;;; ret 1
      end.

(** ** A segment keeps the lists *)
Lemma keeps_ParseTCPOptions b h p ts opt len : keeps b h p (ParseTCPOptions p ts opt len : M unit).
Proof.
  intros m Hi [s Hs]. unfold ParseTCPOptions. rewrite (bind_inr _ _ _ _ _ (getS_run p m s Hs)).
  destruct (Opt.ParseTCPOptions s ts opt len) as [s'| |] eqn:Ep; try done.
  simpl run_parse. rewrite (bind_inr (ret s') _ m s' m eq_refl), (modS_run p _ m s Hs).
  eapply spec_result; [done..|]. apply (inv_upd h m p s s' Hi Hs). by apply Opt.parse_options_fields in Ep.
Qed.
Lemma quiet_ParseTCPTimestamp opt len : quiet (ParseTCPTimestamp opt len : M (option (Z * Z))).
Proof. unfold ParseTCPTimestamp, run_parse. quiet. Qed.
Lemma quiet_refuse ts g a b c : quiet (refuse ts g a b c).
Proof. unfold refuse. quiet. Qed.
Lemma quiet_heap_alloc : quiet heap_alloc.
Proof. unfold heap_alloc. quiet. Qed.
Lemma quiet_FilterSYNPacket a b : quiet (FilterSYNPacket a b).
Proof. unfold FilterSYNPacket. quiet. Qed.
Hint Resolve keeps_ParseTCPOptions quiet_ParseTCPTimestamp quiet_refuse quiet_heap_alloc quiet_FilterSYNPacket : tcp.

Lemma keeps_HandleActiveOpen h p ts g : keeps false h p (HandleActiveOpen p ts g).
Proof. unfold HandleActiveOpen. keep. Qed.
Lemma keeps_ValidateSequence b h p ts g : keeps b h p (ValidateSequence p ts g).
Proof. unfold ValidateSequence, check_timestamp. keep. Qed.
Hint Resolve keeps_HandleActiveOpen keeps_ValidateSequence : tcp.

Lemma frees_then {A B} b h p (c : M A) (x : B) L : frees b h p c → ¬ L x → spec b h p (c ;;; ret x) L.
Proof.
  intros Hc Hx m Hi Hl. specialize (Hc m Hi Hl). unfold bind. destruct (c m) as [|[a m']]; [done|].
  simpl. destruct Hc as (?&_&?). split_and!; [done|tauto|done].
Qed.
(** The stream may be gone only when the segment is done with. *)
Lemma spec_ProcessRST p ack : spec false None p (ProcessRST p ack) (λ r, r = false).
Proof.
  unfold ProcessRST. apply spec_bind; [apply keeps_getS|]. intros s.
  destruct (state s); first [apply keeps_spec; solve [keep] | apply frees_then; [freeing|done]].
Qed.

Lemma keeps_update_window b h p a c d : keeps b h p (update_window p a c d).
Proof. unfold update_window. keep. Qed.
Lemma keeps_count_dup b h p a c d : keeps b h p (count_dup p a c d).
Proof. unfold count_dup. keep. Qed.
Lemma keeps_react_to_dups b p a dup : keeps b None p (react_to_dups p a dup).
Proof. unfold react_to_dups, fast_retransmit. keep. Qed.
Lemma keeps_recover b p a : keeps b None p (recover p a).
Proof. unfold recover. keep. Qed.
Lemma keeps_ack_data h p ts a rm : keeps false h p (ack_data p ts a rm).
Proof. unfold ack_data. keep. Qed.
Hint Resolve keeps_update_window keeps_count_dup keeps_react_to_dups keeps_recover keeps_ack_data : tcp.
Lemma keeps_ProcessACK p ts g : keeps false None p (ProcessACK p ts g).
Proof. unfold ProcessACK. keep. Qed.
Hint Resolve keeps_ProcessACK : tcp.

Lemma keeps_receive_buffer b h p : keeps b h p (receive_buffer p).
Proof. unfold receive_buffer. keep. Qed.
Hint Resolve keeps_receive_buffer : tcp.
Lemma keeps_ProcessTCPPayload b h p ts bs sq n : keeps b h p (ProcessTCPPayload p ts bs sq n).
Proof. unfold ProcessTCPPayload. keep. Qed.
Hint Resolve keeps_ProcessTCPPayload : tcp.

Lemma keeps_guarded_timeout b h p : keeps b h p (guarded_timeout p).
Proof. apply keeps_AddtoTimeoutList. Qed.
Hint Resolve keeps_guarded_timeout : tcp.
Lemma keeps_offer_to_listener b h p ts port : keeps b h p (offer_to_listener p ts port).
Proof. unfold offer_to_listener. keep. Qed.
Lemma keeps_receive_payload b h p ts g : keeps b h p (receive_payload p ts g).
Proof. unfold receive_payload. keep. Qed.
Lemma keeps_receive_ack p ts g : keeps false None p (receive_ack p ts g).
Proof. unfold receive_ack. keep. Qed.
Hint Resolve keeps_offer_to_listener keeps_receive_payload keeps_receive_ack : tcp.

Lemma keeps_Handle_LISTEN b h p ts g : keeps b h p (Handle_TCP_ST_LISTEN p ts g).
Proof. unfold Handle_TCP_ST_LISTEN. keep. Qed.
Lemma frees_Handle_SYN_SENT p ts g : frees false None p (Handle_TCP_ST_SYN_SENT p ts g).
Proof. unfold Handle_TCP_ST_SYN_SENT, connect_established. freeing. Qed.
Lemma keeps_Handle_SYN_RCVD b h p ts g : keeps b h p (Handle_TCP_ST_SYN_RCVD p ts g).
Proof. unfold Handle_TCP_ST_SYN_RCVD. keep. Qed.
Lemma keeps_Handle_ESTABLISHED p ts g : keeps false None p (Handle_TCP_ST_ESTABLISHED p ts g).
Proof. unfold Handle_TCP_ST_ESTABLISHED. keep. Qed.
Lemma keeps_Handle_CLOSE_WAIT p ts g : keeps false None p (Handle_TCP_ST_CLOSE_WAIT p ts g).
Proof. unfold Handle_TCP_ST_CLOSE_WAIT. keep. Qed.
Lemma frees_Handle_LAST_ACK p ts g : frees false None p (Handle_TCP_ST_LAST_ACK p ts g).
Proof. unfold Handle_TCP_ST_LAST_ACK. freeing. Qed.
Lemma keeps_Handle_FIN_WAIT_1 p ts g : keeps false None p (Handle_TCP_ST_FIN_WAIT_1 p ts g).
Proof. unfold Handle_TCP_ST_FIN_WAIT_1. keep. Qed.
Lemma keeps_Handle_FIN_WAIT_2 p ts g : keeps false None p (Handle_TCP_ST_FIN_WAIT_2 p ts g).
Proof. unfold Handle_TCP_ST_FIN_WAIT_2. keep. Qed.
Lemma keeps_Handle_CLOSING p ts g : keeps false None p (Handle_TCP_ST_CLOSING p ts g).
Proof. unfold Handle_TCP_ST_CLOSING. keep. Qed.
Hint Resolve keeps_Handle_LISTEN frees_Handle_SYN_SENT keeps_Handle_SYN_RCVD keeps_Handle_ESTABLISHED
  keeps_Handle_CLOSE_WAIT frees_Handle_LAST_ACK keeps_Handle_FIN_WAIT_1 keeps_Handle_FIN_WAIT_2
  keeps_Handle_CLOSING : tcp.

Lemma frees_dispatch p ts g : frees false None p (dispatch p ts g).
Proof. unfold dispatch. freeing. Qed.

Lemma frees_process_segment p ts g : frees false None p (process_segment p ts g).
Proof.
  unfold process_segment. apply spec_bind; [apply keeps_getS|]. intros s.
  apply spec_bind; [by keep|]. intros [|]; [|apply keeps_spec, keeps_ret]. simpl negb. cbv iota.
  do 4 (apply spec_bind; [by keep|]; intros ?). apply spec_bind; [apply keeps_getS|]. intros s'.
  eapply (spec_bind_L _ _ _ _ _ (λ r, r = false)).
  - destruct (_ && _); [apply spec_ProcessRST|apply keeps_spec, keeps_ret].
  - intros ? ->. apply frees_dispatch.
  - intros [] Hn; [|done]. exists tt. split; [done|tauto].
  - intros []; [by right|by left].
Qed.

(** ** A packet *)
Implicit Types (m : mtcp).

(** The flow table finds exactly the streams. *)
Lemma search_stream m f : inv None m →
  match FlowHash.StreamHTSearch (tcp_flow_table m) f with
  | Some p => ∃ s, streams m !! p = Some s ∧ flow_of s = f
  | None => ∀ p s, streams m !! p = Some s → flow_of s ≠ f
  end.
Proof.
  intros Hi. destruct (inv_flow _ _ Hi) as (F&HF&HFm).
  rewrite (ft_search_spec (tcp_flow_table m) F f HF : FlowHash.StreamHTSearch _ f = _).
  destruct (F !! f) as [p|] eqn:E; [by apply HFm|]. intros p s Hs Ef.
  assert (F !! f = Some p) by (apply HFm; by exists s). congruence.
Qed.

(** The outcome of an operation that may have made a stream. *)
Definition opened m (r : fault + option Z * mtcp) : Prop :=
  match r with
  | inl f => benign f
  | inr (a, m') => inv None m' ∧ CONFIG m' = CONFIG m ∧ ∀ p, a = Some p → live m' p
  end.

Lemma opened_quiet m (c : M unit) : inv None m → quiet c → opened m ((c ;;; ret None) m).
Proof.
  intros Hi Hc. specialize (Hc m). unfold bind. destruct (c m) as [|[u m']]; [done|]. destruct Hc as [Hc _].
  destruct (core_streams _ _ Hc) as [E _]. split_and!; [by eapply inv_core|done|done].
Qed.

Lemma HandlePassiveOpen_opens ts g m :
  inv None m → (∀ p s, streams m !! p = Some s → flow_of s ≠ seg_flow g) → opened m (HandlePassiveOpen ts g m).
Proof.
  intros Hi Hn. unfold HandlePassiveOpen.
  pose proof (CreateTCPStream_created MTCP_SOCK_STREAM (g_daddr g) (g_dest g) (g_saddr g) (g_source g) m Hi Hn) as Hc.
  unfold bind at 1. destruct (CreateTCPStream _ _ _ _ _ _ m) as [|[[p|] m1]]; [done| |].
  - destruct Hc as (Hi1&_&Hl&_&Ec&_).
    match goal with |- opened _ (?c m1) => assert (keeps false None p c) as Hk by keep end.
    specialize (Hk m1 Hi1 Hl). match goal with |- opened _ ?r => set (x := r) end.
    assert (∀ a m', x = inr (a, m') → a = Some p) as Hret.
    { intros a m'. unfold x, bind.
      repeat match goal with |- context [match ?y with inl _ => _ | inr _ => _ end] => destruct y as [|[]]; [done|] end.
      by intros [= <-]. }
    fold x in Hk. destruct x as [f|[a m']]; [done|]. destruct Hk as (Hi'&Hl'&_&Ec'&_).
    split_and!; [done|congruence|]. intros q Hq. rewrite (Hret a m' eq_refl) in Hq. injection Hq as <-. by apply Hl'.
  - destruct Hc as (?&_&?). by split_and!.
Qed.

Lemma CreateNewFlowHTEntry_opens ts g m :
  inv None m → (∀ p s, streams m !! p = Some s → flow_of s ≠ seg_flow g) → opened m (CreateNewFlowHTEntry ts g m).
Proof.
  intros Hi Hn. unfold CreateNewFlowHTEntry.
  destruct (_ && _).
  2:{ destruct (g_rst g); [by split_and!|]. destruct (g_ack g); (apply opened_quiet; [done|apply quiet_refuse]). }
  pose proof (quiet_FilterSYNPacket (g_daddr g) (g_dest g) m) as Hf. unfold bind at 1.
  destruct (FilterSYNPacket _ _ m) as [|[ok m1]]; [done|]. destruct Hf as [Hf _].
  destruct (core_streams _ _ Hf) as [Ec Es]. assert (inv None m1) as Hi1 by (by eapply inv_core).
  assert (∀ r, opened m1 r → opened m r) as Hm by (intros r; unfold opened; by rewrite Ec).
  apply Hm. destruct ok; cbv beta iota delta [negb]; [|apply opened_quiet; [done|apply quiet_refuse]].
  pose proof (HandlePassiveOpen_opens ts g m1 Hi1 ltac:(by rewrite Es)) as Ho. unfold bind at 1.
  destruct (HandlePassiveOpen ts g m1) as [|[[p|] m2]]; [exact Ho|exact Ho|]. destruct Ho as (Hi2&Ec2&_).
  pose proof (opened_quiet m2 _ Hi2 (quiet_refuse ts g 0 (g_seq g ⊞ g_payloadlen g ⊞ 1) RST_ACK)) as Hq.
  simpl. unfold opened in *. rewrite <- Ec2. exact Hq.
Qed.

Lemma ProcessTCPPacket_endures ts ifidx pkt ip_len m : inv None m →
  match ProcessTCPPacket ts ifidx pkt ip_len m with
  | inl f => benign f
  | inr (_, m') => inv None m' ∧ CONFIG m' = CONFIG m
  end.
Proof.
  intros Hi. unfold ProcessTCPPacket, lift.
  destruct (view pkt ip_len) as [g|]; [|done]. rewrite (bind_inr (ret g) _ m g m eq_refl).
  destruct (g_payloadlen g <? 0); [done|].
  assert (∀ (k : list Z → M Z), (∀ seg, match k seg m with inl f => benign f
    | inr (_, m') => inv None m' ∧ CONFIG m' = CONFIG m end) →
    match bind (if ioctl ifidx PKT_RX_TCP_CSUM =? -1 then match tcp_bytes pkt ip_len with Some a => ret a
       | None => fail PacketFault end else ret []) k m with inl f => benign f
    | inr (_, m') => inv None m' ∧ CONFIG m' = CONFIG m end) as Hseg.
  { intros k Hk. destruct (_ =? -1); [|apply (Hk [])]. destruct (tcp_bytes pkt ip_len) as [seg|]; [apply (Hk seg)|done]. }
  apply Hseg. intros seg. destruct (_ && _); [done|]. rewrite bind_gets.
  pose proof (search_stream m (seg_flow g) Hi) as Hs.
  assert (opened m ((match FlowHash.StreamHTSearch (tcp_flow_table m) (seg_flow g) with
    | Some p => ret (Some p) | None => CreateNewFlowHTEntry ts g end) m)) as Ho.
  { destruct (FlowHash.StreamHTSearch _ _) as [p|]; [|by apply CreateNewFlowHTEntry_opens].
    split_and!; [done|done|]. intros q [= <-]. destruct Hs as (s&Hs&_). by eexists. }
  unfold bind at 1. destruct (_ m) as [|[[p|] m1]]; [done| |].
  - destruct Ho as (Hi1&Ec1&Hl). pose proof (frees_process_segment p ts g m1 Hi1 (Hl p eq_refl)) as Hp.
    unfold bind. destruct (process_segment p ts g m1) as [|[u m2]]; [done|]. destruct Hp as (?&_&_&?&_).
    split; [done|congruence].
  - by destruct Ho as (?&?&_).
Qed.
End In.
#[export] Hint Resolve keeps_ParseTCPOptions quiet_ParseTCPTimestamp quiet_refuse quiet_heap_alloc
  quiet_FilterSYNPacket : tcp.
