(* ===== verification/NetIn.v ===== *)
(** * Below TCP on the way in

    [eth_in.c], [ip_in.c], [icmp.c] and the receiving half of [arp.c].  A frame
    is the list of its bytes; a read outside of it is a [PacketFault], a write
    outside of the buffer acquired for an answer a [BufferFault].  The receive
    counters of [nstat] and the release of a dropped packet, which is empty in
    the DPDK driver, are not modelled. *)
From S2P Require Import Prelude SeqNum MemPool FlowHash Checksum TcpTypes NetOut TcpLists TcpInv TcpOptions TcpStream TcpFrame TcpOut.
From S2P Require Import TcpIn.

Definition PKT_RX_IP_CSUM : Z := 0x05.
Definition ICMP_ECHOREPLY : Z := 0.
Definition ICMP_DEST_UNREACH : Z := 3.
Definition ICMP_ECHO : Z := 8.
Definition ICMP_TIME_EXCEEDED : Z := 11.
Definition sizeof_icmphdr : Z := 8.
Definition ARP_TIMEOUT_SEC : Z := 1.
Definition HZ : Z := 1000.
Definition SEC_TO_TS (t : Z) : Z := t * HZ.

(** ** ICMP *)

(** The words of the message; of [odd_byte] only the first byte is written, the
    second one is [stale]. *)
Fixpoint icmp_sum (stale sum : Z) (bs : list Z) : Z :=
  match bs with
  | lo :: hi :: bs => icmp_sum stale (u32 (sum + Checksum.word lo hi)) bs
  | [lo] => u32 (sum + Checksum.word lo stale)
  | [] => sum
  end.
Definition ICMPChecksum (stale : Z) (bs : list Z) : Z :=
  let sum := icmp_sum stale 0 bs in
  let sum := u32 (Z.shiftr sum 16 + Z.land sum 0xFFFF) in
  let sum := u32 (sum + Z.shiftr sum 16) in
  u16 (Z.lnot sum).

(** A message of the given fields; id and sequence number are written with
    [htons]. *)
Definition icmp_message (type code check id seq : Z) (data : list Z) : list Z :=
  [type; code] ++ le16 check ++ be16 id ++ be16 seq ++ data.

(** ** The ARP table *)
Definition GetHWaddr (C : mtcp_config) (ip : Z) : option (list Z) :=
  eth_haddr <$> List.find (λ e, ip =? ip_addr e) (eths C).
Definition to_me (C : mtcp_config) (ip : Z) : bool := existsb (λ e, ip =? ip_addr e) (eths C).

(** The fields of [struct arphdr] that are read. *)
Record arphdr := mk_arphdr { ar_op : Z; ar_sha : list Z; ar_sip : Z; ar_tip : Z }.
Definition arp_view (b : list Z) : option arphdr :=
  op ← rd16 b 6; sha ← mem_read b 8 6; sip ← Opt.rd32 b 14; tip ← Opt.rd32 b 24;
  Some (mk_arphdr (swap16 op) sha sip tip).

(** The request queue without its first entry for an address. *)
Fixpoint unqueue (ip : Z) (l : list arp_queue_entry) : list arp_queue_entry :=
  match l with
  | [] => []
  | e :: l => if aq_ip e =? ip then l else e :: unqueue ip l
  end.

Section Input.
Context {P IO : Type} `{ChunkPool P, World IO}.
Local Abbreviation mtcp := (mtcp_manager P IO).
Local Abbreviation M := (M P IO).
Implicit Types (m : mtcp).

(** The byte of the stack that [odd_byte] leaves as it is. *)
Definition stale_byte : M Z := w <- gets io ;; ret (u8 (hd 0 (stale_bytes w 1))).

(** [icmpd] holds the bytes that can be read from the pointer on.  The buffer
    has the size [payloadlen] has in its 16 bits. *)
Definition ICMPOutput (saddr daddr type code id seq : Z) (icmpd : list Z) (len : Z) : M Z :=
  icmph <- IPOutputStandalone IPPROTO_ICMP 0 saddr daddr (u16 (sizeof_icmphdr + len)) ;;
  if negb icmph then ret (-1)
  else
    lift BufferFault (guard (sizeof_icmphdr + len < 65536)) ;;;
    data <- lift PacketFault (mem_read icmpd 0 len) ;;
    stale <- stale_byte ;;
    let check := ICMPChecksum stale (icmp_message type code 0 id seq data) in
    fill (icmp_message type code check id seq data) ;;;
    ret 0.

Definition RequestICMP (saddr daddr icmp_id icmp_sequence : Z) (icmpd : list Z) (len : Z) : M unit :=
  _ <- ICMPOutput saddr daddr ICMP_ECHO 0 (swap16 icmp_id) (swap16 icmp_sequence) icmpd len ;; ret tt.

(** The packet [pkt] starts with the IP header. *)
Definition ProcessICMPECHORequest (pkt : list Z) (len : Z) : M Z :=
  b0 <- lift PacketFault (byte_at pkt 0) ;;
  let t := Z.land b0 15 * 4 in
  bs <- (if len - t <? 0 then ret [] else lift PacketFault (mem_read pkt t (len - t))) ;;
  stale <- stale_byte ;;
  if negb (ICMPChecksum stale bs =? 0) then ret (-1)
  else
    daddr <- lift PacketFault (Opt.rd32 pkt 16) ;;
    saddr <- lift PacketFault (Opt.rd32 pkt 12) ;;
    id <- lift PacketFault (rd16 pkt (t + 4)) ;;
    seq <- lift PacketFault (rd16 pkt (t + 6)) ;;
    _ <- ICMPOutput daddr saddr ICMP_ECHOREPLY 0 (swap16 id) (swap16 seq) (drop (Z.to_nat (t + 8)) pkt)
           (u16 (len - t - sizeof_icmphdr)) ;;
    ret 0.

Definition ProcessICMPPacket (pkt : list Z) (len : Z) : M Z :=
  C <- gets CONFIG ;;
  daddr <- lift PacketFault (Opt.rd32 pkt 16) ;;
  if negb (to_me C daddr) then ret 1
  else
    b0 <- lift PacketFault (byte_at pkt 0) ;;
    type <- lift PacketFault (byte_at pkt (Z.land b0 15 * 4)) ;;
    when (type =? ICMP_ECHO) (ProcessICMPECHORequest pkt len ;;; ret tt) ;;;
    ret 1.

(** ** ARP *)
Definition InitARPTable (calloc_ok : bool) : M Z :=
  modify (λ m, m <| CONFIG := (CONFIG m) <| arp_entries := [] |> |>) ;;;
  if negb calloc_ok then ret (-1)
  else modify (λ m, m <| arp_list := [] |>) ;;; ret 0.

(** Both handlers register the sender if its address is unknown. *)
Definition learn (a : arphdr) : M unit :=
  C <- gets CONFIG ;;
  match GetDestinationHWaddr C (ar_sip a) false with
  | Some _ => ret tt
  | None => RegisterARPEntry (ar_sip a) (ar_sha a) ;;; ret tt
  end.

Definition ProcessARPRequest (a : arphdr) (nif cur_ts : Z) : M Z :=
  learn a ;;;
  _ <- ARPOutput nif arp_op_reply (ar_sip a) (ar_sha a) None ;;
  ret 0.

Definition ProcessARPReply (a : arphdr) (cur_ts : Z) : M Z :=
  learn a ;;;
  modify (λ m, m <| arp_list := unqueue (ar_sip a) (arp_list m) |>) ;;;
  ret 0.

Definition ProcessARPPacket (cur_ts ifidx : Z) (pkt_data : list Z) : M Z :=
  C <- gets CONFIG ;;
  a <- lift PacketFault (arp_view (drop (Z.to_nat ETHERNET_HEADER_LEN) pkt_data)) ;;
  if negb (to_me C (ar_tip a)) then ret 1
  else if ar_op a =? arp_op_request then
    e <- nth_config (eths C) ifidx ;;
    ProcessARPRequest a (ifindex e) cur_ts ;;; ret 1
  else if ar_op a =? arp_op_reply then ProcessARPReply a cur_ts ;;; ret 1
  else ret 1.

Definition ARPTimer (cur_ts : Z) : M unit :=
  modify (λ m, m <| arp_list :=
    List.filter (λ e, negb (TCP_SEQ_GT cur_ts (aq_ts e ⊞ SEC_TO_TS ARP_TIMEOUT_SEC))) (arp_list m) |>).

(** ** IP and Ethernet *)
Definition ProcessIPv4Packet (cur_ts ifidx : Z) (pkt_data : list Z) (len : Z) : M Z :=
  let pkt := drop (Z.to_nat ETHERNET_HEADER_LEN) pkt_data in
  tot_len <- lift PacketFault (rd16 pkt 2) ;;
  let ip_len := swap16 tot_len in
  if ip_len <? IP_HEADER_LEN then ret (-1)
  else
    b0 <- lift PacketFault (byte_at pkt 0) ;;
    csum <- (if ioctl ifidx PKT_RX_IP_CSUM =? -1
             then hdr <- lift PacketFault (mem_read pkt 0 (Z.land b0 15 * 4)) ;; ret (ip_fast_csum hdr)
             else ret 0) ;;
    if negb (csum =? 0) then ret (-1)
    else if negb (Z.shiftr b0 4 =? 4) then ret 0
    else
      protocol <- lift PacketFault (byte_at pkt 9) ;;
      if protocol =? IPPROTO_TCP then ProcessTCPPacket cur_ts ifidx pkt ip_len
      else if protocol =? IPPROTO_ICMP then ProcessICMPPacket pkt ip_len
      else ret 0.

Definition ProcessPacket (ifidx cur_ts : Z) (pkt_data : list Z) (len : Z) : M Z :=
  h_proto <- lift PacketFault (rd16 pkt_data 12) ;;
  let ip_proto := swap16 h_proto in
  if ip_proto =? ETH_P_IP then ProcessIPv4Packet cur_ts ifidx pkt_data len
  else if ip_proto =? ETH_P_ARP then ProcessARPPacket cur_ts ifidx pkt_data ;;; ret 1
  else ret 1.

(** ** A packet keeps the lists *)
Definition survives {A} (c : M A) : Prop :=
  ∀ m, inv None m → match c m with inl f => benign f | inr (_, m') => inv None m' end.

Lemma survives_endures {A} (c : M A) : endures c → survives c.
Proof. intros Hc m Hi. specialize (Hc m Hi). destruct (c m) as [|[a m']]; tauto. Qed.
Lemma survives_quiet {A} (c : M A) : quiet c → survives c.
Proof.
  intros Hc m Hi. specialize (Hc m). destruct (c m) as [|[a m']]; [done|].
  destruct Hc as [Hc _]. by apply (inv_core None m).
Qed.
Lemma survives_bind {A B} (c : M A) (k : A → M B) : survives c → (∀ a, survives (k a)) → survives (bind c k).
Proof.
  intros Hc Hk m Hi. specialize (Hc m Hi). unfold bind. destruct (c m) as [|[a m']]; [done|]. by apply Hk.
Qed.

(** The invariant does not depend on the ARP table. *)
Lemma inv_config h m C :
  eths C = eths (CONFIG m) → nif_to_eidx C = nif_to_eidx (CONFIG m) → rtable C = rtable (CONFIG m) →
  gateway C = gateway (CONFIG m) → tcp_timeout C = tcp_timeout (CONFIG m) →
  inv h m → inv h (m <| CONFIG := C |>).
Proof.
  intros E1 E2 E3 E4 E5 []. split; rec_simpl; try done;
    unfold cfg_ok, is_sender, nif_for, on_sender, at_home, sender_key, GetOutputInterface in *;
    rewrite ?E1, ?E2, ?E3, ?E4, ?E5; done.
Qed.
Lemma survives_learn a : survives (learn a).
Proof.
  intros m Hi. unfold learn. rewrite bind_gets. destruct (GetDestinationHWaddr _ _ _); [done|].
  unfold RegisterARPEntry, bind, gets. destruct (guard _); [|done]. simpl. by apply inv_config.
Qed.

Lemma quiet_stale_byte : quiet stale_byte.
Proof. unfold stale_byte. quiet. Qed.
Hint Resolve quiet_stale_byte : tcp.
Lemma quiet_ICMPOutput a b c d e f g n : quiet (ICMPOutput a b c d e f g n).
Proof. unfold ICMPOutput. quiet. Qed.
Hint Resolve quiet_ICMPOutput : tcp.
Lemma quiet_ProcessICMPPacket pkt n : quiet (ProcessICMPPacket pkt n).
Proof. unfold ProcessICMPPacket, ProcessICMPECHORequest. quiet. Qed.

Lemma survives_ProcessARPPacket ts i pkt : survives (ProcessARPPacket ts i pkt).
Proof.
  unfold ProcessARPPacket, ProcessARPRequest, ProcessARPReply.
  repeat match goal with
  | |- survives (bind _ _) => apply survives_bind; [|intros ?]
  | |- survives (learn _) => apply survives_learn
  | |- survives (if ?b then _ else _) => destruct b
  | |- survives _ => apply survives_quiet; solve [quiet]
  end.
Qed.

Lemma survives_ProcessIPv4Packet ts i pkt n : survives (ProcessIPv4Packet ts i pkt n).
Proof.
  unfold ProcessIPv4Packet. cbv zeta.
  repeat match goal with
  | |- survives (ProcessTCPPacket _ _ _ _) => apply survives_endures; intros m Hi; by apply ProcessTCPPacket_endures
  | |- survives _ => apply survives_quiet; solve [quiet | apply quiet_ProcessICMPPacket]
  | |- survives (bind _ _) => apply survives_bind; [|intros ?]
  | |- survives (if ?b then _ else _) => destruct b
  end.
Qed.

Lemma survives_ProcessPacket i ts pkt n : survives (ProcessPacket i ts pkt n).
Proof.
  unfold ProcessPacket. apply survives_bind; [apply survives_quiet; quiet|]. intros proto. cbv zeta.
  destruct (_ =? ETH_P_IP); [apply survives_ProcessIPv4Packet|]. destruct (_ =? ETH_P_ARP).
  - apply survives_bind; [apply survives_ProcessARPPacket|]. intros _. apply survives_quiet. quiet.
  - apply survives_quiet. quiet.
Qed.
Lemma survives_ARPTimer ts : survives (ARPTimer ts).
Proof. apply survives_quiet. unfold ARPTimer. quiet. Qed.
End Input.
