(* ===== verification/App.v ===== *)
(** * The calls of the application, in the stack thread

    [HandleApplicationCalls] of [core.c]: the stack thread empties the queues
    that the application threads fill, and works off its two internal queues of
    streams whose close or reset had to wait.  The diagnostic counters of the
    function are not modelled. *)
From S2P Require Import Prelude CircQueue MemPool SendBuffer FlowHash TcpTypes NetOut TcpLists TcpInv TcpStream TcpFrame Post.

(** ** The queues *)
Inductive app_queue := ConnectQ | SendQ | AckQ | CloseQ | ResetQ | DestroyQ.
Inductive int_queue := CloseInt | ResetInt.
#[export] Instance app_queue_eq_dec : EqDecision app_queue.
Proof. solve_decision. Defined.
#[export] Instance int_queue_eq_dec : EqDecision int_queue.
Proof. solve_decision. Defined.

Section App.
Context {P IO : Type} `{ChunkPool P, World IO}.
Local Abbreviation mtcp := (mtcp_manager P IO).
Local Abbreviation M := (M P IO).
Implicit Types (m : mtcp).

Definition the_queue (x : app_queue) m : StreamQ.stream_queue :=
  match x with
  | ConnectQ => connectq m | SendQ => sendq m | AckQ => ackq m
  | CloseQ => closeq m | ResetQ => resetq m | DestroyQ => destroyq m
  end.
Definition set_queue (x : app_queue) (q : StreamQ.stream_queue) m : mtcp :=
  match x with
  | ConnectQ => m <| connectq := q |> | SendQ => m <| sendq := q |> | AckQ => m <| ackq := q |>
  | CloseQ => m <| closeq := q |> | ResetQ => m <| resetq := q |> | DestroyQ => m <| destroyq := q |>
  end.
Definition the_int (x : int_queue) m : StreamQInt.stream_queue_int :=
  match x with CloseInt => closeq_int m | ResetInt => resetq_int m end.
Definition set_int (x : int_queue) (q : StreamQInt.stream_queue_int) m : mtcp :=
  match x with CloseInt => m <| closeq_int := q |> | ResetInt => m <| resetq_int := q |> end.

Definition enqueue (x : app_queue) (p : Z) : M Z :=
  q <- gets (the_queue x) ;;
  let '(r, q) := StreamQ.StreamEnqueue q p in
  modify (set_queue x q) ;;; ret r.
Definition dequeue (x : app_queue) : M (option Z) :=
  q <- gets (the_queue x) ;;
  let '(o, q) := StreamQ.StreamDequeue q in
  modify (set_queue x q) ;;; ret o.
Definition enqueue_int (x : int_queue) (p : Z) : M Z :=
  q <- gets (the_int x) ;;
  let '(r, q) := StreamQInt.StreamInternalEnqueue q p in
  modify (set_int x q) ;;; ret r.
Definition dequeue_int (x : int_queue) : M (option Z) :=
  q <- gets (the_int x) ;;
  let '(o, q) := StreamQInt.StreamInternalDequeue q in
  modify (set_int x q) ;;; ret o.

(** [while ((stream = StreamDequeue(q)))]: no body adds to the queue, so the
    loop ends within the slots of the queue. *)
Fixpoint drain_loop (fuel : nat) (x : app_queue) (body : Z → M unit) : M unit :=
  match fuel with
  | O => fail FuelFault
  | S fuel =>
    o <- dequeue x ;;
    match o with
    | None => ret tt
    | Some p => body p ;;; drain_loop fuel x body
    end
  end.
Definition drain (x : app_queue) (body : Z → M unit) : M unit :=
  q <- gets (the_queue x) ;; drain_loop (S (length (CircQ.slots q))) x body.

(** [while (cnt++ < max_cnt)]: as many turns as the queue had entries. *)
Fixpoint work_loop (n : nat) (x : int_queue) (body : Z → M unit) : M unit :=
  match n with
  | O => ret tt
  | S n =>
    o <- dequeue_int x ;;
    p <- lift StreamFault o ;;
    body p ;;;
    work_loop n x body
  end.
Definition work_off (x : int_queue) (body : Z → M unit) : M unit :=
  q <- gets (the_int x) ;; work_loop (Z.to_nat (StreamQInt.count q)) x body.

(** ** The bodies *)
Definition handle_send (p : Z) : M unit :=
  modSnd p (λ v, v <| on_sendq := false |>) ;;; AddtoSendList p.
Definition handle_ack (cur_ts p : Z) : M unit :=
  modSnd p (λ v, v <| on_ackq := false |>) ;;; EnqueueACK p cur_ts ACK_OPT_AGGREGATE.

(** The half of the connection of this side begins to close. *)
Definition closing_state (st : tcp_state) : tcp_state :=
  match st with
  | TCP_ST_ESTABLISHED => TCP_ST_FIN_WAIT_1
  | TCP_ST_CLOSE_WAIT => TCP_ST_LAST_ACK
  | _ => st
  end.
Definition start_close (p : Z) : M unit := modS p (λ s, s <| state := closing_state (state s) |>).

Definition destroy_reset (p : Z) : M unit :=
  s <- getS p ;;
  when (negb (st_eqb (state s) TCP_ST_CLOSED))
    (modS p (λ s, s <| close_reason := TCP_RESET |> <| state := TCP_ST_CLOSED |>) ;;; DestroyTCPStream p).

Definition final_seq (s : tcp_stream) : Z :=
  match sndbuf (sndvar s) with
  | Some b => SB.head_seq b ⊞ SB.len b
  | None => snd_nxt s
  end.

Definition handle_close (cur_ts p : Z) : M unit :=
  modSnd p (λ v, v <| on_closeq := false |>) ;;;
  modS p (λ s, s <| sndvar := (sndvar s) <| fss := final_seq s |> |>) ;;;
  C <- gets CONFIG ;;
  when (tcp_timeout C >? 0) (RemoveFromTimeoutList p) ;;;
  s <- getS p ;;
  if have_reset s then destroy_reset p
  else if on_control_list (sndvar s) then
    modSnd p (λ v, v <| on_closeq_int := true |>) ;;; enqueue_int CloseInt p ;;; ret tt
  else if on_send_list (sndvar s) || on_ack_list (sndvar s) then
    start_close p ;;; modS p (λ s, s <| control_list_waiting := true |>)
  else
    when (negb (st_eqb (state s) TCP_ST_CLOSED)) (start_close p ;;; AddtoControlList p cur_ts).

Definition retry_close (cur_ts p : Z) : M unit :=
  s <- getS p ;;
  if on_control_list (sndvar s) then enqueue_int CloseInt p ;;; ret tt
  else
    modSnd p (λ v, v <| on_closeq_int := false |>) ;;;
    when (negb (st_eqb (state s) TCP_ST_CLOSED)) (start_close p ;;; AddtoControlList p cur_ts).

(** All packets of the stream are out. *)
Definition send_reset (cur_ts p : Z) : M unit :=
  s <- getS p ;;
  when (negb (st_eqb (state s) TCP_ST_CLOSED))
    (modS p (λ s, s <| close_reason := TCP_ACTIVE_CLOSE |> <| state := TCP_ST_CLOSED |>) ;;;
     AddtoControlList p cur_ts).
Definition busy (s : tcp_stream) : bool :=
  on_control_list (sndvar s) || on_send_list (sndvar s) || on_ack_list (sndvar s).

Definition handle_reset (cur_ts p : Z) : M unit :=
  modSnd p (λ v, v <| on_resetq := false |>) ;;;
  C <- gets CONFIG ;;
  when (tcp_timeout C >? 0) (RemoveFromTimeoutList p) ;;;
  s <- getS p ;;
  if have_reset s then destroy_reset p
  else if busy s then
    modSnd p (λ v, v <| on_resetq_int := true |>) ;;; enqueue_int ResetInt p ;;; ret tt
  else send_reset cur_ts p.

Definition retry_reset (cur_ts p : Z) : M unit :=
  s <- getS p ;;
  if busy s then enqueue_int ResetInt p ;;; ret tt
  else modSnd p (λ v, v <| on_resetq_int := false |>) ;;; send_reset cur_ts p.

Definition HandleApplicationCalls (cur_ts : Z) : M unit :=
  drain ConnectQ (λ p, AddtoControlList p cur_ts) ;;;
  drain SendQ handle_send ;;;
  drain AckQ (handle_ack cur_ts) ;;;
  drain CloseQ (handle_close cur_ts) ;;;
  work_off CloseInt (retry_close cur_ts) ;;;
  drain ResetQ (handle_reset cur_ts) ;;;
  work_off ResetInt (retry_reset cur_ts) ;;;
  drain DestroyQ DestroyTCPStream ;;;
  modify (λ m, m <| wakeup_flag := false |>).

(** ** An idle application *)
Definition queues m :=
  (connectq m, sendq m, ackq m, closeq m, resetq m, destroyq m, (closeq_int m, resetq_int m)).
Definition idle m : Prop :=
  (∀ x, StreamQ.StreamQueueIsEmpty (the_queue x m) = true) ∧ ∀ x, StreamQInt.count (the_int x m) = 0.

Lemma idle_queues m m' : queues m' = queues m → idle m → idle m'.
Proof.
  unfold queues. intros E [H1 H2]. injection E as E1 E2 E3 E4 E5 E6 E7 E8. split; intros []; simpl.
  all: first [rewrite E1; apply (H1 ConnectQ)|rewrite E2; apply (H1 SendQ)|rewrite E3; apply (H1 AckQ)
    |rewrite E4; apply (H1 CloseQ)|rewrite E5; apply (H1 ResetQ)|rewrite E6; apply (H1 DestroyQ)
    |rewrite E7; apply (H2 CloseInt)|rewrite E8; apply (H2 ResetInt)].
Qed.

Lemma set_queue_id x m : set_queue x (the_queue x m) m = m.
Proof. destruct m, x; reflexivity. Qed.
Lemma drain_idle x body m : StreamQ.StreamQueueIsEmpty (the_queue x m) = true → drain x body m = inr (tt, m).
Proof.
  intros Hq. unfold drain. rewrite bind_gets. simpl. unfold dequeue. unfold bind, gets, modify, ret.
  unfold StreamQ.StreamQueueIsEmpty, CircQ.IsEmpty in Hq. unfold StreamQ.StreamDequeue, CircQ.Dequeue.
  rewrite Hq. simpl. by rewrite set_queue_id.
Qed.
Lemma work_idle x body m : StreamQInt.count (the_int x m) = 0 → work_off x body m = inr (tt, m).
Proof. intros E. unfold work_off. rewrite bind_gets, E. reflexivity. Qed.

(** Then there is nothing to do. *)
Lemma HandleApplicationCalls_idle ts m :
  idle m → HandleApplicationCalls ts m = inr (tt, m <| wakeup_flag := false |>).
Proof.
  intros [H1 H2]. unfold HandleApplicationCalls.
  repeat first [rewrite (bind_inr _ _ _ _ _ (drain_idle _ _ m (H1 _)))
               |rewrite (bind_inr _ _ _ _ _ (work_idle _ _ m (H2 _)))].
  reflexivity.
Qed.

(** ** The bodies keep the lists *)
Lemma quiet_enqueue x p : quiet (enqueue x p).
Proof. unfold enqueue. destruct x; quiet. Qed.
Lemma quiet_dequeue x : quiet (dequeue x).
Proof. unfold dequeue. destruct x; quiet. Qed.
Lemma quiet_enqueue_int x p : quiet (enqueue_int x p).
Proof. unfold enqueue_int. destruct x; quiet. Qed.
Lemma quiet_dequeue_int x : quiet (dequeue_int x).
Proof. unfold dequeue_int. destruct x; quiet. Qed.
Hint Resolve quiet_enqueue quiet_dequeue quiet_enqueue_int quiet_dequeue_int : tcp.

Lemma keeps_handle_send b h p : h ≠ Some p → keeps b h p (handle_send p).
Proof. intros Hh. unfold handle_send. keep. Qed.
Lemma keeps_handle_ack b h ts p : keeps b h p (handle_ack ts p).
Proof. unfold handle_ack. keep. Qed.
Lemma keeps_start_close b h p : keeps b h p (start_close p).
Proof. unfold start_close. keep. Qed.
Hint Resolve keeps_start_close : tcp.
Lemma keeps_retry_close b h ts p : keeps b h p (retry_close ts p).
Proof. unfold retry_close. keep. Qed.
Lemma keeps_send_reset b h ts p : keeps b h p (send_reset ts p).
Proof. unfold send_reset. keep. Qed.
Hint Resolve keeps_send_reset : tcp.
Lemma keeps_retry_reset b h ts p : keeps b h p (retry_reset ts p).
Proof. unfold retry_reset. keep. Qed.
Lemma frees_destroy_reset p : frees false None p (destroy_reset p).
Proof. unfold destroy_reset. freeing. Qed.
Hint Resolve frees_destroy_reset : tcp.
Lemma frees_handle_close ts p : frees false None p (handle_close ts p).
Proof. unfold handle_close. freeing. Qed.
Lemma frees_handle_reset ts p : frees false None p (handle_reset ts p).
Proof. unfold handle_reset. freeing. Qed.
End App.

#[export] Hint Resolve quiet_enqueue quiet_dequeue quiet_enqueue_int quiet_dequeue_int keeps_handle_send
  keeps_handle_ack keeps_start_close keeps_send_reset keeps_retry_close keeps_retry_reset frees_destroy_reset
  frees_handle_close frees_handle_reset : tcp.
