(* ===== verification/Socket.v ===== *)
(** * Sockets

    [socket.c] and the check that every call of the interface starts with
    ([GetMTCPManager] of [api.c]).  A call returns -1 and sets [errno]
    in the application thread; [None] as the result of a call means that it
    waits for another thread. *)
From S2P Require Import Prelude CircQueue MemPool AddrPool EventQueue TcpTypes NetOut TcpLists TcpInv TcpStream TcpFrame TcpOut TcpIn App.

#[export] Existing Instance EQ.socket_type_eq_dec.
#[export] Existing Instance EQ.event_queue_type_eq_dec.

Definition EBADF : Z := 9.
Definition EAGAIN : Z := 11.
Definition ENOMEM : Z := 12.
Definition EFAULT : Z := 14.
Definition EACCES : Z := 13.
Definition EEXIST : Z := 17.
Definition EINVAL : Z := 22.
Definition ENFILE : Z := 23.
Definition ENOENT : Z := 2.
Definition EPERM : Z := 1.
Definition EINTR : Z := 4.
Definition EPIPE : Z := 32.
Definition ENOSYS : Z := 38.
Definition ENOTSOCK : Z := 88.
Definition EAFNOSUPPORT : Z := 97.
Definition EADDRINUSE : Z := 98.
Definition ECONNRESET : Z := 104.
Definition EISCONN : Z := 106.
Definition ENOTCONN : Z := 107.
Definition ETIMEDOUT : Z := 110.
Definition EALREADY : Z := 114.
Definition EINPROGRESS : Z := 115.

Definition MTCP_NONBLOCK : Z := 0x01.
Definition MTCP_ADDR_BIND : Z := 0x02.
Definition MTCP_EPOLLNONE : Z := 0.
Definition MTCP_EPOLLET : Z := Z.shiftl 1 31.

Definition is_type (sk : EQ.socket_map) (t : EQ.socket_type) : bool := bool_decide (EQ.socktype sk = t).
Definition has_opt (sk : EQ.socket_map) (o : Z) : bool := negb (Z.land (EQ.opts sk) o =? 0).
Definition registered_for (sk : EQ.socket_map) (e : Z) : bool := negb (Z.land (EQ.epoll sk) e =? 0).

Section Socket.
Context {P IO : Type} `{ChunkPool P, World IO}.
Local Abbreviation mtcp := (mtcp_manager P IO).
Local Abbreviation M := (M P IO).
Context (num_cpus : Z).
Implicit Types (m : mtcp).

Definition set_errno (e : Z) : M unit := modify (λ m, m <| errno := e |>).
Definition err (e : Z) : M Z := set_errno e ;;; ret (-1).
Definition modSock (i : Z) (f : EQ.socket_map → EQ.socket_map) : M unit :=
  sk <- getSock i ;; modify (λ m, m <| smap := <[i := f sk]> (smap m) |>).

(** [mctx] is the core of the context, [None] for a null pointer; the state is
    the manager of that core. *)
Definition GetMTCPManager (mctx : option Z) : M bool :=
  match mctx with
  | None => set_errno EINVAL ;;; ret false
  | Some cpu =>
    if (cpu <? 0) || (cpu >=? num_cpus) then set_errno EINVAL ;;; ret false
    else
      st <- gets stopping ;;
      if (st : bool) then set_errno EPERM ;;; ret false else ret true
  end.

(** The [while] loop: a socket with events that were not fetched yet goes to
    the end of the list.  After one turn the list is as before and the loop
    goes on for ever. *)
Fixpoint allocate_loop (fuel : nat) : M (option Z) :=
  match fuel with
  | O => fail FuelFault
  | S fuel =>
    l <- gets free_smap ;;
    match l with
    | [] => ret None
    | i :: l =>
      sk <- getSock i ;;
      if negb (EQ.sock_events sk =? 0)
      then modify (λ m, m <| free_smap := TAILQ_INSERT_TAIL l i |>) ;;; allocate_loop fuel
      else modify (λ m, m <| free_smap := l |>) ;;; ret (Some i)
    end
  end.
Definition AllocateSocket (socktype : EQ.socket_type) : M (option Z) :=
  l <- gets free_smap ;;
  o <- allocate_loop (S (length l)) ;;
  match o with
  | None => ret None
  | Some i =>
    modSock i (λ sk, sk <| EQ.socktype := socktype |> <| EQ.opts := 0 |> <| EQ.sock_ref := 0 |> <| EQ.epoll := 0 |>
                        <| EQ.sock_events := 0 |> <| EQ.saddr := AddrPool.mk_addr 0 0 |> <| EQ.ep_data := 0 |>) ;;;
    ret (Some i)
  end.

Definition FreeSocket (sockid : Z) : M unit :=
  sk <- getSock sockid ;;
  if is_type sk EQ.MTCP_SOCK_UNUSED then ret tt
  else
    modSock sockid (λ sk, sk <| EQ.socktype := EQ.MTCP_SOCK_UNUSED |> <| EQ.epoll := MTCP_EPOLLNONE |>
                             <| EQ.sock_events := 0 |> <| EQ.sock_ref := 0 |>) ;;;
    modify (λ m, m <| free_smap := TAILQ_INSERT_TAIL (free_smap m) sockid |>).

Definition in_table (sockid : Z) : M bool :=
  C <- gets CONFIG ;; ret ((0 <=? sockid) && (sockid <? max_concurrency C)).
Definition GetSocket (sockid : Z) : M (option EQ.socket_map) :=
  ok <- in_table sockid ;;
  if negb ok then set_errno EBADF ;;; ret None else sk <- getSock sockid ;; ret (Some sk).

(** Events of the application side go to the queues of the user. *)
Definition add_user_event (queue : EQ.event_queue_type) (i event : Z) : M unit :=
  e <- gets ep ;; _ <- add_event e queue i event ;; ret tt.

(** ** The checks of a call *)
Lemma GetMTCPManager_run cpu m : 0 <= cpu < num_cpus → stopping m = false → GetMTCPManager (Some cpu) m = inr (true, m).
Proof.
  intros Hc E. unfold GetMTCPManager. rewrite (proj2 (Z.ltb_ge cpu 0)), Z.geb_leb, (proj2 (Z.leb_gt _ _)) by lia.
  cbn [orb]. by rewrite bind_gets, E.
Qed.
Lemma getSock_run m i sk : smap m !! i = Some sk → getSock i m = inr (sk, m).
Proof. intros E. unfold getSock. rewrite bind_gets. unfold lift. by rewrite E. Qed.
Lemma GetSocket_run m i sk :
  smap m !! i = Some sk → 0 <= i < max_concurrency (CONFIG m) → GetSocket i m = inr (Some sk, m).
Proof.
  intros E Hi. unfold GetSocket, in_table. unfold bind at 1. rewrite bind_gets.
  rewrite (proj2 (Z.leb_le 0 i)), (proj2 (Z.ltb_lt i _)) by lia. cbv beta iota delta [ret negb andb].
  by rewrite (bind_inr _ _ _ _ _ (getSock_run m i sk E)).
Qed.

(** ** Reporting an event to the application *)

(** Events can be added: there is no epoll structure, or its queues are
    consistent. *)
Definition events_ok m : Prop :=
  ep m = 0 ∨ ∃ x, epolls m !! ep m = Some x ∧ ∀ t, EQ.eq_ok (EQ.get_queue x t).
(** What it leaves: the epoll structures and the pending events of the sockets
    are all that changes. *)
Definition reported m m' : Prop :=
  ∃ es sm, m' = m <| epolls := es |> <| smap := sm |> ∧ events_ok m'
    ∧ ∀ i sk, smap m !! i = Some sk → ∃ ev, sm !! i = Some (sk <| EQ.sock_events := ev |>).

Lemma reported_events m m' : reported m m' → events_ok m'.
Proof. by intros (es&sm&_&He&_). Qed.
Lemma reported_refl m : events_ok m → reported m m.
Proof.
  intros He. exists (epolls m), (smap m). split; [by destruct m|]. split; [done|]. intros i sk E.
  exists (EQ.sock_events sk). rewrite E. by destruct sk.
Qed.
Lemma reported_trans m1 m2 m3 : reported m1 m2 → reported m2 m3 → reported m1 m3.
Proof.
  intros (es&sm&->&_&H1) (es'&sm'&->&He&H2). exists es', sm'. split; [by destruct m1|]. split; [done|].
  intros i sk E. destruct (H1 i sk E) as [ev E']. destruct (H2 i _ E') as [ev' E'']. by exists ev'.
Qed.

Lemma add_user_event_reports q i event m :
  events_ok m → is_Some (smap m !! i) → event ≠ 0 →
  ∃ m', add_user_event q i event m = inr (tt, m') ∧ reported m m'.
Proof.
  intros He [sk Hs] Hv. unfold add_user_event, add_event, getSock, bind, gets, lift, ret. rewrite Hs. cbv beta iota.
  destruct (Z.eqb_spec (ep m) 0) as [E|E]; [by exists m; split; [|apply reported_refl]|].
  destruct He as [?|(x&Ex&Hx)]; [done|]. rewrite Ex. unfold ret. cbv beta iota.
  destruct (EQ.AddEpollEvent_spec x q sk event (Hx q) Hv) as (r&x'&sk'&->&Hok&Hoth&Hsk). cbv beta iota.
  eexists. split; [reflexivity|]. do 2 eexists. split; [reflexivity|]. split.
  - right. exists x'. rec_simpl. split; [by rewrite lookup_insert_eq|]. intros t. destruct (decide (q = t)) as [<-|]; [done|].
    by rewrite Hoth.
  - intros j skj Hj. destruct (decide (i = j)) as [<-|].
    + simplify_eq. rewrite lookup_insert_eq. destruct (negb _); [|destruct (_ =? _)]; destruct Hsk as (_&->&_).
      1,2: exists (EQ.sock_events sk); by destruct sk. by eexists.
    + rewrite lookup_insert_ne by done. exists (EQ.sock_events skj). rewrite Hj. by destruct skj.
Qed.
Lemma when_event_reports (b : bool) q i event m :
  events_ok m → is_Some (smap m !! i) → event ≠ 0 →
  ∃ m', when b (add_user_event q i event) m = inr (tt, m') ∧ reported m m'.
Proof.
  intros He Hs Hv. destruct b; [by apply add_user_event_reports|]. exists m. split; [done|by apply reported_refl].
Qed.
End Socket.
