(* ===== verification/Pipe.v ===== *)
(** * Pipes

    [pipe.c]: pairs of sockets connected by a ring of bytes.  [None] as the
    result of a call means that it waits on the condition variable; it goes on
    with the same test when it is woken up. *)
From S2P Require Import Prelude MemPool AddrPool EventQueue TcpTypes NetOut TcpLists TcpInv TcpStream TcpFrame TcpOut TcpIn Socket.

Definition PIPE_BUF_SIZE : Z := 10240.

(** ** The ring of a pipe *)

(** Writing [bs] behind the tail, around the end of the buffer. *)
Definition pipe_put (pp : pipe) (bs : list Z) : option pipe :=
  let n := Z.of_nat (length bs) in
  pp ← (if buf_tail pp + n <? buf_size pp then
          b ← mem_write (pp_buf pp) (buf_tail pp) bs;
          Some (pp <| pp_buf := b |> <| buf_tail := buf_tail pp + n |>)
        else
          let temp_write := buf_size pp - buf_tail pp in
          head ← mem_read bs 0 temp_write;
          rest ← mem_read bs temp_write (n - temp_write);
          b ← mem_write (pp_buf pp) (buf_tail pp) head;
          b ← mem_write b 0 rest;
          Some (pp <| pp_buf := b |> <| buf_tail := n - temp_write |>));
  Some (pp <| buf_len := buf_len pp + n |>).

(** Reading [n] bytes from the offset on. *)
Definition pipe_get (pp : pipe) (n : Z) : option (list Z * pipe) :=
  '(bs, pp) ← (if buf_off pp + n <? buf_size pp then
                 bs ← mem_read (pp_buf pp) (buf_off pp) n;
                 Some (bs, pp <| buf_off := buf_off pp + n |>)
               else
                 let temp_read := buf_size pp - buf_off pp in
                 head ← mem_read (pp_buf pp) (buf_off pp) temp_read;
                 rest ← mem_read (pp_buf pp) 0 (n - temp_read);
                 Some (head ++ rest, pp <| buf_off := n - temp_read |>));
  Some (bs, pp <| buf_len := buf_len pp - n |>).

Section Pipe.
Context {P IO : Type} `{ChunkPool P, World IO}.
Local Abbreviation mtcp := (mtcp_manager P IO).
Local Abbreviation M := (M P IO).
Context (num_cpus : Z).

(** ** The calls *)
Definition getP (a : Z) : M pipe := ps <- gets pipes ;; lift SocketFault (ps !! a).
Definition setP (a : Z) (pp : pipe) : M unit := modify (λ m, m <| pipes := <[a := pp]> (pipes m) |>).

(** [threads_ok]: the mutex and the condition variable could be created. *)
Definition mtcp_pipe (threads_ok : bool) : M (Z * option (Z * Z)) :=
  s0 <- AllocateSocket EQ.MTCP_SOCK_PIPE ;;
  match s0 with
  | None => r <- err ENFILE ;; ret (r, None)
  | Some i0 =>
    s1 <- AllocateSocket EQ.MTCP_SOCK_PIPE ;;
    match s1 with
    | None => FreeSocket i0 ;;; r <- err ENFILE ;; ret (r, None)
    | Some i1 =>
      pp <- heap_alloc ;;
      match pp with
      | None => FreeSocket i0 ;;; FreeSocket i1 ;;; ret (-1, None)
      | Some a =>
        buf <- heap_alloc ;;
        if bool_decide (buf = None) || negb threads_ok then FreeSocket i0 ;;; FreeSocket i1 ;;; ret (-1, None)
        else
          w <- gets io ;;
          setP a (mk_pipe PIPE_ACTIVE (i0, i1) (stale_bytes w PIPE_BUF_SIZE) 0 0 0 PIPE_BUF_SIZE) ;;;
          modSock i0 (λ sk, sk <| EQ.sock_ref := a |>) ;;;
          modSock i1 (λ sk, sk <| EQ.sock_ref := a |>) ;;;
          ret (0, Some (i0, i1))
      end
    end
  end.

(** A blocking reader or writer at the other end is signalled. *)
Definition RaiseEventToPair (sockid event : Z) (pp : pipe) : M unit :=
  let pair := if (pp_socket pp).1 =? sockid then (pp_socket pp).2 else (pp_socket pp).1 in
  sk <- getSock pair ;;
  when (has_opt sk MTCP_NONBLOCK && negb (EQ.epoll sk =? 0)) (add_user_event EQ.USR_EVENT_QUEUE pair event).

(** The checks that [PipeRead] and [PipeWrite] share: the socket, the address
    of the pipe and the pipe; otherwise the call returns -1. *)
Definition pipe_of (mctx : option Z) (pipeid : Z) : M (option (EQ.socket_map * Z * pipe)) :=
  ok <- GetMTCPManager num_cpus mctx ;;
  if negb ok then ret None
  else
    o <- GetSocket pipeid ;;
    match o with
    | None => ret None
    | Some sk =>
      if negb (is_type sk EQ.MTCP_SOCK_PIPE) then set_errno EBADF ;;; ret None
      else if EQ.sock_ref sk =? 0 then set_errno EBADF ;;; ret None
      else
        pp <- getP (EQ.sock_ref sk) ;;
        if bool_decide (pp_state pp = PIPE_CLOSED) then set_errno EINVAL ;;; ret None
        else ret (Some (sk, EQ.sock_ref sk, pp))
    end.

(** Nothing to transfer: -1 for a nonblocking socket, else 0. *)
Definition nothing (sk : EQ.socket_map) : M Z := if has_opt sk MTCP_NONBLOCK then err EAGAIN else ret 0.

(** The result and the bytes read. *)
Definition PipeRead (mctx : option Z) (pipeid len : Z) : M (option (Z * list Z)) :=
  o <- pipe_of mctx pipeid ;;
  match o with
  | None => ret (Some (-1, []))
  | Some (sk, a, pp) =>
    if bool_decide (pp_state pp = PIPE_CLOSE_WAIT) && (buf_len pp =? 0) then ret (Some (0, []))
    else if len <=? 0 then r <- nothing sk ;; ret (Some (r, []))
    else if negb (has_opt sk MTCP_NONBLOCK) && (buf_len pp =? 0) then ret None
    else
      let to_read := Z.min len (buf_len pp) in
      if to_read <=? 0 then r <- err EAGAIN ;; ret (Some (r, []))
      else
        let to_notify := buf_len pp =? buf_size pp in
        '(bs, pp) <- lift BufferFault (pipe_get pp to_read) ;;
        setP a pp ;;;
        when to_notify (RaiseEventToPair pipeid EQ.MTCP_EPOLLOUT pp) ;;;
        (if buf_len pp >? 0 then
           when (registered_for sk EQ.MTCP_EPOLLIN && negb (registered_for sk MTCP_EPOLLET))
             (add_user_event EQ.USR_SHADOW_EVENT_QUEUE pipeid EQ.MTCP_EPOLLIN)
         else
           when (bool_decide (pp_state pp = PIPE_CLOSE_WAIT) && (buf_len pp =? 0))
             (add_user_event EQ.USR_SHADOW_EVENT_QUEUE pipeid EQ.MTCP_EPOLLIN)) ;;;
        ret (Some (to_read, bs))
  end.

(** [buf] holds the [len] bytes of the caller. *)
Definition PipeWrite (mctx : option Z) (pipeid : Z) (buf : list Z) : M (option Z) :=
  o <- pipe_of mctx pipeid ;;
  match o with
  | None => ret (Some (-1))
  | Some (sk, a, pp) =>
    let len := s32 (Z.of_nat (length buf)) in
    if bool_decide (pp_state pp = PIPE_CLOSE_WAIT) then r <- err EPIPE ;; ret (Some r)
    else if len <=? 0 then r <- nothing sk ;; ret (Some r)
    else if negb (has_opt sk MTCP_NONBLOCK) && (buf_len pp =? buf_size pp) then ret None
    else
      let to_write := Z.min len (buf_size pp - buf_len pp) in
      if to_write <=? 0 then r <- err EAGAIN ;; ret (Some r)
      else
        let to_notify := buf_len pp =? 0 in
        pp <- lift BufferFault (pipe_put pp (take (Z.to_nat to_write) buf)) ;;
        setP a pp ;;;
        when to_notify (RaiseEventToPair pipeid EQ.MTCP_EPOLLIN pp) ;;;
        when ((buf_len pp <? buf_size pp) && (registered_for sk EQ.MTCP_EPOLLOUT && negb (registered_for sk MTCP_EPOLLET)))
          (add_user_event EQ.USR_SHADOW_EVENT_QUEUE pipeid EQ.MTCP_EPOLLOUT) ;;;
        ret (Some to_write)
  end.

(** [ep] is the epoll structure of the socket [epid]. *)
Definition RaisePendingPipeEvents (ep pipeid : Z) : M Z :=
  sk <- getSock pipeid ;;
  if EQ.sock_ref sk =? 0 then ret (-1)
  else
    pp <- getP (EQ.sock_ref sk) ;;
    if bool_decide (pp_state pp = PIPE_CLOSED) then ret (-1)
    else
      when (registered_for sk EQ.MTCP_EPOLLIN && ((buf_len pp >? 0) || bool_decide (pp_state pp = PIPE_CLOSE_WAIT)))
        (_ <- add_event ep EQ.USR_SHADOW_EVENT_QUEUE pipeid EQ.MTCP_EPOLLIN ;; ret tt) ;;;
      when (registered_for sk EQ.MTCP_EPOLLOUT && (buf_len pp <? buf_size pp))
        (_ <- add_event ep EQ.USR_SHADOW_EVENT_QUEUE pipeid EQ.MTCP_EPOLLOUT ;; ret tt) ;;;
      ret 0.

(** The first end to close leaves the pipe to the other one. *)
Definition PipeClose (mctx : option Z) (pipeid : Z) : M Z :=
  ok <- GetMTCPManager num_cpus mctx ;;
  if negb ok then ret (-1)
  else
    o <- GetSocket pipeid ;;
    match o with
    | None => ret (-1)
    | Some sk =>
      if negb (is_type sk EQ.MTCP_SOCK_PIPE) then err EINVAL
      else if EQ.sock_ref sk =? 0 then ret 0
      else
        let a := EQ.sock_ref sk in
        pp <- getP a ;;
        match pp_state pp with
        | PIPE_CLOSED => ret 0
        | PIPE_ACTIVE =>
          let pp := pp <| pp_state := PIPE_CLOSE_WAIT |> in
          setP a pp ;;; RaiseEventToPair pipeid EQ.MTCP_EPOLLIN pp ;;; ret 0
        | PIPE_CLOSE_WAIT =>
          modSock (pp_socket pp).1 (λ sk, sk <| EQ.sock_ref := 0 |>) ;;;
          modSock (pp_socket pp).2 (λ sk, sk <| EQ.sock_ref := 0 |>) ;;;
          modify (λ m, m <| pipes := delete a (pipes m) |>) ;;;
          ret 0
        end
    end.
End Pipe.
