(* ===== verification/Epoll.v ===== *)
(** * The epoll interface

    [mtcp_epoll_create], [mtcp_epoll_ctl] and [mtcp_epoll_wait] of
    [eventpoll.c] on the sockets of the thread; the queues themselves are in
    [EventQueue].  [None] as the result of [mtcp_epoll_wait] means that the
    caller sleeps on the condition variable. *)
From S2P Require Import Prelude MemPool RingBuffer AddrPool EventQueue TcpTypes NetOut TcpLists TcpInv TcpStream TcpFrame TcpOut TcpIn.
From S2P Require Import Socket Pipe.

Definition O_CLOEXEC : Z := 0x80000.
Definition MTCP_EPOLL_CTL_ADD : Z := 1.
Definition MTCP_EPOLL_CTL_DEL : Z := 2.
Definition MTCP_EPOLL_CTL_MOD : Z := 3.

Section Epoll.
Context {P IO : Type} `{ChunkPool P, World IO}.
Local Abbreviation mtcp := (mtcp_manager P IO).
Local Abbreviation M := (M P IO).
Context (num_cpus : Z).
Implicit Types (m : mtcp).

(** ** Creation and destruction *)
Definition create_queue (size : Z) : M (option EQ.event_queue) :=
  a <- heap_alloc ;;
  match a with
  | None => ret None
  | Some _ => b <- heap_alloc ;; ret (EQ.CreateEventQueue true (bool_decide (is_Some b)) size)
  end.
Definition no_stat : EQ.mtcp_epoll_stat := EQ.mk_stat 0 0 0 0 0 0 0 0 0.

(** [threads_ok]: the mutex and the condition variable could be created; if
    not, the structure is freed while [mtcp->ep] still points to it. *)
Definition mtcp_epoll_create (threads_ok : bool) (size : Z) : M Z :=
  if size <=? 0 then err EINVAL
  else
    o <- AllocateSocket EQ.MTCP_SOCK_EPOLL ;;
    match o with
    | None => err ENFILE
    | Some i =>
      e <- heap_alloc ;;
      match e with
      | None => FreeSocket i ;;; ret (-1)
      | Some a =>
        usr <- create_queue size ;;
        match usr with
        | None => FreeSocket i ;;; ret (-1)
        | Some usr =>
          shadow <- create_queue size ;;
          match shadow with
          | None => FreeSocket i ;;; ret (-1)
          | Some shadow =>
            q <- create_queue size ;;
            match q with
            | None => FreeSocket i ;;; ret (-1)
            | Some q =>
              modify (λ m, m <| epolls := <[a := EQ.mk_epoll usr shadow q false no_stat]> (epolls m) |>
                             <| ep := a |>) ;;;
              modSock i (λ sk, sk <| EQ.sock_ref := a |>) ;;;
              if negb threads_ok then
                FreeSocket i ;;; modify (λ m, m <| epolls := delete a (epolls m) |>) ;;; ret (-1)
              else ret i
            end
          end
        end
      end
    end.

Definition mtcp_epoll_create1 (threads_ok : bool) (flags : Z) : M Z :=
  C <- gets CONFIG ;;
  if (flags =? 0) || (flags =? O_CLOEXEC) then mtcp_epoll_create threads_ok (max_concurrency C * 3)
  else err EINVAL.

Definition CloseEpollSocket (mctx : option Z) (epid : Z) : M Z :=
  ok <- GetMTCPManager num_cpus mctx ;;
  if negb ok then ret (-1)
  else
    sk <- getSock epid ;;
    if EQ.sock_ref sk =? 0 then err EINVAL
    else
      es <- gets epolls ;;
      _ <- lift SocketFault (es !! EQ.sock_ref sk) ;;
      modify (λ m, m <| ep := 0 |> <| epolls := delete (EQ.sock_ref sk) (epolls m) |>) ;;;
      modSock epid (λ sk, sk <| EQ.sock_ref := 0 |>) ;;;
      ret 0.

(** ** Registration *)

(** What a stream has to report when it is registered. *)
Definition RaisePendingStreamEvents (ep sockid : Z) : M Z :=
  sk <- getSock sockid ;;
  if EQ.sock_ref sk =? 0 then ret (-1)
  else
    s <- getS (EQ.sock_ref sk) ;;
    if st_num (state s) <? st_num TCP_ST_ESTABLISHED then ret (-1)
    else
      let payload := match rcvbuf (rcvvar s) with Some b => RB.merged_len b >? 0 | None => false end in
      when (registered_for sk EQ.MTCP_EPOLLIN && (payload || st_eqb (state s) TCP_ST_CLOSE_WAIT))
        (_ <- add_event ep EQ.USR_SHADOW_EVENT_QUEUE sockid EQ.MTCP_EPOLLIN ;; ret tt) ;;;
      sk <- getSock sockid ;;
      let room := match sndbuf (sndvar s) with Some _ => snd_wnd (sndvar s) >? 0 | None => true end in
      when (registered_for sk EQ.MTCP_EPOLLOUT && (room && (Z.land (EQ.sock_events sk) EQ.MTCP_EPOLLOUT =? 0)))
        (_ <- add_event ep EQ.USR_SHADOW_EVENT_QUEUE sockid EQ.MTCP_EPOLLOUT ;; ret tt) ;;;
      ret 0.

(** Registering [sockid] for [events] with [data], and its pending events. *)
Definition register (ep sockid events data : Z) : M Z :=
  modSock sockid (λ sk, sk <| EQ.ep_data := data |>
                           <| EQ.epoll := Z.lor events (Z.lor EQ.MTCP_EPOLLERR EQ.MTCP_EPOLLHUP) |>) ;;;
  sk <- getSock sockid ;;
  (if is_type sk EQ.MTCP_SOCK_STREAM then RaisePendingStreamEvents ep sockid ;;; ret tt
   else when (is_type sk EQ.MTCP_SOCK_PIPE) (RaisePendingPipeEvents ep sockid ;;; ret tt)) ;;;
  ret 0.

(** [event] is the pair of the events and the data, [None] for a null pointer. *)
Definition mtcp_epoll_ctl (mctx : option Z) (epid op sockid : Z) (event : option (Z * Z)) : M Z :=
  ok <- GetMTCPManager num_cpus mctx ;;
  if negb ok then ret (-1)
  else
    ok <- in_table epid ;;
    if negb ok then err EBADF
    else
      ok <- in_table sockid ;;
      if negb ok then err EBADF
      else
        esk <- getSock epid ;;
        if is_type esk EQ.MTCP_SOCK_UNUSED then err EBADF
        else if negb (is_type esk EQ.MTCP_SOCK_EPOLL) then err EINVAL
        else if (EQ.sock_ref esk =? 0) || (bool_decide (event = None) && negb (op =? MTCP_EPOLL_CTL_DEL)) then err EINVAL
        else
          let ep := EQ.sock_ref esk in
          let '(events, data) := default (0, 0) event in
          sk <- getSock sockid ;;
          if op =? MTCP_EPOLL_CTL_ADD then
            if negb (EQ.epoll sk =? 0) then err EEXIST else register ep sockid events data
          else if op =? MTCP_EPOLL_CTL_MOD then
            if EQ.epoll sk =? 0 then err ENOENT else register ep sockid events data
          else if op =? MTCP_EPOLL_CTL_DEL then
            if EQ.epoll sk =? 0 then err ENOENT
            else modSock sockid (λ sk, sk <| EQ.epoll := MTCP_EPOLLNONE |>) ;;; ret 0
          else ret 0.

(** ** Waiting *)

(** The socket table as an array. *)
Definition smap_array : M (list EQ.socket_map) :=
  C <- gets CONFIG ;; sm <- gets smap ;; ret (omap (λ i, sm !! i) (seqZ 0 (max_concurrency C))).
Definition set_smap_array (l : list EQ.socket_map) : M unit :=
  modify (λ m, m <| smap := list_to_map (zip (seqZ 0 (Z.of_nat (length l))) l) ∪ smap m |>).

Definition modE (a : Z) (f : EQ.mtcp_epoll → EQ.mtcp_epoll) : M unit :=
  es <- gets epolls ;; x <- lift SocketFault (es !! a) ;; modify (λ m, m <| epolls := <[a := f x]> (epolls m) |>).

(** Fetching from one queue into the remaining room. *)
Definition fetch (a : Z) (queue : EQ.event_queue_type) (room : Z) : M (list EQ.mtcp_epoll_event_int) :=
  es <- gets epolls ;;
  x <- lift SocketFault (es !! a) ;;
  sm <- smap_array ;;
  let eq := EQ.get_queue x queue in
  '(evs, eq, sm) <- lift SocketFault (EQ.fetch_loop (Z.to_nat (EQ.size eq)) sm eq room) ;;
  modify (λ m, m <| epolls := <[a := EQ.set_queue x queue eq]> (epolls m) |>) ;;;
  set_smap_array sm ;;;
  ret evs.

(** From the label [wait] on: [None] when the caller goes to sleep.  A round
    that finds only invalid events leaves both queues empty, so the next one
    sleeps. *)
Fixpoint wait_loop (fuel : nat) (a maxevents timeout : Z) : M (option (Z * list EQ.mtcp_epoll_event_int)) :=
  match fuel with
  | O => fail FuelFault
  | S fuel =>
    es <- gets epolls ;;
    x <- lift SocketFault (es !! a) ;;
    if (EQ.start (EQ.usr_queue x) =? EQ.eend (EQ.usr_queue x))
       && (EQ.start (EQ.usr_shadow_queue x) =? EQ.eend (EQ.usr_shadow_queue x)) && negb (timeout =? 0)
    then modE a (λ x, x <| EQ.waiting := true |>) ;;; ret None
    else
      l1 <- fetch a EQ.USR_EVENT_QUEUE maxevents ;;
      l2 <- fetch a EQ.USR_SHADOW_EVENT_QUEUE (maxevents - Z.of_nat (length l1)) ;;
      let l := l1 ++ l2 in
      if bool_decide (l = []) && negb (timeout =? 0) then wait_loop fuel a maxevents timeout
      else ret (Some (Z.of_nat (length l), l))
  end.

Definition mtcp_epoll_wait (mctx : option Z) (epid : Z) (events_ok : bool) (maxevents timeout : Z)
  : M (option (Z * list EQ.mtcp_epoll_event_int)) :=
  ok <- GetMTCPManager num_cpus mctx ;;
  if negb ok then ret (Some (-1, []))
  else
    ok <- in_table epid ;;
    if negb ok then r <- err EBADF ;; ret (Some (r, []))
    else
      sk <- getSock epid ;;
      if is_type sk EQ.MTCP_SOCK_UNUSED then r <- err EBADF ;; ret (Some (r, []))
      else if negb (is_type sk EQ.MTCP_SOCK_EPOLL) then r <- err EINVAL ;; ret (Some (r, []))
      else if (EQ.sock_ref sk =? 0) || negb events_ok || (maxevents <=? 0) then r <- err EINVAL ;; ret (Some (r, []))
      else wait_loop 3 (EQ.sock_ref sk) maxevents timeout.

(** The sleeper wakes up; a positive timeout is over then. *)
Definition epoll_wake (a maxevents timeout : Z) : M (option (Z * list EQ.mtcp_epoll_event_int)) :=
  let timeout := if timeout >? 0 then 0 else timeout in
  modE a (λ x, x <| EQ.waiting := false |>) ;;;
  st <- gets stopping ;;
  intr <- gets interrupt ;;
  if st || intr then
    modify (λ m, m <| interrupt := false |>) ;;;
    r <- err EINTR ;;
    ret (Some (r, []))
  else wait_loop 3 a maxevents timeout.
End Epoll.
