(* ===== verification/Api.v ===== *)
(** * The socket interface

    [api.c]: the calls of the application.  Each call runs in an application
    thread on the manager of its core; what concerns the stack thread is put
    into the queues that [App] empties.  [None] as the result of a call means
    that it waits for the stack thread; the steps it then takes are separate
    definitions.  The calls for the network card ([mtcp_io_flush],
    [mtcp_burst_packets]) only call the driver. *)
From S2P Require Import Prelude CircQueue MemPool RingBuffer SendBuffer FlowHash Rss AddrPool EventQueue TcpTypes NetOut TcpLists TcpInv TcpStream.
From S2P Require Import TcpFrame TcpOut TcpIn App Socket Pipe Epoll.

Definition AF_INET : Z := 2.
Definition SOCK_STREAM : Z := 1.
Definition SOL_SOCKET : Z := 1.
Definition SO_ERROR : Z := 4.
Definition FIONREAD : Z := 0x541B.
Definition FIONBIO : Z := 0x5421.
Definition MSG_PEEK : Z := 2.
Definition sizeof_sockaddr_in : Z := 16.

(** The addresses that a [bind] or [connect] gets: family and address. *)
Record sockaddr := mk_sockaddr { sa_family : Z; sa_in : AddrPool.sockaddr_in }.

Section Api.
Context {P IO : Type} `{ChunkPool P, World IO}.
Local Abbreviation mtcp := (mtcp_manager P IO).
Local Abbreviation M := (M P IO).
Context (num_cpus num_queues : Z) (endian : bool).
Implicit Types (m : mtcp).

(** A call on the socket [sockid] of the table; otherwise -1. *)
Definition on_socket (mctx : option Z) (sockid : Z) (k : EQ.socket_map → M Z) : M Z :=
  ok <- GetMTCPManager num_cpus mctx ;;
  if negb ok then ret (-1)
  else
    ok <- in_table sockid ;;
    if negb ok then err EBADF else sk <- getSock sockid ;; k sk.
Definition on_used (mctx : option Z) (sockid : Z) (k : EQ.socket_map → M Z) : M Z :=
  on_socket mctx sockid (λ sk, if is_type sk EQ.MTCP_SOCK_UNUSED then err EBADF else k sk).
Definition end_or_listener (sk : EQ.socket_map) : bool :=
  is_type sk EQ.MTCP_SOCK_LISTENER || is_type sk EQ.MTCP_SOCK_STREAM.

(** ** Options and addresses *)

(** The result and the error stored for the caller. *)
Definition GetSocketError (sk : EQ.socket_map) : M (Z * option Z) :=
  if EQ.sock_ref sk =? 0 then r <- err EBADF ;; ret (r, None)
  else
    s <- getS (EQ.sock_ref sk) ;;
    e <- gets errno ;;
    let lost := match close_reason s with TCP_TIMEDOUT | TCP_CONN_FAIL | TCP_CONN_LOST => true | _ => false end in
    let reset := match close_reason s with TCP_RESET => true | _ => false end in
    if st_eqb (state s) TCP_ST_CLOSED && lost then ret (0, Some ETIMEDOUT)
    else if (st_eqb (state s) TCP_ST_CLOSE_WAIT || st_eqb (state s) TCP_ST_CLOSED) && reset
    then ret (0, Some ECONNRESET)
    else if st_eqb (state s) TCP_ST_SYN_SENT && (e =? EINPROGRESS) then ret (-1, Some e)
    else match close_reason s with
         | TCP_NOT_CLOSED => ret (0, Some 0)
         | _ => r <- err ENOSYS ;; ret (r, None)
         end.

Definition mtcp_getsockname (mctx : option Z) (sockid addrlen : Z) : M (Z * option AddrPool.sockaddr_in) :=
  ok <- GetMTCPManager num_cpus mctx ;;
  if negb ok then ret (-1, None)
  else
    ok <- in_table sockid ;;
    if negb ok then r <- err EBADF ;; ret (r, None)
    else
      sk <- getSock sockid ;;
      if is_type sk EQ.MTCP_SOCK_UNUSED then r <- err EBADF ;; ret (r, None)
      else if addrlen <=? 0 then r <- err EINVAL ;; ret (r, None)
      else if negb (end_or_listener sk) then r <- err ENOTSOCK ;; ret (r, None)
      else ret (0, Some (EQ.saddr sk)).

(** For a listening socket the union holds the listener, which is read as a
    stream. *)
Definition mtcp_getpeername (mctx : option Z) (sockid addrlen : Z) : M (Z * option AddrPool.sockaddr_in) :=
  ok <- GetMTCPManager num_cpus mctx ;;
  if negb ok then ret (-1, None)
  else
    ok <- in_table sockid ;;
    if negb ok then r <- err EBADF ;; ret (r, None)
    else
      sk <- getSock sockid ;;
      if is_type sk EQ.MTCP_SOCK_UNUSED then r <- err EBADF ;; ret (r, None)
      else if addrlen <=? 0 then r <- err EINVAL ;; ret (r, None)
      else if negb (end_or_listener sk) then r <- err ENOTSOCK ;; ret (r, None)
      else if EQ.sock_ref sk =? 0 then r <- err ENOTCONN ;; ret (r, None)
      else
        s <- getS (EQ.sock_ref sk) ;;
        if negb (st_eqb (state s) TCP_ST_ESTABLISHED) then r <- err ENOTCONN ;; ret (r, None)
        else ret (0, Some (AddrPool.mk_addr (daddr s) (dport s))).

Definition mtcp_getsockopt (mctx : option Z) (sockid level optname : Z) : M (Z * option Z) :=
  ok <- GetMTCPManager num_cpus mctx ;;
  if negb ok then ret (-1, None)
  else
    ok <- in_table sockid ;;
    if negb ok then r <- err EBADF ;; ret (r, None)
    else
      sk <- getSock sockid ;;
      if is_type sk EQ.MTCP_SOCK_UNUSED then r <- err EBADF ;; ret (r, None)
      else if negb (end_or_listener sk) then r <- err ENOTSOCK ;; ret (r, None)
      else if (level =? SOL_SOCKET) && (optname =? SO_ERROR) && is_type sk EQ.MTCP_SOCK_STREAM then GetSocketError sk
      else r <- err ENOSYS ;; ret (r, None).

Definition mtcp_setsockopt (mctx : option Z) (sockid : Z) : M Z :=
  on_used mctx sockid (λ sk, if negb (end_or_listener sk) then err ENOTSOCK else ret 0).

Definition mtcp_setsock_nonblock (mctx : option Z) (sockid : Z) : M Z :=
  on_used mctx sockid (λ _, modSock sockid (λ sk, sk <| EQ.opts := Z.lor (EQ.opts sk) MTCP_NONBLOCK |>) ;;; ret 0).

(** [argp] is the value behind the pointer, [None] for a null pointer; the
    result has the value stored there.  The union is read as a stream, for
    listening sockets too. *)
Definition mtcp_socket_ioctl (mctx : option Z) (sockid request : Z) (argp : option Z) : M (Z * option Z) :=
  ok <- GetMTCPManager num_cpus mctx ;;
  if negb ok then ret (-1, None)
  else
    ok <- in_table sockid ;;
    if negb ok then r <- err EBADF ;; ret (r, None)
    else
      sk <- getSock sockid ;;
      if negb (end_or_listener sk) then r <- err EBADF ;; ret (r, None)
      else
        match argp with
        | None => r <- err EFAULT ;; ret (r, None)
        | Some arg =>
          if request =? FIONREAD then
            if EQ.sock_ref sk =? 0 then r <- err EBADF ;; ret (r, None)
            else
              s <- getS (EQ.sock_ref sk) ;;
              ret (0, Some (match rcvbuf (rcvvar s) with Some b => RB.merged_len b | None => 0 end))
          else if request =? FIONBIO then
            if negb (arg =? 0) then r <- mtcp_setsock_nonblock mctx sockid ;; ret (r, None) else ret (0, None)
          else r <- err EINVAL ;; ret (r, None)
        end.

(** ** Opening *)
Definition mtcp_socket (mctx : option Z) (domain type : Z) : M Z :=
  ok <- GetMTCPManager num_cpus mctx ;;
  if negb ok then ret (-1)
  else if negb (domain =? AF_INET) then err EAFNOSUPPORT
  else if negb (type =? SOCK_STREAM) then err EINVAL
  else
    o <- AllocateSocket EQ.MTCP_SOCK_STREAM ;;
    match o with
    | None => err ENFILE
    | Some i => sk <- getSock i ;; ret (EQ.sock_id sk)
    end.

Definition mtcp_bind (mctx : option Z) (sockid : Z) (addr : option sockaddr) (addrlen : Z) : M Z :=
  on_used mctx sockid (λ sk,
    if negb (end_or_listener sk) then err ENOTSOCK
    else match addr with
    | None => err EINVAL
    | Some a =>
      if has_opt sk MTCP_ADDR_BIND then err EINVAL
      else if negb (sa_family a =? AF_INET) || (addrlen <? sizeof_sockaddr_in) then err EINVAL
      else
        modSock sockid (λ sk, sk <| EQ.saddr := sa_in a |> <| EQ.opts := Z.lor (EQ.opts sk) MTCP_ADDR_BIND |>) ;;;
        ret 0
    end).

(** [threads_ok]: the mutex and the condition variable could be created. *)
Definition mtcp_listen (mctx : option Z) (threads_ok : bool) (sockid backlog : Z) : M Z :=
  on_used mctx sockid (λ sk,
    when (is_type sk EQ.MTCP_SOCK_STREAM) (modSock sockid (λ sk, sk <| EQ.socktype := EQ.MTCP_SOCK_LISTENER |>)) ;;;
    sk <- getSock sockid ;;
    C <- gets CONFIG ;;
    if negb (is_type sk EQ.MTCP_SOCK_LISTENER) then err ENOTSOCK
    else if (backlog <=? 0) || (backlog >? max_concurrency C) then err EINVAL
    else
      ls <- gets listeners ;;
      let port := AddrPool.sin_port (EQ.saddr sk) in
      match FlowHash.ListenerHTSearch ls port with
      | Some _ => err EADDRINUSE
      | None =>
        o <- heap_alloc ;;
        match o with
        | None => ret (-1)
        | Some a =>
          if negb threads_ok then ret (-1)
          else
            desc <- heap_alloc ;;
            slots <- heap_alloc ;;
            match StreamQ.CreateStreamQueue backlog (bool_decide (is_Some desc)) (bool_decide (is_Some slots)) with
            | None => err ENOMEM
            | Some q =>
              modify (λ m, m <| listener := <[a := mk_listener sockid q]> (listener m) |>) ;;;
              modSock sockid (λ sk, sk <| EQ.sock_ref := a |>) ;;;
              modify (λ m, m <| listeners := (FlowHash.ListenerHTInsert (listeners m) (FlowHash.mk_item a port)).2 |>) ;;;
              ret 0
            end
        end
      end).

(** Dequeuing from the accept queue of the listener [a]. *)
Definition accept_dequeue (a : Z) : M (option Z) :=
  ls <- gets listener ;;
  l <- lift ListenerFault (ls !! a) ;;
  let '(o, q) := StreamQ.StreamDequeue (acceptq l) in
  modify (λ m, m <| listener := <[a := l <| acceptq := q |>]> (listener m) |>) ;;;
  ret o.

(** The socket of an accepted stream, or [ENFILE]; a stream keeps the one it
    has. *)
Definition accept_socket (p : Z) : M (option Z) :=
  s <- getS p ;;
  match socket s with
  | Some i => ret (Some i)
  | None =>
    o <- AllocateSocket EQ.MTCP_SOCK_STREAM ;;
    match o with
    | None => ret None
    | Some i =>
      modSock i (λ sk, sk <| EQ.sock_ref := p |>) ;;;
      modS p (λ s, s <| socket := Some i |>) ;;;
      s <- getS p ;;
      modSock i (λ sk, sk <| EQ.saddr := AddrPool.mk_addr (daddr s) (dport s) |>) ;;;
      ret (Some i)
    end
  end.

(** The result and the address of the peer. *)
Definition accept_stream (a p : Z) : M (Z * option AddrPool.sockaddr_in) :=
  o <- accept_socket p ;;
  match o with
  | None => r <- err ENFILE ;; ret (r, None)
  | Some i =>
    ls <- gets listener ;;
    l <- lift ListenerFault (ls !! a) ;;
    lsk <- getSock (l_socket l) ;;
    when (negb (registered_for lsk MTCP_EPOLLET) && negb (StreamQ.StreamQueueIsEmpty (acceptq l)))
      (add_user_event EQ.USR_SHADOW_EVENT_QUEUE (l_socket l) EQ.MTCP_EPOLLIN) ;;;
    s <- getS p ;;
    sk <- getSock i ;;
    ret (EQ.sock_id sk, Some (AddrPool.mk_addr (daddr s) (dport s)))
  end.

Definition mtcp_accept (mctx : option Z) (sockid : Z) : M (option (Z * option AddrPool.sockaddr_in)) :=
  ok <- GetMTCPManager num_cpus mctx ;;
  if negb ok then ret (Some (-1, None))
  else
    ok <- in_table sockid ;;
    if negb ok then r <- err EBADF ;; ret (Some (r, None))
    else
      sk <- getSock sockid ;;
      if negb (is_type sk EQ.MTCP_SOCK_LISTENER) then r <- err EINVAL ;; ret (Some (r, None))
      else
        o <- accept_dequeue (EQ.sock_ref sk) ;;
        match o with
        | Some p => r <- accept_stream (EQ.sock_ref sk) p ;; ret (Some r)
        | None => if has_opt sk MTCP_NONBLOCK then r <- err EAGAIN ;; ret (Some (r, None)) else ret None
        end.
(** One turn of the loop of a waiting [mtcp_accept]. *)
Definition accept_wake (a : Z) : M (option (Z * option AddrPool.sockaddr_in)) :=
  st <- gets stopping ;;
  if (st : bool) then r <- err EINTR ;; ret (Some (r, None))
  else
    o <- accept_dequeue a ;;
    match o with
    | Some p => r <- accept_stream a p ;; ret (Some r)
    | None => ret None
    end.

Definition mtcp_init_rss (mctx : option Z) (saddr_base num_addr daddr dport : Z) : M Z :=
  ok <- GetMTCPManager num_cpus mctx ;;
  if negb ok then err EACCES
  else
    modify (λ m, m <| ap := None |>) ;;;
    C <- gets CONFIG ;;
    let '(nif, _) := GetOutputInterface C daddr in
    if (saddr_base =? AddrPool.INADDR_ANY) && (nif <? 0) then err EINVAL
    else
      base <- (if saddr_base =? AddrPool.INADDR_ANY then
                 eidx <- nth_config (nif_to_eidx C) nif ;; e <- nth_config (eths C) eidx ;; ret (ip_addr e)
               else ret saddr_base) ;;
      a <- heap_alloc ;;
      pool <- lift ArithFault (AddrPool.CreateAddressPoolPerCore (bool_decide (is_Some a)) (max_concurrency C) endian
                                 (default 0 mctx) num_cpus base num_addr daddr (u16 dport)) ;;
      match pool with
      | None => err ENOMEM
      | Some pool => modify (λ m, m <| ap := Some pool |>) ;;; ret 0
      end.

(** The local address of a connection: bound before, or fetched from a pool.
    The result says whether it was fetched; [Some e] is an error. *)
Definition connect_address (cpu sockid : Z) (sk : EQ.socket_map) (dst : AddrPool.sockaddr_in)
  : M (option Z * bool) :=
  let src := EQ.saddr sk in
  if has_opt sk MTCP_ADDR_BIND && negb (AddrPool.sin_port src =? AddrPool.INPORT_ANY)
     && negb (AddrPool.sin_addr src =? AddrPool.INADDR_ANY) then
    rss_core <- lift ArithFault (Rss.GetRSSCPUCore (AddrPool.sin_addr src) (AddrPool.sin_addr dst)
                  (AddrPool.sin_port src) (AddrPool.sin_port dst) num_queues endian) ;;
    ret (if negb (rss_core =? cpu) then Some EINVAL else None, false)
  else
    mine <- gets ap ;;
    C <- gets CONFIG ;;
    let '(nif, _) := GetOutputInterface C (AddrPool.sin_addr dst) in
    match mine with
    | None =>
      if nif <? 0 then ret (Some EINVAL, false)
      else
        pools <- gets ap_if ;;
        pool <- lift AddressFault (pools !! nif) ;;
        '(r, a, pool) <- lift AddressFault (AddrPool.FetchAddress pool endian cpu num_queues dst src) ;;
        modify (λ m, m <| ap_if := <[nif := pool]> (ap_if m) |>) ;;;
        modSock sockid (λ sk, sk <| EQ.saddr := a |>) ;;;
        ret (if r <? 0 then Some EAGAIN else None, true)
    | Some pool =>
      '(r, a, pool) <- lift AddressFault (AddrPool.FetchAddressPerCore pool src) ;;
      modify (λ m, m <| ap := Some pool |>) ;;;
      modSock sockid (λ sk, sk <| EQ.saddr := a |>) ;;;
      ret (if r <? 0 then Some EAGAIN else None, true)
    end.

Definition wake_stack : M unit := modify (λ m, m <| wakeup_flag := true |>).
(** Up to the point where the call has handed the stream over; [None]: the
    call is blocking and waits for the connection. *)
Definition mtcp_connect (mctx : option Z) (sockid : Z) (addr : option sockaddr) (addrlen : Z) : M (option Z) :=
  ok <- GetMTCPManager num_cpus mctx ;;
  if negb ok then ret (Some (-1))
  else
    ok <- in_table sockid ;;
    if negb ok then r <- err EBADF ;; ret (Some r)
    else
      sk <- getSock sockid ;;
      if is_type sk EQ.MTCP_SOCK_UNUSED then r <- err EBADF ;; ret (Some r)
      else if negb (is_type sk EQ.MTCP_SOCK_STREAM) then r <- err ENOTSOCK ;; ret (Some r)
      else match addr with
      | None => r <- err EFAULT ;; ret (Some r)
      | Some a =>
        if negb (sa_family a =? AF_INET) || (addrlen <? sizeof_sockaddr_in) then r <- err EAFNOSUPPORT ;; ret (Some r)
        else if negb (EQ.sock_ref sk =? 0) then
          s <- getS (EQ.sock_ref sk) ;;
          r <- err (if st_num TCP_ST_ESTABLISHED <=? st_num (state s) then EISCONN else EALREADY) ;;
          ret (Some r)
        else
          '(e, dyn) <- connect_address (default 0 mctx) sockid sk (sa_in a) ;;
          match e with
          | Some e => r <- err e ;; ret (Some r)
          | None =>
            when dyn (modSock sockid (λ sk, sk <| EQ.opts := Z.lor (EQ.opts sk) MTCP_ADDR_BIND |>)) ;;;
            sk <- getSock sockid ;;
            o <- CreateTCPStream (Some sockid) TcpIn.MTCP_SOCK_STREAM (AddrPool.sin_addr (EQ.saddr sk))
                   (AddrPool.sin_port (EQ.saddr sk)) (AddrPool.sin_addr (sa_in a)) (AddrPool.sin_port (sa_in a)) ;;
            match o with
            | None => r <- err ENOMEM ;; ret (Some r)
            | Some p =>
              modS p (λ s, s <| is_bound_addr := if dyn then true else is_bound_addr s |>
                             <| sndvar := (sndvar s) <| cwnd := 1 |> <| ssthresh := u32 (mss (sndvar s) * 10) |> |>
                             <| state := TCP_ST_SYN_SENT |>) ;;;
              r <- enqueue ConnectQ p ;;
              wake_stack ;;;
              if r <? 0 then _ <- enqueue DestroyQ p ;; r <- err EAGAIN ;; ret (Some r)
              else if has_opt sk MTCP_NONBLOCK then r <- err EINPROGRESS ;; ret (Some r)
              else ret None
            end
          end
      end.
(** One turn of the loop of a waiting [mtcp_connect]. *)
Definition connect_wake (p : Z) : M (option Z) :=
  s <- getS p ;;
  if st_num TCP_ST_ESTABLISHED <? st_num (state s) then r <- err ENOSYS ;; ret (Some r)
  else if st_eqb (state s) TCP_ST_ESTABLISHED then ret (Some 0)
  else ret None.

(** ** Closing *)
Definition CloseStreamSocket (mctx : option Z) (sockid : Z) : M Z :=
  ok <- GetMTCPManager num_cpus mctx ;;
  if negb ok then ret (-1)
  else
    sk <- getSock sockid ;;
    if EQ.sock_ref sk =? 0 then err ENOTCONN
    else
      let p := EQ.sock_ref sk in
      s <- getS p ;;
      if closed s then ret 0
      else
        modS p (λ s, s <| closed := true |> <| socket := None |>) ;;;
        match state s with
        | TCP_ST_CLOSED => _ <- enqueue DestroyQ p ;; wake_stack ;;; ret 0
        | TCP_ST_SYN_SENT => _ <- enqueue DestroyQ p ;; wake_stack ;;; ret (-1)
        | TCP_ST_ESTABLISHED | TCP_ST_CLOSE_WAIT =>
          modSnd p (λ v, v <| on_closeq := true |>) ;;;
          r <- enqueue CloseQ p ;;
          wake_stack ;;;
          if r <? 0 then err EAGAIN else ret 0
        | _ => err EBADF
        end.

(** The listener is freed; it stays in the table of listeners. *)
Definition CloseListeningSocket (mctx : option Z) (sockid : Z) : M Z :=
  ok <- GetMTCPManager num_cpus mctx ;;
  if negb ok then ret (-1)
  else
    sk <- getSock sockid ;;
    if EQ.sock_ref sk =? 0 then err EINVAL
    else
      ls <- gets listener ;;
      _ <- lift ListenerFault (ls !! EQ.sock_ref sk) ;;
      modify (λ m, m <| listener := delete (EQ.sock_ref sk) (listener m) |>) ;;;
      modSock sockid (λ sk, sk <| EQ.sock_ref := 0 |>) ;;;
      ret 0.

Definition mtcp_close (mctx : option Z) (sockid : Z) : M Z :=
  on_used mctx sockid (λ sk,
    r <- (match EQ.socktype sk with
          | EQ.MTCP_SOCK_STREAM => CloseStreamSocket mctx sockid
          | EQ.MTCP_SOCK_LISTENER => CloseListeningSocket mctx sockid
          | EQ.MTCP_SOCK_EPOLL => CloseEpollSocket num_cpus mctx sockid
          | EQ.MTCP_SOCK_PIPE => PipeClose num_cpus mctx sockid
          | _ => err EINVAL
          end) ;;
    FreeSocket sockid ;;;
    ret r).

Definition mtcp_abort (mctx : option Z) (sockid : Z) : M Z :=
  on_used mctx sockid (λ sk,
    if negb (is_type sk EQ.MTCP_SOCK_STREAM) then err ENOTSOCK
    else if EQ.sock_ref sk =? 0 then err ENOTCONN
    else
      let p := EQ.sock_ref sk in
      FreeSocket sockid ;;;
      modS p (λ s, s <| socket := None |>) ;;;
      s <- getS p ;;
      match state s with
      | TCP_ST_CLOSED => ret (-1)
      | TCP_ST_SYN_SENT | TCP_ST_CLOSING | TCP_ST_LAST_ACK | TCP_ST_TIME_WAIT =>
        modS p (λ s, s <| state := TCP_ST_CLOSED |> <| close_reason := TCP_ACTIVE_CLOSE |>) ;;;
        _ <- enqueue DestroyQ p ;;
        wake_stack ;;;
        ret 0
      | _ =>
        if on_resetq (sndvar s) then err ECONNRESET
        else
          modSnd p (λ v, v <| on_resetq := true |>) ;;;
          r <- enqueue ResetQ p ;;
          wake_stack ;;;
          if r <? 0 then err EAGAIN else ret 0
      end).
(** ** Reading *)

(** The receive buffer of a stream; a null pointer is a [BufferFault]. *)
Definition rcvbuf_of (p : Z) : M RB.tcp_ring_buffer :=
  s <- getS p ;; lift BufferFault (rcvbuf (rcvvar s)).

(** The result and the bytes copied. *)
Definition PeekForUser (p len : Z) : M (Z * list Z) :=
  b <- rcvbuf_of p ;;
  let copylen := MIN (RB.merged_len b) len in
  if copylen <=? 0 then r <- err EAGAIN ;; ret (r, [])
  else
    bs <- lift BufferFault (mem_read (RB.mem b) (RB.rhead b - RB.data b) copylen) ;;
    ret (copylen, bs).

(** A window that was reported as too small is advertised again. *)
Definition advertise (p : Z) : M unit :=
  s <- getS p ;;
  when (need_wnd_adv s && (rcv_wnd (rcvvar s) >? eff_mss (sndvar s)) && negb (on_ackq (sndvar s)))
    (modSnd p (λ v, v <| on_ackq := true |>) ;;;
     _ <- enqueue AckQ p ;;
     modS p (λ s, s <| need_wnd_adv := false |>) ;;;
     wake_stack).

Definition CopyToUser (p len : Z) : M (Z * list Z) :=
  b <- rcvbuf_of p ;;
  rbm <- gets rbm_rcv ;;
  '(copylen, bs, rbm, b) <- lift BufferFault (RB.Session.rb_read rbm b len) ;;
  if copylen <=? 0 then r <- err EAGAIN ;; ret (r, [])
  else
    modify (λ m, m <| rbm_rcv := rbm |>) ;;;
    modRcv p (λ r, r <| rcvbuf := Some b |> <| rcv_wnd := u32 (RB.rsize b - RB.merged_len b) |>) ;;;
    advertise p ;;;
    ret (copylen, bs).

(** The checks that [mtcp_recv] and [mtcp_readv] share: the stream, or the
    result of the call. *)
Definition readable (sk : EQ.socket_map) : M (Z + Z) :=
  if EQ.sock_ref sk =? 0 then r <- err ENOTCONN ;; ret (inr r)
  else
    let p := EQ.sock_ref sk in
    s <- getS p ;;
    let n := match rcvbuf (rcvvar s) with Some b => RB.merged_len b | None => 0 end in
    if negb ((st_num TCP_ST_ESTABLISHED <=? st_num (state s)) && (st_num (state s) <=? st_num TCP_ST_CLOSE_WAIT))
    then r <- err ENOTCONN ;; ret (inr r)
    else if st_eqb (state s) TCP_ST_CLOSE_WAIT && (n =? 0) then ret (inr 0)
    else if has_opt sk MTCP_NONBLOCK && (n =? 0) then r <- err EAGAIN ;; ret (inr r)
    else ret (inl p).

(** Level-triggered events after a read that returned [r]. *)
Definition read_event (p : Z) (sk : EQ.socket_map) (r : Z) : M bool :=
  left <- (if registered_for sk EQ.MTCP_EPOLLIN && negb (registered_for sk MTCP_EPOLLET)
           then b <- rcvbuf_of p ;; ret (RB.merged_len b >? 0) else ret false) ;;
  s <- getS p ;;
  ended <- (if st_eqb (state s) TCP_ST_CLOSE_WAIT
            then b <- rcvbuf_of p ;; ret ((RB.merged_len b =? 0) && (r >? 0)) else ret false) ;;
  ret (left || ended).

Definition mtcp_recv (mctx : option Z) (sockid len flags : Z) : M (option (Z * list Z)) :=
  ok <- GetMTCPManager num_cpus mctx ;;
  if negb ok then ret (Some (-1, []))
  else
    ok <- in_table sockid ;;
    if negb ok then r <- err EBADF ;; ret (Some (r, []))
    else
      sk <- getSock sockid ;;
      if is_type sk EQ.MTCP_SOCK_UNUSED then r <- err EBADF ;; ret (Some (r, []))
      else if is_type sk EQ.MTCP_SOCK_PIPE then PipeRead num_cpus mctx sockid (s32 len)
      else if negb (is_type sk EQ.MTCP_SOCK_STREAM) then r <- err ENOTSOCK ;; ret (Some (r, []))
      else
        o <- readable sk ;;
        match o with
        | inr r => ret (Some (r, []))
        | inl p =>
          if (flags =? 0) || (flags =? MSG_PEEK) then
            '(r, bs) <- (if flags =? 0 then CopyToUser p (s32 len) else PeekForUser p (s32 len)) ;;
            e <- read_event p sk r ;;
            when (e && negb (EQ.epoll sk =? 0)) (add_user_event EQ.USR_SHADOW_EVENT_QUEUE sockid EQ.MTCP_EPOLLIN) ;;;
            ret (Some (r, bs))
          else r <- err EINVAL ;; ret (Some (r, []))
        end.
Definition mtcp_read (mctx : option Z) (sockid len : Z) : M (option (Z * list Z)) := mtcp_recv mctx sockid len 0.

(** The loop over the vectors, given by their lengths. *)
Fixpoint readv_loop (p : Z) (iov : list Z) (bytes_read : Z) : M (Z * list Z) :=
  match iov with
  | [] => ret (bytes_read, [])
  | n :: iov =>
    if n <=? 0 then readv_loop p iov bytes_read
    else
      '(r, bs) <- CopyToUser p (s32 n) ;;
      if r <=? 0 then ret (bytes_read, [])
      else if r <? n then ret (s32 (bytes_read + r), bs)
      else
        '(t, bs') <- readv_loop p iov (s32 (bytes_read + r)) ;;
        ret (t, bs ++ bs')
  end.

Definition mtcp_readv (mctx : option Z) (sockid : Z) (iov : list Z) : M (Z * list Z) :=
  ok <- GetMTCPManager num_cpus mctx ;;
  if negb ok then ret (-1, [])
  else
    ok <- in_table sockid ;;
    if negb ok then r <- err EBADF ;; ret (r, [])
    else
      sk <- getSock sockid ;;
      if is_type sk EQ.MTCP_SOCK_UNUSED then r <- err EBADF ;; ret (r, [])
      else if negb (is_type sk EQ.MTCP_SOCK_STREAM) then r <- err ENOTSOCK ;; ret (r, [])
      else
        o <- readable sk ;;
        match o with
        | inr r => ret (r, [])
        | inl p =>
          '(r, bs) <- readv_loop p iov 0 ;;
          e <- read_event p sk r ;;
          when (e && (registered_for sk EQ.MTCP_EPOLLIN && negb (registered_for sk MTCP_EPOLLET)))
            (add_user_event EQ.USR_SHADOW_EVENT_QUEUE sockid EQ.MTCP_EPOLLIN) ;;;
          ret (r, bs)
        end.

(** ** Writing *)

(** The send buffer of a stream, created when it is missing. *)
Definition send_buffer (p : Z) : M (option SB.tcp_send_buffer) :=
  s <- getS p ;;
  match sndbuf (sndvar s) with
  | Some b => ret (Some b)
  | None =>
    a <- heap_alloc ;;
    w <- gets io ;;
    sbm <- gets rbm_snd ;;
    let '(b, sbm) := SB.SBInit sbm (bool_decide (is_Some a)) (stale_bytes w (SB.chunk_size sbm))
                       (iss (sndvar s) ⊞ 1) in
    modify (λ m, m <| rbm_snd := sbm |>) ;;;
    modSnd p (λ v, v <| sndbuf := b |>) ;;;
    ret b
  end.

(** [buf] holds the [len] bytes of the caller. *)
Definition CopyFromUser (p : Z) (buf : list Z) (len : Z) : M Z :=
  s <- getS p ;;
  let sndlen := MIN (s32 (snd_wnd (sndvar s))) len in
  if sndlen <=? 0 then err EAGAIN
  else
    o <- send_buffer p ;;
    match o with
    | None => modS p (λ s, s <| close_reason := TCP_NO_MEM |>) ;;; err ENOMEM
    | Some b =>
      '(r, b) <- lift BufferFault (SB.SBPut b buf sndlen) ;;
      let r := s32 r in
      modSnd p (λ v, v <| sndbuf := Some b |> <| snd_wnd := SB.size b ⊟ SB.len b |>) ;;;
      if r <=? 0 then err EAGAIN else ret r
    end.

(** The stream goes to the stack thread unless it is on its way. *)
Definition submit (p r : Z) : M unit :=
  s <- getS p ;;
  when ((r >? 0) && negb (on_sendq (sndvar s) || on_send_list (sndvar s)))
    (modSnd p (λ v, v <| on_sendq := true |>) ;;; _ <- enqueue SendQ p ;; wake_stack).

(** The level-triggered event for the remaining room. *)
Definition write_event (p sockid : Z) (sk : EQ.socket_map) : M unit :=
  s <- getS p ;;
  when ((snd_wnd (sndvar s) >? 0) && (registered_for sk EQ.MTCP_EPOLLOUT && negb (registered_for sk MTCP_EPOLLET)))
    (add_user_event EQ.USR_SHADOW_EVENT_QUEUE sockid EQ.MTCP_EPOLLOUT).

(** The checks that [mtcp_write] and [mtcp_writev] share. *)
Definition writable (sk : EQ.socket_map) : M (Z + Z) :=
  if EQ.sock_ref sk =? 0 then r <- err ENOTCONN ;; ret (inr r)
  else
    s <- getS (EQ.sock_ref sk) ;;
    if negb (st_eqb (state s) TCP_ST_ESTABLISHED || st_eqb (state s) TCP_ST_CLOSE_WAIT)
    then r <- err ENOTCONN ;; ret (inr r)
    else ret (inl (EQ.sock_ref sk)).

(** Nothing was written to a nonblocking socket. *)
Definition written (sk : EQ.socket_map) (r : Z) : M Z :=
  if (r =? 0) && has_opt sk MTCP_NONBLOCK then err EAGAIN else ret r.

Definition mtcp_write (mctx : option Z) (sockid : Z) (buf : list Z) : M (option Z) :=
  ok <- GetMTCPManager num_cpus mctx ;;
  if negb ok then ret (Some (-1))
  else
    ok <- in_table sockid ;;
    if negb ok then r <- err EBADF ;; ret (Some r)
    else
      sk <- getSock sockid ;;
      if is_type sk EQ.MTCP_SOCK_UNUSED then r <- err EBADF ;; ret (Some r)
      else if is_type sk EQ.MTCP_SOCK_PIPE then PipeWrite num_cpus mctx sockid buf
      else if negb (is_type sk EQ.MTCP_SOCK_STREAM) then r <- err ENOTSOCK ;; ret (Some r)
      else
        o <- writable sk ;;
        match o with
        | inr r => ret (Some r)
        | inl p =>
          let len := Z.of_nat (length buf) in
          if len <=? 0 then r <- (if has_opt sk MTCP_NONBLOCK then err EAGAIN else ret 0) ;; ret (Some r)
          else
            r <- CopyFromUser p buf (s32 len) ;;
            submit p r ;;;
            r <- written sk r ;;
            write_event p sockid sk ;;;
            ret (Some r)
        end.

Fixpoint writev_loop (p : Z) (iov : list (list Z)) (to_write : Z) : M Z :=
  match iov with
  | [] => ret to_write
  | buf :: iov =>
    let n := Z.of_nat (length buf) in
    if n <=? 0 then writev_loop p iov to_write
    else
      r <- CopyFromUser p buf (s32 n) ;;
      if r <=? 0 then ret to_write
      else if r <? n then ret (s32 (to_write + r))
      else writev_loop p iov (s32 (to_write + r))
  end.

Definition mtcp_writev (mctx : option Z) (sockid : Z) (iov : list (list Z)) : M Z :=
  on_used mctx sockid (λ sk,
    if negb (is_type sk EQ.MTCP_SOCK_STREAM) then err ENOTSOCK
    else
      o <- writable sk ;;
      match o with
      | inr r => ret r
      | inl p =>
        r <- writev_loop p iov 0 ;;
        submit p r ;;;
        r <- written sk r ;;
        write_event p sockid sk ;;;
        ret r
      end).
End Api.
