(* ===== verification/Stack.v ===== *)
(** * The stack thread

    [core.c]: building the manager of a thread, writing the queued packets, a
    round of the main loop and the steps of the thread as a sequence.  The
    theorems are about every state that such a sequence reaches while the
    queues of the application are empty; [AppCalls] is about their handling. *)
From S2P Require Import Prelude CircQueue MemPool RingBuffer SendBuffer FlowHash AddrPool EventQueue TcpTypes NetOut TcpLists TcpInv TcpStream TcpOut.
From S2P Require Import TcpFrame Post Timer TcpIn NetIn App.

(** ** The manager *)
Definition CreateMTCPSender (calloc_ok : bool) : option mtcp_sender :=
  if calloc_ok then Some (mk_sender [] [] [] 0 0 0) else None.

Definition BACKLOG_SIZE : Z := 10 * 1024.

(** [g_sender] and one sender per interface. *)
Definition sender_keys (C : mtcp_config) : list Z := -1 :: seqZ 0 (Z.of_nat (length (eths C))).
Definition create_senders (C : mtcp_config) (d : mtcp_sender) : gmap Z mtcp_sender :=
  list_to_map ((λ k, (k, d)) <$> sender_keys C).

Section Stack.
Context {P IO : Type} `{ChunkPool P, World IO}.
Local Abbreviation mtcp := (mtcp_manager P IO).
Local Abbreviation M := (M P IO).
Implicit Types (m : mtcp).

(** The entry [i] of the socket table, unused. *)
Definition unused_socket (i : Z) : EQ.socket_map :=
  EQ.mk_smap i EQ.MTCP_SOCK_UNUSED 0 (AddrPool.mk_addr 0 0) 0 0 0 0.

(** The pools and managers are the results of [MPCreate], [SBManagerCreate] and
    [RBManagerCreate]. *)
Definition InitializeMTCPManager (C : mtcp_config) (fp rv sv : option P) (snd : option (SB.sb_manager P))
    (rcv : option (RB.rb_manager P)) (ap_if : gmap Z AddrPool.addr_pool) (seed : Z) (w : IO) (mem_ok : bool)
  : option mtcp :=
  t ← FlowHash.CreateHashtable mem_ok mem_ok;
  ls ← FlowHash.CreateHashtable mem_ok mem_ok;
  fp ← fp; rv ← rv; sv ← sv; snd ← snd; rcv ← rcv;
  smap ← guard (mem_ok = true);;
         Some (list_to_map ((λ i, (i, unused_socket i)) <$> seqZ 0 (max_concurrency C)) : gmap Z EQ.socket_map);
  connectq ← StreamQ.CreateStreamQueue BACKLOG_SIZE mem_ok mem_ok;
  sendq ← StreamQ.CreateStreamQueue (max_concurrency C) mem_ok mem_ok;
  ackq ← StreamQ.CreateStreamQueue (max_concurrency C) mem_ok mem_ok;
  closeq ← StreamQ.CreateStreamQueue (max_concurrency C) mem_ok mem_ok;
  closeq_int ← StreamQInt.CreateInternalStreamQueue (max_concurrency C) mem_ok mem_ok;
  resetq ← StreamQ.CreateStreamQueue (max_concurrency C) mem_ok mem_ok;
  resetq_int ← StreamQInt.CreateInternalStreamQueue (max_concurrency C) mem_ok mem_ok;
  destroyq ← StreamQ.CreateStreamQueue (max_concurrency C) mem_ok mem_ok;
  d ← CreateMTCPSender mem_ok;
  hs ← InitRTOHashstore mem_ok;
  Some (mk_mtcp C ∅ fp rv sv snd rcv t smap (seqZ 0 (max_concurrency C)) None ap_if 0 0 0 ∅ ∅ ls ∅
          connectq sendq ackq closeq closeq_int resetq resetq_int destroyq (create_senders C d) hs [] [] 0 0 0
          0 false false false 0 [] seed 0 w []).

(** ** Writing packets: control, acknowledgments and data of one sender *)
Definition write_sender (fuel : nat) (k cur_ts thresh : Z) : M unit :=
  d <- getD (Some k) ;;
  when (negb (control_list_cnt d =? 0)) (WriteTCPControlList k cur_ts thresh ;;; ret tt) ;;;
  d <- getD (Some k) ;;
  when (negb (ack_list_cnt d =? 0)) (WriteTCPACKList k cur_ts thresh ;;; ret tt) ;;;
  d <- getD (Some k) ;;
  when (negb (send_list_cnt d =? 0)) (WriteTCPDataList fuel k cur_ts thresh ;;; ret tt).

Fixpoint write_senders (fuel : nat) (ks : list Z) (cur_ts thresh : Z) : M unit :=
  match ks with
  | [] => ret tt
  | k :: ks => write_sender fuel k cur_ts thresh ;;; write_senders fuel ks cur_ts thresh
  end.

Definition WritePacketsToChunks (fuel : nat) (cur_ts : Z) : M unit :=
  C <- gets CONFIG ;; write_senders fuel (sender_keys C) cur_ts (max_concurrency C).

(** ** A round of the main loop *)

(** The frames of the round with their interfaces, in the order in which the
    driver returns them. *)
Fixpoint receive (ts : Z) (rx : list (Z * list Z)) : M unit :=
  match rx with
  | [] => ret tt
  | (ifidx, pkt) :: rx => ProcessPacket ifidx ts pkt (Z.of_nat (length pkt)) ;;; receive ts rx
  end.

Definition check_timers (ts ts_prev : Z) : M unit :=
  C <- gets CONFIG ;;
  CheckRtmTimeout ts (max_concurrency C) ;;;
  CheckTimewaitExpire ts (max_concurrency C) ;;;
  when ((tcp_timeout C >? 0) && negb (ts =? ts_prev)) (CheckConnectionTimeout ts (max_concurrency C)).

Definition flush_events : M unit :=
  e <- gets ep ;;
  when (negb (e =? 0))
    (es <- gets epolls ;;
     x <- lift SocketFault (es !! e) ;;
     '(_, x) <- lift SocketFault (EQ.FlushEpollEvents x) ;;
     modify (λ m, m <| epolls := <[e := x]> (epolls m) |>)).

(** The body of the loop of [RunMainLoop] without the calls of the driver; the
    result is the new [ts_prev].  [master]: this thread runs the ARP timer. *)
Definition main_round (fuel : nat) (master : bool) (ts ts_prev : Z) (rx : list (Z * list Z)) : M Z :=
  modify (λ m, m <| cur_ts := ts |>) ;;;
  receive ts rx ;;;
  n <- gets flow_cnt ;;
  when (n >? 0) (check_timers ts ts_prev) ;;;
  flush_events ;;;
  n <- gets flow_cnt ;;
  when (n >? 0) (HandleApplicationCalls ts) ;;;
  WritePacketsToChunks fuel ts ;;;
  when (negb (ts =? ts_prev) && master) (ARPTimer ts) ;;;
  ret ts.

(** ** Steps of the thread: whole rounds, or their parts in any order *)
Inductive thread_event :=
  | Round (fuel : nat) (master : bool) (ts ts_prev : Z) (rx : list (Z * list Z))
  | Frame (ifidx cur_ts : Z) (pkt : list Z)
  | ArpTimer (cur_ts : Z)
  | RtmTimeout (cur_ts thresh : Z)
  | TimewaitExpire (cur_ts thresh : Z)
  | ConnectionTimeout (cur_ts thresh : Z)
  | WritePackets (fuel : nat) (cur_ts : Z).

Definition exec (e : thread_event) : M unit :=
  match e with
  | Round fuel master ts ts_prev rx => main_round fuel master ts ts_prev rx ;;; ret tt
  | Frame ifidx ts pkt => ProcessPacket ifidx ts pkt (Z.of_nat (length pkt)) ;;; ret tt
  | ArpTimer ts => ARPTimer ts
  | RtmTimeout ts th => CheckRtmTimeout ts th
  | TimewaitExpire ts th => CheckTimewaitExpire ts th
  | ConnectionTimeout ts th => CheckConnectionTimeout ts th
  | WritePackets fuel ts => WritePacketsToChunks fuel ts
  end.
Fixpoint run (es : list thread_event) : M unit :=
  match es with
  | [] => ret tt
  | e :: es => exec e ;;; run es
  end.

(** ** Every event keeps the invariant *)
Lemma endures_bind {A B} (c : M A) (k : A → M B) : endures c → (∀ a, endures (k a)) → endures (bind c k).
Proof.
  intros Hc Hk m Hi. specialize (Hc m Hi). unfold bind. destruct (c m) as [|[a m']]; [done|].
  destruct Hc as [Hi' Ec]. specialize (Hk a m' Hi'). destruct (k a m') as [|[b m'']]; [done|].
  destruct Hk. split; [done|congruence].
Qed.
Lemma endures_ret {A} (a : A) : endures (ret a : M A).
Proof. by intros m Hi. Qed.

(** A step on a sender that exists. *)
Lemma getD_endures k m {B} (c : mtcp_sender → M B) :
  inv None m → is_sender (CONFIG m) k →
  (∀ d, senders m !! k = Some d → match c d m with inl f => benign f
     | inr (_, m') => inv None m' ∧ CONFIG m' = CONFIG m end) →
  match (d <- getD (Some k) ;; c d) m with inl f => benign f | inr (_, m') => inv None m' ∧ CONFIG m' = CONFIG m end.
Proof.
  intros Hi Hk Hc. destruct (proj2 (inv_cfg _ _ Hi) k Hk) as [d Hd].
  rewrite (bind_inr _ _ _ _ _ (getD_run k m d Hd)). by apply Hc.
Qed.

(** One of the three lists, then the rest. *)
Lemma write_then {A B} k (b : bool) (c : M A) (r : M B) m :
  inv None m → is_sender (CONFIG m) k →
  (∀ m, inv None m → is_Some (senders m !! k) → match c m with inl f => benign f
     | inr (_, m') => inv None m' ∧ CONFIG m' = CONFIG m end) →
  (∀ m, inv None m → is_sender (CONFIG m) k → match r m with inl f => benign f
     | inr (_, m') => inv None m' ∧ CONFIG m' = CONFIG m end) →
  match (when b (c ;;; ret tt) ;;; r) m with inl f => benign f
  | inr (_, m') => inv None m' ∧ CONFIG m' = CONFIG m end.
Proof.
  intros Hi Hk Hc Hr. destruct b; [|by apply Hr]. unfold when, bind.
  specialize (Hc m Hi (proj2 (inv_cfg _ _ Hi) k Hk)). destruct (c m) as [|[a m1]]; [done|].
  destruct Hc as [Hi1 E1]. simpl. specialize (Hr m1 Hi1). rewrite E1 in Hr. specialize (Hr Hk).
  destruct (r m1) as [|[b m2]]; [done|]. destruct Hr. split; [done|congruence].
Qed.

Lemma write_sender_endures fuel k ts th m : inv None m → is_sender (CONFIG m) k →
  match write_sender fuel k ts th m with inl f => benign f | inr (_, m') => inv None m' ∧ CONFIG m' = CONFIG m end.
Proof.
  intros Hi Hk. unfold write_sender. apply getD_endures; [done..|]. intros d1 _.
  apply (write_then k); [done|done|by intros; apply endures_WriteTCPControlList|]. clear m Hi Hk. intros m Hi Hk.
  apply getD_endures; [done..|]. intros d2 _.
  apply (write_then k); [done|done|by intros; apply endures_WriteTCPACKList|]. clear m Hi Hk. intros m Hi Hk.
  apply getD_endures; [done..|]. intros d3 Hd3. destruct (negb _); [|done]. unfold when, bind.
  pose proof (endures_WriteTCPDataList fuel k ts th m Hi ltac:(by eexists)) as Hw.
  by destruct (WriteTCPDataList fuel k ts th m) as [|[a m1]].
Qed.

Lemma write_senders_endures fuel ts th ks : ∀ m, inv None m → (∀ k, k ∈ ks → is_sender (CONFIG m) k) →
  match write_senders fuel ks ts th m with inl f => benign f | inr (_, m') => inv None m' ∧ CONFIG m' = CONFIG m end.
Proof.
  induction ks as [|k ks IH]; intros m Hi Hk; [done|]. simpl.
  pose proof (write_sender_endures fuel k ts th m Hi (Hk k ltac:(left))) as Hw. unfold bind.
  destruct (write_sender fuel k ts th m) as [|[a m1]]; [done|]. destruct Hw as [Hi1 E1].
  specialize (IH m1 Hi1). rewrite E1 in IH. apply IH. intros j Hj. apply Hk. by right.
Qed.

Lemma WritePacketsToChunks_endures fuel ts : endures (WritePacketsToChunks fuel ts).
Proof.
  intros m Hi. unfold WritePacketsToChunks. rewrite bind_gets. apply write_senders_endures; [done|].
  intros k [->|Hk]%elem_of_cons; [by left|]. apply elem_of_seqZ in Hk. right. lia.
Qed.

(** Steps that keep the invariant and leave the queues alone. *)
Definition solid {A} (c : M A) : Prop := survives c ∧ stays queues c.

Lemma solid_bind {A B} (c : M A) (k : A → M B) : solid c → (∀ a, solid (k a)) → solid (bind c k).
Proof.
  intros [Hc1 Hc2] Hk. split; [apply survives_bind|apply stays_bind]; try done; intros a; apply Hk.
Qed.
Lemma solid_quiet {A} (c : M A) : quiet c → stays queues c → solid c.
Proof. intros. split; [by apply survives_quiet|done]. Qed.
Lemma solid_when b (c : M unit) : solid c → solid (when b c).
Proof. intros Hc. destruct b; [done|]. apply (solid_quiet (ret tt)); [quiet|staying]. Qed.

Lemma solid_ProcessPacket i ts pkt n : solid (ProcessPacket i ts pkt n).
Proof. split; [apply survives_ProcessPacket|]. staying. Qed.

(** The loops. *)
Lemma stays_walk_loop lst (body : Z → M bool) th :
  (∀ p, stays queues (body p)) → ∀ fuel w n, stays queues (walk_loop lst body fuel th w n).
Proof.
  intros Hb. induction fuel as [|fuel IH]; intros [p|] n; cbn [walk_loop]; try apply stays_ret; cbv zeta.
  - destruct (_ >? _); [apply stays_ret|apply stays_fail].
  - destruct (_ >? _); [apply stays_ret|]. apply stays_bind; [apply stays_gets|]. intros l.
    apply stays_bind; [apply Hb|]. intros []; [apply stays_ret|apply IH].
Qed.
Lemma stays_list_loop lst (body : Z → M bool) k th :
  (∀ p, stays queues (body p)) → ∀ fuel cur last n, stays queues (list_loop lst body fuel k th cur last n).
Proof.
  intros Hb. induction fuel as [|fuel IH]; intros [p|] last n; cbn [list_loop]; try apply stays_ret; cbv zeta.
  - destruct (_ >? _); [apply stays_ret|apply stays_fail].
  - destruct (_ >? _); [apply stays_ret|]. apply stays_bind; [apply stays_getD|]. intros d.
    apply stays_bind; [apply Hb|]. intros []; [apply stays_ret|]. case_decide; [apply stays_ret|apply IH].
Qed.
Lemma stays_rearrange_loop fuel : ∀ w, stays queues (rearrange_loop fuel w : M unit).
Proof. induction fuel as [|fuel IH]; intros [p|]; cbn [rearrange_loop]; staying. Qed.
Lemma stays_RearrangeRTOStore : stays queues (RearrangeRTOStore : M unit).
Proof. apply stays_bind; [apply stays_gets|]. intros l. apply stays_rearrange_loop. Qed.
Lemma stays_expire_rto i ts p : stays queues (expire_rto i ts p : M bool).
Proof. staying. Qed.
Lemma stays_rtm_loop ts th : ∀ fuel n, stays queues (rtm_loop fuel ts th n : M unit).
Proof.
  induction fuel as [|fuel IH]; intros n; cbn [rtm_loop]; apply stays_bind; try apply stays_gets; intros hs; cbv zeta;
    destruct (_ <? 0); try apply stays_ret; [apply stays_fail|].
  apply stays_bind; [apply stays_bind; [apply stays_gets|intros l; apply stays_walk_loop; intros p; apply stays_expire_rto]|].
  intros n'. destruct (_ >? _); [apply stays_ret|]. apply stays_bind; [|intros _; apply IH].
  unfold tick. pose proof stays_RearrangeRTOStore. staying.
Qed.
Lemma stays_flush_loop p ts : ∀ fuel n, stays queues (flush_loop fuel p ts n : M Z).
Proof. induction fuel as [|fuel IH]; intros n; cbn [flush_loop]; staying. Qed.
Lemma stays_send_acks p ts : ∀ fuel, stays queues (send_acks fuel p ts : M unit).
Proof. induction fuel as [|fuel IH]; cbn [send_acks]; staying. Qed.
Hint Resolve stays_RearrangeRTOStore stays_rtm_loop stays_flush_loop stays_send_acks : tcp.

Lemma solid_CheckRtmTimeout ts th : solid (CheckRtmTimeout ts th).
Proof.
  split; [apply survives_endures; intros m Hi; by apply CheckRtmTimeout_endures|]. unfold CheckRtmTimeout. staying.
Qed.
Lemma solid_CheckTimewaitExpire ts th : solid (CheckTimewaitExpire ts th).
Proof.
  split; [apply survives_endures; intros m Hi; by apply CheckTimewaitExpire_endures|].
  unfold CheckTimewaitExpire, walk_list. repeat (apply stays_bind; [|intros ?]); try (by staying).
  apply stays_walk_loop. intros p. staying.
Qed.
Lemma solid_CheckConnectionTimeout ts th : solid (CheckConnectionTimeout ts th).
Proof.
  split; [apply survives_endures; intros m Hi; by apply CheckConnectionTimeout_endures|].
  unfold CheckConnectionTimeout, walk_list. repeat (apply stays_bind; [|intros ?]); try (by staying).
  apply stays_walk_loop. intros p. staying.
Qed.

Lemma stays_serve_list lst (body : Z → M bool) k th d : (∀ p, stays queues (body p)) → stays queues (serve_list lst body k th d).
Proof. intros Hb. by apply stays_list_loop. Qed.
Lemma solid_WritePacketsToChunks fuel ts : solid (WritePacketsToChunks fuel ts).
Proof.
  split; [by apply survives_endures, WritePacketsToChunks_endures|].
  apply stays_bind; [apply stays_gets|]. intros C. generalize (sender_keys C). intros ks.
  induction ks as [|k ks IH]; cbn [write_senders]; [apply stays_ret|]. apply stays_bind; [|intros _; exact IH].
  unfold write_sender, WriteTCPControlList, WriteTCPACKList, WriteTCPDataList.
  repeat first [apply stays_serve_list; intros p; solve [staying] | staying_step].
Qed.

Lemma solid_receive ts rx : solid (receive ts rx).
Proof.
  induction rx as [|[i pkt] rx IH]; cbn [receive]; [apply solid_quiet; [quiet|staying]|].
  apply solid_bind; [apply solid_ProcessPacket|]. by intros _.
Qed.
Lemma solid_check_timers ts ts_prev : solid (check_timers ts ts_prev).
Proof.
  apply solid_bind; [apply solid_quiet; [quiet|staying]|]. intros C.
  apply solid_bind; [apply solid_CheckRtmTimeout|]. intros _. apply solid_bind; [apply solid_CheckTimewaitExpire|]. intros _.
  apply solid_when, solid_CheckConnectionTimeout.
Qed.
Lemma solid_flush_events : solid flush_events.
Proof. apply solid_quiet; unfold flush_events; [quiet|staying]. Qed.
Lemma solid_ARPTimer ts : solid (ARPTimer ts).
Proof. split; [apply survives_ARPTimer|staying]. Qed.

(** With an idle application every step keeps the invariant. *)
Definition calm {A} (c : M A) : Prop :=
  ∀ m, inv None m → idle m → match c m with inl f => benign f | inr (_, m') => inv None m' ∧ idle m' end.

Lemma calm_solid {A} (c : M A) : solid c → calm c.
Proof.
  intros [H1 H2] m Hi Hd. specialize (H1 m Hi). specialize (H2 m). destruct (c m) as [|[a m']]; [done|].
  split; [done|]. eapply idle_queues; [by eapply H2|done].
Qed.
Lemma calm_bind {A B} (c : M A) (k : A → M B) : calm c → (∀ a, calm (k a)) → calm (bind c k).
Proof.
  intros Hc Hk m Hi Hd. specialize (Hc m Hi Hd). unfold bind. destruct (c m) as [|[a m']]; [done|].
  destruct Hc. by apply Hk.
Qed.
Lemma calm_HandleApplicationCalls (b : bool) ts : calm (when b (HandleApplicationCalls ts)).
Proof.
  intros m Hi Hd. destruct b; [|done]. unfold when. rewrite (HandleApplicationCalls_idle ts m Hd).
  split; [by apply (inv_core None m)|by apply (idle_queues m)].
Qed.

Lemma calm_main_round fuel master ts ts_prev rx : calm (main_round fuel master ts ts_prev rx).
Proof.
  unfold main_round. apply calm_bind; [apply calm_solid, solid_quiet; [quiet|staying]|]. intros _.
  apply calm_bind; [apply calm_solid, solid_receive|]. intros _.
  apply calm_bind; [apply calm_solid, solid_quiet; [quiet|staying]|]. intros n.
  apply calm_bind; [apply calm_solid, solid_when, solid_check_timers|]. intros _.
  apply calm_bind; [apply calm_solid, solid_flush_events|]. intros _.
  apply calm_bind; [apply calm_solid, solid_quiet; [quiet|staying]|]. intros n'.
  apply calm_bind; [apply calm_HandleApplicationCalls|]. intros _.
  apply calm_bind; [apply calm_solid, solid_WritePacketsToChunks|]. intros _.
  apply calm_solid, solid_bind; [apply solid_when, solid_ARPTimer|]. intros _. apply solid_quiet; [quiet|staying].
Qed.
Lemma calm_ret {A} (a : A) : calm (ret a).
Proof. apply calm_solid, solid_quiet; [quiet|staying]. Qed.

Lemma exec_calm e : calm (exec e).
Proof.
  destruct e as [fuel b ts tp rx|i ts pkt|ts|ts th|ts th|ts th|fuel ts]; cbn [exec].
  - apply calm_bind; [apply calm_main_round|]. intros _. apply calm_ret.
  - apply calm_bind; [apply calm_solid, solid_ProcessPacket|]. intros _. apply calm_ret.
  - apply calm_solid, solid_ARPTimer.
  - apply calm_solid, solid_CheckRtmTimeout.
  - apply calm_solid, solid_CheckTimewaitExpire.
  - apply calm_solid, solid_CheckConnectionTimeout.
  - apply calm_solid, solid_WritePacketsToChunks.
Qed.
Lemma run_calm es : calm (run es).
Proof. induction es as [|e es IH]; [apply calm_ret|]. apply calm_bind; [apply exec_calm|]. by intros _. Qed.

(** ** From the start of the thread *)
Lemma count_empty Q : count ∅ Q = 0.
Proof. unfold count. by rewrite map_filter_empty, map_size_empty. Qed.
Lemma tracks_empty Q : tracks ∅ [] Q.
Proof.
  split; [apply NoDup_nil_2|]. intros p. split; [by intros ?%elem_of_nil|]. intros (s&Hs&_).
  by rewrite lookup_empty in Hs.
Qed.
Lemma create_senders_lookup C d k d' : create_senders C d !! k = Some d' → d' = d.
Proof.
  unfold create_senders. intros Hk. apply elem_of_list_to_map_2 in Hk.
  apply list_elem_of_fmap in Hk as (j&[= _ ->]&_). done.
Qed.
Lemma create_senders_total C d k : is_sender C k → is_Some (create_senders C d !! k).
Proof.
  intros Hk. unfold create_senders. apply not_eq_None_Some. intros E.
  apply not_elem_of_list_to_map in E. apply E. rewrite <- list_fmap_compose.
  apply list_elem_of_fmap. exists k. split; [done|]. unfold sender_keys.
  destruct Hk as [->|Hk]; [left|right]. apply elem_of_seqZ. lia.
Qed.

(** Every route leads to an interface of the configuration, or there is none. *)
Definition routed (C : mtcp_config) : Prop := ∀ daddr, is_Some (sender_key C (nif_for C daddr)).

Lemma init_inv C fp rv sv snd rcv ap_if seed w free m :
  InitializeMTCPManager C (Some fp) rv sv snd rcv ap_if seed w true = Some m →
  routed C → pool_free fp free → Z.of_nat (length free) < 2147483646 → inv None m ∧ idle m.
Proof.
  intros E Hr Hfree Hb. unfold InitializeMTCPManager in E. simpl in E.
  destruct rv as [rv|]; [|done]. destruct sv as [sv|]; [|done]. destruct snd as [snd|]; [|done].
  destruct rcv as [rcv|]; [|done]. cbn -[BACKLOG_SIZE replicate seqZ list_to_map] in E. injection E as <-.
  split; [|by split; intros []]. split; simpl; try done.
  - split; [done|]. apply create_senders_total.
  - intros x k d ->%create_senders_lookup. destruct x; apply tracks_empty.
  - intros x k d ->%create_senders_lookup. rewrite count_empty. by destruct x.
  - intros i _. apply tracks_empty.
  - apply tracks_empty.
  - apply tracks_empty.
  - exists ∅. split; [by apply FlowHash.empty_holds|]. intros f p. rewrite lookup_empty.
    split; [done|]. intros (s&Hs&_). by rewrite lookup_empty in Hs.
  - exists free. split_and!; [done|done| |].
    + intros p [s Hs]. by rewrite lookup_empty in Hs.
    + rewrite map_size_empty. lia.
Qed.


(** A list that is tracked has the length its counter says. *)
Lemma sender_counter m x k d : inv None m → senders m !! k = Some d → scnt x d = s32 (Z.of_nat (length (slist x d))).
Proof.
  intros Hi Hd. rewrite (inv_scnt _ _ Hi x k d Hd). f_equal. symmetry. apply tracks_length.
  destruct (inv_sender _ _ Hi x k d Hd) as [Hn Hm]. split; [done|]. intros p. rewrite Hm.
  unfold on_sender. assert (holed None x p = false) as -> by (by destruct x; [|apply bool_decide_false|]).
  split; intros (s&Hs&Hq); exists s; (split; [done|]); by rewrite andb_true_r in *.
Qed.

End Stack.

(** ** A concrete thread *)
Module Demo.
(** Write buffers are available, memory comes from address 65536 on, nothing is
    offloaded. *)
#[export] Instance demo_world : World Z := {
  get_wptr n _ _ := (true, n);
  calloc n := (Some n, n + 64);
  stale_bytes _ n := replicate (Z.to_nat n) 0;
  dev_ioctl := None;
  ip_fast_csum _ := 0;
  rand_r seed := (seed * 1103515245 mod 2147483648, seed + 1)
}.

(** 10.0.0.1 on the only interface, the peer 10.0.0.2 in the ARP table. *)
Definition local_ip : Z := 16777226.
Definition peer_ip : Z := 33554442.
Definition demo_config : mtcp_config :=
  mk_config [mk_eth 0 [2; 0; 0; 0; 0; 1] local_ip] [0] [mk_route 10 16777215 10 24 0] None
    [mk_arp peer_ip 32 4294967295 peer_ip [2; 0; 0; 0; 0; 2]] None 8 8192 0 30000.

Definition demo_pool (start : Z) : option MemPool.mem_pool := MemPool.MPCreate (Some start) 64 256.
Definition demo_init : option (mtcp_manager MemPool.mem_pool Z) :=
  InitializeMTCPManager demo_config (demo_pool 4096) (demo_pool 8192) (demo_pool 12288)
    (SB.SBManagerCreate (λ _ _, demo_pool 16384) true true 8192 4)
    (RB.RBManagerCreate (λ _ _, demo_pool 20480) true true true 8192 4) ∅ 7 65536 true.

(** A segment from port 5000 of the peer to port 80. *)
Definition peer_port : Z := swap16 5000.
Definition local_port : Z := swap16 80.
Definition seg_bytes (seq ack flags : Z) (payload : list Z) : list Z :=
  checksummed (-1) (λ check, tcp_header peer_port local_port seq ack 8 flags 512 check)
    ([1; 1; 8; 10] ++ be32 100 ++ be32 0 ++ payload) peer_ip local_ip.
Definition packet (seq ack flags : Z) (payload : list Z) : list Z :=
  let seg := seg_bytes seq ack flags payload in
  ip_header (20 + Z.of_nat (length seg)) 1 6 0 peer_ip local_ip ++ seg.
Definition eth_frame (packet : list Z) : list Z := [2; 0; 0; 0; 0; 1] ++ [2; 0; 0; 0; 0; 2] ++ be16 ETH_P_IP ++ packet.
Definition arrival (ts seq ack flags : Z) (payload : list Z) : thread_event :=
  Frame 0 ts (eth_frame (packet seq ack flags payload)).

(** The thread with a listener on port 80 and a shorter connect queue. *)
Definition listening (m : mtcp_manager MemPool.mem_pool Z) : mtcp_manager MemPool.mem_pool Z :=
  m <| listeners := (FlowHash.ListenerHTInsert ∅ (FlowHash.mk_item 99 local_port)).2 |>
    <| listener := {[ 99 := mk_listener 3 (CircQ.mk_queue 4 0 0 (replicate 5 None)) ]} |>
    <| connectq := CircQ.mk_queue 4 0 0 (replicate 5 None) |>
    <| smap := {[ 3 := EQ.mk_smap 3 EQ.MTCP_SOCK_LISTENER 0 (AddrPool.mk_addr local_ip local_port) 0 0 0 0 ]} |>.

Lemma demo_flow_pool :
  ∃ mp free, demo_pool 4096 = Some mp ∧ pool_free mp free ∧ Z.of_nat (length free) < 2147483646.
Proof.
  destruct (MemPool.create_stack 4096 64 256) as (mp&E&_&_&Hs); try done.
  - apply (bool_decide_unpack _). vm_compute. exact I.
  - exists mp, (MemPool.run 64 4096 (Z.to_nat ((256 + (64 - 1)) / 64))). done.
Qed.
Lemma demo_routed : routed demo_config.
Proof.
  intros a. unfold nif_for, GetOutputInterface. simpl. destruct (Z.land a 16777215 =? 10); by eexists.
Qed.

(** The state after some events of the listening thread. *)
Definition demo_state (es : list thread_event) : option (mtcp_manager MemPool.mem_pool Z) :=
  m ← demo_init;
  match run es (listening m) with inr (_, m') => Some m' | inl _ => None end.
Lemma demo_start : ∃ m, demo_init = Some m ∧ inv None m ∧ idle m.
Proof.
  destruct demo_flow_pool as (fp&free&E&Hf&Hb).
  destruct demo_init as [m|] eqn:Ei; [|vm_compute in Ei; discriminate]. exists m. split; [done|].
  unfold demo_init in Ei. rewrite E in Ei. eapply init_inv; [exact Ei|exact demo_routed|exact Hf|exact Hb].
Qed.
Lemma demo_state_inv es m : demo_state es = Some m → inv None m.
Proof.
  unfold demo_state. destruct demo_start as (m0&->&Hi&Hd). simpl.
  assert (inv None (listening m0)) as Hi' by (by apply (inv_core None m0)).
  assert (idle (listening m0)) as Hd'.
  { destruct Hd as [H1 H2]. split; intros []; [done|apply (H1 SendQ)|apply (H1 AckQ)|apply (H1 CloseQ)|apply (H1 ResetQ)
      |apply (H1 DestroyQ)|apply (H2 CloseInt)|apply (H2 ResetInt)]. }
  pose proof (run_calm es (listening m0) Hi' Hd') as Hr. destruct (run es (listening m0)) as [|[u m']]; [done|].
  intros [= <-]. apply Hr.
Qed.
Definition demo_syn : list thread_event := [arrival 10 1000 0 TCP_FLAG_SYN []; WritePackets 10 10].
Definition demo_iss : Z := 1282155771.
Definition demo_connected : list thread_event := demo_syn ++ [arrival 12 1001 (demo_iss + 1) TCP_FLAG_ACK []].

(** A handshake, five bytes and a FIN: the stream is accepted, the bytes are
    received, the FIN is acknowledged. *)
Example demo_session :
  match demo_state (demo_connected ++
          [arrival 13 1001 (demo_iss + 1) TCP_FLAG_ACK [104; 101; 108; 108; 111]; WritePackets 10 13;
           arrival 14 1006 (demo_iss + 1) (Z.lor TCP_FLAG_FIN TCP_FLAG_ACK) []; WritePackets 10 15]) with
  | Some m =>
    option_map (λ s, (state s, snd_nxt s, rcv_nxt s, option_map RB.merged_len (rcvbuf (rcvvar s)))) (streams m !! 4096)
      = Some (TCP_ST_CLOSE_WAIT, demo_iss + 1, 1007, Some 5)
    ∧ length (out m) = 3%nat ∧ flow_cnt m = 1
  | None => False
  end.
Proof. vm_compute. auto. Qed.

(** A SYN, a check of the timers and the answer; then a round. *)
Definition demo_events : list thread_event :=
  [arrival 10 1000 0 TCP_FLAG_SYN []; RtmTimeout 11 100; WritePackets 10 12;
   Round 10 true 13 12 [(0, eth_frame (packet 1001 1 TCP_FLAG_ACK []))]].


(** The events end. *)
Definition ended (o : option (mtcp_manager MemPool.mem_pool Z)) : bool :=
  match o with Some m => match run demo_events m with inr _ => true | inl _ => false end | None => false end.
End Demo.
