(* ===== verification/TcpTrans.v ===== *)
(** * State transitions

    The states a received segment and a retransmission timeout can take a
    stream to, as a relation on [tcp_state], and a small logic ([moves]) to
    show that the code follows it. *)
From S2P Require Import Prelude SeqNum CircQueue MemPool RingBuffer SendBuffer FlowHash EventQueue TcpTypes NetOut TcpLists TcpInv TcpOptions TcpStream.
From S2P Require Import TcpFrame TcpOut Timer TcpIn Stack.

(** The transitions of one segment.  [TCP_ST_CLOSED] from a synchronised state
    is the loss of memory for the payload; a stream that is destroyed has no
    state. *)
Definition may_go (g : segment) (a b : tcp_state) : bool :=
  bool_decide (a = b) ||
  match a, b with
  | TCP_ST_LISTEN, TCP_ST_SYN_RCVD => g_syn g
  | TCP_ST_SYN_SENT, TCP_ST_SYN_RCVD => g_syn g && negb (g_ack g)
  | TCP_ST_SYN_SENT, TCP_ST_ESTABLISHED => g_syn g && g_ack g
  | TCP_ST_SYN_SENT, TCP_ST_CLOSE_WAIT => g_rst g && g_ack g
  | TCP_ST_SYN_RCVD, TCP_ST_ESTABLISHED | TCP_ST_SYN_RCVD, TCP_ST_CLOSED => g_ack g
  | TCP_ST_SYN_RCVD, TCP_ST_CLOSE_WAIT => g_ack g && g_fin g && (g_payloadlen g >? 0)
  | TCP_ST_ESTABLISHED, TCP_ST_CLOSE_WAIT => g_fin g || g_rst g
  | TCP_ST_ESTABLISHED, TCP_ST_CLOSED => g_payloadlen g >? 0
  | TCP_ST_FIN_WAIT_1, TCP_ST_FIN_WAIT_2 => g_ack g
  | TCP_ST_FIN_WAIT_1, TCP_ST_CLOSING | TCP_ST_FIN_WAIT_1, TCP_ST_TIME_WAIT => g_ack g && g_fin g
  | TCP_ST_FIN_WAIT_1, TCP_ST_CLOSED => g_ack g && (g_payloadlen g >? 0)
  | TCP_ST_FIN_WAIT_2, TCP_ST_TIME_WAIT => g_ack g && g_fin g
  | TCP_ST_FIN_WAIT_2, TCP_ST_CLOSED => g_ack g && (g_payloadlen g >? 0)
  | TCP_ST_CLOSING, TCP_ST_TIME_WAIT => g_ack g
  | _, _ => false
  end.

Section Trans.
Context {P IO : Type} `{ChunkPool P, World IO}.
Local Abbreviation mtcp := (mtcp_manager P IO).
Local Abbreviation M := (M P IO).
Implicit Types (Q R : tcp_state → Prop).

(** Started in a state of [Q], [c] leaves the stream [p], if at all, in a state
    of [R]. *)
Definition moves {A} (p : Z) Q (c : M A) R : Prop :=
  ∀ m a m', c m = inr (a, m') → ∀ s', streams m' !! p = Some s' →
  ∃ s, streams m !! p = Some s ∧ (Q (state s) → R (state s')).

Lemma moves_bind {A B} p Q R1 R (c : M A) (k : A → M B) :
  moves p Q c R1 → (∀ a, moves p R1 (k a) R) → moves p Q (bind c k) R.
Proof.
  intros Hc Hk m b m2 E s2 Hs2. unfold bind in E. destruct (c m) as [|[a m1]] eqn:Ec; [done|].
  destruct (Hk a m1 b m2 E s2 Hs2) as (s1&Hs1&Hr). destruct (Hc m a m1 Ec s1 Hs1) as (s&Hs&Hr1). exists s. auto.
Qed.
Lemma moves_fixes {A} p Q R (c : M A) : fixes state p c → (∀ x, Q x → R x) → moves p Q c R.
Proof.
  intros Hc Hq m a m' E s' Hs'. destruct (Hc m a m' E s' Hs') as (s&Hs&Es). exists s. split; [done|].
  rewrite Es. apply Hq.
Qed.
Lemma moves_kills {A} p Q R (c : M A) : kills p c → moves p Q c R.
Proof. intros Hc m a m' E s' Hs'. by rewrite (Hc m a m' E) in Hs'. Qed.
(** What is read is the state of the stream. *)
Lemma moves_getS {B} p Q R (k : tcp_stream → M B) :
  (∀ s, Q (state s) → moves p (λ x, x = state s) (k s) R) → moves p Q (bind (getS p) k) R.
Proof.
  intros Hk m b m' E s' Hs'. unfold bind, getS, gets, lift in E. cbn in E.
  destruct (streams m !! p) as [s|] eqn:Hs; [|done]. cbn in E. exists s. split; [done|]. intros Hq.
  destruct (Hk s Hq m b m' E s' Hs') as (s2&Hs2&Hr). rewrite Hs in Hs2. injection Hs2 as <-. by apply Hr.
Qed.
Lemma moves_modS p Q R f : (∀ s, Q (state s) → R (state (f s))) → moves p Q (modS p f) R.
Proof.
  intros Hf m a m' E s' Hs'. unfold modS, getS, bind, gets, lift, modify in E. cbn in E.
  destruct (streams m !! p) as [s|] eqn:Hs; [|done]. cbn in E. injection E as <- <-. cbn in Hs'.
  rewrite lookup_insert_eq in Hs'. injection Hs' as <-. exists s. auto.
Qed.
Lemma moves_weaken {A} p Q Q' R (c : M A) : (∀ x, Q x → Q' x) → moves p Q' c R → moves p Q c R.
Proof. intros Hq Hc m a m' E s' Hs'. destruct (Hc m a m' E s' Hs') as (s&Hs&Hr). exists s. auto. Qed.
Lemma moves_post {A} p Q R R' (c : M A) : moves p Q c R → (∀ x, R x → R' x) → moves p Q c R'.
Proof. intros Hc Hr m a m' E s' Hs'. destruct (Hc m a m' E s' Hs') as (s&Hs&Hq). exists s. auto. Qed.
End Trans.

(** [moving] follows an operation: calls that leave the state alone are passed
    by, what is read is remembered, and a write of the state is the new one. *)
Ltac moving_step :=
  match goal with
  | |- moves _ _ (bind (getS _) _) _ => apply moves_getS; intros ? ?
  | |- moves ?p ?Q (bind (modS _ (λ s, set_field state (λ _, ?v) (@?h s))) _) _ =>
      apply (moves_bind p Q (λ x, x = v)); [by apply moves_modS|intros ?]
  | |- moves ?p ?Q (bind (modS _ (λ s, set_field _ _ (set_field state (λ _, ?v) s))) _) _ =>
      apply (moves_bind p Q (λ x, x = v)); [by apply moves_modS|intros ?]
  | |- moves ?p ?Q (bind ?c _) _ => apply (moves_bind p Q Q); [apply moves_fixes; [solve [fixing]|by auto]|intros ?]
  | |- moves _ _ (when ?b _) _ => destruct b eqn:?; unfold when
  | |- moves _ _ (match ?x with _ => _ end) _ => destruct x eqn:?
  | |- moves _ _ (DestroyTCPStream _) _ => apply moves_kills, kills_DestroyTCPStream
  | |- moves _ _ _ _ => apply moves_fixes; [solve [fixing]|]
  end.
Ltac moving := repeat (moving_step; cbv beta zeta).

Section Moves.
Context {P IO : Type} `{ChunkPool P, World IO}.
Local Abbreviation mtcp := (mtcp_manager P IO).
Local Abbreviation M := (M P IO).
Implicit Types (Q R : tcp_state → Prop) (g : segment).

Lemma fixes_receive_ack p ts g : fixes state p (receive_ack p ts g : M unit).
Proof. fixing. Qed.
Lemma fixes_ValidateSequence p ts g : fixes state p (ValidateSequence p ts g : M bool).
Proof. fixing. Qed.
Lemma fixes_HandleActiveOpen p ts g : fixes state p (HandleActiveOpen p ts g : M bool).
Proof. fixing. Qed.
Hint Resolve fixes_receive_ack fixes_ValidateSequence fixes_HandleActiveOpen : tcp.

Lemma moves_ProcessTCPPayload p Q ts bs sq n :
  moves p Q (ProcessTCPPayload p ts bs sq n : M Z) (λ y, Q y ∨ y = TCP_ST_CLOSED).
Proof.
  unfold ProcessTCPPayload. moving; try (intros x ->; by left); try (intros x ->; by right).
Qed.

Lemma moves_receive_payload p Q ts g :
  moves p Q (receive_payload p ts g : M unit) (λ y, Q y ∨ y = TCP_ST_CLOSED ∧ (g_payloadlen g >? 0) = true).
Proof.
  unfold receive_payload. destruct (g_payloadlen g >? 0); unfold when; [|moving; auto].
  eapply moves_bind; [apply moves_ProcessTCPPayload|]. intros r. moving. intros x [?| ->]; auto.
Qed.

Lemma moves_Handle_LISTEN p a ts g :
  moves p (λ x, x = a) (Handle_TCP_ST_LISTEN p ts g : M unit)
    (λ y, y = a ∨ y = TCP_ST_SYN_RCVD ∧ g_syn g = true).
Proof. unfold Handle_TCP_ST_LISTEN. destruct (g_syn g) eqn:E; moving; intros x ->; auto. Qed.

Lemma moves_connect_established p Q ts g :
  moves p Q (connect_established p ts g : M unit) (λ y, y = TCP_ST_ESTABLISHED).
Proof. unfold connect_established. moving; intros x ->; congruence. Qed.

Lemma moves_Handle_SYN_SENT p ts g :
  moves p (λ x, x = TCP_ST_SYN_SENT) (Handle_TCP_ST_SYN_SENT p ts g : M unit)
    (λ y, may_go g TCP_ST_SYN_SENT y = true).
Proof.
  unfold Handle_TCP_ST_SYN_SENT. apply moves_getS. intros s Hs. rewrite Hs.
  destruct (_ && _) eqn:Ea; [moving; by intros x ->|].
  eapply (moves_bind p _ (λ x, x = TCP_ST_SYN_SENT)); [moving; by intros x ->|]. intros _.
  unfold may_go. destruct (g_rst g) eqn:Er; [moving; by intros x ->|].
  destruct (g_syn g) eqn:Esy; unfold when; [|moving; by intros x ->].
  destruct (g_ack g) eqn:Eack; [|moving; by intros x ->].
  eapply moves_post; [apply moves_connect_established|]. by intros x ->.
Qed.

Lemma moves_offer p Q ts port :
  moves p Q (offer_to_listener p ts port : M unit) (λ y, Q y ∨ y = TCP_ST_CLOSED).
Proof.
  unfold offer_to_listener. do 4 (apply (moves_bind p Q Q); [apply moves_fixes; [solve [fixing]|by auto]|intros ?]).
  destruct (StreamQ.StreamEnqueue _ _) as [r q].
  apply (moves_bind p Q Q); [apply moves_fixes; [solve [fixing]|by auto]|intros _].
  apply (moves_bind p Q (λ y, Q y ∨ y = TCP_ST_CLOSED)).
  - destruct (r <? 0); unfold when; moving; [intros x ->; by right|by left].
  - intros _. moving; auto.
Qed.

Lemma moves_Handle_SYN_RCVD p ts g :
  moves p (λ x, x = TCP_ST_SYN_RCVD) (Handle_TCP_ST_SYN_RCVD p ts g : M unit)
    (λ y, y = TCP_ST_SYN_RCVD ∨ (y = TCP_ST_ESTABLISHED ∨ y = TCP_ST_CLOSED) ∧ g_ack g = true).
Proof.
  unfold Handle_TCP_ST_SYN_RCVD. apply moves_getS. intros s Hs. rewrite Hs. destruct (g_ack g); [|moving; auto].
  destruct (negb _); [moving; auto|].
  do 6 (apply (moves_bind p _ (λ x, x = TCP_ST_SYN_RCVD)); [apply moves_fixes; [solve [fixing]|by auto]|intros ?]).
  apply (moves_bind p _ (λ x, x = TCP_ST_ESTABLISHED)); [by apply moves_modS|]. intros _.
  eapply moves_post; [apply moves_offer|]. intros x [->| ->]; auto.
Qed.

(** The FIN of the peer, and the two handlers that receive payload and FIN. *)
Lemma moves_Handle_ESTABLISHED p ts g :
  moves p (λ x, x = TCP_ST_ESTABLISHED) (Handle_TCP_ST_ESTABLISHED p ts g : M unit)
    (λ y, y = TCP_ST_ESTABLISHED ∨ y = TCP_ST_CLOSED ∧ (g_payloadlen g >? 0) = true
          ∨ y = TCP_ST_CLOSE_WAIT ∧ g_fin g = true).
Proof.
  unfold Handle_TCP_ST_ESTABLISHED. destruct (g_syn g); [moving; auto|].
  eapply moves_bind; [apply moves_receive_payload|]. intros _.
  eapply moves_bind; [apply moves_fixes; [solve [fixing]|intros x Hx; exact Hx]|]. intros _.
  destruct (g_fin g) eqn:Ef; unfold when; [|moving; tauto].
  apply moves_getS. intros s Hs. destruct (_ =? rcv_nxt s); moving; intros x ->; tauto.
Qed.

Lemma moves_Handle_FIN_WAIT_2 p ts g :
  moves p (λ x, x = TCP_ST_FIN_WAIT_2) (Handle_TCP_ST_FIN_WAIT_2 p ts g : M unit)
    (λ y, may_go g TCP_ST_FIN_WAIT_2 y = true).
Proof.
  unfold Handle_TCP_ST_FIN_WAIT_2, may_go. destruct (g_ack g); [|moving; by intros x ->]. simpl negb. cbv iota.
  apply (moves_bind p _ (λ x, x = TCP_ST_FIN_WAIT_2)); [by apply moves_fixes; [fixing|]|]. intros _.
  eapply moves_bind; [apply moves_receive_payload|]. intros _.
  destruct (g_fin g) eqn:Ef; unfold when; [|moving; by intros x [->|[-> ->]]].
  apply moves_getS. intros s Hs. destruct (_ =? rcv_nxt s); moving; intros x ->; [done|].
  by destruct Hs as [->|[-> ->]].
Qed.

Lemma moves_Handle_FIN_WAIT_1 p ts g :
  moves p (λ x, x = TCP_ST_FIN_WAIT_1) (Handle_TCP_ST_FIN_WAIT_1 p ts g : M unit)
    (λ y, may_go g TCP_ST_FIN_WAIT_1 y = true).
Proof.
  unfold Handle_TCP_ST_FIN_WAIT_1. apply moves_getS. intros s Hs. rewrite Hs. unfold may_go.
  destruct (TCP_SEQ_LT _ _); [moving; by intros x ->|]. destruct (g_ack g); [|moving; by intros x ->].
  simpl negb. cbv iota.
  apply (moves_bind p _ (λ x, x = TCP_ST_FIN_WAIT_1)); [by apply moves_fixes; [fixing|]|]. intros _.
  apply moves_getS. intros s2 Hs2. rewrite Hs2.
  apply (moves_bind p _ (λ x, x = TCP_ST_FIN_WAIT_1 ∨ x = TCP_ST_FIN_WAIT_2)).
  { destruct (_ && _); unfold when; [|moving; auto].
    do 4 (apply (moves_bind p _ (λ x, x = TCP_ST_FIN_WAIT_1)); [by apply moves_fixes; [fixing|]|intros _]).
    apply moves_modS. by right. }
  intros _. eapply moves_bind; [apply moves_receive_payload|]. intros _.
  destruct (g_fin g) eqn:Ef; unfold when; [|moving; by intros x [[->| ->]|[-> ->]]].
  apply moves_getS. intros s3 Hs3. destruct (_ =? rcv_nxt s3);
    [|moving; intros x ->; by destruct Hs3 as [[->| ->]|[-> ->]]].
  apply (moves_bind p _ (λ x, x = state s3)); [by apply moves_fixes; [fixing|]|]. intros _.
  destruct Hs3 as [[E|E]|[E Hp]]; rewrite E.
  - moving. by intros x ->.
  - apply (moves_bind p _ (λ x, x = TCP_ST_TIME_WAIT)); [moving; auto|]. intros _. moving. by intros x ->.
  - moving. intros x ->. by rewrite Hp.
Qed.

Lemma moves_Handle_CLOSING p ts g :
  moves p (λ x, x = TCP_ST_CLOSING) (Handle_TCP_ST_CLOSING p ts g : M unit)
    (λ y, may_go g TCP_ST_CLOSING y = true).
Proof.
  unfold Handle_TCP_ST_CLOSING, may_go. destruct (g_ack g); [|moving; by intros x ->]. simpl negb. cbv iota.
  apply (moves_bind p _ (λ x, x = TCP_ST_CLOSING)); [by apply moves_fixes; [fixing|]|]. intros _.
  apply moves_getS. intros s Hs. rewrite Hs. moving; by intros x ->.
Qed.
Lemma moves_Handle_LAST_ACK p ts g :
  moves p (λ x, x = TCP_ST_LAST_ACK) (Handle_TCP_ST_LAST_ACK p ts g : M unit) (λ y, y = TCP_ST_LAST_ACK).
Proof. unfold Handle_TCP_ST_LAST_ACK. moving; congruence. Qed.

Lemma may_go_refl g a : may_go g a a = true.
Proof. unfold may_go. by rewrite bool_decide_true. Qed.

Lemma moves_dispatch p a ts g :
  moves p (λ x, x = a) (dispatch p ts g : M unit) (λ y, may_go g a y = true).
Proof.
  unfold dispatch. apply moves_getS. intros s <-. set (R := λ y, may_go g (state s) y = true).
  assert (∀ c : M unit, fixes state p c → moves p (λ x, x = state s) c R) as Hfix.
  { intros c Hc. apply moves_fixes; [done|]. intros x ->. apply may_go_refl. }
  unfold R. destruct (state s) eqn:Es.
  - by apply Hfix; fixing.
  - eapply moves_post; [apply moves_Handle_LISTEN|]. unfold may_go. by intros x [->|[-> ->]].
  - apply moves_Handle_SYN_SENT.
  - destruct (_ && _) eqn:Ea.
    + eapply moves_post; [apply moves_Handle_LISTEN|]. by intros x [->|[-> _]].
    + eapply moves_bind; [apply moves_Handle_SYN_RCVD|]. intros _. apply moves_getS. intros s2 Hs2.
      destruct (_ && st_eqb _ _) eqn:Eb; unfold when.
      * apply andb_true_iff in Eb as [Hp Hst].
        assert (state s2 = TCP_ST_ESTABLISHED) as E2 by (destruct (state s2); done). rewrite E2 in *.
        destruct Hs2 as [?|[_ Hack]]; [done|]. eapply moves_post; [apply moves_Handle_ESTABLISHED|].
        unfold may_go. rewrite Hack, Hp. by intros x [->|[[-> _]|[-> ->]]].
      * moving. unfold may_go. intros x ->. destruct Hs2 as [->|[[->| ->] Hack]]; by rewrite ?Hack.
  - eapply moves_post; [apply moves_Handle_ESTABLISHED|]. unfold may_go.
    by intros x [->|[[-> ->]|[-> ->]]].
  - apply moves_Handle_FIN_WAIT_1.
  - apply moves_Handle_FIN_WAIT_2.
  - by apply Hfix; fixing.
  - apply moves_Handle_CLOSING.
  - eapply moves_post; [apply moves_Handle_LAST_ACK|]. by intros x ->.
  - by apply Hfix; fixing.
Qed.

Lemma moves_ProcessRST p a ack :
  moves p (λ x, x = a) (ProcessRST p ack : M bool)
    (λ y, y = a ∨ y = TCP_ST_CLOSE_WAIT ∧ a = TCP_ST_ESTABLISHED).
Proof.
  unfold ProcessRST. apply moves_getS. intros s <-. destruct (state s) eqn:Es;
    try (by moving; intros x ->; auto);
    (eapply moves_bind; [|intros _; apply moves_fixes; [apply fixes_ret|intros x Hx; exact Hx]]).
  - destruct (ack =? snd_nxt s); unfold when; moving. auto.
  - destruct (negb _); unfold when; moving; intros x ->; auto.
  - moving.
  - moving.
  - destruct (negb _); unfold when; moving; intros x ->; auto.
  - moving.
  - moving.
  - moving.
Qed.

Lemma moves_process_segment p a ts g :
  moves p (λ x, x = a) (process_segment p ts g : M unit) (λ y, may_go g a y = true).
Proof.
  unfold process_segment. apply moves_getS. intros s <-. set (a := state s).
  apply (moves_bind p _ (λ x, x = a)); [apply moves_fixes; [fixing|done]|]. intros ok.
  destruct (negb ok); [moving; intros x ->; apply may_go_refl|].
  do 4 (apply (moves_bind p _ (λ x, x = a)); [by apply moves_fixes; [fixing|]|intros _]).
  apply moves_getS. intros s2 Hs2. rewrite Hs2.
  apply (moves_bind p _ (λ y, y = a ∨ (y = TCP_ST_CLOSE_WAIT ∧ a = TCP_ST_ESTABLISHED) ∧ g_rst g = true)).
  { destruct (g_rst g); simpl; [|moving; auto]. destruct (_ <? _); [|moving; auto].
    eapply moves_post; [apply moves_ProcessRST|]. intros x [?|?]; auto. }
  intros dn. destruct dn.
  - moving. intros x [->|[[-> Ea] Hr]]; [apply may_go_refl|]. rewrite Ea. unfold may_go. by rewrite Hr, orb_true_r.
  - intros m b m' E s' Hs'. destruct (streams m !! p) as [s0|] eqn:Hs0.
    + exists s0. split; [done|]. intros [E0|[[E0 Ea] Hr]].
      * destruct (moves_dispatch p a ts g m b m' E s' Hs') as (s1&Hs1&Hm). rewrite Hs0 in Hs1. injection Hs1 as <-. auto.
      * destruct (moves_dispatch p TCP_ST_CLOSE_WAIT ts g m b m' E s' Hs') as (s1&Hs1&Hm).
        rewrite Hs0 in Hs1. injection Hs1 as <-. specialize (Hm E0). rewrite Ea.
        destruct (state s'); unfold may_go in *; simpl in *; try done. by rewrite Hr, orb_true_r.
    + destruct (moves_dispatch p a ts g m b m' E s' Hs') as (s1&Hs1&_). congruence.
Qed.

End Moves.

(** The peer closes an established connection. *)
Import Demo.
Definition demo_fin : segment :=
  mk_seg peer_ip local_ip peer_port local_port 1001 (demo_iss + 1) 8 true false false true 512
    ([1; 1; 8; 10] ++ be32 101 ++ be32 0) 12 [] 0.
