(* ===== verification/Rtt.v ===== *)
(** * The round-trip estimator over a connection

    [EstimateRTT] is called for every acknowledgment of new data that carries a
    timestamp.  Here a whole sequence of such calls is followed: the estimate
    stays between the extreme samples, no 32-bit field wraps around, and the
    retransmission timeout computed from the fields is positive and bounded. *)
From S2P Require Import Prelude SeqNum TcpTypes TcpIn.

(** One measurement: the sample, and [snd_una] and [snd_nxt] when it is made. *)
Record sample := mk_sample { sm_rtt : Z; sm_una : Z; sm_nxt : Z }.

Definition measure (s : tcp_stream) (x : sample) : tcp_stream :=
  let s := s <| snd_nxt := sm_nxt x |> <| sndvar := (sndvar s) <| snd_una := sm_una x |> |> in
  s <| rcvvar := EstimateRTT s (sm_rtt x) |>.

(** The timeout that [ProcessACK] sets after a measurement. *)
Definition measured_rto (s : tcp_stream) : Z := Z.shiftr (srtt (rcvvar s)) 3 ⊞ rttvar (rcvvar s).

(** Every sample (a zero counts as one tick) is between [a] and [b]. *)
Definition in_band (a b : Z) (x : sample) : Prop := 0 <= sm_rtt x ∧ a <= Z.max 1 (sm_rtt x) <= b.

Record est_ok (a b : Z) (r : tcp_recv_vars) : Prop := {
  est_srtt : 8 * a <= srtt r <= 8 * b + 7;
  est_mdev : 0 <= mdev r <= 4 * b + 3;
  est_max : 0 <= mdev_max r <= 4 * b + 3;
  est_var : 1 <= rttvar r <= 4 * b + 3
}.

Section Band.
Context (a b : Z).
Hypothesis a_pos : 1 <= a.
Hypothesis b_small : b < 536870911.

(** The first measurement. *)
Lemma EstimateRTT_fresh s x : in_band a b x → srtt (rcvvar s) = 0 → est_ok a b (EstimateRTT s (sm_rtt x)).
Proof using a_pos b_small.
  intros [H1 H2] E. unfold EstimateRTT. rewrite E. simpl negb. cbv iota.
  rewrite !Z.shiftl_mul_pow2, MAX_spec by done.
  destruct (Z.eqb_spec (sm_rtt x) 0) as [E0|]; [rewrite E0 in *|]; split; rec_simpl; cbn in *; ulia.
Qed.

(** The mean deviation after a measurement with the error [e]. *)
Definition next_mdev (d e : Z) : Z :=
  d + (if e <? 0 then (let e' := - e - Z.shiftr d 2 in if e' >? 0 then Z.shiftr e' 3 else e') else e - Z.shiftr d 2).

Lemma next_mdev_bounds d e : 0 <= d <= 4 * b + 3 → - b <= e <= b → 0 <= next_mdev d e <= 4 * b + 3.
Proof using a_pos b_small.
  intros Hd He. unfold next_mdev. cbn zeta. rewrite !Z.shiftr_div_pow2 by lia.
  change (2 ^ 3) with 8. change (2 ^ 2) with 4. destruct (Z.ltb_spec e 0); [destruct (Z.gtb_spec (- e - d / 4) 0)|];
    Z.div_mod_to_equations; lia.
Qed.

(** The variance moves a quarter of the way to the maximum deviation. *)
Lemma shrink_bounds x v :
  0 <= x < v → v <= 4 * b + 3 → 1 <= v ⊟ Z.shiftr (v ⊟ x) 2 <= 4 * b + 3.
Proof using a_pos b_small.
  intros Hx Hv. rewrite (u32_id (v - x)), Z.shiftr_div_pow2 by lia. change (2 ^ 2) with 4.
  rewrite u32_id by (Z.div_mod_to_equations; lia). Z.div_mod_to_equations; lia.
Qed.

(** The rest of the function: the maximum and the variance. *)
Lemma est_step r d (roll : tcp_recv_vars → bool) nxt :
  8 * a <= srtt r <= 8 * b + 7 → 0 <= d <= 4 * b + 3 → 0 <= mdev_max r <= 4 * b + 3 → 1 <= rttvar r <= 4 * b + 3 →
  let r := r <| mdev := d |> in
  let r := if mdev r >? mdev_max r then
             let r := r <| mdev_max := mdev r |> in
             if mdev_max r >? rttvar r then r <| rttvar := mdev_max r |> else r
           else r in
  est_ok a b (if roll r then
                let r := if mdev_max r <? rttvar r
                         then r <| rttvar := rttvar r ⊟ Z.shiftr (rttvar r ⊟ mdev_max r) 2 |> else r in
                r <| rtt_seq := nxt |> <| mdev_max := 0 |>
              else r).
Proof using a_pos b_small.
  destruct r as [? ? ? ? ? ? ? ? ? ? ? S D X V ? ?]. rec_simpl. cbn [srtt mdev mdev_max rttvar].
  intros HS Hd HX HV. cbn zeta. rec_simpl. cbn [srtt mdev mdev_max rttvar].
  destruct (Z.gtb_spec d X); rec_simpl; cbn [srtt mdev mdev_max rttvar];
    [destruct (Z.gtb_spec d V); rec_simpl; cbn [srtt mdev mdev_max rttvar]|]; destruct (roll _);
    try match goal with |- context [?u <? ?v] => destruct (Z.ltb_spec u v) end;
    split; rec_simpl; cbn [srtt mdev mdev_max rttvar]; first [lia|apply shrink_bounds; lia].
Qed.

(** A later measurement. *)
Lemma EstimateRTT_next s x : in_band a b x → est_ok a b (rcvvar s) → est_ok a b (EstimateRTT s (sm_rtt x)).
Proof using a_pos b_small.
  intros [H1 H2] [Hs Hd Hx Hv]. unfold EstimateRTT.
  set (k := if sm_rtt x =? 0 then 1 else sm_rtt x).
  assert (k = Z.max 1 (sm_rtt x)) as Ek by (subst k; destruct (Z.eqb_spec (sm_rtt x) 0); lia). clearbody k.
  destruct (Z.eqb_spec (srtt (rcvvar s)) 0); [lia|]. cbv beta iota delta [negb]. cbn zeta.
  set (e := k - Z.shiftr (srtt (rcvvar s)) 3). rec_simpl.
  assert (e = k - srtt (rcvvar s) / 8) as Ee by (subst e; by rewrite Z.shiftr_div_pow2).
  assert (- b <= e <= b) as He by ulia.
  pose proof (next_mdev_bounds (mdev (rcvvar s)) e Hd He) as Hn. unfold next_mdev in Hn. cbn zeta in Hn.
  assert (8 * a <= u32 (srtt (rcvvar s) + e) <= 8 * b + 7) as Hs' by ulia.
  rewrite <- (u32_id (_ + _)) in Hn by lia.
  exact (est_step ((rcvvar s) <| srtt := u32 (srtt (rcvvar s) + e) |>) _
           (λ r, TCP_SEQ_GT (snd_una (sndvar s)) (rtt_seq r)) (snd_nxt s) Hs' Hn Hx Hv).
Qed.

Lemma measure_ok s x : in_band a b x → est_ok a b (rcvvar s) ∨ srtt (rcvvar s) = 0 → est_ok a b (rcvvar (measure s x)).
Proof using a_pos b_small.
  intros Hx [Hs|Hs]; [by apply EstimateRTT_next|by apply EstimateRTT_fresh].
Qed.

Lemma measures_ok xs : ∀ s, Forall (in_band a b) xs → est_ok a b (rcvvar s) →
  est_ok a b (rcvvar (foldl measure s xs)).
Proof using a_pos b_small.
  induction xs as [|x xs IH]; intros s Hxs Hs; [done|]. apply Forall_cons in Hxs as [Hx Hxs].
  apply IH; [done|]. apply measure_ok; auto.
Qed.
End Band.


