(* ===== verification/Segment.v ===== *)
(** * The segments the stack sends

    [SendTCPPacket] with the layers below it: the frame it hands to the network
    interface, read by the stack's own receiving code, is the segment that was
    meant; the stream advances by what was sent.  [FlushTCPSendingBuffer]: how
    much is sent, and that the loop ends. *)
From S2P Require Import Prelude SeqNum MemPool SendBuffer FlowHash Checksum TcpTypes NetOut TcpLists TcpInv TcpOptions.
From S2P Require Import TcpStream TcpFrame TcpOut TcpIn Stack Post.

(** ** Reading headers *)
Lemma le16_bytes v : is_u16 v → ∃ a b, le16 v = [a; b] ∧ a + 256 * b = v ∧ is_u8 a ∧ is_u8 b.
Proof.
  intros Hv. unfold le16, FlowHash.le_bytes. simpl. do 2 eexists. split; [reflexivity|].
  rewrite !land_byte, !Z.shiftr_div_pow2 by lia.
  change (2 ^ (8 * Z.of_nat 0)) with 1. change (2 ^ (8 * Z.of_nat 1)) with 256. Z.div_mod_to_equations. lia.
Qed.
Lemma be16_bytes v : is_u16 v → ∃ a b, be16 v = [a; b] ∧ swap16 (a + 256 * b) = v ∧ is_u8 a ∧ is_u8 b.
Proof.
  intros Hv. unfold be16. destruct (le16_bytes (swap16 v) (swap16_range v)) as (a&b&E&Ep&Ha&Hb).
  exists a, b. split; [done|]. split; [|done]. rewrite Ep. by apply swap16_involutive.
Qed.

(** Reads at constant offsets of a list that is given byte by byte. *)
Ltac read_bytes :=
  repeat match goal with
  | |- context [byte_at ?l ?i] =>
      let r := eval lazy in (byte_at l i) in change (byte_at l i) with r; cbn [mbind option_bind]
  end.

(** The two headers as the receiver reads them. *)
Lemma view_headers tot id proto check sa da sp dp sq ack doff flags win tcheck rest n :
  is_u32 sa → is_u32 da → is_u16 sp → is_u16 dp → is_u32 sq → is_u32 ack → 0 <= doff < 16 → is_u16 win →
  view (ip_header tot id proto check sa da ++ tcp_header sp dp sq ack doff flags win tcheck ++ rest) n
  = Some (mk_seg sa da sp dp sq ack doff (has flags TCP_FLAG_FIN) (has flags TCP_FLAG_SYN) (has flags TCP_FLAG_RST)
            (has flags TCP_FLAG_ACK) win rest (doff * 4 - 20)
            (drop (Z.to_nat (20 + doff * 4))
               (ip_header tot id proto check sa da ++ tcp_header sp dp sq ack doff flags win tcheck ++ rest))
            (n - (20 + doff * 4))).
Proof.
  intros Hsa Hda Hsp Hdp Hsq Hak Hdo Hw. unfold tcp_header, ip_header.
  destruct (Opt.le32_bytes sa Hsa) as (a1&a2&a3&a4&Ea&Pa&_). destruct (Opt.le32_bytes da Hda) as (b1&b2&b3&b4&Eb&Pb&_).
  destruct (le16_bytes sp Hsp) as (c1&c2&Ec&Pc&_). destruct (le16_bytes dp Hdp) as (d1&d2&Ed&Pd&_).
  destruct (Opt.be32_bytes sq Hsq) as (e1&e2&e3&e4&Ee&Pe). destruct (Opt.be32_bytes ack Hak) as (f1&f2&f3&f4&Ef&Pf).
  destruct (be16_bytes win Hw) as (g1&g2&Eg&Pg&_).
  rewrite Ea, Eb, Ec, Ed, Ee, Ef, Eg. unfold be16, le16, FlowHash.le_bytes.
  assert (Z.shiftr (doff * 16) 4 = doff) as Es.
  { rewrite Z.shiftr_div_pow2 by lia. change (2 ^ 4) with 16. by apply Z.div_mul. }
  set (doff16 := doff * 16) in *. clearbody doff16.
  cbn [fmap list_fmap seq app]. unfold view, Opt.rd32, rd16. read_bytes. rewrite Pa, Pb, Pc, Pd, Pe, Pf, Pg, Es. reflexivity.
Qed.

(** The bytes behind the headers. *)
Lemma length_ip_header tot id proto check sa da : length (ip_header tot id proto check sa da) = 20%nat.
Proof. reflexivity. Qed.
Lemma length_tcp_header sp dp sq ack doff flags win tcheck :
  length (tcp_header sp dp sq ack doff flags win tcheck) = 20%nat.
Proof. reflexivity. Qed.

(** ** Bytes *)
Lemma le_bytes_u8 n v : Forall (λ b, is_u8 b) (FlowHash.le_bytes n v).
Proof. apply Forall_fmap, Forall_forall. intros i _. simpl. rewrite land_byte. apply Z.mod_pos_bound. lia. Qed.

Lemma options_length s ts flags :
  Z.of_nat (length (GenerateTCPOptions s ts flags)) = CalculateOptionLength flags.
Proof. unfold GenerateTCPOptions, CalculateOptionLength. by destruct (has flags TCP_FLAG_SYN). Qed.

Lemma options_u8 s ts flags :
  is_u16 (mss (sndvar s)) → is_u8 (wscale_mine (sndvar s)) → Forall (λ b, is_u8 b) (GenerateTCPOptions s ts flags).
Proof.
  intros Hm Hw. pose proof (le_bytes_u8 4 (swap32 ts)). pose proof (le_bytes_u8 4 (swap32 (ts_recent (rcvvar s)))).
  pose proof (u8_range (Z.shiftr (mss (sndvar s)) 8)). pose proof (Z.mod_pos_bound (mss (sndvar s)) 256).
  unfold GenerateTCPOptions, Opt.GenerateTCPTimestamp, be32, le32, Opt.TCP_OPT_MSS, Opt.TCP_OPT_MSS_LEN, Opt.TCP_OPT_NOP,
    Opt.TCP_OPT_TIMESTAMP, Opt.TCP_OPT_TIMESTAMP_LEN, Opt.TCP_OPT_WSCALE, Opt.TCP_OPT_WSCALE_LEN.
  by destruct (has flags TCP_FLAG_SYN); repeat (apply Forall_app; split);
    repeat first [apply Forall_nil_2|apply Forall_cons; split; [lia|]].
Qed.

(** The header up to its checksum field. *)
Definition header_front (sp dp sq ack doff flags win : Z) : list Z :=
  le16 sp ++ le16 dp ++ be32 sq ++ be32 ack ++ [doff * 16; flags] ++ be16 win.

Lemma header_with_word sp dp sq ack doff flags win c rest :
  is_u16 c →
  tcp_header sp dp sq ack doff flags win c ++ rest
  = Checksum.with_word (header_front sp dp sq ack doff flags win) c ([0; 0] ++ rest).
Proof.
  intros Hc. unfold tcp_header, header_front, Checksum.with_word. rewrite <- !app_assoc. do 6 f_equal.
  unfold le16, FlowHash.le_bytes, Checksum.lo8, Checksum.hi8. cbn [fmap list_fmap seq app].
  rewrite !land_byte, !Z.shiftr_div_pow2 by lia. change (2 ^ (8 * Z.of_nat 0)) with 1.
  change (2 ^ (8 * Z.of_nat 1)) with 256. rewrite Z.div_1_r, (Z.mod_small (c / 256)); [done|].
  Z.div_mod_to_equations. lia.
Qed.

Lemma header_front_u8 sp dp sq ack doff flags win :
  0 <= doff < 16 → is_u8 flags → Forall (λ b, is_u8 b) (header_front sp dp sq ack doff flags win).
Proof.
  intros Hd Hf. unfold header_front, be32, be16. repeat (apply Forall_app; split); try apply le_bytes_u8.
  repeat first [apply Forall_nil_2|apply Forall_cons; split; [lia|]].
Qed.

(** A segment with the computed checksum is accepted. *)
Lemma checksummed_accepts sp dp sq ack doff flags win rest sa da :
  0 <= doff < 16 → is_u8 flags → Forall (λ b, is_u8 b) rest → Z.of_nat (length rest) < 65476 →
  is_u32 sa → is_u32 da →
  Checksum.TCPCalcChecksum
    (checksummed (-1) (tcp_header sp dp sq ack doff flags win) rest sa da) sa da = 0.
Proof.
  intros Hd Hf Hr Hl Hsa Hda. unfold checksummed. rewrite Z.eqb_refl.
  rewrite !header_with_word by (done || (unfold Checksum.TCPCalcChecksum; apply u16_range)).
  apply Checksum.checksum_accepts; [done|by apply header_front_u8| |simpl; lia|done|done].
  apply Forall_app. split; [|done]. repeat first [apply Forall_nil_2|apply Forall_cons; split; [lia|]].
Qed.

(** The control bits of the header. *)
Definition seg_fin (flags : Z) : bool := negb (has flags TCP_FLAG_WACK) && has flags TCP_FLAG_FIN.
Definition seg_bits (flags : Z) : Z :=
  Z.lor (hdr_bits flags (Z.lor 0x10 0x0e)) (if seg_fin flags then TCP_FLAG_FIN else 0).

(** Checked for all flags by evaluation. *)
Definition bits_ok (f : Z) : bool :=
  ((0 <=? seg_bits f) && (seg_bits f <? 256)
   && Bool.eqb (has (seg_bits f) TCP_FLAG_FIN) (seg_fin f)
   && Bool.eqb (has (seg_bits f) TCP_FLAG_SYN) (has f TCP_FLAG_SYN)
   && Bool.eqb (has (seg_bits f) TCP_FLAG_RST) (has f TCP_FLAG_RST)
   && Bool.eqb (has (seg_bits f) TCP_FLAG_ACK) (has f TCP_FLAG_ACK))%bool.

Lemma seg_bits_spec flags :
  is_u8 flags →
  is_u8 (seg_bits flags) ∧ has (seg_bits flags) TCP_FLAG_FIN = seg_fin flags
  ∧ has (seg_bits flags) TCP_FLAG_SYN = has flags TCP_FLAG_SYN
  ∧ has (seg_bits flags) TCP_FLAG_RST = has flags TCP_FLAG_RST
  ∧ has (seg_bits flags) TCP_FLAG_ACK = has flags TCP_FLAG_ACK.
Proof.
  intros Hf. assert (forallb bits_ok (seqZ 0 256) = true) as Hall by (vm_compute; reflexivity).
  rewrite forallb_forall in Hall. specialize (Hall flags). unfold bits_ok in Hall.
  rewrite !andb_true_iff, !eqb_true_iff in Hall. destruct Hall as [[[[[? ?] ?] ?] ?] ?]; [|split_and!; (done || lia)].
  apply list_elem_of_In, elem_of_seqZ. lia.
Qed.

Section Emit.
Context {P IO : Type} `{ChunkPool P, World IO}.
Local Abbreviation mtcp := (mtcp_manager P IO).
Local Abbreviation M := (M P IO).
Implicit Types (m : mtcp) (s : tcp_stream).

(** ** IP output *)

(** The frame that IP output leaves, and the stream as it was. *)
Definition ip_done h p m0 m s n (ok : bool) m' : Prop :=
  ∃ s', at_stream h p m0 m' s' ∧ bare s' = bare s
    ∧ if ok then ∃ f id check, out m' = f :: out m ∧ fr_proto f = ETH_P_IP
         ∧ fr_data f = ip_header (IP_HEADER_LEN + n) id IPPROTO_TCP check (saddr s) (daddr s)
      else arp_only m m'.

(** The interface stored in the stream is the one the route gives. *)
Lemma IPOutput_interface h p m0 m s {B} (k : Z → M B) Q :
  at_stream h p m0 m s →
  (∀ nif m' s', at_stream h p m0 m' s' → bare s' = bare s → out m' = out m → CONFIG m' = CONFIG m → ends (k nif) Q m') →
  ends (nif <- (if 0 <=? nif_out (sndvar s) then ret (nif_out (sndvar s))
          else
            let '(nif, ext) := GetOutputInterface (CONFIG m) (daddr s) in
            modS p (λ s, s <| sndvar := (sndvar s) <| nif_out := s8 nif |> |> <| is_external := ext |>) ;;;
            ret nif) ;; k nif) Q m.
Proof.
  intros Ha Hk. destruct (Z.leb_spec 0 (nif_out (sndvar s))); [by apply (Hk _ m s)|].
  pose proof Ha as (Hi&Hs&_). pose proof (inv_nif _ _ Hi p s Hs) as En. unfold nif_for in En.
  destruct (GetOutputInterface (CONFIG m) (daddr s)) as [nif ext]. simpl in En.
  apply ends_bind. eapply (ends_modS h p m0); [exact Ha|unfold links, sflag, flow_of; rec_simpl; by rewrite En|].
  intros m' Ha' Eo. unfold ends at 1, ret. apply (Hk _ m' _ Ha'); [done|done|].
  destruct Ha as (_&_&_&E1&_), Ha' as (_&_&_&E2&_). congruence.
Qed.

Lemma stays_gateway_daddr : stays out (gateway_daddr (P := P) (IO := IO)).
Proof. staying. Qed.

Lemma IPOutput_ends h p m0 m s n : at_stream h p m0 m s → ends (IPOutput p n) (ip_done h p m0 m s n) m.
Proof.
  intros Ha. unfold IPOutput. eapply ends_getS; [exact Ha|]. apply ends_gets.
  apply (IPOutput_interface h p m0 m s _ _ Ha). intros nif m1 s1 Ha1 Eb Eo Ec. rewrite <- Ec. clear Ha.
  eapply ends_getS; [exact Ha1|].
  destruct (GetDestinationHWaddr (CONFIG m1) (daddr s1) (is_external s1)) as [haddr|].
  - apply ends_bind. eapply ends_quiet; [exact Ha1|apply quiet_EthernetOutput|]. intros ok m2 E2 Ha2.
    apply EthernetOutput_out in E2. destruct ok; simpl negb; cbv iota.
    2:{ exists s1. split; [done|]. split; [done|]. apply arp_only_refl. congruence. }
    destruct E2 as (f&Ef&Ed&Epr). eapply (ends_modS h p m0); [exact Ha2|done|]. intros m3 Ha3 Eo3.
    unfold ip_fill. eapply ends_fill; [exact Ha3|by rewrite Eo3|]. intros m4 Ha4 Eo4. unfold ends, ret.
    eexists. split; [exact Ha4|]. split; [by rewrite <- Eb|]. rewrite Eo4, Eo.
    do 3 eexists. split; [done|]. split; [done|]. rec_simpl. rewrite Ed.
    pose proof (f_equal saddr Eb) as Esa. pose proof (f_equal daddr Eb) as Eda. cbn in Esa, Eda. by rewrite Esa, Eda.
  - apply ends_bind. eapply ends_quiet; [exact Ha1|quiet|]. intros d m2 Ed Ha2. apply ends_gets.
    apply ends_bind. eapply ends_quiet; [exact Ha2|quiet|]. intros [] m3 E3 Ha3. unfold ends, ret.
    exists s1. split; [done|]. split; [done|]. apply RequestARP_out in E3 as (arp&Ea&Hp). exists arp.
    split; [|done]. rewrite Ea, <- Eo. f_equal. by destruct (is_external s1); [eapply stays_gateway_daddr|injection Ed as _ <-].
Qed.

(** ** TCP output *)

(** The sequence number, the acknowledgment and the window of a segment. *)
Definition seg_seq s (flags : Z) : Z :=
  if has flags TCP_FLAG_WACK then snd_nxt s ⊟ 1
  else if has flags TCP_FLAG_FIN then fss (sndvar s) else snd_nxt s.
Definition seg_ack s (flags : Z) : Z := if has flags TCP_FLAG_ACK then rcv_nxt s else 0.
Definition seg_window s (flags : Z) : Z :=
  u16 (MIN (Z.shiftr (rcv_wnd (rcvvar s)) (if has flags TCP_FLAG_SYN then 0 else wscale_mine (sndvar s))) TCP_MAX_WINDOW).
(** The bytes of the segment, with its checksum. *)
Definition seg_bytes s (cur_ts flags : Z) (bs : list Z) (rc : Z) : list Z :=
  checksummed rc (λ check, tcp_header (sport s) (dport s) (seg_seq s flags) (seg_ack s flags)
      (Z.shiftr (TCP_HEADER_LEN + CalculateOptionLength flags) 2) (seg_bits flags) (seg_window s flags) check)
    (GenerateTCPOptions s cur_ts flags ++ bs) (saddr s) (daddr s).

(** What a call of [SendTCPPacket] with the payload [bs] does. *)
Definition sent h p m0 m s (cur_ts flags : Z) (bs : list Z) (r : Z) m' : Prop :=
  ∃ s', at_stream h p m0 m' s' ∧
  let len := Z.of_nat (length bs) in
  if r <? 0 then snd_nxt s' = snd_nxt s ∧ arp_only m m'
  else
    let used := b2z (has flags TCP_FLAG_SYN || seg_fin flags) in
    r = (if has flags TCP_FLAG_SYN || seg_fin flags then u16 (len + 1) else len)
    ∧ snd_nxt s' = u32 (snd_nxt s + len + used)
    ∧ ∃ f id check nif, out m' = f :: out m ∧ fr_proto f = ETH_P_IP
      ∧ fr_data f = ip_header (IP_HEADER_LEN + u16 (TCP_HEADER_LEN + CalculateOptionLength flags + len)) id
                      IPPROTO_TCP check (saddr s) (daddr s) ++ seg_bytes s cur_ts flags bs (ioctl nif PKT_TX_TCPIP_CSUM).

(** The list memberships do not matter for the bytes. *)
Lemma seg_bytes_bare s1 s ts flags bs rc :
  bare s1 = bare s → seg_bytes s1 ts flags bs rc = seg_bytes s ts flags bs rc.
Proof.
  intros E. change (seg_bytes s1 ts flags bs rc) with (seg_bytes (bare s1) ts flags bs rc). by rewrite E.
Qed.

(** Reading the payload. *)
Lemma ends_payload {B} bs payload (k : list Z → M B) Q m :
  (bs = [] ∨ payload = Some bs) → ends (k bs) Q m →
  ends (bs <- (if Z.of_nat (length bs) >? 0 then lift BufferFault payload else ret []) ;; k bs) Q m.
Proof.
  intros Hp Hk. destruct bs as [|b bs]; [done|]. destruct Hp as [?| ->]; [done|].
  by destruct (Z.gtb_spec (Z.of_nat (length (b :: bs))) 0).
Qed.

(** The number a SYN or FIN takes. *)
Lemma ends_advance {B} h p m0 m s (b : bool) (c : M B) Q :
  at_stream h p m0 m s →
  (∀ m' s', at_stream h p m0 m' s' → snd_nxt s' = (if b then snd_nxt s ⊞ 1 else snd_nxt s) → out m' = out m →
     ends c Q m') →
  ends (when b (modS p (λ s, s <| snd_nxt := snd_nxt s ⊞ 1 |>)) ;;; c) Q m.
Proof.
  intros Ha Hk. destruct b; [|by apply (Hk m s)]. eapply (ends_modS h p m0); [exact Ha|done|].
  intros m' Ha' Eo. by apply (Hk m' _ Ha').
Qed.

Lemma result_nonneg (b : bool) (n : nat) : 0 <= (if b then u16 (Z.of_nat n + 1) else Z.of_nat n).
Proof. destruct b; [apply u16_range|lia]. Qed.

Lemma SendTCPPacket_ends h p m0 m s ts flags payload bs :
  at_stream h p m0 m s → is_u32 (snd_nxt s) → (bs = [] ∨ payload = Some bs) →
  ends (SendTCPPacket p ts flags payload (Z.of_nat (length bs))) (sent h p m0 m s ts flags bs) m.
Proof.
  intros Ha Hn Hp. unfold SendTCPPacket. eapply ends_getS; [exact Ha|].
  destruct (_ >? _); [exists s; split; [done|]; split; [done|]; by apply arp_only_refl|]. apply ends_bind. eapply ends_mono; [by apply IPOutput_ends|].
  intros ok m1 (s1&Ha1&Eb&Hf). clear Ha. destruct ok; simpl negb; cbv iota.
  2:{ exists s1. split; [done|]. split; [by apply (f_equal snd_nxt) in Eb|done]. }
  destruct Hf as (f&id&check&Eo&Epr&Ed). eapply ends_getS; [exact Ha1|].
  pass snd_nxt s2 m2 Ha2 E2 Eo2. pass snd_nxt s3 m3 Ha3 E3 Eo3. pass snd_nxt s4 m4 Ha4 E4 Eo4.
  apply (ends_payload _ _ _ _ _ Hp).
  pass snd_nxt s5 m5 Ha5 E5 Eo5. eapply ends_fill; [exact Ha5|by rewrite Eo5, Eo4, Eo3, Eo2|]. intros m6 Ha6 Eo6.
  eapply ends_modS; [exact Ha6|done|]. intros m7 Ha7 Eo7.
  eapply (ends_advance _ _ _ _ _ _ _ _ Ha7). intros m8 s8 Ha8 E8 Eo8.
  pass snd_nxt s9 m9 Ha9 E9 Eo9. unfold ends, ret, sent. exists s9. split; [done|]. rec_simpl. cbv zeta.
  fold (seg_fin flags). rewrite (proj2 (Z.ltb_ge _ _)) by apply result_nonneg. split; [done|]. split.
  - rewrite E9, E8, E5, E4, E3, E2. apply (f_equal snd_nxt) in Eb. cbn in Eb. rewrite Eb. unfold seg_fin.
    destruct (_ || _); simpl; ulia.
  - rewrite Eo9, Eo8, Eo7, Eo6. exists (f <| fr_data := fr_data f ++ seg_bytes s1 ts flags bs
      (ioctl (nif_out (sndvar s1)) PKT_TX_TCPIP_CSUM) |>), id, check, (nif_out (sndvar s1)).
    split; [done|]. split; [done|]. rec_simpl. rewrite Ed. by rewrite (seg_bytes_bare s1 s _ _ _ _ Eb).
Qed.

(** ** The segment on the wire *)

(** A segment that was sent fits the segment size. *)
Lemma sent_fits h m p s ts flags payload (bs : list Z) :
  inv h m → streams m !! p = Some s →
  ∀ r m', SendTCPPacket p ts flags payload (Z.of_nat (length bs)) m = inr (r, m') →
  r <? 0 = false → Z.of_nat (length bs) + CalculateOptionLength flags <= mss (sndvar s).
Proof.
  intros Hi Hs r m' E Hr. unfold SendTCPPacket in E. rewrite (bind_inr _ _ _ _ _ (getS_run p m s Hs)) in E.
  destruct (Z.gtb_spec (Z.of_nat (length bs) + CalculateOptionLength flags) (mss (sndvar s))); [|lia].
  injection E as <- _. done.
Qed.

(** The fields of a stream are in the ranges of their types. *)
Record wire_ok s : Prop := {
  wire_saddr : is_u32 (saddr s);
  wire_daddr : is_u32 (daddr s);
  wire_sport : is_u16 (sport s);
  wire_dport : is_u16 (dport s);
  wire_nxt : is_u32 (snd_nxt s);
  wire_fss : is_u32 (fss (sndvar s));
  wire_rcv : is_u32 (rcv_nxt s);
  wire_mss : 0 <= mss (sndvar s) < 65476;
  wire_scale : is_u8 (wscale_mine (sndvar s))
}.

Lemma seg_seq_range s flags : wire_ok s → is_u32 (seg_seq s flags).
Proof. intros []. unfold seg_seq. destruct (has _ _); [apply u32_range|]. by destruct (has _ _). Qed.
Lemma seg_ack_range s flags : wire_ok s → is_u32 (seg_ack s flags).
Proof. intros []. unfold seg_ack. by destruct (has _ _). Qed.

(** The segment a receiver reads from the bytes that [SendTCPPacket] writes. *)
Definition seg_of s (cur_ts flags : Z) (bs : list Z) : segment :=
  mk_seg (saddr s) (daddr s) (sport s) (dport s) (seg_seq s flags) (seg_ack s flags)
    (Z.shiftr (TCP_HEADER_LEN + CalculateOptionLength flags) 2)
    (seg_fin flags) (has flags TCP_FLAG_SYN) (has flags TCP_FLAG_RST) (has flags TCP_FLAG_ACK) (seg_window s flags)
    (GenerateTCPOptions s cur_ts flags ++ bs) (CalculateOptionLength flags) bs (Z.of_nat (length bs)).

Lemma option_words flags :
  Z.shiftr (TCP_HEADER_LEN + CalculateOptionLength flags) 2 * 4 - 20 = CalculateOptionLength flags
  ∧ 0 <= Z.shiftr (TCP_HEADER_LEN + CalculateOptionLength flags) 2 < 16 ∧ 0 <= CalculateOptionLength flags <= 20.
Proof. unfold CalculateOptionLength. destruct (has flags TCP_FLAG_SYN); vm_compute; intuition congruence. Qed.

Lemma view_sent tot id check s ts flags bs rc :
  wire_ok s → is_u8 flags →
  let pkt := ip_header tot id IPPROTO_TCP check (saddr s) (daddr s) ++ seg_bytes s ts flags bs rc in
  view pkt (Z.of_nat (length pkt)) = Some (seg_of s ts flags bs).
Proof.
  intros Hw Hf. pose proof Hw as []. destruct (seg_bits_spec flags Hf) as (_&B1&B2&B3&B4).
  destruct (option_words flags) as (Ed&Hd&_). unfold seg_bytes, checksummed. cbv zeta.
  rewrite view_headers; try done; [|by apply seg_seq_range|by apply seg_ack_range|apply u16_range].
  rewrite B1, B2, B3, B4, Ed. unfold seg_of. do 2 f_equal.
  - set (a := ip_header _ _ _ _ _ _). set (b := tcp_header _ _ _ _ _ _ _ _).
    rewrite app_assoc, (app_assoc _ _ bs). apply drop_app_length'.
    rewrite !length_app. subst a b. rewrite length_ip_header, length_tcp_header.
    pose proof (options_length s ts flags). lia.
  - rewrite !length_app, length_ip_header, length_tcp_header. pose proof (options_length s ts flags). lia.
Qed.

Lemma sent_checksum s ts flags bs : wire_ok s → is_u8 flags → Forall (λ b, is_u8 b) bs →
  Z.of_nat (length bs) + CalculateOptionLength flags <= mss (sndvar s) →
  Checksum.TCPCalcChecksum (seg_bytes s ts flags bs (-1)) (saddr s) (daddr s) = 0.
Proof.
  intros [] Hf Hb Hfit. destruct (option_words flags) as (_&Hd&Ho). apply checksummed_accepts; [done|by apply seg_bits_spec| | |done|done].
  - apply Forall_app. split; [|done]. apply options_u8; [lia|done].
  - rewrite length_app. pose proof (options_length s ts flags). lia.
Qed.

(** C8: a segment that [SendTCPPacket] sends is what the receiving code of the
    stack reads from the frame: the flow, the sequence and acknowledgment
    numbers, the flags, the scaled window, the options and the payload; without
    checksum offload its TCP checksum is accepted.  [snd_nxt] advances by the
    payload and one for a SYN or FIN.  A segment that is not sent (-1, -2)
    leaves [snd_nxt] alone and at most asks for the address of the peer.  No list is corrupted in either case. *)
Theorem sent_segment_is_read_back m p s ts flags payload bs :
  inv None m → streams m !! p = Some s → wire_ok s → is_u8 flags → Forall (λ b, is_u8 b) bs →
  (bs = [] ∨ payload = Some bs) →
  match SendTCPPacket p ts flags payload (Z.of_nat (length bs)) m with
  | inl f => benign f
  | inr (r, m') => ∃ s', inv None m' ∧ streams m' !! p = Some s' ∧
    if r <? 0 then snd_nxt s' = snd_nxt s ∧ arp_only m m'
    else
      snd_nxt s' = u32 (snd_nxt s + Z.of_nat (length bs) + b2z (has flags TCP_FLAG_SYN || seg_fin flags))
      ∧ ∃ f, out m' = f :: out m ∧ fr_proto f = ETH_P_IP
        ∧ view (fr_data f) (Z.of_nat (length (fr_data f))) = Some (seg_of s ts flags bs)
        ∧ ((∀ nif, ioctl nif PKT_TX_TCPIP_CSUM = -1) →
           Checksum.TCPCalcChecksum (drop 20 (fr_data f)) (saddr s) (daddr s) = 0)
  end.
Proof.
  intros Hi Hs Hw Hf Hb Hp. pose proof (SendTCPPacket_ends None p m m s ts flags payload bs) as Hsp.
  specialize (Hsp ltac:(by apply at_start) (wire_nxt _ Hw) Hp). unfold ends in Hsp.
  pose proof (sent_fits None m p s ts flags payload bs Hi Hs) as Hfit.
  destruct (SendTCPPacket _ _ _ _ _ m) as [f|[r m']]; [done|]. specialize (Hfit r m' eq_refl).
  destruct Hsp as (s'&(Hi'&Hs'&_)&Hr). exists s'. split; [done|]. split; [done|]. destruct (r <? 0); [done|].
  destruct Hr as (_&En&f&id&check&nif&Eo&Epr&Ed). split; [done|]. exists f. split; [done|]. split; [done|]. rewrite Ed. split.
  - by apply view_sent.
  - intros Hio. rewrite Hio, drop_app_length' by done. apply sent_checksum; [done|done|done|by apply Hfit].
Qed.
End Emit.


(** Two bytes on the connection of the demonstration. *)
Import Demo.
Lemma sent_segment_is_read_back_witness :
  ∃ m s, demo_state demo_connected = Some m ∧ streams m !! 4096 = Some s ∧
  match SendTCPPacket 4096 14 TCP_FLAG_ACK (Some [104; 105]) (Z.of_nat (length [104; 105])) m with
  | inl _ => False
  | inr (r, m') => 0 <= r ∧ ∃ f, out m' = f :: out m
      ∧ view (fr_data f) (Z.of_nat (length (fr_data f))) = Some (seg_of s 14 TCP_FLAG_ACK [104; 105])
      ∧ Checksum.TCPCalcChecksum (drop 20 (fr_data f)) (saddr s) (daddr s) = 0
  end.
Proof.
  destruct (demo_state demo_connected) as [m|] eqn:E; [|vm_compute in E; discriminate].
  pose proof (demo_state_inv _ _ E) as Hi. vm_compute in E. injection E as E.
  destruct (streams m !! 4096) as [s|] eqn:Es; [|rewrite <- E in Es; vm_compute in Es; discriminate].
  exists m, s. split; [reflexivity|]. split; [exact Es|].
  pose proof (sent_segment_is_read_back m 4096 s 14 TCP_FLAG_ACK (Some [104; 105]) [104; 105] Hi Es) as H.
  destruct (SendTCPPacket 4096 14 TCP_FLAG_ACK _ _ m) as [f|[r m']] eqn:Ep.
  { rewrite <- E in Ep. vm_compute in Ep. discriminate. }
  assert (r = 2) as Er by (rewrite <- E in Ep; vm_compute in Ep; by injection Ep as <-).
  split; [lia|]. destruct H as (s'&_&_&H).
  - rewrite <- E in Es. vm_compute in Es. injection Es as <-. split; vm_compute; intuition congruence.
  - by vm_compute.
  - repeat (apply Forall_cons; split; [lia|]). by apply Forall_nil.
  - by right.
  - rewrite Er in H. destruct H as (_&f&Ef&_&Hv&Hc). exists f. split; [exact Ef|]. split; [exact Hv|]. by apply Hc.
Defined.
