(* ===== verification/Flush.v ===== *)
(** * Flushing the send buffer

    [FlushTCPSendingBuffer] sends from [snd_nxt] on what the congestion window
    and the window of the peer allow.  The frames carry the bytes of the buffer
    in order, nothing is sent beyond the window, and the loop ends; it does not
    when the segment size leaves no room for data besides the options. *)
From S2P Require Import Prelude SeqNum MemPool SendBuffer FlowHash Checksum TcpTypes NetOut TcpLists TcpInv TcpOptions.
From S2P Require Import TcpStream TcpFrame TcpOut TcpIn Stack Post Segment.

(** The frames [fs] (newest first) carry the bytes of the buffer between the
    offsets [n] and [n'], each at its sequence number. *)
Inductive covers (b : SB.tcp_send_buffer) : list frame → Z → Z → Prop :=
  | covers_nil n : covers b [] n n
  | covers_cons f fs n n' g :
      covers b fs n n' →
      view (fr_data f) (Z.of_nat (length (fr_data f))) = Some g →
      g_seq g = u32 (SB.head_seq b + n') → g_payload g ≠ [] →
      g_payload g = take (length (g_payload g)) (drop (Z.to_nat n') (SB.contents b)) →
      covers b (f :: fs) n (n' + Z.of_nat (length (g_payload g))).

Lemma covers_app b fs gs n n' n'' : covers b gs n n' → covers b fs n' n'' → covers b (fs ++ gs) n n''.
Proof. intros Hg Hf. induction Hf; simpl; [done|]. by eapply covers_cons; [auto|..]. Qed.

(** A stream with data to send. *)
Record ready (s : tcp_stream) (b : SB.tcp_send_buffer) : Prop := {
  rd_wire : wire_ok s;
  rd_buf : sndbuf (sndvar s) = Some b;
  rd_ok : SB.sb_ok b;
  rd_bytes : Forall (λ x, is_u8 x) (SB.contents b);
  rd_mss : 12 < mss (sndvar s);
  rd_una : is_u32 (snd_una (sndvar s));
  rd_cwnd : is_u32 (cwnd (sndvar s));
  rd_peer : is_u32 (peer_wnd (sndvar s))
}.

(** Offsets into the buffer and unacknowledged bytes. *)
Definition offset (s : tcp_stream) (b : SB.tcp_send_buffer) : Z := snd_nxt s ⊟ SB.head_seq b.
Definition in_flight (s : tcp_stream) : Z := snd_nxt s ⊟ snd_una (sndvar s).
Definition window (s : tcp_stream) : Z := MIN (cwnd (sndvar s)) (peer_wnd (sndvar s)).

(** What a flush leaves alone of the stream. *)
Definition unflushed (s : tcp_stream) :=
  (saddr s, daddr s, sport s, dport s, rcv_nxt s,
   (fss (sndvar s), mss (sndvar s), wscale_mine (sndvar s), snd_una (sndvar s), cwnd (sndvar s),
    peer_wnd (sndvar s), sndbuf (sndvar s))).

Lemma ready_next s s' b : ready s b → unflushed s' = unflushed s → is_u32 (snd_nxt s') →
  ready s' b ∧ window s' = window s ∧ snd_una (sndvar s') = snd_una (sndvar s).
Proof.
  intros [[]] [=]. intros Hn. unfold window. split; [|split; congruence].
  split; [split|..]; congruence || done.
Qed.

(** The bytes at an offset. *)
Lemma read_contents b off n :
  SB.sb_ok b → 0 <= off → 0 <= n → off + n <= SB.len b →
  mem_read (SB.mem b) (SB.hptr b - SB.data b + off) n = Some (take (Z.to_nat n) (drop (Z.to_nat off) (SB.contents b))).
Proof.
  intros [Hs Hm Hh Hho Hl Ht Htb Hhs] Ho Hn Hle. replace (SB.hptr b - SB.data b + off) with (SB.head_off b + off) by lia.
  rewrite mem_read_ok by lia. f_equal. unfold SB.contents.
  rewrite skipn_firstn_comm, drop_drop, take_take. f_equal; [lia|]. f_equal. lia.
Qed.

(** One pass: how much is sent. *)
Section Pass.
Context (s : tcp_stream) (b : SB.tcp_send_buffer).
Hypothesis Hr : ready s b.
Hypothesis Hin : ¬ SB.len b < offset s b.
Hypothesis Hun : TCP_SEQ_LT (snd_nxt s) (snd_una (sndvar s)) = false.

Definition room : Z := s32 (window s ⊟ in_flight s).
Definition left : Z := SB.len b ⊟ offset s b.
Definition pass_len : Z := u16 (MIN (MIN left room) (u32 (mss (sndvar s) - CalculateOptionLength TCP_FLAG_ACK))).

Lemma left_eq : left = SB.len b - offset s b ∧ 0 <= offset s b.
Proof using Hr Hin.
  destruct Hr as [_ _ [] _ _ _ _ _]. unfold left. pose proof (u32_range (snd_nxt s - SB.head_seq b)).
  fold (offset s b) in *. rewrite u32_id by lia. lia.
Qed.

Lemma pass_len_bounds : 0 < left → 0 < room →
  0 < pass_len ∧ offset s b + pass_len <= SB.len b ∧ in_flight s + pass_len <= window s
  ∧ pass_len + 12 <= mss (sndvar s).
Proof using Hr Hin Hun.
  intros Hl Hroom. destruct left_eq as [El Ho]. destruct Hr as [[] _ _ _ Hm Hu Hc Hp].
  assert (0 <= in_flight s < 2147483648).
  { unfold TCP_SEQ_LT in Hun. unfold in_flight. ulia. }
  assert (is_u32 (window s)) by (unfold window; rewrite MIN_spec; lia).
  assert (room <= window s - in_flight s) by (unfold room in *; ulia).
  unfold pass_len. rewrite !MIN_spec. change (CalculateOptionLength TCP_FLAG_ACK) with 12.
  rewrite (u32_id (_ - 12)) by lia. rewrite u16_id by lia. lia.
Qed.
End Pass.

Section Flush.
Context {P IO : Type} `{ChunkPool P, World IO}.
Local Abbreviation mtcp := (mtcp_manager P IO).
Local Abbreviation M := (M P IO).
Implicit Types (m : mtcp) (s : tcp_stream).

Lemma fixes_unflushed p ts flags bs n : fixes unflushed p (SendTCPPacket (P := P) (IO := IO) p ts flags bs n).
Proof. fixing. Qed.
Lemma SendTCPPacket_no_loop p ts flags bs n : avoids LoopFault (SendTCPPacket (P := P) (IO := IO) p ts flags bs n).
Proof. avoiding. Qed.

(** The state after sending: the frames and the stream. *)
Definition flushed h p m0 m s b m' : Prop :=
  ∃ s' arp fs, at_stream h p m0 m' s' ∧ ready s' b ∧ unflushed s' = unflushed s
    ∧ out m' = arp ++ fs ++ out m ∧ Forall (λ f, fr_proto f = ETH_P_ARP) arp
    ∧ covers b fs (offset s b) (offset s' b) ∧ in_flight s' <= Z.max (in_flight s) (window s).

Lemma flushed_refl h p m0 m s b : at_stream h p m0 m s → ready s b → flushed h p m0 m s b m.
Proof. intros Ha Hr. exists s, [], []. split_and!; try done; [apply covers_nil|lia]. Qed.

(** One segment of the buffer. *)
Lemma pass_sends h p m0 m s b ts :
  at_stream h p m0 m s → ready s b → ¬ SB.len b < offset s b →
  TCP_SEQ_LT (snd_nxt s) (snd_una (sndvar s)) = false → 0 < left s b → 0 < room s →
  ends (SendTCPPacket p ts TCP_FLAG_ACK (mem_read (SB.mem b) (SB.hptr b - SB.data b + offset s b) (pass_len s b))
          (pass_len s b))
    (λ r m', ∃ s', at_stream h p m0 m' s' ∧ ready s' b ∧ unflushed s' = unflushed s ∧
       if r <? 0 then snd_nxt s' = snd_nxt s ∧ arp_only m m'
       else offset s' b = offset s b + pass_len s b ∧ in_flight s' <= window s
         ∧ ∃ f, out m' = f :: out m ∧ covers b [f] (offset s b) (offset s' b)) m.
Proof.
  intros Ha Hr Hin Hun Hl Hroom. destruct (pass_len_bounds s b Hr Hin Hun Hl Hroom) as (Hn1&Hn2&Hn3&Hn4).
  destruct (left_eq s b Hr Hin) as [_ Ho]. set (n := pass_len s b) in *. clearbody n.
  pose proof Hr as [Hw Hb Hok Hby _ Hu _ _]. rewrite (read_contents b (offset s b) n Hok) by lia.
  set (bs := take (Z.to_nat n) (drop (Z.to_nat (offset s b)) (SB.contents b))).
  assert (Z.of_nat (length bs) = n) as En.
  { unfold bs. pose proof (SB.length_contents b Hok). rewrite length_take, length_drop. lia. }
  pose proof Ha as (_&Hs&_).
  replace (SendTCPPacket p ts TCP_FLAG_ACK (Some bs) n) with
    (SendTCPPacket (P := P) (IO := IO) p ts TCP_FLAG_ACK (Some bs) (Z.of_nat (length bs))) by (by rewrite En).
  eapply ends_mono; [eapply (ends_fixes unflushed p _ _ _ s Hs (fixes_unflushed _ _ _ _ _)),
    (SendTCPPacket_ends h p m0 m s ts TCP_FLAG_ACK (Some bs) bs Ha (wire_nxt _ Hw)); by right|].
  intros r m' [(s'&Ha'&Hsent) Hfix]. exists s'. split; [done|]. specialize (Hfix s' (proj1 (proj2 Ha'))).
  destruct (r <? 0).
  - split; [|done]. by apply (ready_next s s' b Hr Hfix); rewrite (proj1 Hsent); apply Hw.
  - destruct Hsent as (_&Enx&f&id&check&nif&Eo&_&Ed). rewrite En in Enx.
    change (b2z _) with 0 in Enx. rewrite Z.add_0_r in Enx.
    destruct (ready_next s s' b Hr Hfix) as (Hr'&_&Eu); [rewrite Enx; apply u32_range|].
    assert (offset s' b = offset s b + n) as Eoff.
    { destruct Hok. unfold offset in *. rewrite Enx. ulia. }
    split; [done|]. split; [done|]. split; [done|]. split.
    { unfold in_flight in *. rewrite Eu, Enx. ulia. }
    exists f. split; [done|]. rewrite Eoff, <- En.
    pose proof (view_sent (IP_HEADER_LEN + u16 (TCP_HEADER_LEN + CalculateOptionLength TCP_FLAG_ACK + Z.of_nat (length bs)))
      id check s ts TCP_FLAG_ACK bs (ioctl nif PKT_TX_TCPIP_CSUM) Hw ltac:(done)) as Hv. cbv zeta in Hv. rewrite <- Ed in Hv.
    apply (covers_cons b f [] (offset s b) (offset s b) (seg_of s ts TCP_FLAG_ACK bs)); [apply covers_nil|exact Hv| | |].
    + simpl. change (seg_seq s TCP_FLAG_ACK) with (snd_nxt s). destruct Hw, Hok. unfold offset. ulia.
    + intros E. simpl in E. rewrite E in En. simpl in En. lia.
    + simpl. unfold bs at 1. f_equal. lia.
Qed.

Lemma flushed_trans h p m0 m m1 s s1 f b m' :
  at_stream h p m0 m1 s1 → unflushed s1 = unflushed s → out m1 = f :: out m →
  covers b [f] (offset s b) (offset s1 b) → in_flight s1 <= window s → window s1 = window s →
  flushed h p m0 m1 s1 b m' → flushed h p m0 m s b m'.
Proof.
  intros _ E1 Eo Hc Hf Ew (s'&arp&fs&Ha'&Hr'&E'&Eo'&Hp&Hc'&Hf'). exists s', arp, (fs ++ [f]). split_and!; try done.
  - congruence.
  - rewrite Eo', Eo. by rewrite <- app_assoc.
  - by eapply covers_app.
  - lia.
Qed.

(** The stream has not advanced. *)
Lemma flushed_still h p m0 m m1 s s1 b :
  ready s b → at_stream h p m0 m1 s1 → unflushed s1 = unflushed s → snd_nxt s1 = snd_nxt s → arp_only m m1 →
  flushed h p m0 m s b m1.
Proof.
  intros Hr Ha1 E1 E2 (arp&Ea&Hp). destruct (ready_next s s1 b Hr E1) as (Hr1&Ew&Eu); [rewrite E2; apply Hr|].
  exists s1, arp, []. split_and!; try done; [unfold offset; rewrite E2; apply covers_nil|].
  unfold in_flight. rewrite E2, Eu. lia.
Qed.

(** The window is full: the flush ends, perhaps asking for an advertisement. *)
Lemma full_window_ends h p m0 m s b ts (c d : bool) (r : Z) :
  at_stream h p m0 m s → ready s b →
  ends (when c (when d (EnqueueACK p ts ACK_OPT_WACK)) ;;; ret r) (λ _, flushed h p m0 m s b) m.
Proof.
  intros Ha Hr. eapply (ends_pass h p m0 false (λ s, (unflushed s, snd_nxt s))); [exact Ha|keep|fixing|staying|].
  intros _ m1 s1 Ha1 E Eo. pose proof (f_equal fst E) as E1. pose proof (f_equal snd E) as E2. unfold ends, ret.
  apply (flushed_still h p m0 m m1 s s1 b); try done. by apply arp_only_refl.
Qed.

Lemma full_window_no_loop p ts m (c d : bool) (r : Z) :
  (when c (when d (EnqueueACK p ts ACK_OPT_WACK)) ;;; ret r) m ≠ inl LoopFault.
Proof. assert (avoids LoopFault (when c (when d (EnqueueACK (P := P) (IO := IO) p ts ACK_OPT_WACK)) ;;; ret r)) as Hav by avoiding. apply Hav. Qed.

Lemma flush_loop_ends h p m0 b ts fuel : ∀ m s packets,
  at_stream h p m0 m s → ready s b → Z.max 0 (SB.len b - offset s b) < Z.of_nat fuel →
  ends (flush_loop fuel p ts packets) (λ _, flushed h p m0 m s b) m ∧ flush_loop fuel p ts packets m ≠ inl LoopFault.
Proof.
  induction fuel as [|fuel IH]; intros m s packets Ha Hr Hf; [lia|]. simpl.
  pose proof Ha as (_&Hs&_). pose proof (rd_buf _ _ Hr) as Hb.
  unfold ends. rewrite (bind_inr _ _ _ _ _ (getS_run p m s Hs)), Hb.
  rewrite (bind_inr (lift BufferFault (Some b)) _ m b m eq_refl).
  change (snd_nxt s ⊟ SB.head_seq b) with (offset s b). change (snd_nxt s ⊟ snd_una (sndvar s)) with (in_flight s).
  change (MIN (cwnd (sndvar s)) (peer_wnd (sndvar s))) with (window s).
  change (SB.len b ⊟ offset s b) with (left s b). change (s32 (window s ⊟ in_flight s)) with (room s).
  destruct (TCP_SEQ_LT (snd_nxt s) (SB.head_seq b)); [by split; [apply flushed_refl|]|].
  destruct (TCP_SEQ_LT (snd_nxt s) (snd_una (sndvar s))) eqn:Hun; [by split; [apply flushed_refl|]|].
  destruct (Z.ltb_spec (SB.len b) (offset s b)); [by split; [apply flushed_refl|]|].
  destruct (Z.eqb_spec (left s b) 0); [by split; [apply flushed_refl|]|].
  destruct (Z.leb_spec (room s) 0) as [Hroom|Hroom]; cbv beta iota delta [orb].
  { split; [by apply full_window_ends|apply full_window_no_loop]. }
  destruct (_ && _); cbv beta iota; [split; [by apply full_window_ends|apply full_window_no_loop]|].
  change (u16 (MIN (MIN (left s b) (room s)) (u32 (mss (sndvar s) - CalculateOptionLength TCP_FLAG_ACK)))) with (pass_len s b).
  destruct (left_eq s b Hr ltac:(lia)) as [El Ho].
  pose proof (pass_sends h p m0 m s b ts Ha Hr ltac:(lia) Hun ltac:(lia) Hroom) as Hp.
  destruct (pass_len_bounds s b Hr ltac:(lia) Hun ltac:(lia) Hroom) as (Hn&_).
  pose proof (SendTCPPacket_no_loop p ts TCP_FLAG_ACK
    (mem_read (SB.mem b) (SB.hptr b - SB.data b + offset s b) (pass_len s b)) (pass_len s b) m) as Hl.
  unfold bind. unfold ends in Hp. destruct (SendTCPPacket _ _ _ _ _ m) as [e|[r m1]]; [split; [done|congruence]|].
  destruct Hp as (s1&Ha1&Hr1&E1&Hc). destruct (ready_next s s1 b Hr E1 (wire_nxt _ (rd_wire _ _ Hr1))) as (_&Ew&Eu).
  destruct (r <? 0).
  - split; [|done]. destruct Hc. by apply (flushed_still h p m0 m m1 s s1 b).
  - destruct Hc as (Eo1&Hf1&f&Eo&Hcv). destruct (IH m1 s1 (packets + 1) Ha1 Hr1) as [I1 I2]; [lia|].
    split; [|done]. unfold ends in I1. destruct (flush_loop fuel p ts (packets + 1) m1) as [|[r' m']]; [done|].
    by eapply flushed_trans.
Qed.

(** C7: flushing a stream whose segment size leaves room for data ends, and
    with fuel for every byte of the buffer the model never reports otherwise.
    The segments sent carry, at their sequence numbers, the bytes of the send
    buffer from the old [snd_nxt] to the new one, without gap or repetition;
    the data in flight never exceeds the smaller of the congestion window and
    the window of the peer (or what was in flight before); the buffer, the
    windows and the acknowledged position are unchanged. *)
Theorem flush_sends_buffer h m p s b ts fuel :
  inv h m → streams m !! p = Some s → ready s b → SB.len b < Z.of_nat fuel →
  match FlushTCPSendingBuffer fuel p ts m with
  | inl f => benign f ∧ f ≠ LoopFault
  | inr (_, m') => inv h m' ∧ ∃ s' arp fs, streams m' !! p = Some s' ∧ unflushed s' = unflushed s
      ∧ out m' = arp ++ fs ++ out m ∧ Forall (λ f, fr_proto f = ETH_P_ARP) arp
      ∧ covers b fs (offset s b) (offset s' b)
      ∧ in_flight s' <= Z.max (in_flight s) (window s)
  end.
Proof.
  intros Hi Hs Hr Hf. pose proof (at_start h p m s Hi Hs) as Ha.
  assert (ends (FlushTCPSendingBuffer fuel p ts) (λ _, flushed h p m m s b) m
    ∧ FlushTCPSendingBuffer fuel p ts m ≠ inl LoopFault) as [H1 H2].
  { unfold FlushTCPSendingBuffer, ends. rewrite (bind_inr _ _ _ _ _ (getS_run p m s Hs)), (rd_buf _ _ Hr).
    destruct (SB.len b =? 0); [by split; [apply flushed_refl|]|]. apply flush_loop_ends; [done|done|].
    pose proof (u32_range (snd_nxt s - SB.head_seq b)). unfold offset. destruct (rd_ok _ _ Hr). lia. }
  unfold ends in H1. destruct (FlushTCPSendingBuffer fuel p ts m) as [f|[r m']]; [split; congruence || done|].
  destruct H1 as (s'&arp&fs&(Hi'&Hs'&_)&_&E1&E2&E3&E4&E5). split; [done|]. by exists s', arp, fs.
Qed.
End Flush.

(** Three bytes waiting on the connection of the demonstration. *)
Import Demo.
Definition demo_buffer : SB.tcp_send_buffer :=
  SB.mk_sb 16384 ([10; 20; 30] ++ replicate 61 0) 16384 0 3 3 3 64 (demo_iss + 1) (demo_iss + 1).
Definition with_buffer (s : tcp_stream) : tcp_stream := s <| sndvar := (sndvar s) <| sndbuf := Some demo_buffer |> |>.

Lemma flush_sends_buffer_witness :
  ∃ m s, inv None m ∧ streams m !! 4096 = Some s ∧ ready s demo_buffer ∧
  match FlushTCPSendingBuffer 4 4096 20 m with
  | inl _ => False
  | inr (_, m') => ∃ s' arp fs, streams m' !! 4096 = Some s' ∧ out m' = arp ++ fs ++ out m
      ∧ covers demo_buffer fs (offset s demo_buffer) (offset s' demo_buffer) ∧ offset s' demo_buffer = 3
  end.
Proof.
  destruct (demo_state demo_connected) as [m0|] eqn:E; [|vm_compute in E; discriminate].
  pose proof (demo_state_inv _ _ E) as Hi0. vm_compute in E. injection E as E.
  destruct (streams m0 !! 4096) as [s0|] eqn:Es; [|rewrite <- E in Es; vm_compute in Es; discriminate].
  set (m := m0 <| streams := <[4096 := with_buffer s0]> (streams m0) |>).
  assert (inv None m) as Hi by (by apply (inv_upd None m0 4096 s0)).
  assert (streams m !! 4096 = Some (with_buffer s0)) as Hs by (unfold m; rec_simpl; by rewrite lookup_insert_eq).
  assert (ready (with_buffer s0) demo_buffer) as Hr.
  { rewrite <- E in Es. vm_compute in Es. injection Es as <-.
    split; [split| |split| |..]; try (vm_compute; intuition congruence).
    repeat (apply Forall_cons; split; [lia|]). by apply Forall_nil. }
  exists m, (with_buffer s0). split; [exact Hi|]. split; [exact Hs|]. split; [exact Hr|].
  pose proof (flush_sends_buffer None m 4096 (with_buffer s0) demo_buffer 20 4 Hi Hs Hr ltac:(by vm_compute)) as H.
  destruct (FlushTCPSendingBuffer 4 4096 20 m) as [f|[r m']] eqn:Ef.
  { unfold m in Ef. rewrite <- E in Ef, Es. vm_compute in Es. injection Es as <-. vm_compute in Ef. discriminate. }
  destruct H as (_&s'&arp&fs&Hs'&_&Eo&_&Hc&_). exists s', arp, fs. split_and!; try done.
  unfold m in Ef. rewrite <- E in Ef, Es. vm_compute in Es. injection Es as <-. vm_compute in Ef.
  injection Ef as _ <-. vm_compute in Hs'. injection Hs' as <-. by vm_compute.
Defined.
