(* ===== verification/Retransmit.v ===== *)
(** * The retransmission timeout

    What [HandleRTO] does to a stream whose timer expired, and when the wheel
    of [CheckRtmTimeout] reaches the slot a timer was put in. *)
From S2P Require Import Prelude SeqNum MemPool SendBuffer FlowHash TcpTypes NetOut TcpLists TcpInv TcpOptions.
From S2P Require Import TcpStream TcpFrame TcpOut Timer TcpIn Stack Post.

Section Retransmit.
Context {P IO : Type} `{ChunkPool P, World IO}.
Local Abbreviation mtcp := (mtcp_manager P IO).
Local Abbreviation M := (M P IO).
Implicit Types (m : mtcp) (s : tcp_stream).

(** ** Queueing *)

(** The flag of a list after the stream was put on it. *)
Lemma flag_after (f : tcp_stream → bool) p (u : tcp_send_vars → tcp_send_vars) (d : M (option Z)) g m a m' s' :
  (∀ s, f (s <| sndvar := u (sndvar s) |>) = true) →
  (sender <- d ;; modSnd p u ;;; modD sender g) m = inr (a, m') → streams m' !! p = Some s' → f s' = true.
Proof.
  intros Hf E Hs. unfold bind at 1 in E. destruct (d m) as [|[k m1]]; [done|].
  unfold bind in E. destruct (modSnd p u m1) as [|[[] m2]] eqn:E2; [done|].
  destruct (fixes_modD f p k g m2 a m' E s' Hs) as (s2&Hs2&Ef).
  unfold modSnd, modS, getS, bind, gets, lift in E2. destruct (streams m1 !! p) as [s1|] eqn:E1; [|done].
  injection E2 as <-. rec_simpl. rewrite lookup_insert_eq in Hs2. injection Hs2 as <-. by rewrite Ef.
Qed.

Lemma AddtoControlList_sets p ts m s a m' s' :
  streams m !! p = Some s → AddtoControlList p ts m = inr (a, m') → streams m' !! p = Some s' →
  on_control_list (sndvar s') = true.
Proof.
  intros Hs E Hs'. unfold AddtoControlList in E. rewrite (bind_inr _ _ _ _ _ (getS_run p m s Hs)) in E.
  destruct (on_control_list (sndvar s)) eqn:Ef.
  - injection E as _ <-. congruence.
  - by eapply (flag_after (λ s, on_control_list (sndvar s))); [|exact E|].
Qed.

Lemma AddtoSendList_sets p m s a m' s' :
  is_Some (sndbuf (sndvar s)) → streams m !! p = Some s → AddtoSendList p m = inr (a, m') → streams m' !! p = Some s' →
  on_send_list (sndvar s') = true.
Proof.
  intros [b Hb] Hs E Hs'. unfold AddtoSendList in E.
  assert (∀ d m1, GetSender p m = inr (d, m1) → m1 = m) as Hg.
  { intros d m1 Eg. unfold GetSender in Eg. rewrite (bind_inr _ _ _ _ _ (getS_run p m s Hs)) in Eg.
    destruct (_ <? 0); [by injection Eg|]. rewrite bind_gets in Eg. unfold nth_config, bind, lift in Eg.
    destruct (if 0 <=? _ then _ else None) as [e|]; [|done]. simpl in Eg. by destruct (_ || _); injection Eg. }
  unfold bind at 1 in E. destruct (GetSender p m) as [|[d m1]] eqn:Eg; [done|]. rewrite (Hg d m1 eq_refl) in E.
  rewrite (bind_inr _ _ _ _ _ (getS_run p m s Hs)), Hb in E.
  destruct (on_send_list (sndvar s)) eqn:Ef; [injection E as _ <-; congruence|].
  eapply (flag_after (λ s, on_send_list (sndvar s)) p _ (ret d)); [|exact E|exact Hs']. done.
Qed.

Lemma AddtoControlList_ends h p m0 m s ts (Q : unit → mtcp → Prop) :
  at_stream h p m0 m s →
  (∀ m' s', at_stream h p m0 m' s' → bare s' = bare s → on_control_list (sndvar s') = true → Q tt m') →
  ends (AddtoControlList p ts) Q m.
Proof.
  intros Ha HQ. pose proof Ha as (_&Hs&_).
  assert (ends (AddtoControlList p ts) (λ _ m', ∃ s', at_stream h p m0 m' s' ∧ bare s' = bare s) m) as He.
  { eapply (ends_step h p m0 true bare); [exact Ha|keep|fixing|staying|]. by intros _ m' s' Ha' Eb _; exists s'. }
  unfold ends in *. destruct (AddtoControlList p ts m) as [|[[] m']] eqn:E; [done|].
  destruct He as (s'&Ha'&Eb). apply (HQ m' s' Ha' Eb). by eapply AddtoControlList_sets; [exact Hs|exact E|apply Ha'].
Qed.

Lemma AddtoSendList_ends p m0 m s (Q : unit → mtcp → Prop) :
  at_stream None p m0 m s → is_Some (sndbuf (sndvar s)) →
  (∀ m' s', at_stream None p m0 m' s' → bare s' = bare s → on_send_list (sndvar s') = true → Q tt m') →
  ends (AddtoSendList p) Q m.
Proof.
  intros Ha Hb HQ. pose proof Ha as (_&Hs&_).
  assert (ends (AddtoSendList p) (λ _ m', ∃ s', at_stream None p m0 m' s' ∧ bare s' = bare s) m) as He.
  { eapply (ends_step None p m0 true bare); [exact Ha|keep|fixing|staying|]. by intros _ m' s' Ha' Eb _; exists s'. }
  unfold ends in *. destruct (AddtoSendList p m) as [|[[] m']] eqn:E; [done|].
  destruct He as (s'&Ha'&Eb). apply (HQ m' s' Ha' Eb). by eapply AddtoSendList_sets; [exact Hb|exact Hs|exact E|apply Ha'].
Qed.

(** ** The timeout of a stream *)

(** Whether unacknowledged data is to be sent again, before any FIN. *)
Definition data_lost s : bool :=
  match state s with
  | TCP_ST_ESTABLISHED | TCP_ST_CLOSE_WAIT => true
  | TCP_ST_FIN_WAIT_1 | TCP_ST_CLOSING | TCP_ST_LAST_ACK => TCP_SEQ_LT (snd_una (sndvar s)) (fss (sndvar s))
  | _ => false
  end.

(** What the retransmission decides about a stream. *)
Definition retransmitted s :=
  (state s, close_reason s, snd_nxt s,
   (snd_una (sndvar s), nrtx (sndvar s), rto (sndvar s), ssthresh (sndvar s), cwnd (sndvar s), mss (sndvar s))).

Definition requeued s s' : Prop :=
  retransmitted s' = retransmitted (s <| snd_nxt := snd_una (sndvar s) |>)
  ∧ (if data_lost s then on_send_list (sndvar s') = true else on_control_list (sndvar s') = true).

Lemma retransmit_ends p m0 m s ts :
  at_stream None p m0 m s → is_Some (sndbuf (sndvar s)) →
  ends (retransmit p ts) (λ _ m', ∃ s', at_stream None p m0 m' s' ∧ requeued s s') m.
Proof.
  intros Ha Hb. unfold retransmit. eapply ends_modS; [exact Ha|done|]. clear Ha. intros m1 Ha _.
  eapply ends_getS; [exact Ha|].
  assert (ends (AddtoControlList p ts) (λ _ m', ∃ s', at_stream None p m0 m' s'
    ∧ retransmitted s' = retransmitted (s <| snd_nxt := snd_una (sndvar s) |>) ∧ on_control_list (sndvar s') = true) m1)
    as Hctl.
  { eapply AddtoControlList_ends; [exact Ha|]. intros m' s' Ha' Eb Ef. exists s'. split; [done|]. split; [|done].
    by apply (f_equal retransmitted) in Eb. }
  assert (ends (AddtoSendList p) (λ _ m', ∃ s', at_stream None p m0 m' s'
    ∧ retransmitted s' = retransmitted (s <| snd_nxt := snd_una (sndvar s) |>) ∧ on_send_list (sndvar s') = true) m1)
    as Hsnd.
  { eapply AddtoSendList_ends; [exact Ha|done|]. intros m' s' Ha' Eb Ef. exists s'. split; [done|]. split; [|done].
    by apply (f_equal retransmitted) in Eb. }
  unfold requeued, data_lost. rec_simpl. destruct (state s) eqn:Est; try done;
    (destruct (TCP_SEQ_LT _ _); [|done]);
    (pass bare s2 m2 Ha2 E2 Eo2; eapply ends_modS; [exact Ha2|done|]; intros m3 Ha3 _;
     eapply AddtoSendList_ends; [exact Ha3|by apply (f_equal (λ s, sndbuf (sndvar s))) in E2; cbn in E2; rec_simpl; rewrite E2|];
     intros m' s' Ha' Eb Ef; exists s'; split; [done|]; split; [|done];
     apply (f_equal retransmitted) in Eb, E2; exact (eq_trans Eb E2)).
Qed.

(** A stream that the timeout sends again, rather than closes. *)
Definition retransmits s : bool :=
  match state s with
  | TCP_ST_SYN_SENT => nrtx (sndvar s) <? TCP_MAX_SYN_RETRY
  | TCP_ST_SYN_RCVD => negb (have_reset s)
  | TCP_ST_ESTABLISHED | TCP_ST_CLOSE_WAIT | TCP_ST_LAST_ACK | TCP_ST_FIN_WAIT_1 | TCP_ST_CLOSING => true
  | _ => false
  end.

(** The stream after the counters, the timeout and the windows are updated. *)
Definition timed_out s : tcp_stream :=
  let s := s <| sndvar := (sndvar s) <| nrtx := u8 (nrtx (sndvar s) + 1) |> |> in
  let s := s <| sndvar := (sndvar s) <| max_nrtx := if nrtx (sndvar s) >? max_nrtx (sndvar s)
                                                    then nrtx (sndvar s) else max_nrtx (sndvar s) |> |> in
  let s := s <| sndvar := (sndvar s) <| rto := backed_off_rto s |> |> in
  let s := s <| sndvar := (sndvar s) <| ssthresh := reduced_ssthresh (sndvar s) |> |> in
  s <| sndvar := (sndvar s) <| cwnd := mss (sndvar s) |> |>.

Lemma HandleRTO_ends p m0 m s ts :
  at_stream None p m0 m s → close_reason s = TCP_NOT_CLOSED → 0 <= nrtx (sndvar s) < TCP_MAX_RTX →
  retransmits s = true → is_Some (sndbuf (sndvar s)) →
  ends (HandleRTO p ts) (λ r m', r = 0 ∧ ∃ s', at_stream None p m0 m' s' ∧ requeued (timed_out s) s') m.
Proof.
  intros Ha Hc Hn Hr Hb. unfold HandleRTO. eapply ends_getS; [exact Ha|]. rewrite Hc.
  rewrite bool_decide_true by done. cbv beta iota delta [negb].
  destruct (Z.ltb_spec (nrtx (sndvar s)) TCP_MAX_RTX); [|lia].
  eapply ends_mod; [exact Ha|done|]. intros m1 Ha1 _. eapply ends_mod; [exact Ha1|done|]. intros m2 Ha2 _.
  eapply ends_mod; [exact Ha2|done|]. intros m3 Ha3 _. eapply ends_mod; [exact Ha3|done|]. intros m4 Ha4 _.
  eapply ends_mod; [exact Ha4|done|]. intros m5 Ha5 _.
  match type of Ha5 with at_stream _ _ _ _ ?s1 => change s1 with (timed_out s) in Ha5 end.
  eapply ends_getS; [exact Ha5|]. change (state (timed_out s)) with (state s).
  change (have_reset (timed_out s)) with (have_reset s).
  change (nrtx (sndvar (timed_out s))) with (u8 (nrtx (sndvar s) + 1)).
  assert (ends (retransmit p ts ;;; ret 0) (λ r m', r = 0 ∧ ∃ s', at_stream None p m0 m' s' ∧ requeued (timed_out s) s') m5)
    as Hre.
  { apply ends_bind. eapply ends_mono; [eapply retransmit_ends; [exact Ha5|exact Hb]|]. intros [] m' Hm'. done. }
  clear Ha Ha1 Ha2 Ha3 Ha4. unfold retransmits in Hr. destruct (state s); try done.
  - unfold TCP_MAX_SYN_RETRY, TCP_MAX_RTX in *. destruct (Z.gtb_spec (u8 (nrtx (sndvar s) + 1)) 7); [|done].
    apply Z.ltb_lt in Hr. ulia.
  - by destruct (have_reset s).
Qed.

(** Exponential backoff: from the measured round trip on a connection that is
    established, from the last timeout before. *)
Definition next_rto s (r : Z) : Prop :=
  let base := Z.shiftr (srtt (rcvvar s)) 3 + rttvar (rcvvar s) in
  if st_num TCP_ST_ESTABLISHED <=? st_num (state s)
  then 0 < base → base * 2 ^ 7 < 4294967296 → r = base * 2 ^ Z.min (nrtx (sndvar s) + 1) 7
  else 0 <= rto (sndvar s) → rto (sndvar s) * 2 < 4294967296 →
       r = if nrtx (sndvar s) + 1 <? 7 then rto (sndvar s) * 2 else rto (sndvar s).

Lemma timed_out_rto s :
  0 <= nrtx (sndvar s) < TCP_MAX_RTX → retransmits s = true → next_rto s (rto (sndvar (timed_out s))).
Proof.
  intros Hn Hr. unfold TCP_MAX_RTX in Hn.
  change (rto (sndvar (timed_out s))) with
    (backed_off_rto (s <| sndvar := (sndvar s) <| nrtx := u8 (nrtx (sndvar s) + 1) |> |>)).
  rewrite (u8_id (_ + 1)) by lia. unfold next_rto, backed_off_rto. rec_simpl.
  destruct (Z.leb_spec (st_num TCP_ST_ESTABLISHED) (st_num (state s))).
  - intros Hb Hw. rewrite MIN_spec. unfold TCP_MAX_BACKOFF. set (k := Z.min (nrtx (sndvar s) + 1) 7).
    assert (0 < 2 ^ k <= 2 ^ 7) by (split; [apply Z.pow_pos_nonneg; lia|apply Z.pow_le_mono_r; lia]).
    rewrite (u32_id (_ + _)) by (change (2 ^ 7) with 128 in *; lia).
    rewrite Z.shiftl_mul_pow2 by lia. rewrite u32_id by nia. set (base := Z.shiftr _ 3 + _) in *. by destruct (Z.leb_spec (base * 2 ^ k) 0); [nia|].
  - intros Hp Hw. unfold retransmits in Hr. unfold TCP_MAX_BACKOFF. rewrite Z.shiftl_mul_pow2, u32_id by lia.
    change (2 ^ 1) with 2. by destruct (state s).
Qed.


(** ** The wheel *)

(** The wheel looks at one slot per tick, from [rto_now_idx] at the time
    [rto_now_ts] on.  The timer of [p] expires [k] ticks from now. *)
Definition expires_in m p (k : Z) : Prop :=
  0 <= k < RTO_HASH ∧ p ∈ rto_at m ((rto_now_idx (rto_store m) + k) mod RTO_HASH).

Lemma AddtoRTOList_slot m p s :
  streams m !! p = Some s → on_rto_idx s < 0 → on_timewait_list s = false →
  let hs := if rto_list_cnt m =? 0 then (rto_store m) <| rto_now_idx := 0 |> <| rto_now_ts := ts_rto (sndvar s) |>
            else rto_store m in
  let diff := s32 (ts_rto (sndvar s) ⊟ rto_now_ts hs) in
  ∃ m', AddtoRTOList p m = inr (tt, m') ∧ clock m' = (rto_now_idx hs, rto_now_ts hs)
    ∧ (diff < RTO_HASH → p ∈ rto_at m' (rto_offset diff (rto_now_idx hs))).
Proof.
  intros Hs Hn Ht. unfold AddtoRTOList. rewrite (bind_inr _ _ _ _ _ (getS_run p m s Hs)), bind_gets.
  set (m1 := if rto_list_cnt m =? 0 then m <| rto_store := (rto_store m) <| rto_now_idx := 0 |>
                                                  <| rto_now_ts := ts_rto (sndvar s) |> |> else m).
  erewrite (bind_inr _ _ m tt m1) by (unfold when, m1; by destruct (rto_list_cnt m =? 0)).
  rewrite (proj2 (Z.ltb_lt _ _) Hn), Ht. cbv beta iota delta [when]. rewrite bind_gets.
  assert (streams m1 !! p = Some s) as Hs1 by (subst m1; by destruct (rto_list_cnt m =? 0)).
  rewrite (bind_inr _ _ _ _ _ (modS_run p _ m1 s Hs1)), bind_modify.
  assert (rto_store m1 = if rto_list_cnt m =? 0 then (rto_store m) <| rto_now_idx := 0 |>
    <| rto_now_ts := ts_rto (sndvar s) |> else rto_store m) as Er by (subst m1; by destruct (rto_list_cnt m =? 0)).
  cbv zeta. rewrite <- Er. eexists. split; [reflexivity|]. split; [done|]. intros Hd. rewrite (proj2 (Z.ltb_lt _ _) Hd).
  unfold set_rto_at, rto_at. rec_simpl. rewrite lookup_insert_eq. simpl. apply elem_of_TAILQ_INSERT_TAIL. by right.
Qed.


(** A timer that is due before the time of the wheel, which is the due time
    of the first timer put into the empty store, is found 2296 ticks too late
    (2^32 modulo the number of slots) when the wheel has turned by fewer ticks
    than that: the unsigned sum of index and negative difference wraps around
    before the remainder is taken. *)
Theorem earlier_timer_expires_late m p s d :
  inv None m → streams m !! p = Some s → on_rto_idx s < 0 → on_timewait_list s = false →
  is_u32 (ts_rto (sndvar s)) → rto_list_cnt m ≠ 0 →
  s32 (ts_rto (sndvar s) ⊟ rto_now_ts (rto_store m)) = - d → rto_now_idx (rto_store m) < d <= 2296 →
  ∃ m' k, AddtoRTOList p m = inr (tt, m') ∧ expires_in m' p k
    ∧ rto_now_ts (rto_store m') ⊞ k = ts_rto (sndvar s) ⊞ 2296.
Proof.
  intros Hi Hs Hn Ht Hu Hc Hd Hx. destruct (AddtoRTOList_slot m p s Hs Hn Ht) as (m'&E&Ec&Hp).
  rewrite (proj2 (Z.eqb_neq _ _) Hc) in Ec, Hp. injection Ec as Ex Et. pose proof (inv_now _ _ Hi).
  exists m', (2296 - d). split; [done|]. unfold expires_in. rewrite Ex, Et. unfold RTO_HASH in *. split.
  - split; [lia|]. specialize (Hp ltac:(lia)). rewrite Hd in Hp. unfold rto_offset, RTO_HASH in Hp.
    replace (u32 (- d + rto_now_idx (rto_store m))) with (rto_now_idx (rto_store m) + (2296 - d) + 1431655 * 3000) in Hp by ulia.
    by rewrite Z_mod_plus_full in Hp.
  - ulia.
Qed.
End Retransmit.

(** The timer of the demonstration's connection expires. *)
Import Demo.
Definition with_sndbuf (s : tcp_stream) : tcp_stream :=
  s <| sndvar := (sndvar s) <| sndbuf := Some (SB.mk_sb 16384 (replicate 64 0) 16384 0 3 3 3 64 (demo_iss + 1) (demo_iss + 1)) |> |>
    <| snd_nxt := demo_iss + 4 |>.


(** The connection's own timer, and an earlier one beside it. *)
Definition with_timer (ts : Z) (s : tcp_stream) : tcp_stream := s <| sndvar := (sndvar s) <| ts_rto := ts |> |>.


(** A SYN from another port while the first SYN/ACK waits for its answer. *)
Definition second_syn : thread_event :=
  let seg := checksummed (-1) (λ check, tcp_header (swap16 5001) local_port 2000 0 8 TCP_FLAG_SYN 512 check)
               ([1; 1; 8; 10] ++ be32 100 ++ be32 0) peer_ip local_ip in
  let pkt := ip_header (20 + Z.of_nat (length seg)) 1 6 0 peer_ip local_ip ++ seg in
  Frame 0 11 (eth_frame pkt).

Lemma earlier_timer_expires_late_witness :
  ∃ (m m' : mtcp_manager MemPool.mem_pool Z) k, rto_now_ts (rto_store m) = 510 ∧ AddtoRTOList 4160 m = inr (tt, m')
    ∧ expires_in m' 4160 k ∧ rto_now_ts (rto_store m') ⊞ k = 400 ⊞ 2296.
Proof.
  destruct (demo_state (demo_syn ++ [second_syn])) as [m0|] eqn:E; [|vm_compute in E; discriminate].
  pose proof (demo_state_inv _ _ E) as Hi0. vm_compute in E. injection E as E.
  destruct (streams m0 !! 4160) as [s0|] eqn:Es; [|rewrite <- E in Es; vm_compute in Es; discriminate].
  set (m := m0 <| streams := <[4160 := with_timer 400 s0]> (streams m0) |>).
  assert (inv None m) as Hi by (by apply (inv_upd None m0 4160 s0)).
  assert (streams m !! 4160 = Some (with_timer 400 s0)) as Hs by (unfold m; rec_simpl; by rewrite lookup_insert_eq).
  assert (on_rto_idx s0 < 0 ∧ on_timewait_list s0 = false) as [H1 H2].
  { rewrite <- E in Es. vm_compute in Es. injection Es as <-. by vm_compute. }
  assert (rto_list_cnt m = 1 ∧ rto_now_idx (rto_store m) = 0 ∧ rto_now_ts (rto_store m) = 510) as (H3&H4&H5)
    by (unfold m; rewrite <- E; by vm_compute).
  destruct (earlier_timer_expires_late m 4160 (with_timer 400 s0) 110 Hi Hs H1 H2) as (m'&k&Ea&He&Hk).
  - change (ts_rto (sndvar (with_timer 400 s0))) with 400. lia.
  - by rewrite H3.
  - change (ts_rto (sndvar (with_timer 400 s0))) with 400. rewrite H5. by vm_compute.
  - rewrite H4. lia.
  - exists m, m', k. split; [exact H5|]. split; [exact Ea|]. split; [exact He|exact Hk].
Defined.
