(* ===== verification/AppCalls.v ===== *)
(** * Serving the application

    What [HandleApplicationCalls] does with the queues: it empties those of the
    application, keeps what has to wait in the internal ones, and keeps the
    lists of the thread consistent, provided that the streams in the queues
    are still allocated. *)
From S2P Require Import Prelude CircQueue MemPool SendBuffer FlowHash TcpTypes NetOut TcpLists TcpInv TcpStream TcpFrame Post.
From S2P Require Import TcpOut Timer TcpIn NetIn App Stack.

Section Calls.
Context {P IO : Type} `{ChunkPool P, World IO}.
Local Abbreviation mtcp := (mtcp_manager P IO).
Local Abbreviation M := (M P IO).
Implicit Types (m : mtcp).

(** ** What a body does with the internal queue [y] *)
Definition put_int y p m : mtcp := set_int y (StreamQInt.StreamInternalEnqueue (the_int y m) p).2 m.
Definition hands y p (c : M unit) : Prop :=
  ∀ m, inv None m → live m p →
  match c m with
  | inl f => benign f
  | inr (_, m') => inv None m' ∧ others false p m m'
      ∧ (queues m' = queues m ∨ (live m' p ∧ queues m' = queues (put_int y p m)))
  end.

Lemma put_int_queues y p m m' : queues m' = queues m → queues (put_int y p m') = queues (put_int y p m).
Proof.
  unfold queues, put_int. intros E. injection E as E1 E2 E3 E4 E5 E6 E7 E8. destruct y; rec_simpl; simpl; congruence.
Qed.

Lemma hands_bind {A} y p (c : M A) k :
  keeps false None p c → stays queues c → (∀ a, hands y p (k a)) → hands y p (bind c k).
Proof.
  intros Hc Hs Hk m Hi Hl. specialize (Hc m Hi Hl). specialize (Hs m). unfold bind.
  destruct (c m) as [|[a m1]] eqn:Ec; [done|]. destruct Hc as (Hi1&Hl1&Ho1). specialize (Hs a m1 eq_refl).
  specialize (Hk a m1 Hi1 (Hl1 I)). destruct (k a m1) as [|[u m2]]; [done|]. destruct Hk as (Hi2&Ho2&Hq).
  split; [done|]. split; [by eapply others_trans|]. destruct Hq as [Hq|[Hl2 Hq]]; [left; congruence|right].
  split; [done|]. rewrite Hq. by apply put_int_queues.
Qed.
Lemma hands_frees y p (c : M unit) : frees false None p c → stays queues c → hands y p c.
Proof.
  intros Hc Hs m Hi Hl. specialize (Hc m Hi Hl). specialize (Hs m). destruct (c m) as [|[a m1]] eqn:Ec; [done|].
  destruct Hc as (Hi1&_&Ho1). split; [done|]. split; [done|]. left. by eapply Hs.
Qed.
Lemma hands_keeps y p (c : M unit) : keeps false None p c → stays queues c → hands y p c.
Proof. intros Hc. by apply hands_frees, keeps_spec. Qed.
Lemma enqueue_int_run y p m :
  (enqueue_int y p ;;; ret tt) m = inr (tt, put_int y p m).
Proof.
  unfold enqueue_int, bind, gets, modify, ret, put_int. simpl.
  by destruct (StreamQInt.StreamInternalEnqueue (the_int y m) p).
Qed.
Lemma put_int_core y p m : core (put_int y p m) = core m ∧ clock (put_int y p m) = clock m.
Proof. by destruct y. Qed.
Lemma hands_enqueue y p : hands y p (enqueue_int y p ;;; ret tt).
Proof.
  intros m Hi Hl. rewrite enqueue_int_run. destruct (put_int_core y p m) as [Ec Ek].
  destruct (core_streams _ _ Ec) as [E1 E2]. split; [by apply (inv_core None m)|].
  unfold others, live. rewrite E1, E2, Ek. split; [done|]. by right.
Qed.

Ltac handing :=
  repeat match goal with
  | |- hands _ _ (enqueue_int _ _ ;;; ret tt) => apply hands_enqueue
  | |- hands _ _ (destroy_reset _) => apply hands_frees; [solve [eauto with tcp]|solve [staying]]
  | |- hands _ _ (bind _ _) => apply hands_bind; [solve [keep]|solve [staying]|intros ?]
  | |- hands _ _ (if ?b then _ else _) => destruct b
  | |- hands _ _ _ => apply hands_keeps; [solve [keep]|solve [staying]]
  end.

Lemma hands_handle_close ts p : hands CloseInt p (handle_close ts p).
Proof. unfold handle_close. handing. Qed.
Lemma hands_retry_close ts p : hands CloseInt p (retry_close ts p).
Proof. unfold retry_close. handing. Qed.
Lemma hands_handle_reset ts p : hands ResetInt p (handle_reset ts p).
Proof. unfold handle_reset. handing. Qed.
Lemma hands_retry_reset ts p : hands ResetInt p (retry_reset ts p).
Proof. unfold retry_reset. handing. Qed.
Lemma hands_Destroy y p : hands y p (DestroyTCPStream p).
Proof. apply hands_frees; [by apply frees_DestroyTCPStream|staying]. Qed.
(** ** Queues and lists *)
Lemma queues_queue m m' x : queues m' = queues m → the_queue x m' = the_queue x m.
Proof. unfold queues. intros E. injection E as E1 E2 E3 E4 E5 E6 E7 E8. by destruct x. Qed.
Lemma queues_int m m' y : queues m' = queues m → the_int y m' = the_int y m.
Proof. unfold queues. intros E. injection E as E1 E2 E3 E4 E5 E6 E7 E8. by destruct y. Qed.
Lemma put_int_queue x y p m : the_queue x (put_int y p m) = the_queue x m.
Proof. by destruct x, y. Qed.
Lemma put_int_int y p m : the_int y (put_int y p m) = (StreamQInt.StreamInternalEnqueue (the_int y m) p).2.
Proof. by destruct y. Qed.
Lemma put_int_other y z p m : z ≠ y → the_int z (put_int y p m) = the_int z m.
Proof. by destruct y, z. Qed.

(** The parts of the queues other than the queue [x] and the internal queue
    [y]. *)
Definition rest x y m m' : Prop :=
  (∀ z, z ≠ x → the_queue z m' = the_queue z m) ∧ (∀ z, z ≠ y → the_int z m' = the_int z m).
Lemma rest_trans x y m1 m2 m3 : rest x y m1 m2 → rest x y m2 m3 → rest x y m1 m3.
Proof. intros [A1 A2] [B1 B2]. split; intros z Hz; [rewrite B1, A1|rewrite B2, A2]; done. Qed.

Lemma dequeue_run x m l : CircQ.holds (the_queue x m) l →
  ∃ m', dequeue x m = inr (List.hd_error l, m') ∧ CircQ.holds (the_queue x m') (tail l) ∧ streams m' = streams m
    ∧ (∀ h, inv h m → inv h m') ∧ (∀ z, z ≠ x → the_queue z m' = the_queue z m) ∧ (∀ z, the_int z m' = the_int z m).
Proof.
  intros Hq. destruct (CircQ.Dequeue_refines _ _ Hq) as (E1&E2&_). unfold dequeue, bind, gets, modify, ret.
  unfold StreamQ.StreamDequeue. destruct (CircQ.Dequeue (the_queue x m)) as [o q] eqn:Ed. simpl in E1, E2.
  exists (set_queue x q m). assert (o = List.hd_error l) as -> by (by rewrite E1; destruct l). split; [done|].
  split; [by destruct l, x|]. split; [by destruct x|]. split; [|by split; [intros z Hz; destruct x, z|intros z; destruct x, z]].
  intros h Hi. apply (inv_core h m); [by destruct x|done].
Qed.
Lemma dequeue_int_run y m p i : StreamQInt.holds (the_int y m) (p :: i) →
  ∃ m', dequeue_int y m = inr (Some p, m') ∧ StreamQInt.holds (the_int y m') i ∧ streams m' = streams m
    ∧ (∀ h, inv h m → inv h m') ∧ (∀ z, the_queue z m' = the_queue z m) ∧ (∀ z, z ≠ y → the_int z m' = the_int z m).
Proof.
  intros Hq. destruct (StreamQInt.sqi_Dequeue_refines _ _ Hq) as (E1&E2&_). unfold dequeue_int, bind, gets, modify, ret.
  destruct (StreamQInt.StreamInternalDequeue (the_int y m)) as [o q] eqn:Ed. simpl in E1, E2. subst o.
  exists (set_int y q m). split; [done|]. split; [by destruct y|]. split; [by destruct y|].
  split; [|by split; [intros z; destruct y, z|intros z Hz; destruct y, z]].
  intros h Hi. apply (inv_core h m); [by destruct y|done].
Qed.

(** A body whose stream is not in the internal queue: what it leaves there. *)
Lemma hands_step y p (c : M unit) m i :
  hands y p c → inv None m → live m p → StreamQInt.holds (the_int y m) i →
  ends c (λ _ m', inv None m' ∧ (∀ q, q ≠ p → streams m' !! q = streams m !! q)
    ∧ (∀ x, the_queue x m' = the_queue x m) ∧ (∀ z, z ≠ y → the_int z m' = the_int z m)
    ∧ ∃ i', StreamQInt.holds (the_int y m') i' ∧ (length i <= length i')%nat
        ∧ ∀ q, q ∈ i' → q ∈ i ∨ (q = p ∧ live m' p)) m.
Proof.
  intros Hc Hi Hl Hq. specialize (Hc m Hi Hl). unfold ends. destruct (c m) as [|[u m']]; [done|].
  destruct Hc as (Hi'&(Ho&_)&[E|[Hl' E]]); (split; [done|]); (split; [done|]).
  - split; [intros x; by apply queues_queue|]. split; [intros z _; by apply queues_int|]. exists i.
    split; [by rewrite (queues_int m m' y E)|]. split; [done|]. intros q. by left.
  - split; [intros x; by rewrite (queues_queue _ _ x E), put_int_queue|].
    split; [intros z Hz; by rewrite (queues_int _ _ z E), put_int_other|].
    destruct (StreamQInt.sqi_Enqueue_refines _ _ p Hq) as (_&Hh&_).
    eexists. split; [rewrite (queues_int _ _ y E), put_int_int; exact Hh|].
    unfold Fifo.push. destruct (_ <? _); simpl; (split; [rewrite ?length_app; lia|]); intros q;
      [rewrite elem_of_app, list_elem_of_singleton|]; naive_solver.
Qed.
Lemma live_same m m' q : streams m' !! q = streams m !! q → live m q → live m' q.
Proof. unfold live. by intros ->. Qed.

(** ** The loops *)

(** A loop over [l] that may destroy its streams and may put them into the
    internal queue [y], which held [i]. *)
Definition drained x y (l i : list Z) m m' : Prop :=
  inv None m' ∧ (∀ q, q ∉ l → streams m' !! q = streams m !! q) ∧ CircQ.holds (the_queue x m') [] ∧ rest x y m m'
  ∧ ∃ i', StreamQInt.holds (the_int y m') i' ∧ ∀ q, q ∈ i' → live m' q ∧ (q ∈ i ∨ q ∈ l).

Lemma drain_loop_drained x y body (Hb : ∀ p, hands y p (body p)) l : ∀ fuel m i,
  (length l < fuel)%nat → inv None m → CircQ.holds (the_queue x m) l → StreamQInt.holds (the_int y m) i → NoDup l →
  (∀ p, p ∈ l → live m p) → (∀ p, p ∈ i → p ∉ l ∧ live m p) →
  ends (drain_loop fuel x body) (λ _, drained x y l i m) m.
Proof.
  induction l as [|p l IH]; intros fuel m i Hf Hi Hq Hy Hn Hl Hd; (destruct fuel as [|fuel]; [simpl in Hf; lia|]);
    cbn [drain_loop]; apply ends_bind; destruct (dequeue_run x m _ Hq) as (m1&E1&Hq1&Es1&Hi1&Ex1&Ey1);
    unfold ends at 1; rewrite E1; simpl in *.
  - split; [by apply Hi1|]. split; [by intros; rewrite Es1|]. split; [done|]. split; [split; auto|].
    exists i. rewrite Ey1. split; [done|]. intros q Hqi. destruct (Hd q Hqi) as [_ Hlq].
    split; [by apply (live_same m); [rewrite Es1|]|by left].
  - apply NoDup_cons in Hn as [Hp Hn]. apply ends_bind.
    assert (live m1 p) as Hl1 by (apply (live_same m); [by rewrite Es1|apply Hl; left]).
    eapply ends_mono; [apply (hands_step y p (body p) m1 i (Hb p)); [by apply Hi1|done|by rewrite Ey1]|].
    intros _ m2 (Hi2&Ho2&Eq2&Ey2&i2&Hh2&Hlen2&Hin2).
    assert (∀ q, q ≠ p → live m q → live m2 q) as Hlive.
    { intros q Hqp Hlq. apply (live_same m1); [by apply Ho2|]. by apply (live_same m); [rewrite Es1|]. }
    eapply ends_mono; [apply (IH fuel m2 i2); try done|].
    + lia.
    + by rewrite Eq2.
    + intros q Hql. apply Hlive; [by intros ->|]. apply Hl. by right.
    + intros q Hqi. destruct (Hin2 q Hqi) as [Hqi0|[-> ?]]; [|done]. destruct (Hd q Hqi0) as [Hnq Hlq].
      rewrite not_elem_of_cons in Hnq. destruct Hnq. split; [done|]. by apply Hlive.
    + intros _ m' (Hi'&Ho'&Hq'&Hr'&i'&Hh'&Hin'). split; [done|].
      split; [intros q; rewrite not_elem_of_cons; intros []; by rewrite Ho', Ho2, Es1 by done|]. split; [done|].
      split; [eapply rest_trans; [|exact Hr']; split; intros z Hz; [rewrite Eq2, Ex1|rewrite Ey2, Ey1]; done|].
      exists i'. split; [done|]. intros q Hq2. destruct (Hin' q Hq2) as [Hlq [Hqi|Hql]]; (split; [done|]).
      * destruct (Hin2 q Hqi) as [?|[-> _]]; [by left|right; left].
      * right. by right.
Qed.
Lemma drain_drained x y body m l i :
  (∀ p, hands y p (body p)) → inv None m → CircQ.holds (the_queue x m) l → StreamQInt.holds (the_int y m) i → NoDup l →
  (∀ p, p ∈ l → live m p) → (∀ p, p ∈ i → p ∉ l ∧ live m p) → ends (drain x body) (λ _, drained x y l i m) m.
Proof.
  intros Hb Hi Hq Hy Hn Hl Hd. apply ends_gets, drain_loop_drained; try done.
  pose proof (CircQ.length_le_cap _ _ Hq). pose proof (CircQ.holds_slots _ _ Hq). lia.
Qed.

(** A loop that destroys nothing. *)
Definition served x (l : list Z) m m' : Prop :=
  inv None m' ∧ (∀ q, live m q → live m' q) ∧ CircQ.holds (the_queue x m') []
  ∧ (∀ z, z ≠ x → the_queue z m' = the_queue z m) ∧ (∀ z, the_int z m' = the_int z m).
Lemma drain_loop_served x body (Hb : ∀ p, keeps false None p (body p)) (Hs : ∀ p, stays queues (body p)) l : ∀ fuel m,
  (length l < fuel)%nat → inv None m → CircQ.holds (the_queue x m) l → (∀ p, p ∈ l → live m p) →
  ends (drain_loop fuel x body) (λ _, served x l m) m.
Proof.
  induction l as [|p l IH]; intros fuel m Hf Hi Hq Hl; (destruct fuel as [|fuel]; [simpl in Hf; lia|]);
    cbn [drain_loop]; apply ends_bind; destruct (dequeue_run x m _ Hq) as (m1&E1&Hq1&Es1&Hi1&Ex1&Ey1);
    unfold ends at 1; rewrite E1; simpl in *.
  - split; [by apply Hi1|]. split; [by intros q; apply live_same; rewrite Es1|]. by split.
  - assert (live m1 p) as Hl1 by (apply (live_same m); [by rewrite Es1|apply Hl; left]).
    apply ends_bind. pose proof (Hb p m1 (Hi1 None Hi) Hl1) as Hk. pose proof (Hs p m1) as Hst. unfold ends at 1.
    destruct (body p m1) as [|[u m2]]; [done|]. destruct Hk as (Hi2&Hl2&(Ho2&_)). specialize (Hst u m2 eq_refl).
    assert (∀ q, live m q → live m2 q) as Hlive.
    { intros q Hlq. destruct (decide (q = p)) as [->|]; [by apply Hl2|]. apply (live_same m1); [by apply Ho2|].
      by apply (live_same m); [rewrite Es1|]. }
    eapply ends_mono; [apply (IH fuel m2); try done|].
    + lia.
    + by rewrite (queues_queue _ _ x Hst).
    + intros q Hql. apply Hlive, Hl. by right.
    + intros _ m' (Hi'&Hl'&Hq'&Er'&Ey'). split; [done|]. split; [auto|]. split; [done|].
      split; [intros z Hz; by rewrite Er', (queues_queue _ _ z Hst), Ex1 by done|].
      intros z. by rewrite Ey', (queues_int _ _ z Hst), Ey1.
Qed.
Lemma drain_served x body m l :
  (∀ p, keeps false None p (body p)) → (∀ p, stays queues (body p)) → inv None m → CircQ.holds (the_queue x m) l →
  (∀ p, p ∈ l → live m p) → ends (drain x body) (λ _, served x l m) m.
Proof.
  intros Hb Hs Hi Hq Hl. apply ends_gets, drain_loop_served; try done.
  pose proof (CircQ.length_le_cap _ _ Hq). pose proof (CircQ.holds_slots _ _ Hq). lia.
Qed.

(** One turn over an internal queue. *)
Definition worked y (i : list Z) m m' : Prop :=
  inv None m' ∧ (∀ q, live m q → live m' q) ∧ (∀ z, the_queue z m' = the_queue z m)
  ∧ (∀ z, z ≠ y → the_int z m' = the_int z m) ∧ ∃ i', StreamQInt.holds (the_int y m') i' ∧ i' ⊆ i.
Lemma work_loop_worked y body (Hk : ∀ p, keeps false None p (body p)) (Hb : ∀ p, hands y p (body p)) n : ∀ m i,
  (n <= length i)%nat → inv None m → StreamQInt.holds (the_int y m) i → (∀ p, p ∈ i → live m p) →
  ends (work_loop n y body) (λ _, worked y i m) m.
Proof.
  induction n as [|n IH]; intros m i Hn Hi Hq Hl; cbn [work_loop].
  { split; [done|]. split; [done|]. split; [done|]. split; [done|]. by exists i. }
  destruct i as [|p i]; [simpl in Hn; lia|]. apply ends_bind.
  destruct (dequeue_int_run y m p i Hq) as (m1&E1&Hq1&Es1&Hi1&Ex1&Ey1). unfold ends at 1. rewrite E1.
  apply ends_bind. unfold ends at 1. simpl lift. cbv beta. apply ends_bind.
  assert (live m1 p) as Hl1 by (apply (live_same m); [by rewrite Es1|apply Hl; left]).
  pose proof (Hk p m1 (Hi1 None Hi) Hl1) as Hkp. pose proof (hands_step y p (body p) m1 i (Hb p) (Hi1 None Hi) Hl1 Hq1) as Hst.
  unfold ends at 1 in Hst. unfold ends at 1. destruct (body p m1) as [|[u m2]]; [done|].
  destruct Hkp as (_&Hl2&_). destruct Hst as (Hi2&Ho2&Eq2&Ey2&i2&Hh2&Hlen2&Hin2).
  assert (∀ q, live m q → live m2 q) as Hlive.
  { intros q Hlq. destruct (decide (q = p)) as [->|]; [by apply Hl2|]. apply (live_same m1); [by apply Ho2|].
    by apply (live_same m); [rewrite Es1|]. }
  assert (∀ q, q ∈ i2 → q ∈ p :: i) as Hsub.
  { intros q Hqi. destruct (Hin2 q Hqi) as [?|[-> _]]; [by right|left]. }
  eapply ends_mono; [apply (IH m2 i2); try done; [simpl in Hn; lia|]|].
  - intros q Hqi. by apply Hlive, Hl, Hsub.
  - intros _ m' (Hi'&Hl'&Eq'&Ey'&i'&Hh'&Hin'). split; [done|]. split; [auto|].
    split; [intros z; by rewrite Eq', Eq2, Ex1|]. split; [intros z Hz; by rewrite Ey', Ey2, Ey1 by done|].
    exists i'. split; [done|]. intros q Hqi. by apply Hsub, Hin'.
Qed.
Lemma work_off_worked y body m i :
  (∀ p, keeps false None p (body p)) → (∀ p, hands y p (body p)) → inv None m → StreamQInt.holds (the_int y m) i →
  (∀ p, p ∈ i → live m p) → ends (work_off y body) (λ _, worked y i m) m.
Proof.
  intros Hk Hb Hi Hq Hl. apply ends_gets, work_loop_worked; try done. rewrite (StreamQInt.holds_count _ _ Hq). lia.
Qed.
(** ** The whole function *)

(** No stream is twice in the queues whose handling may destroy it. *)
Record apart (Q : app_queue → list Z) (I : int_queue → list Z) : Prop := {
  ap_close : NoDup (Q CloseQ);
  ap_reset : NoDup (Q ResetQ);
  ap_destroy : NoDup (Q DestroyQ);
  ap_close_int : ∀ p, p ∈ I CloseInt → p ∉ Q CloseQ;
  ap_reset_int : ∀ p, p ∈ I ResetInt → p ∉ Q ResetQ;
  ap_close_reset : ∀ p, p ∈ Q CloseQ ∨ p ∈ I CloseInt → p ∉ Q ResetQ ∧ p ∉ I ResetInt;
  ap_all_destroy : ∀ p, p ∈ Q DestroyQ → p ∉ Q CloseQ ∧ p ∉ I CloseInt ∧ p ∉ Q ResetQ ∧ p ∉ I ResetInt
}.
(** The contents of the queues, all of them allocated streams. *)
Record queued m (Q : app_queue → list Z) (I : int_queue → list Z) : Prop := {
  qd_holds : ∀ x, CircQ.holds (the_queue x m) (Q x);
  qd_int : ∀ y, StreamQInt.holds (the_int y m) (I y);
  qd_live : ∀ x p, p ∈ Q x → live m p;
  qd_int_live : ∀ y p, p ∈ I y → live m p;
  qd_apart : apart Q I
}.
Definition emptied (Q : app_queue → list Z) (x : app_queue) : app_queue → list Z := λ z, if decide (z = x) then [] else Q z.
Definition set_list (I : int_queue → list Z) (y : int_queue) (i : list Z) : int_queue → list Z :=
  λ z, if decide (z = y) then i else I z.

Lemma queued_served m m' Q I x : (x = ConnectQ ∨ x = SendQ ∨ x = AckQ) →
  queued m Q I → served x (Q x) m m' → queued m' (emptied Q x) I.
Proof.
  intros Hx [H1 H2 H3 H4 []] (_&Hl&Hq&Er&Ey). unfold emptied. split.
  - intros z. case_decide as Hz; [by subst|]. rewrite (Er z Hz). apply H1.
  - intros y. rewrite Ey. apply H2.
  - intros z p. case_decide; [by intros ?%elem_of_nil|]. intros Hp. by apply Hl, (H3 z).
  - intros y p Hp. by apply Hl, (H4 y).
  - by destruct Hx as [->|[->| ->]].
Qed.

(** The queues whose streams may be destroyed, with the internal queue of
    each. *)
Definition mortal x y : Prop := (x = CloseQ ∧ y = CloseInt) ∨ (x = ResetQ ∧ y = ResetInt) ∨ x = DestroyQ.
Lemma mortal_apart Q I x y : mortal x y → apart Q I →
  NoDup (Q x) ∧ (∀ z p, p ∈ I z → p ∉ Q x) ∧ (∀ z p, z = CloseQ ∨ z = ResetQ ∨ z = DestroyQ → z ≠ x → p ∈ Q z → p ∉ Q x).
Proof.
  intros Hm [A1 A2 A3 A4 A5 A6 A7]. destruct Hm as [[-> ->]|[[-> ->]| ->]]; (split; [done|]); split.
  - intros [] p Hp; [by apply A4|]. intros Hc. destruct (A6 p (or_introl Hc)). done.
  - intros z p [->|[->| ->]] Hz Hp Hc; [done|by destruct (A6 p (or_introl Hc))|by destruct (A7 p Hp)].
  - intros [] p Hp; [intros Hr; by destruct (A6 p (or_intror Hp))|by apply A5].
  - intros z p [->|[->| ->]] Hz Hp Hc; [by destruct (A6 p (or_introl Hp))|done|by destruct (A7 p Hp) as (_&_&?&_)].
  - intros [] p Hp Hd; destruct (A7 p Hd) as (_&?&_&?); done.
  - intros z p [->|[->| ->]] Hz Hp Hd; destruct (A7 p Hd) as (?&_&?&_); done.
Qed.
Lemma apart_drained Q I x y i' : mortal x y → apart Q I → (∀ p, p ∈ i' → p ∈ I y ∨ p ∈ Q x) →
  apart (emptied Q x) (set_list I y i').
Proof.
  intros Hm [A1 A2 A3 A4 A5 A6 A7] Hi. unfold emptied, set_list.
  destruct Hm as [[-> ->]|[[-> ->]| ->]]; [..|destruct y]; split; simpl; try done; try apply NoDup_nil_2; set_solver.
Qed.

(** The three queues that are emptied first. *)
Definition front_empty (Q : app_queue → list Z) : Prop := Q ConnectQ = [] ∧ Q SendQ = [] ∧ Q AckQ = [].
Lemma queued_drained m m' Q I x y : mortal x y → front_empty Q → queued m Q I → drained x y (Q x) (I y) m m' →
  ∃ i', queued m' (emptied Q x) (set_list I y i') ∧ ∀ p, p ∈ i' → p ∈ I y ∨ p ∈ Q x.
Proof.
  intros Hm (F1&F2&F3) [H1 H2 H3 H4 H5] (_&Ho&Hq&[Er Ey]&i'&Hh&Hin). exists i'.
  destruct (mortal_apart Q I x y Hm H5) as (_&Hdi&Hdq). split; [|intros p Hp; by apply Hin].
  unfold emptied, set_list. split.
  - intros z. case_decide as Hz; [by subst|]. rewrite (Er z Hz). apply H1.
  - intros z. case_decide as Hz; [by subst|]. rewrite (Ey z Hz). apply H2.
  - intros z p. case_decide as Hz; [by intros ?%elem_of_nil|]. intros Hp. apply (live_same m); [|by apply (H3 z)].
    assert (z = CloseQ ∨ z = ResetQ ∨ z = DestroyQ) by (destruct z; rewrite ?F1, ?F2, ?F3 in Hp; auto; by apply elem_of_nil in Hp).
    by apply Ho, (Hdq z).
  - intros z p. case_decide as Hz; [intros Hp; by apply Hin|]. intros Hp. apply (live_same m); [|by apply (H4 z)].
    by apply Ho, (Hdi z).
  - apply apart_drained; [done|done|]. intros p Hp. by apply Hin.
Qed.
Lemma queued_worked m m' Q I y : queued m Q I → worked y (I y) m m' →
  ∃ i', queued m' Q (set_list I y i') ∧ i' ⊆ I y.
Proof.
  intros [H1 H2 H3 H4 [A1 A2 A3 A4 A5 A6 A7]] (_&Hl&Eq&Ey&i'&Hh&Hin). exists i'. split; [|done]. unfold set_list. split.
  - intros z. rewrite Eq. apply H1.
  - intros z. case_decide as Hz; [by subst|]. rewrite (Ey z Hz). apply H2.
  - intros z p Hp. by apply Hl, (H3 z).
  - intros z p Hp. apply Hl. case_decide; [apply (H4 y), Hin|apply (H4 z)]; done.
  - destruct y; split; simpl; set_solver.
Qed.
Lemma serve_then x body (k : M unit) m Q I R :
  (x = ConnectQ ∨ x = SendQ ∨ x = AckQ) → (∀ p, keeps false None p (body p)) → (∀ p, stays queues (body p)) →
  inv None m → queued m Q I →
  (∀ m', inv None m' → queued m' (emptied Q x) I → (∀ q, live m q → live m' q) → ends k R m') →
  ends (drain x body ;;; k) R m.
Proof.
  intros Hx Hb Hs Hi Hq Hk. apply ends_bind. eapply ends_mono.
  - apply (drain_served x body m (Q x) Hb Hs Hi); [apply Hq|]. intros p. apply (qd_live _ _ _ Hq x).
  - intros ? m' Hs'. apply Hk; [apply Hs'|by eapply queued_served|apply Hs'].
Qed.
(** A body that leaves an internal queue alone. *)
Lemma drain_stays_int x z (body : Z → M unit) : (∀ p, stays (the_int z) (body p)) → stays (the_int z) (drain x body).
Proof.
  intros Hb. apply stays_bind; [apply stays_gets|]. intros q. generalize (S (length (CircQ.slots q))).
  induction n as [|n IH]; cbn [drain_loop]; [apply stays_fail|]. apply stays_bind; [unfold dequeue; destruct x, z; staying|].
  intros [p|]; [|apply stays_ret]. apply stays_bind; [apply Hb|]. by intros _.
Qed.
Lemma drain_then x y body (k : M unit) m Q I R :
  queued m Q I → mortal x y → front_empty Q → (∀ p, hands y p (body p)) → inv None m →
  (∀ m' i', inv None m' → queued m' (emptied Q x) (set_list I y i') → (∀ p, p ∈ i' → p ∈ I y ∨ p ∈ Q x) →
     (∀ q, live m q → q ∉ Q x → live m' q) →
     (∀ z, (∀ p, stays (the_int z) (body p)) → the_int z m' = the_int z m) → ends k R m') →
  ends (drain x body ;;; k) R m.
Proof.
  intros Hq Hm Hf Hb Hi Hk. destruct (mortal_apart Q I x y Hm (qd_apart _ _ _ Hq)) as (Hn&Hd&_).
  assert (ends (drain x body) (λ _, drained x y (Q x) (I y) m) m) as Hr.
  { apply (drain_drained x y body m (Q x) (I y) Hb Hi); [apply Hq|apply Hq|done|intros p; apply (qd_live _ _ _ Hq x)|].
    intros p Hp. split; [by apply (Hd y)|by apply (qd_int_live _ _ _ Hq y)]. }
  apply ends_bind. pose proof (λ z Hz, drain_stays_int x z body Hz m) as Hst. unfold ends at 1 in Hr. unfold ends at 1.
  destruct (drain x body m) as [|[u m']]; [done|].
  destruct (queued_drained m m' Q I x y Hm Hf Hq Hr) as (i'&Hq'&Hi'). apply (Hk m' i'); try done.
  - apply Hr.
  - intros q Hl Hnq. apply (live_same m); [by apply Hr|done].
  - intros z Hz. by apply (Hst z Hz u).
Qed.
Lemma work_then y body (k : M unit) m Q I R :
  (∀ p, keeps false None p (body p)) → (∀ p, hands y p (body p)) → inv None m → queued m Q I →
  (∀ m' i', inv None m' → queued m' Q (set_list I y i') → i' ⊆ I y → (∀ q, live m q → live m' q) → ends k R m') →
  ends (work_off y body ;;; k) R m.
Proof.
  intros Hk Hb Hi Hq HR. apply ends_bind. eapply ends_mono.
  - apply (work_off_worked y body m (I y) Hk Hb Hi); [apply Hq|]. intros p. apply (qd_int_live _ _ _ Hq y).
  - intros ? m' Hw. destruct (queued_worked m m' Q I y Hq Hw) as (i'&Hq'&Hi'). apply (HR m' i'); try done; apply Hw.
Qed.

(** C9: when the queues of the application and the two internal ones hold
    allocated streams, none of them twice in the queues whose handling may
    destroy a stream, [HandleApplicationCalls] follows no freed stream and
    corrupts no list; it empties the six queues of the application; what is
    left in the internal queues is still allocated and was closed or reset
    before; every stream that was neither closed nor reset nor to be destroyed
    is still there. *)
Theorem application_calls_served m ts Q I :
  inv None m → queued m Q I →
  ends (HandleApplicationCalls ts) (λ _ m',
    inv None m' ∧ (∀ x, StreamQ.StreamQueueIsEmpty (the_queue x m') = true)
    ∧ (∃ I', (∀ y, StreamQInt.holds (the_int y m') (I' y)) ∧ (∀ y p, p ∈ I' y → live m' p)
         ∧ I' CloseInt ⊆ I CloseInt ++ Q CloseQ ∧ I' ResetInt ⊆ I ResetInt ++ Q ResetQ)
    ∧ (∀ q, live m q → q ∉ Q CloseQ ++ Q ResetQ ++ Q DestroyQ → live m' q)
    ∧ wakeup_flag m' = false) m.
Proof.
  intros Hi Hq. unfold HandleApplicationCalls.
  apply (serve_then _ _ _ _ Q I); [by auto|intros; keep|intros; staying|done|done|]. intros m1 Hi1 Hq1 Hl1.
  eapply serve_then; [by auto|intros; by apply keeps_handle_send|intros; staying|done|exact Hq1|]. intros m2 Hi2 Hq2 Hl2.
  eapply serve_then; [by auto|intros; apply keeps_handle_ack|intros; staying|done|exact Hq2|]. intros m3 Hi3 Hq3 Hl3.
  eapply (drain_then CloseQ CloseInt); [exact Hq3|by left|done|intros; apply hands_handle_close|done|].
  intros m4 i4 Hi4 Hq4 Hin4 Hl4 _.
  eapply (work_then CloseInt); [intros; apply keeps_retry_close|intros; apply hands_retry_close|done|exact Hq4|].
  intros m5 i5 Hi5 Hq5 Hin5 Hl5.
  eapply (drain_then ResetQ ResetInt); [exact Hq5|by right; left|done|intros; apply hands_handle_reset|done|].
  intros m6 j6 Hi6 Hq6 Hin6 Hl6 _.
  eapply (work_then ResetInt); [intros; apply keeps_retry_reset|intros; apply hands_retry_reset|done|exact Hq6|].
  intros m7 j7 Hi7 Hq7 Hin7 Hl7.
  eapply (drain_then DestroyQ ResetInt); [exact Hq7|by right; right|done|intros; apply hands_Destroy|done|].
  intros m8 j8 Hi8 [H1 H2 H3 H4 _] Hin8 Hl8 Es. unfold ends, modify. simpl in *.
  split; [by apply (inv_core None m8)|]. split; [|split; [|split; [|done]]].
  - intros x. specialize (H1 x). destruct x; by apply (CircQ.IsEmpty_spec _ _ H1).
  - destruct Hq7 as [_ J2 _ J4 J5].
    destruct (mortal_apart _ _ DestroyQ ResetInt (or_intror (or_intror eq_refl)) J5) as (_&J6&_). eexists. split; [|split; [|split]].
    + intros y. pose proof (J2 y) as Hy. rewrite <- (Es y) in Hy by (intros; destruct y; staying). destruct y; exact Hy.
    + intros y p Hp. apply (Hl8 p); [by apply (J4 y)|by apply (J6 y)].
    + set_solver.
    + set_solver.
  - intros q Hlq Hnq. set_solver.
Qed.
(** ** A stream that is destroyed while it waits in a queue *)
Lemma HandleRTO_gives_up m p s ts :
  streams m !! p = Some s → socket s = None → close_reason s = TCP_NOT_CLOSED → TCP_MAX_RTX <= nrtx (sndvar s) →
  st_num TCP_ST_ESTABLISHED <= st_num (state s) → ∀ r m', HandleRTO p ts m = inr (r, m') →
  streams m' !! p = None ∧ queues m' = queues m.
Proof.
  intros Hs Hso Hc Hn Hst r m' E.
  set (c := (close_stream p TCP_CONN_LOST ;;; DestroyTCPStream p ;;; ret (-1)) : M Z). assert (HandleRTO p ts m = c m) as E'.
  { unfold c, HandleRTO. rewrite (bind_inr _ _ _ _ _ (getS_run p m s Hs)), Hc.
    rewrite bool_decide_true, !(proj2 (Z.ltb_ge _ _)) by (done || lia). cbv beta iota delta [negb].
    unfold close_stream, report_or_destroy, bind. rewrite !(modS_run p _ m s Hs). cbv beta iota.
    erewrite getS_run by (rec_simpl; apply lookup_insert_eq). rec_simpl. by rewrite Hso. }
  assert (stays queues c) as Hq by (unfold c; staying).
  rewrite E' in E. split; [|by apply (Hq m r)].
  assert (kills p c) as Hk; [|by apply (Hk m r)]. unfold c.
  apply kills_bind. intros _ m0 r0 m0' E0. unfold bind in E0.
  destruct (DestroyTCPStream p m0) as [|[u m1]] eqn:Ed; [done|]. injection E0 as _ <-.
  by apply (kills_DestroyTCPStream p m0 u).
Qed.

(** C39: the application closes a connection whose last retransmission has
    timed out; the timer is checked before the queues, destroys the stream, as
    it has no socket any more, and leaves it in the close queue:
    [HandleApplicationCalls] then uses the freed stream. *)
Theorem closed_stream_used_after_free m p s ts ts' l :
  streams m !! p = Some s → socket s = None → close_reason s = TCP_NOT_CLOSED → TCP_MAX_RTX <= nrtx (sndvar s) →
  st_num TCP_ST_ESTABLISHED <= st_num (state s) → CircQ.holds (closeq m) (p :: l) →
  (∀ x, x = ConnectQ ∨ x = SendQ ∨ x = AckQ → StreamQ.StreamQueueIsEmpty (the_queue x m) = true) →
  ∀ r m', HandleRTO p ts m = inr (r, m') → HandleApplicationCalls ts' m' = inl StreamFault.
Proof.
  intros Hs Hso Hc Hn Hst Hq He r m' E. destruct (HandleRTO_gives_up m p s ts Hs Hso Hc Hn Hst r m' E) as [Hp Eq].
  unfold HandleApplicationCalls.
  assert (∀ x, x = ConnectQ ∨ x = SendQ ∨ x = AckQ → StreamQ.StreamQueueIsEmpty (the_queue x m') = true) as He'.
  { intros x Hx. rewrite (queues_queue m m' x Eq). by apply He. }
  rewrite (bind_inr _ _ _ _ _ (drain_idle ConnectQ _ m' (He' ConnectQ ltac:(auto)))).
  rewrite (bind_inr _ _ _ _ _ (drain_idle SendQ _ m' (He' SendQ ltac:(auto)))).
  rewrite (bind_inr _ _ _ _ _ (drain_idle AckQ _ m' (He' AckQ ltac:(auto)))).
  assert (CircQ.holds (the_queue CloseQ m') (p :: l)) as Hq' by (by rewrite (queues_queue m m' CloseQ Eq)).
  destruct (dequeue_run CloseQ m' _ Hq') as (m1&E1&_&Es1&_).
  assert (handle_close ts' p m1 = inl StreamFault) as Eh.
  { unfold handle_close, modSnd, modS, getS. unfold bind, gets. rewrite Es1, Hp. reflexivity. }
  assert (drain CloseQ (handle_close ts') m' = inl StreamFault) as Ed.
  { unfold drain. rewrite bind_gets. cbn [drain_loop]. change (head (p :: l)) with (Some p) in E1.
    rewrite (bind_inr _ _ _ _ _ E1). cbv iota. unfold bind at 1. by rewrite Eh. }
  unfold bind at 1. by rewrite Ed.
Qed.
End Calls.

(** ** A connection that is closed by the application *)
Module CallsDemo.
Import Demo.
Definition calls_queue (l : list Z) : CircQ.queue Z :=
  CircQ.mk_queue 4 0 (Z.of_nat (length l)) ((Some <$> l) ++ replicate (5 - length l) None).
(** A state with short queues and the accepted connection in the close queue. *)
Definition closing (m : mtcp_manager MemPool.mem_pool Z) : mtcp_manager MemPool.mem_pool Z :=
  m <| connectq := calls_queue [] |> <| sendq := calls_queue [] |> <| ackq := calls_queue [] |>
    <| closeq := calls_queue [4096] |> <| resetq := calls_queue [] |> <| destroyq := calls_queue [] |>
    <| closeq_int := StreamQInt.mk_sqi [None; None] 2 0 0 0 |>
    <| resetq_int := StreamQInt.mk_sqi [None; None] 2 0 0 0 |>.
Definition closing_queue (x : app_queue) : list Z := match x with CloseQ => [4096] | _ => [] end.
(** The connection after its last retransmission, its socket released. *)
Definition worn_out (m : mtcp_manager MemPool.mem_pool Z) : option (mtcp_manager MemPool.mem_pool Z) :=
  s ← streams m !! 4096;
  Some (m <| streams := <[4096 := s <| socket := None |> <| sndvar := (sndvar s) <| nrtx := TCP_MAX_RTX |> |>]> (streams m) |>).

Lemma calls_queue_holds l : (length l <= 1)%nat → CircQ.holds (calls_queue l) l.
Proof.
  intros. destruct l as [|p [|]]; [| |simpl in *; lia]; split; simpl; try lia; try done.
  intros [|k] x E; [by injection E as ->|]. by destruct k.
Qed.
Lemma closing_queued m : is_Some (streams m !! 4096) → queued (closing m) closing_queue (λ _, []).
Proof.
  intros Hs. split.
  - intros []; by apply calls_queue_holds; simpl; lia.
  - intros []; by split; simpl; try lia; try done.
  - by intros [] p Hp; try apply not_elem_of_nil in Hp; try apply list_elem_of_singleton in Hp as ->.
  - intros y p Hp. by apply not_elem_of_nil in Hp.
  - split; simpl; intros; (apply NoDup_nil_2 || apply NoDup_singleton || set_solver).
Qed.

Lemma application_calls_served_witness :
  ∃ (m : mtcp_manager MemPool.mem_pool Z),
    closing <$> demo_state demo_connected = Some m
    ∧ ends (HandleApplicationCalls 20) (λ _ m', inv None m' ∧ StreamQ.StreamQueueIsEmpty (closeq m') = true) m.
Proof.
  destruct (demo_state demo_connected) as [m|] eqn:E; [|vm_compute in E; discriminate].
  assert (bool_decide (is_Some (streams m !! 4096)) = true) as Hb.
  { vm_compute in E. injection E as <-. vm_compute. reflexivity. }
  exists (closing m). split; [reflexivity|]. eapply ends_mono.
  - apply (application_calls_served (closing m) 20 closing_queue (λ _, [])).
    + apply (inv_core None m); [reflexivity|]. by apply (demo_state_inv demo_connected).
    + apply closing_queued. by apply bool_decide_eq_true in Hb.
  - intros _ m' (Hi&Hq&_). split; [exact Hi|apply (Hq CloseQ)].
Defined.

Lemma closed_stream_used_after_free_witness :
  ∃ (m : mtcp_manager MemPool.mem_pool Z) r m',
    demo_state demo_connected ≫= worn_out = Some m
    ∧ HandleRTO 4096 20 (closing m) = inr (r, m') ∧ HandleApplicationCalls 20 m' = inl StreamFault.
Proof.
  destruct (demo_state demo_connected ≫= worn_out) as [m|] eqn:E; [|vm_compute in E; discriminate].
  destruct (streams m !! 4096) as [s|] eqn:Es; [|vm_compute in E; injection E as <-; vm_compute in Es; discriminate].
  assert (socket s = None ∧ close_reason s = TCP_NOT_CLOSED ∧ nrtx (sndvar s) = 16 ∧ state s = TCP_ST_ESTABLISHED) as (H1&H2&H3&H4).
  { vm_compute in E. injection E as <-. vm_compute in Es. injection Es as <-. vm_compute. done. }
  destruct (HandleRTO 4096 20 (closing m)) as [f|[r m']] eqn:Eh.
  { exfalso. vm_compute in E. injection E as <-. vm_compute in Eh. discriminate. }
  exists m, r, m'. split; [reflexivity|]. split; [exact Eh|].
  apply (closed_stream_used_after_free (closing m) 4096 s 20 20 [] Es H1 H2) with (r := r).
  - rewrite H3. vm_compute. discriminate.
  - rewrite H4. vm_compute. discriminate.
  - apply calls_queue_holds. simpl. lia.
  - intros x [->|[->| ->]]; reflexivity.
  - exact Eh.
Defined.
End CallsDemo.
