(* ===== verification/Answer.v ===== *)
(** * Answers to the network

    What the stack does with ARP and ICMP messages.  An address is resolved by
    one exchange of ARP messages between two stacks; an echo request is answered
    with its own identifier, sequence number and data, unless an uninitialised
    byte takes part in the checksum. *)
From S2P Require Import Prelude SeqNum MemPool FlowHash Checksum TcpTypes NetOut TcpLists TcpInv TcpOptions TcpStream TcpFrame TcpOut.
From S2P Require Import TcpIn NetIn Stack Post Segment.

(** ** Frames *)
Definition wire (f : frame) : list Z := fr_dst f ++ fr_src f ++ be16 (fr_proto f) ++ fr_data f.

Lemma wire_proto f : length (fr_dst f) = 6%nat → length (fr_src f) = 6%nat → is_u16 (fr_proto f) →
  ∃ v, rd16 (wire f) 12 = Some v ∧ swap16 v = fr_proto f ∧ drop (Z.to_nat ETHERNET_HEADER_LEN) (wire f) = fr_data f.
Proof.
  intros Hd Hs Hp. unfold wire. destruct (be16_bytes _ Hp) as (a&b&->&Ep&_). exists (a + 256 * b).
  rewrite app_assoc. split; [|split; [done|]].
  - unfold rd16. rewrite !byte_at_nonneg by lia. rewrite (lookup_app_r _ _ (Z.to_nat 12)), (lookup_app_r _ _ (Z.to_nat (12 + 1))) by (rewrite length_app; lia).
    rewrite !length_app, Hd, Hs. reflexivity.
  - change (Z.to_nat ETHERNET_HEADER_LEN) with (12 + 2)%nat.
    rewrite <- drop_drop, drop_app_length' by (rewrite length_app; lia). reflexivity.
Qed.

(** ** ARP messages *)
Definition arp_bytes (opcode : Z) (sha : list Z) (sip : Z) (tha : list Z) (tip : Z) : list Z :=
  be16 1 ++ be16 ETH_P_IP ++ [6; 4] ++ be16 opcode ++ sha ++ le32 sip ++ tha ++ le32 tip ++ replicate 18 0.

Lemma arp_view_bytes op sha sip tha tip :
  is_u16 op → is_u32 sip → is_u32 tip → length sha = 6%nat → length tha = 6%nat →
  arp_view (arp_bytes op sha sip tha tip) = Some (mk_arphdr op sha sip tip).
Proof.
  intros Ho Hs Ht H1 H2. unfold arp_bytes.
  destruct (be16_bytes op Ho) as (a&b&->&Ep&_).
  destruct (Opt.le32_bytes sip Hs) as (a1&a2&a3&a4&->&Pa&_). destruct (Opt.le32_bytes tip Ht) as (b1&b2&b3&b4&->&Pb&_).
  destruct sha as [|s1 [|s2 [|s3 [|s4 [|s5 [|s6 [|]]]]]]]; try done.
  destruct tha as [|t1 [|t2 [|t3 [|t4 [|t5 [|t6 [|]]]]]]]; try done.
  unfold be16, le16, FlowHash.le_bytes. cbn [fmap list_fmap seq app]. unfold arp_view, Opt.rd32, rd16. read_bytes.
  rewrite Pa, Pb, Ep. reflexivity.
Qed.

(** The table of addresses with one more exact entry. *)
Lemma arp_loop_found dip es : ∀ prefix h, arp_loop dip prefix (Some h) es ≠ None.
Proof. induction es as [|e es IH]; intros prefix h; simpl; [done|]. by repeat case_match. Qed.
Lemma arp_loop_learned ip h es : is_u32 ip → ∀ prefix,
  prefix < 32 → arp_loop ip prefix None es = None →
  arp_loop ip prefix None (es ++ [mk_arp ip 32 4294967295 ip h]) = Some h.
Proof.
  intros Hi. induction es as [|e es IH]; intros prefix Hp E; simpl in *.
  - assert (Z.land ip 4294967295 = ip) as ->.
    { change 4294967295 with (Z.ones 32). rewrite Z.land_ones by lia. apply Z.mod_small. lia. }
    rewrite Z.eqb_refl. simpl. destruct (Z.gtb_spec 32 prefix); [done|lia].
  - repeat case_match; try done; [by apply IH|by apply arp_loop_found in E|by apply IH].
Qed.
Lemma arp_loop_other ip dip h es : is_u32 dip → dip ≠ ip → ∀ prefix d,
  arp_loop dip prefix d (es ++ [mk_arp ip 32 4294967295 ip h]) = arp_loop dip prefix d es.
Proof.
  intros Hi Hn. induction es as [|e es IH]; intros prefix d; simpl; [|by repeat case_match].
  assert (Z.land dip 4294967295 = dip) as ->.
  { change 4294967295 with (Z.ones 32). rewrite Z.land_ones by lia. apply Z.mod_small. lia. }
  by rewrite (proj2 (Z.eqb_neq dip ip)).
Qed.
Lemma unqueue_last ip l e : existsb (λ e, aq_ip e =? ip) l = false → aq_ip e = ip → unqueue ip (l ++ [e]) = l.
Proof.
  intros Hl He. induction l as [|x l IH]; simpl in *; [by rewrite He, Z.eqb_refl|].
  apply orb_false_iff in Hl as [-> Hl]. by rewrite IH.
Qed.

(** ** The ICMP checksum *)

(** The message as the loop reads it: an odd length is padded by the byte that
    happens to be in [odd_byte]. *)
Definition padded (stale : Z) (bs : list Z) : list Z := if Nat.odd (length bs) then bs ++ [stale] else bs.

Lemma padded_pair stale a b bs : padded stale (a :: b :: bs) = a :: b :: padded stale bs.
Proof. unfold padded. simpl length. rewrite Nat.odd_succ_succ. by destruct (Nat.odd _). Qed.
Lemma icmp_sum_padded stale bs : ∀ sum, icmp_sum stale sum bs = Checksum.sum_words sum (padded stale bs).
Proof.
  induction bs as [|a|a b bs IH] using Checksum.pairs_ind; intros sum; [done|done|]. rewrite padded_pair. simpl. apply IH.
Qed.
Lemma length_padded stale bs : (length (padded stale bs) <= S (length bs))%nat.
Proof. unfold padded. destruct (Nat.odd _); [rewrite length_app; simpl; lia|lia]. Qed.
Lemma padded_u8 stale bs : is_u8 stale → Forall (λ b, is_u8 b) bs → Forall (λ b, is_u8 b) (padded stale bs).
Proof.
  intros Hs Hb. unfold padded. destruct (Nat.odd _); [|done]. apply Forall_app. split; [done|]. by apply Forall_singleton.
Qed.
Lemma padded_even stale bs : Nat.odd (length bs) = false → padded stale bs = bs.
Proof. unfold padded. by intros ->. Qed.

Lemma ICMPChecksum_fold stale bs :
  is_u8 stale → Forall (λ b, is_u8 b) bs → Z.of_nat (length bs) < 65534 →
  ICMPChecksum stale bs = Checksum.fold (Checksum.word_sum (padded stale bs)).
Proof.
  intros Hs Hb Hl. pose proof (padded_u8 stale bs Hs Hb) as Hp. pose proof (length_padded stale bs).
  pose proof (Checksum.word_sum_range _ Hp). unfold ICMPChecksum. rewrite icmp_sum_padded, Checksum.sum_words_spec by (done || lia).
  rewrite Checksum.land_ffff, !Z.shiftr_div_pow2 by lia. change (2 ^ 16) with 65536. rewrite Z.add_0_l.
  set (T := Checksum.word_sum (padded stale bs)) in *. assert (0 <= T < 4294967296) by lia. clearbody T. unfold Checksum.fold.
  rewrite (u32_id (T / 65536 + _)) by (Z.div_mod_to_equations; lia). set (F := T / 65536 + T mod 65536) in *.
  assert (0 <= F < 131072) by (unfold F; Z.div_mod_to_equations; lia). clearbody F.
  rewrite u32_id by (Z.div_mod_to_equations; lia). unfold Z.lnot. ulia.
Qed.

Definition icmp_rest (id sq : Z) (data : list Z) : list Z := be16 id ++ be16 sq ++ data.
Lemma icmp_message_word type code check id sq data : is_u16 check →
  icmp_message type code check id sq data = Checksum.with_word [type; code] check (icmp_rest id sq data).
Proof.
  intros Hc. unfold icmp_message, Checksum.with_word, icmp_rest. cbn [app]. do 2 f_equal.
  unfold le16, FlowHash.le_bytes, Checksum.lo8, Checksum.hi8. cbn [fmap list_fmap seq app].
  rewrite !land_byte, !Z.shiftr_div_pow2 by lia. change (2 ^ (8 * Z.of_nat 0)) with 1. change (2 ^ (8 * Z.of_nat 1)) with 256.
  f_equal; [by rewrite Z.div_1_r|]. f_equal. apply Z.mod_small. Z.div_mod_to_equations. lia.
Qed.
Lemma length_icmp_message type code check id sq data :
  length (icmp_message type code check id sq data) = (8 + length data)%nat.
Proof. reflexivity. Qed.
Lemma icmp_message_u8 type code check id sq data :
  is_u8 type → is_u8 code → Forall (λ b, is_u8 b) data → Forall (λ b, is_u8 b) (icmp_message type code check id sq data).
Proof.
  intros Ht Hc Hd. unfold icmp_message, be16. repeat (apply Forall_app; split); try apply le_bytes_u8; [|done].
  repeat first [apply Forall_nil_2|apply Forall_cons; split; [lia|]].
Qed.
Lemma fold_accepts S : 0 <= S → S + 65535 < 4294967296 → Checksum.fold (S + Checksum.fold S) = 0.
Proof.
  intros H1 H2. pose proof (Checksum.fold_range S) as Hr.
  destruct (Z.eq_dec S 0) as [->|]; [reflexivity|]. apply Checksum.fold_zero_iff; [lia|]. apply Checksum.fold_complement; lia.
Qed.

(** A message with the computed checksum is accepted, with the same padding. *)
Lemma padded_with_word stale pre w post : Nat.odd (length pre) = false →
  padded stale (Checksum.with_word pre w post) = Checksum.with_word pre w (padded stale post).
Proof.
  intros Hp. unfold padded, Checksum.with_word. rewrite length_app. simpl length.
  rewrite Nat.odd_add, Hp, Nat.odd_succ_succ, xorb_false_l. destruct (Nat.odd (length post)); [|done]. by rewrite <- app_assoc.
Qed.
Lemma icmp_message_accepts stale type code id sq data :
  is_u8 stale → is_u8 type → is_u8 code → Forall (λ b, is_u8 b) data → Z.of_nat (length data) < 65500 →
  ICMPChecksum stale (icmp_message type code (ICMPChecksum stale (icmp_message type code 0 id sq data)) id sq data) = 0.
Proof.
  intros Hs Ht Hc Hd Hl. set (c := ICMPChecksum stale (icmp_message type code 0 id sq data)).
  assert (is_u16 c) as Hcr by (unfold c, ICMPChecksum; apply u16_range).
  rewrite ICMPChecksum_fold by (auto using icmp_message_u8; rewrite length_icmp_message; lia).
  rewrite icmp_message_word, padded_with_word, Checksum.with_word_sum by (done || by exists 1%nat).
  assert (c = Checksum.fold (Checksum.word_sum [type; code] + Checksum.word_sum (padded stale (icmp_rest id sq data)))) as Ec.
  { unfold c. rewrite ICMPChecksum_fold by (auto using icmp_message_u8; rewrite length_icmp_message; lia).
    rewrite icmp_message_word, padded_with_word, Checksum.with_word_sum by (done || lia || by exists 1%nat). f_equal. lia. }
  set (S := Checksum.word_sum [type; code] + Checksum.word_sum (padded stale (icmp_rest id sq data))) in *.
  replace (Checksum.word_sum [type; code] + c + _) with (S + Checksum.fold S) by (rewrite <- Ec; unfold S; lia).
  assert (Forall (λ b, is_u8 b) (icmp_rest id sq data)) as Hr.
  { unfold icmp_rest, be16. repeat (apply Forall_app; split); try apply le_bytes_u8. done. }
  pose proof (Checksum.word_sum_range _ (padded_u8 stale _ Hs Hr)). pose proof (length_padded stale (icmp_rest id sq data)) as Hp.
  change (length (icmp_rest id sq data)) with (4 + length data)%nat in Hp.
  assert (0 <= Checksum.word_sum [type; code] <= 65535) by (simpl; unfold Checksum.word; lia).
  apply fold_accepts; unfold S; lia.
Qed.

(** Without an odd byte the padding does not matter. *)
Lemma ICMPChecksum_even s1 s2 bs : Nat.odd (length bs) = false → ICMPChecksum s1 bs = ICMPChecksum s2 bs.
Proof. intros He. unfold ICMPChecksum. by rewrite !icmp_sum_padded, !(padded_even _ bs He). Qed.
Lemma icmp_reply_accepts s1 s2 type code id sq data :
  is_u8 s1 → is_u8 type → is_u8 code → Forall (λ b, is_u8 b) data → Z.of_nat (length data) < 65500 →
  Nat.odd (length data) = false →
  ICMPChecksum s2 (icmp_message type code (ICMPChecksum s1 (icmp_message type code 0 id sq data)) id sq data) = 0.
Proof. intros. rewrite (ICMPChecksum_even s2 s1) by done. by apply icmp_message_accepts. Qed.

(** With an odd byte it does: a message that is correct with the padding 0 is
    correct with no other. *)
Lemma word_sum_padded stale bs : Nat.odd (length bs) = true →
  Checksum.word_sum (padded stale bs) = Checksum.word_sum bs + 256 * stale.
Proof.
  induction bs as [|a|a b bs IH] using Checksum.pairs_ind; [done|simpl; unfold Checksum.word; lia|]. intros Ho. rewrite padded_pair.
  cbn [Checksum.word_sum]. rewrite IH; [lia|exact Ho].
Qed.
Lemma ICMPChecksum_odd stale bs :
  is_u8 stale → Forall (λ b, is_u8 b) bs → Z.of_nat (length bs) < 65534 → Nat.odd (length bs) = true →
  ICMPChecksum 0 bs = 0 → ICMPChecksum stale bs = 0 → stale = 0.
Proof.
  intros Hs Hb Hl Ho. rewrite !ICMPChecksum_fold, !word_sum_padded by done.
  pose proof (Checksum.word_sum_range bs Hb). destruct (Z.eq_dec (Checksum.word_sum bs) 0) as [->|]; [by intros E; vm_compute in E|].
  rewrite !Checksum.fold_zero_iff by lia. intros. Z.div_mod_to_equations. lia.
Qed.

(** ** Reading a packet *)
Lemma byte_at_prefix l r i v : byte_at l i = Some v → byte_at (l ++ r) i = Some v.
Proof.
  unfold byte_at. case_bool; [|done]. intros E. rewrite lookup_app_l; [done|]. by apply lookup_lt_Some in E.
Qed.
Lemma byte_at_suffix l r i : 0 <= i → byte_at (l ++ r) (Z.of_nat (length l) + i) = byte_at r i.
Proof.
  intros Hi. rewrite !byte_at_nonneg by lia. rewrite lookup_app_r by lia. f_equal. lia.
Qed.
Lemma rd16_prefix l r i v : rd16 l i = Some v → rd16 (l ++ r) i = Some v.
Proof.
  unfold rd16. intros (a&Ea&E)%bind_Some. apply bind_Some in E as (b&Eb&E).
  by rewrite (byte_at_prefix _ _ _ _ Ea), (byte_at_prefix _ _ _ _ Eb).
Qed.
Lemma rd16_suffix l r i : 0 <= i → rd16 (l ++ r) (Z.of_nat (length l) + i) = rd16 r i.
Proof. intros Hi. unfold rd16. rewrite <- Z.add_assoc, !byte_at_suffix by lia. done. Qed.
Lemma rd32_prefix l r i v : Opt.rd32 l i = Some v → Opt.rd32 (l ++ r) i = Some v.
Proof.
  unfold Opt.rd32. intros (a&Ea&E)%bind_Some. apply bind_Some in E as (b&Eb&E).
  apply bind_Some in E as (c&Ec&E). apply bind_Some in E as (d&Ed&E).
  by rewrite (byte_at_prefix _ _ _ _ Ea), (byte_at_prefix _ _ _ _ Eb), (byte_at_prefix _ _ _ _ Ec), (byte_at_prefix _ _ _ _ Ed).
Qed.
Lemma mem_read_middle (l x r : list Z) :
  mem_read (l ++ x ++ r) (Z.of_nat (length l)) (Z.of_nat (length x)) = Some x.
Proof.
  rewrite mem_read_ok by (rewrite ?length_app; lia). rewrite !Nat2Z.id, drop_app_length, take_app_length. done.
Qed.

(** An IP header for [n] bytes behind it. *)
Record ip_packet (hdr : list Z) (proto n sa da : Z) : Prop := {
  ipk_first : ∃ b0, byte_at hdr 0 = Some b0 ∧ Z.shiftr b0 4 = 4 ∧ Z.land b0 15 * 4 = Z.of_nat (length hdr);
  ipk_min : 20 <= Z.of_nat (length hdr);
  ipk_len : ∃ v, rd16 hdr 2 = Some v ∧ swap16 v = Z.of_nat (length hdr) + n;
  ipk_proto : byte_at hdr 9 = Some proto;
  ipk_saddr : Opt.rd32 hdr 12 = Some sa;
  ipk_daddr : Opt.rd32 hdr 16 = Some da
}.

(** The fields of an echo message. *)
Lemma icmp_message_fields type code check id sq data : is_u16 id → is_u16 sq →
  ∃ i s, byte_at (icmp_message type code check id sq data) 0 = Some type
    ∧ rd16 (icmp_message type code check id sq data) 4 = Some i ∧ swap16 i = id
    ∧ rd16 (icmp_message type code check id sq data) 6 = Some s ∧ swap16 s = sq.
Proof.
  intros Hi Hs. unfold icmp_message. destruct (be16_bytes id Hi) as (a&b&->&Ea&_). destruct (be16_bytes sq Hs) as (c&d&->&Eb&_).
  exists (a + 256 * b), (c + 256 * d). done.
Qed.

Section Answers.
Context {P IO : Type} `{ChunkPool P, World IO}.
Local Abbreviation mtcp := (mtcp_manager P IO).
Local Abbreviation M := (M P IO).
Implicit Types (m : mtcp).

(** The interface [nif] has the entry [e] at [eidx] and a buffer for [n] bytes. *)
Record interface m (nif eidx : Z) (e : eth_table) (n : Z) : Prop := {
  if_nif : 0 <= nif;
  if_eidx : nif_to_eidx (CONFIG m) !! Z.to_nat nif = Some eidx;
  if_pos : 0 <= eidx;
  if_eth : eths (CONFIG m) !! Z.to_nat eidx = Some e;
  if_buf : (get_wptr (io m) eidx n).1 = true
}.
Definition emit m (eidx n : Z) (f : frame) : mtcp :=
  m <| io := (get_wptr (io m) eidx n).2 |> <| out := f :: out m |>.

Lemma nth_config_run {A} (l : list A) i x m : 0 <= i → l !! Z.to_nat i = Some x → nth_config l i m = inr (x, m).
Proof. intros Hi E. unfold nth_config. rewrite (proj2 (Z.leb_le 0 i)) by lia. by rewrite E. Qed.

Lemma EthernetOutput_run m nif eidx e n proto dst :
  interface m nif eidx e (n + ETHERNET_HEADER_LEN) →
  EthernetOutput proto nif dst n m = inr (true, emit m eidx (n + ETHERNET_HEADER_LEN) (mk_frame eidx (eth_haddr e) dst proto [])).
Proof.
  intros []. unfold EthernetOutput, emit. rewrite (proj2 (Z.ltb_ge nif 0)) by lia. rewrite bind_gets.
  rewrite (bind_inr _ _ _ _ _ (nth_config_run _ _ _ m if_nif0 if_eidx0)). rewrite (proj2 (Z.ltb_ge eidx 0)) by lia.
  unfold wptr. unfold bind at 1. rewrite bind_gets.
  destruct (get_wptr (io m) eidx (n + ETHERNET_HEADER_LEN)) as [ok w]. simpl in if_buf0. subst ok. rewrite bind_modify.
  unfold ret at 1. cbv beta iota delta [negb].
  rewrite (bind_inr _ _ _ _ _ (nth_config_run _ _ _ _ if_pos0 if_eth0)). reflexivity.
Qed.

Lemma ARPOutput_run m nif eidx e op ip dst tgt :
  interface m nif eidx e 60 →
  ARPOutput nif op ip dst tgt m
  = inr (0, emit m eidx 60 (mk_frame eidx (eth_haddr e) dst ETH_P_ARP (arp_bytes op (eth_haddr e) (ip_addr e) (default dst tgt) ip))).
Proof.
  intros Hif. unfold ARPOutput. rewrite (bind_inr _ _ _ _ _ (EthernetOutput_run m nif eidx e sizeof_arphdr ETH_P_ARP dst Hif)).
  destruct Hif. cbv beta iota delta [negb]. rewrite bind_gets.
  rewrite (bind_inr _ _ _ _ _ (nth_config_run _ _ _ _ if_nif0 if_eidx0)).
  rewrite (bind_inr _ _ _ _ _ (nth_config_run _ _ _ _ if_pos0 if_eth0)). reflexivity.
Qed.

(** What is known about the address [ip] after a message from it. *)
Definition learned (C : mtcp_config) (ip : Z) (h : list Z) : list Z := default h (GetDestinationHWaddr C ip false).
Lemma learn_run m op h ip tip :
  is_u32 ip → (GetDestinationHWaddr (CONFIG m) ip false = None → Z.of_nat (length (arp_entries (CONFIG m))) < MAX_ARPENTRY) →
  ∃ C, learn (mk_arphdr op h ip tip) m = inr (tt, m <| CONFIG := C |>)
    ∧ eths C = eths (CONFIG m) ∧ nif_to_eidx C = nif_to_eidx (CONFIG m)
    ∧ GetDestinationHWaddr C ip false = Some (learned (CONFIG m) ip h)
    ∧ ∀ ip', is_u32 ip' → ip' ≠ ip → GetDestinationHWaddr C ip' false = GetDestinationHWaddr (CONFIG m) ip' false.
Proof.
  intros Hi Hr. unfold learn, learned. rewrite bind_gets. cbn [ar_sip ar_sha].
  destruct (GetDestinationHWaddr (CONFIG m) ip false) as [h'|] eqn:E; simpl default.
  - exists (CONFIG m). split; [by destruct m|done].
  - unfold RegisterARPEntry. unfold bind at 1. rewrite bind_gets. specialize (Hr eq_refl).
    case_guard as Hg; [|done]. unfold lift at 1.
    eexists. split; [reflexivity|]. split; [done|]. split; [done|]. split.
    + by apply arp_loop_learned.
    + intros ip' Hi' Hn. by apply arp_loop_other.
Qed.

Lemma to_me_eth (C : mtcp_config) i e : eths C !! i = Some e → to_me C (ip_addr e) = true.
Proof.
  intros E. unfold to_me. apply existsb_exists. exists e. split; [|apply Z.eqb_refl].
  apply list_elem_of_In. by eapply list_elem_of_lookup_2.
Qed.

(** A frame with an ARP message for one of the own addresses. *)
Lemma ProcessPacket_arp m ifidx ts f n a :
  fr_proto f = ETH_P_ARP → length (fr_dst f) = 6%nat → length (fr_src f) = 6%nat →
  arp_view (fr_data f) = Some a → to_me (CONFIG m) (ar_tip a) = true →
  ProcessPacket ifidx ts (wire f) n m
  = bind (if ar_op a =? arp_op_request then
            e <- nth_config (eths (CONFIG m)) ifidx ;; ProcessARPRequest a (ifindex e) ts ;;; ret 1
          else if ar_op a =? arp_op_reply then ProcessARPReply a ts ;;; ret 1 else ret 1) (λ _, ret 1) m.
Proof.
  intros Hp Hd Hs Ha Ht. destruct (wire_proto f Hd Hs) as (v&Er&Ev&Ed); [by rewrite Hp|].
  unfold ProcessPacket. rewrite Er. unfold lift at 1. rewrite (bind_inr (ret v) _ _ _ _ eq_refl), Ev, Hp.
  change (ETH_P_ARP =? ETH_P_IP) with false. change (ETH_P_ARP =? ETH_P_ARP) with true. cbv iota.
  unfold ProcessARPPacket. rewrite Ed, Ha. unfold lift at 1. unfold bind at 1. rewrite bind_gets.
  rewrite (bind_inr (ret a) _ _ _ _ eq_refl), Ht. cbv beta iota delta [negb]. reflexivity.
Qed.

(** A request for the address of an interface is answered with it. *)
Lemma arp_request_run m ifidx ts f n eidx e sha sip tha tip :
  fr_proto f = ETH_P_ARP → length (fr_dst f) = 6%nat → length (fr_src f) = 6%nat →
  fr_data f = arp_bytes arp_op_request sha sip tha tip → length sha = 6%nat → length tha = 6%nat → is_u32 sip → is_u32 tip →
  0 <= ifidx → eths (CONFIG m) !! Z.to_nat ifidx = Some e → interface m (ifindex e) eidx e 60 → ip_addr e = tip →
  (GetDestinationHWaddr (CONFIG m) sip false = None → Z.of_nat (length (arp_entries (CONFIG m))) < MAX_ARPENTRY) →
  ∃ C, ProcessPacket ifidx ts (wire f) n m
       = inr (1, emit (m <| CONFIG := C |>) eidx 60
                   (mk_frame eidx (eth_haddr e) sha ETH_P_ARP (arp_bytes arp_op_reply (eth_haddr e) tip sha sip)))
    ∧ GetDestinationHWaddr C sip false = Some (learned (CONFIG m) sip sha).
Proof.
  intros Hp Hd Hs Hf Hl1 Hl2 Hsi Hti Hi He Hif Hip Hr.
  destruct (learn_run m arp_op_request sha sip tip Hsi Hr) as (C&El&Ee&En&Eg&_). exists C. split; [|done].
  rewrite (ProcessPacket_arp m ifidx ts f n (mk_arphdr arp_op_request sha sip tip)); try done.
  2:{ rewrite Hf. by apply arp_view_bytes. }
  2:{ simpl ar_tip. rewrite <- Hip. by eapply to_me_eth. }
  simpl ar_op. change (arp_op_request =? arp_op_request) with true. cbv iota.
  unfold bind at 1. rewrite (bind_inr _ _ _ _ _ (nth_config_run _ _ _ m Hi He)).
  unfold ProcessARPRequest. unfold bind at 1. rewrite (bind_inr _ _ _ _ _ El).
  assert (interface (m <| CONFIG := C |>) (ifindex e) eidx e 60) as Hif'.
  { destruct Hif. split; rec_simpl; rewrite ?Ee, ?En; done. }
  rewrite (bind_inr _ _ _ _ _ (ARPOutput_run _ _ _ _ arp_op_reply sip sha None Hif')). simpl default. by rewrite Hip.
Qed.

(** The reply ends the request for the address. *)
Lemma arp_reply_run m ifidx ts f n e l ent sha sip tha tip :
  fr_proto f = ETH_P_ARP → length (fr_dst f) = 6%nat → length (fr_src f) = 6%nat →
  fr_data f = arp_bytes arp_op_reply sha sip tha tip → length sha = 6%nat → length tha = 6%nat → is_u32 sip → is_u32 tip →
  e ∈ eths (CONFIG m) → ip_addr e = tip → arp_list m = l ++ [ent] → aq_ip ent = sip → existsb (λ x, aq_ip x =? sip) l = false →
  (GetDestinationHWaddr (CONFIG m) sip false = None → Z.of_nat (length (arp_entries (CONFIG m))) < MAX_ARPENTRY) →
  ∃ m', ProcessPacket ifidx ts (wire f) n m = inr (1, m') ∧ arp_list m' = l
    ∧ GetDestinationHWaddr (CONFIG m') sip false = Some (learned (CONFIG m) sip sha)
    ∧ ∀ ip, is_u32 ip → ip ≠ sip → GetDestinationHWaddr (CONFIG m') ip false = GetDestinationHWaddr (CONFIG m) ip false.
Proof.
  intros Hp Hd Hs Hf Hl1 Hl2 Hsi Hti He Hip Hq Ha Hn Hr.
  destruct (learn_run m arp_op_reply sha sip tip Hsi Hr) as (C&El&_&_&Eg&Eo).
  apply list_elem_of_lookup in He as [i He].
  exists (m <| CONFIG := C |> <| arp_list := l |>). split; [|done].
  rewrite (ProcessPacket_arp m ifidx ts f n (mk_arphdr arp_op_reply sha sip tip)); try done.
  2:{ rewrite Hf. by apply arp_view_bytes. }
  2:{ simpl ar_tip. rewrite <- Hip. by eapply to_me_eth. }
  simpl ar_op. change (arp_op_reply =? arp_op_request) with false. change (arp_op_reply =? arp_op_reply) with true. cbv iota.
  unfold ProcessARPReply. unfold bind at 1. unfold bind at 1. rewrite (bind_inr _ _ _ _ _ El). rewrite bind_modify. simpl ar_sip.
  change (arp_list (m <| CONFIG := C |>)) with (arp_list m). rewrite Hq, (unqueue_last sip l ent Hn Ha). reflexivity.
Qed.

Lemma RequestARP_run m nif eidx e ip ts :
  existsb (λ x, aq_ip x =? ip) (arp_list m) = false → interface m nif eidx e 60 →
  RequestARP ip nif ts m
  = inr (tt, emit (m <| arp_list := arp_list m ++ [mk_arpq ip nif ts] |>) eidx 60
               (mk_frame eidx (eth_haddr e) (replicate 6 255) ETH_P_ARP
                  (arp_bytes arp_op_request (eth_haddr e) (ip_addr e) (replicate 6 0) ip))).
Proof.
  intros Hl Hif. unfold RequestARP. rewrite bind_gets, Hl. rewrite bind_modify.
  erewrite bind_inr; [|apply (ARPOutput_run _ nif eidx e); by destruct Hif]. reflexivity.
Qed.

(** C28: one exchange of ARP messages resolves an address.  Stack A asks for the
    unknown address [ip], which stack B has on the interface that receives the
    broadcast; B learns the address of A and answers to A alone; from the
    answer A learns the hardware address of B's interface, its request is no
    longer pending, and what A knew of other addresses is unchanged. *)
Theorem arp_exchange_resolves mA mB ip nif eidxA eA ifidx eidxB eB i ts tsB tsA nB nA :
  existsb (λ x, aq_ip x =? ip) (arp_list mA) = false → GetDestinationHWaddr (CONFIG mA) ip false = None →
  interface mA nif eidxA eA 60 → Z.of_nat (length (arp_entries (CONFIG mA))) < MAX_ARPENTRY →
  0 <= ifidx → eths (CONFIG mB) !! Z.to_nat ifidx = Some eB → interface mB (ifindex eB) eidxB eB 60 → ip_addr eB = ip →
  Z.of_nat (length (arp_entries (CONFIG mB))) < MAX_ARPENTRY →
  is_u32 ip → is_u32 (ip_addr eA) → length (eth_haddr eA) = 6%nat → length (eth_haddr eB) = 6%nat →
  ∃ mA1 f mB1 g mA2,
    RequestARP ip nif ts mA = inr (tt, mA1) ∧ out mA1 = f :: out mA ∧ fr_dst f = replicate 6 255
    ∧ ProcessPacket ifidx tsB (wire f) nB mB = inr (1, mB1) ∧ out mB1 = g :: out mB ∧ fr_dst g = eth_haddr eA
    ∧ GetDestinationHWaddr (CONFIG mB1) (ip_addr eA) false = Some (learned (CONFIG mB) (ip_addr eA) (eth_haddr eA))
    ∧ ProcessPacket i tsA (wire g) nA mA1 = inr (1, mA2)
    ∧ GetDestinationHWaddr (CONFIG mA2) ip false = Some (eth_haddr eB) ∧ arp_list mA2 = arp_list mA
    ∧ ∀ ip', is_u32 ip' → ip' ≠ ip → GetDestinationHWaddr (CONFIG mA2) ip' false = GetDestinationHWaddr (CONFIG mA) ip' false.
Proof.
  intros Hl Hu HA HrA Hi He HB Hip HrB Hui Hua HlA HlB.
  set (f := mk_frame eidxA (eth_haddr eA) (replicate 6 255) ETH_P_ARP
              (arp_bytes arp_op_request (eth_haddr eA) (ip_addr eA) (replicate 6 0) ip)).
  edestruct (arp_request_run mB ifidx tsB f nB eidxB eB) as (CB&EB&GB); try done.
  set (mA1 := emit (mA <| arp_list := arp_list mA ++ [mk_arpq ip nif ts] |>) eidxA 60 f).
  set (g := mk_frame eidxB (eth_haddr eB) (eth_haddr eA) ETH_P_ARP
              (arp_bytes arp_op_reply (eth_haddr eB) ip (eth_haddr eA) (ip_addr eA))).
  edestruct (arp_reply_run mA1 i tsA g nA eA (arp_list mA) (mk_arpq ip nif ts)) as (mA2&EA&Hq&Gi&Go); try done.
  { destruct HA. by eapply list_elem_of_lookup_2. }
  exists mA1, f, (emit (mB <| CONFIG := CB |>) eidxB 60 g), g, mA2. split; [by apply RequestARP_run|].
  split_and!; try done. rewrite Gi. unfold learned. change (CONFIG mA1) with (CONFIG mA). by rewrite Hu.
Qed.

(** ** Echo requests *)
Definition stale_of (w : IO) : Z := u8 (hd 0 (stale_bytes w 1)).
Lemma lift_run {A} f (o : option A) a m : o = Some a → lift f o m = inr (a, m).
Proof. by intros ->. Qed.

(** The way back to [da] is known: the interface and the hardware address. *)
Definition way_to m (da nif eidx : Z) (e : eth_table) (h : list Z) (n : Z) : Prop :=
  ∃ ext, GetOutputInterface (CONFIG m) da = (nif, ext) ∧ GetDestinationHWaddr (CONFIG m) da ext = Some h
    ∧ interface m nif eidx e (n + ETHERNET_HEADER_LEN).

Lemma IPOutputStandalone_run m proto id sa da n nif eidx e h :
  0 <= n → n + IP_HEADER_LEN < 65536 → way_to m da nif eidx e h (n + IP_HEADER_LEN) →
  ∃ c, IPOutputStandalone proto id sa da n m
       = inr (true, emit m eidx (n + IP_HEADER_LEN + ETHERNET_HEADER_LEN)
                      (mk_frame eidx (eth_haddr e) h ETH_P_IP (ip_header (IP_HEADER_LEN + n) id proto c sa da))).
Proof.
  intros H0n Hn (ext&Eo&Eh&Hif). unfold IPOutputStandalone. rewrite bind_gets, Eo.
  rewrite (proj2 (Z.ltb_ge nif 0)) by apply Hif. rewrite Eh, u16_id by (unfold IP_HEADER_LEN in *; lia).
  rewrite (bind_inr _ _ _ _ _ (EthernetOutput_run m nif eidx e _ ETH_P_IP h Hif)). cbv beta iota delta [negb].
  unfold ip_fill. cbv zeta. set (c := if _ =? -1 then _ else 0). exists c. unfold fill. rewrite bind_modify.
  unfold emit. rec_simpl. reflexivity.
Qed.

Lemma ICMPOutput_run m sa da type code id sq icmpd data n nif eidx e h :
  mem_read icmpd 0 n = Some data → 0 <= n → n + 28 < 65536 → way_to m da nif eidx e h (n + 28) →
  ∃ c, let ic := ICMPChecksum (stale_of (get_wptr (io m) eidx (n + 42)).2) (icmp_message type code 0 id sq data) in
    ICMPOutput sa da type code id sq icmpd n m
    = inr (0, emit m eidx (n + 42) (mk_frame eidx (eth_haddr e) h ETH_P_IP
                (ip_header (n + 28) 0 IPPROTO_ICMP c sa da ++ icmp_message type code ic id sq data))).
Proof.
  intros Hd H0n Hn Hw. unfold ICMPOutput, sizeof_icmphdr. rewrite u16_id by lia.
  assert (way_to m da nif eidx e h (8 + n + IP_HEADER_LEN)) as Hw'.
  { unfold IP_HEADER_LEN. replace (8 + n + 20) with (n + 28) by lia. exact Hw. }
  destruct (IPOutputStandalone_run m IPPROTO_ICMP 0 sa da (8 + n) nif eidx e h ltac:(lia)
    ltac:(unfold IP_HEADER_LEN; lia) Hw') as (c&E). exists c. rewrite (bind_inr _ _ _ _ _ E). cbv beta iota delta [negb].
  case_guard as Hg; [|lia]. rewrite (bind_inr _ _ _ _ _ (lift_run _ _ _ _ eq_refl)), (bind_inr _ _ _ _ _ (lift_run _ _ _ _ Hd)).
  unfold stale_byte. unfold bind at 1. rewrite bind_gets. unfold ret at 1. cbv beta iota.
  unfold IP_HEADER_LEN, ETHERNET_HEADER_LEN. replace (8 + n + 20 + 14) with (n + 42) by lia. replace (20 + (8 + n)) with (n + 28) by lia.
  unfold fill. rewrite bind_modify. unfold emit, stale_of. rec_simpl. reflexivity.
Qed.

(** A frame with an IP packet for ICMP reaches [ProcessICMPPacket]. *)
Lemma ProcessPacket_icmp m ifidx ts f len hdr rest n sa da :
  fr_proto f = ETH_P_IP → length (fr_dst f) = 6%nat → length (fr_src f) = 6%nat → fr_data f = hdr ++ rest →
  ip_packet hdr IPPROTO_ICMP n sa da → 0 <= n → (ioctl ifidx PKT_RX_IP_CSUM = -1 → ip_fast_csum hdr = 0) →
  ProcessPacket ifidx ts (wire f) len m = ProcessICMPPacket (hdr ++ rest) (Z.of_nat (length hdr) + n) m.
Proof.
  intros Hp Hd Hs Hf [(b0&E0&Ev&El) Hmin (v&E2&Et) E9 _ _] Hn Hc. destruct (wire_proto f Hd Hs) as (w&Er&Ew&Ed); [by rewrite Hp|].
  unfold ProcessPacket. rewrite (bind_inr _ _ _ _ _ (lift_run _ _ _ _ Er)), Ew, Hp. change (ETH_P_IP =? ETH_P_IP) with true. cbv iota.
  unfold ProcessIPv4Packet. rewrite Ed, Hf. cbv zeta.
  rewrite (bind_inr _ _ _ _ _ (lift_run _ _ _ _ (rd16_prefix _ rest _ _ E2))), Et.
  rewrite (proj2 (Z.ltb_ge _ _)) by (unfold IP_HEADER_LEN; lia).
  rewrite (bind_inr _ _ _ _ _ (lift_run _ _ _ _ (byte_at_prefix _ rest _ _ E0))), El.
  erewrite (bind_inr _ _ m 0); [|].
  2:{ destruct (Z.eqb_spec (ioctl ifidx PKT_RX_IP_CSUM) (-1)) as [Ei|]; [|done].
      rewrite (bind_inr _ _ _ _ _ (lift_run _ _ _ _ (mem_read_middle [] hdr rest))). by rewrite Hc. }
  change (negb (0 =? 0)) with false. rewrite Ev. change (negb (4 =? 4)) with false. cbv iota.
  rewrite (bind_inr _ _ _ _ _ (lift_run _ _ _ _ (byte_at_prefix _ rest _ _ E9))). reflexivity.
Qed.

(** The steps up to the checksum, and what follows it. *)
Lemma echo_request_checked m hdr code check id sq data pad sa da :
  ip_packet hdr IPPROTO_ICMP (8 + Z.of_nat (length data)) sa da → is_u16 id → is_u16 sq → Z.of_nat (length data) < 65500 →
  to_me (CONFIG m) da = true →
  let msg := icmp_message ICMP_ECHO code check id sq data in
  let pkt := hdr ++ msg ++ pad in
  ProcessICMPPacket pkt (Z.of_nat (length hdr) + (8 + Z.of_nat (length data))) m
  = if ICMPChecksum (stale_of (io m)) msg =? 0 then
      (ICMPOutput da sa ICMP_ECHOREPLY 0 id sq (drop (Z.to_nat (Z.of_nat (length hdr) + 8)) pkt) (Z.of_nat (length data)) ;;; ret 1) m
    else inr (1, m).
Proof.
  intros [(b0&E0&Ev&El) Hmin _ _ Es Ed] Hid Hsq Hl Hme msg pkt. subst pkt.
  assert (Z.of_nat (length msg) = 8 + Z.of_nat (length data)) as Hlm by (unfold msg; rewrite length_icmp_message; lia).
  unfold ProcessICMPPacket. rewrite bind_gets.
  rewrite (bind_inr _ _ _ _ _ (lift_run _ _ _ _ (rd32_prefix _ _ _ _ Ed))), Hme. cbv beta iota delta [negb].
  rewrite (bind_inr _ _ _ _ _ (lift_run _ _ _ _ (byte_at_prefix _ _ _ _ E0))), El.
  destruct (icmp_message_fields ICMP_ECHO code check id sq data Hid Hsq) as (i&s&F0&F4&Fi&F6&Fs). fold msg in F0, F4, F6.
  pose proof (byte_at_suffix hdr (msg ++ pad) 0 ltac:(lia)) as Et. rewrite Z.add_0_r, (byte_at_prefix _ pad _ _ F0) in Et.
  rewrite (bind_inr _ _ _ _ _ (lift_run _ _ _ _ Et)). change (ICMP_ECHO =? ICMP_ECHO) with true. unfold when. cbv iota.
  unfold ProcessICMPECHORequest. unfold bind at 1. unfold bind at 1.
  rewrite (bind_inr _ _ _ _ _ (lift_run _ _ _ _ (byte_at_prefix _ _ _ _ E0))), El. cbv zeta.
  replace (Z.of_nat (length hdr) + (8 + Z.of_nat (length data)) - Z.of_nat (length hdr)) with (Z.of_nat (length msg)) by lia.
  rewrite (proj2 (Z.ltb_ge _ 0)) by lia.
  rewrite (bind_inr _ _ _ _ _ (lift_run _ _ _ _ (mem_read_middle hdr msg pad))).
  unfold stale_byte. unfold bind at 1. rewrite bind_gets. unfold ret at 1. cbv beta iota. fold (stale_of (io m)).
  destruct (ICMPChecksum _ _ =? 0); cbv beta iota delta [negb]; [|done].
  rewrite (bind_inr _ _ _ _ _ (lift_run _ _ _ _ (rd32_prefix _ _ _ _ Ed))), (bind_inr _ _ _ _ _ (lift_run _ _ _ _ (rd32_prefix _ _ _ _ Es))).
  erewrite (bind_inr (lift _ (rd16 _ (_ + 4)))); [|apply lift_run; rewrite rd16_suffix by lia; by apply rd16_prefix].
  erewrite (bind_inr (lift _ (rd16 _ (_ + 6)))); [|apply lift_run; rewrite rd16_suffix by lia; by apply rd16_prefix].
  rewrite Fi, Fs. unfold sizeof_icmphdr. rewrite Hlm, u16_id by lia.
  replace (8 + Z.of_nat (length data) - 8) with (Z.of_nat (length data)) by lia.
  unfold bind. by destruct (ICMPOutput _ _ _ _ _ _ _ _ m) as [|[]].
Qed.

(** An ICMP echo request for an address of the stack, with a checksum the
    stack accepts, is answered by one frame to the sender: an IP packet with
    the addresses exchanged and an echo reply with the identifier, the sequence
    number and exactly the data of the request, without the padding of the
    frame.  The checksum of a reply with an even number of bytes is accepted by
    every receiver. *)
Theorem echo_request_answered m ifidx ts f len hdr code check id sq data pad sa da nif eidx e h :
  fr_proto f = ETH_P_IP → length (fr_dst f) = 6%nat → length (fr_src f) = 6%nat →
  fr_data f = hdr ++ icmp_message ICMP_ECHO code check id sq data ++ pad →
  ip_packet hdr IPPROTO_ICMP (8 + Z.of_nat (length data)) sa da → is_u16 id → is_u16 sq →
  Forall (λ b, is_u8 b) data → Z.of_nat (length data) < 65500 →
  (ioctl ifidx PKT_RX_IP_CSUM = -1 → ip_fast_csum hdr = 0) → to_me (CONFIG m) da = true →
  ICMPChecksum (stale_of (io m)) (icmp_message ICMP_ECHO code check id sq data) = 0 →
  way_to m sa nif eidx e h (Z.of_nat (length data) + 28) →
  ∃ m' g c ic, ProcessPacket ifidx ts (wire f) len m = inr (1, m') ∧ out m' = g :: out m
    ∧ fr_dst g = h ∧ fr_src g = eth_haddr e ∧ fr_proto g = ETH_P_IP
    ∧ fr_data g = ip_header (Z.of_nat (length data) + 28) 0 IPPROTO_ICMP c da sa
                  ++ icmp_message ICMP_ECHOREPLY 0 ic id sq data
    ∧ (Nat.odd (length data) = false →
       ∀ stale, is_u8 stale → ICMPChecksum stale (icmp_message ICMP_ECHOREPLY 0 ic id sq data) = 0).
Proof.
  intros Hp Hd Hs Hf Hip Hid Hsq Hb Hl Hc Hme Hck Hw.
  assert (mem_read (drop (Z.to_nat (Z.of_nat (length hdr) + 8)) (hdr ++ icmp_message ICMP_ECHO code check id sq data ++ pad)) 0
    (Z.of_nat (length data)) = Some data) as Hr.
  { replace (Z.to_nat (Z.of_nat (length hdr) + 8)) with (length hdr + 8)%nat by lia.
    rewrite <- drop_drop, drop_app_length. apply (mem_read_middle [] data pad). }
  destruct (ICMPOutput_run m da sa ICMP_ECHOREPLY 0 id sq _ data _ nif eidx e h Hr ltac:(lia) ltac:(lia) Hw) as (c&Eo). cbv zeta in Eo.
  do 4 eexists. split.
  { rewrite (ProcessPacket_icmp m ifidx ts f len hdr _ _ sa da Hp Hd Hs Hf Hip), (echo_request_checked m hdr code check id sq data pad sa da), Hck by (done || lia).
    rewrite Z.eqb_refl. by rewrite (bind_inr _ _ _ _ _ Eo). }
  do 4 (split; [reflexivity|]). split; [reflexivity|]. intros Ho stale Hst. apply icmp_reply_accepts; try done.
  apply u8_range.
Qed.

(** [ICMPChecksum] writes only one byte of the variable that pads an odd
    length.  An echo request with an odd number of bytes and a correct checksum
    is dropped without an answer whenever the other byte happens not to be 0. *)
Theorem odd_echo_request_dropped m ifidx ts f len hdr code check id sq data pad sa da :
  fr_proto f = ETH_P_IP → length (fr_dst f) = 6%nat → length (fr_src f) = 6%nat →
  fr_data f = hdr ++ icmp_message ICMP_ECHO code check id sq data ++ pad →
  ip_packet hdr IPPROTO_ICMP (8 + Z.of_nat (length data)) sa da → is_u8 code → is_u16 id → is_u16 sq →
  Forall (λ b, is_u8 b) data → Z.of_nat (length data) < 65500 →
  (ioctl ifidx PKT_RX_IP_CSUM = -1 → ip_fast_csum hdr = 0) → to_me (CONFIG m) da = true →
  Nat.odd (length data) = true → ICMPChecksum 0 (icmp_message ICMP_ECHO code check id sq data) = 0 →
  stale_of (io m) ≠ 0 →
  ProcessPacket ifidx ts (wire f) len m = inr (1, m).
Proof.
  intros Hp Hd Hs Hf Hip Hco Hid Hsq Hb Hl Hc Hme Ho Hz Hst.
  rewrite (ProcessPacket_icmp m ifidx ts f len hdr _ _ sa da Hp Hd Hs Hf Hip), (echo_request_checked m hdr code check id sq data pad sa da) by (done || lia).
  destruct (Z.eqb_spec (ICMPChecksum (stale_of (io m)) (icmp_message ICMP_ECHO code check id sq data)) 0) as [E|]; [|done].
  destruct Hst. apply (ICMPChecksum_odd _ _ (u8_range _) (icmp_message_u8 ICMP_ECHO code check id sq data ltac:(done) Hco Hb)); try done.
  - rewrite length_icmp_message. lia.
Qed.
End Answers.

(** ** Two neighbours *)
Module AnswerDemo.
Import Demo.
(** The stack of the demonstration without its ARP entry, and its neighbour. *)
Definition with_config (C : mtcp_config) : option (mtcp_manager MemPool.mem_pool Z) :=
  m ← demo_init; Some (m <| CONFIG := C |>).
Definition config_of (i h ip : Z) : mtcp_config :=
  mk_config [mk_eth 0 [2; 0; 0; 0; 0; h] ip] [0] [mk_route 10 16777215 10 24 0] None [] None 8 8192 0 i.

Lemma demo_interface (m : mtcp_manager MemPool.mem_pool Z) e n : nif_to_eidx (CONFIG m) = [0] → eths (CONFIG m) = [e] → interface m 0 0 e n.
Proof. intros E1 E2. split; rewrite ?E1, ?E2; done. Qed.

Lemma arp_exchange_resolves_witness :
  ∃ (mA mB mA1 mB1 mA2 : mtcp_manager MemPool.mem_pool Z) f g,
    with_config (config_of 30000 1 local_ip) = Some mA ∧ with_config (config_of 30000 2 peer_ip) = Some mB
    ∧ RequestARP peer_ip 0 5 mA = inr (tt, mA1) ∧ out mA1 = f :: out mA
    ∧ ProcessPacket 0 6 (wire f) 60 mB = inr (1, mB1) ∧ out mB1 = g :: out mB
    ∧ ProcessPacket 0 7 (wire g) 60 mA1 = inr (1, mA2)
    ∧ GetDestinationHWaddr (CONFIG mA2) peer_ip false = Some [2; 0; 0; 0; 0; 2].
Proof.
  unfold with_config. destruct demo_init as [m|] eqn:E; [|vm_compute in E; discriminate]. cbn [mbind option_bind].
  set (mA := m <| CONFIG := config_of 30000 1 local_ip |>). set (mB := m <| CONFIG := config_of 30000 2 peer_ip |>).
  assert (arp_list mA = []) as El by (vm_compute in E; injection E as <-; reflexivity).
  destruct (arp_exchange_resolves mA mB peer_ip 0 0 (mk_eth 0 [2; 0; 0; 0; 0; 1] local_ip) 0 0 (mk_eth 0 [2; 0; 0; 0; 0; 2] peer_ip)
    0 5 6 7 60 60) as (mA1&f&mB1&g&mA2&E1&E2&_&E3&E4&_&_&E5&E6&_);
    [by rewrite El|reflexivity|by apply demo_interface|vm_compute; done|lia|reflexivity|by apply demo_interface|reflexivity
    |vm_compute; done|vm_compute; done|vm_compute; done|reflexivity|reflexivity|].
  exists mA, mB, mA1, mB1, mA2, f, g. done.
Defined.

(** A request of [data] from the peer. *)
Definition ping (check : Z) (data : list Z) : frame :=
  mk_frame 0 [2; 0; 0; 0; 0; 2] [2; 0; 0; 0; 0; 1] ETH_P_IP
    (ip_header (28 + Z.of_nat (length data)) 1 IPPROTO_ICMP 0 peer_ip local_ip
     ++ icmp_message ICMP_ECHO 0 check 7 1 data ++ [0; 0; 0]).
Lemma ping_ip n : Z.of_nat n < 100 → ip_packet (ip_header (28 + Z.of_nat n) 1 IPPROTO_ICMP 0 peer_ip local_ip) IPPROTO_ICMP (8 + Z.of_nat n) peer_ip local_ip.
Proof.
  intros Hn. assert (is_u16 (28 + Z.of_nat n)) as Hu by lia. destruct (be16_bytes _ Hu) as (a&b&E&Es&_).
  unfold ip_header. rewrite E. split; try (vm_compute; done).
  - exists 69. vm_compute. done.
  - exists (a + 256 * b). split; [reflexivity|]. rewrite Es. change (length _) with 20%nat. lia.
Qed.

Definition ping_check (data : list Z) : Z := ICMPChecksum 0 (icmp_message ICMP_ECHO 0 0 7 1 data).
Lemma echo_request_answered_witness :
  ∃ (m m' : mtcp_manager MemPool.mem_pool Z) g c ic, demo_init = Some m
    ∧ ProcessPacket 0 5 (wire (ping (ping_check [104; 105]) [104; 105])) 60 m = inr (1, m') ∧ out m' = g :: out m
    ∧ fr_data g = ip_header 30 0 IPPROTO_ICMP c local_ip peer_ip ++ icmp_message ICMP_ECHOREPLY 0 ic 7 1 [104; 105]
    ∧ ICMPChecksum 77 (icmp_message ICMP_ECHOREPLY 0 ic 7 1 [104; 105]) = 0.
Proof.
  destruct demo_init as [m|] eqn:E; [|vm_compute in E; discriminate].
  assert (CONFIG m = demo_config) as Ec by (vm_compute in E; injection E as <-; reflexivity).
  assert (stale_of (io m) = 0) as Es by reflexivity.
  destruct (echo_request_answered m 0 5 (ping (ping_check [104; 105]) [104; 105]) 60
    (ip_header 30 1 IPPROTO_ICMP 0 peer_ip local_ip) 0 (ping_check [104; 105]) 7 1 [104; 105] [0; 0; 0]
    peer_ip local_ip 0 0 (mk_eth 0 [2; 0; 0; 0; 0; 1] local_ip) [2; 0; 0; 0; 0; 2])
    as (m'&g&c&ic&E1&E2&_&_&_&E3&E4).
  1-4: reflexivity.
  - apply (ping_ip 2). lia.
  - lia.
  - lia.
  - repeat (apply Forall_cons; split; [lia|]). by apply Forall_nil.
  - simpl. lia.
  - reflexivity.
  - by rewrite Ec.
  - rewrite Es. vm_compute. reflexivity.
  - exists false. rewrite Ec. split; [reflexivity|]. split; [reflexivity|]. apply demo_interface; by rewrite Ec.
  - exists m, m', g, c, ic. split; [reflexivity|]. split; [exact E1|]. split; [exact E2|]. split; [exact E3|].
    apply E4; [reflexivity|lia].
Defined.
End AnswerDemo.

(** The same stack where the stack frame of [ICMPChecksum] holds other bytes. *)
Module NoisyDemo.
Import Demo AnswerDemo.
#[local] Instance noisy_world : World Z := {
  get_wptr n _ _ := (true, n);
  calloc n := (Some n, n + 64);
  stale_bytes _ n := replicate (Z.to_nat n) 1;
  dev_ioctl := None;
  ip_fast_csum _ := 0;
  rand_r seed := (seed, seed + 1)
}.
Lemma odd_echo_request_dropped_witness :
  ∃ (m : mtcp_manager MemPool.mem_pool Z), demo_init = Some m
    ∧ ICMPChecksum 0 (icmp_message ICMP_ECHO 0 (ping_check [104]) 7 1 [104]) = 0
    ∧ ProcessPacket 0 5 (wire (ping (ping_check [104]) [104])) 60 m = inr (1, m).
Proof.
  destruct demo_init as [m|] eqn:E; [|vm_compute in E; discriminate].
  assert (CONFIG m = demo_config) as Ec by (vm_compute in E; injection E as <-; reflexivity).
  exists m. split; [reflexivity|]. split; [vm_compute; reflexivity|].
  apply (odd_echo_request_dropped m 0 5 (ping (ping_check [104]) [104]) 60 (ip_header 29 1 IPPROTO_ICMP 0 peer_ip local_ip)
    0 (ping_check [104]) 7 1 [104] [0; 0; 0] peer_ip local_ip).
  1-4: reflexivity.
  - apply (ping_ip 1). lia.
  - lia.
  - lia.
  - lia.
  - repeat (apply Forall_cons; split; [lia|]). by apply Forall_nil.
  - simpl. lia.
  - reflexivity.
  - by rewrite Ec.
  - reflexivity.
  - vm_compute. reflexivity.
  - vm_compute. discriminate.
Defined.
End NoisyDemo.
