(* ===== verification/AppData.v ===== *)
(** * The data of the application

    [mtcp_write] and [mtcp_recv] on a connected socket: what is written is
    appended to the send buffer and the stream handed to the stack thread, what
    is read is the front of the receive buffer. *)
From S2P Require Import Prelude CircQueue MemPool RingBuffer SendBuffer AddrPool EventQueue TcpTypes NetOut TcpLists TcpInv TcpStream TcpOut.
From S2P Require Import TcpIn App Socket Pipe Epoll Api Stack AppCalls.

Section Data.
Context {P IO : Type} `{ChunkPool P, World IO}.
Local Abbreviation mtcp := (mtcp_manager P IO).
Local Abbreviation M := (M P IO).
Context (num_cpus cpu : Z).
Hypothesis cpu_ok : 0 <= cpu < num_cpus.
Implicit Types (m : mtcp).

(** The socket [sockid] belongs to the stream [p]. *)
Record stream_socket m (sockid : Z) (sk : EQ.socket_map) (p : Z) (s : tcp_stream) : Prop := {
  sso_running : stopping m = false;
  sso_range : 0 <= sockid < max_concurrency (CONFIG m);
  sso_sock : smap m !! sockid = Some sk;
  sso_type : EQ.socktype sk = EQ.MTCP_SOCK_STREAM;
  sso_ref : EQ.sock_ref sk = p;
  sso_null : p ≠ 0;
  sso_stream : streams m !! p = Some s;
  sso_events : events_ok m
}.

Lemma in_table_run m i : 0 <= i < max_concurrency (CONFIG m) → in_table i m = inr (true, m).
Proof.
  intros Hi. unfold in_table. rewrite bind_gets. by rewrite (proj2 (Z.leb_le 0 i)), (proj2 (Z.ltb_lt i _)) by lia.
Qed.
Lemma is_type_stream sk t : EQ.socktype sk = EQ.MTCP_SOCK_STREAM → is_type sk t = bool_decide (t = EQ.MTCP_SOCK_STREAM).
Proof. intros E. unfold is_type. rewrite E. by destruct t. Qed.

(** The checks of the calls are passed. *)
Lemma mtcp_write_stream m sockid sk p s buf : stream_socket m sockid sk p s →
  mtcp_write num_cpus (Some cpu) sockid buf m
  = (o <- writable sk ;;
     match o with
     | inr r => ret (Some r)
     | inl p =>
       let len := Z.of_nat (length buf) in
       if len <=? 0 then r <- (if has_opt sk MTCP_NONBLOCK then err EAGAIN else ret 0) ;; ret (Some r)
       else
         r <- CopyFromUser p buf (s32 len) ;;
         submit p r ;;;
         r <- written sk r ;;
         write_event p sockid sk ;;;
         ret (Some r)
     end) m.
Proof.
  intros []. unfold mtcp_write. rewrite (bind_inr _ _ _ _ _ (GetMTCPManager_run _ _ m cpu_ok sso_running0)).
  cbv beta iota delta [negb]. rewrite (bind_inr _ _ _ _ _ (in_table_run m _ sso_range0)). cbv beta iota.
  rewrite (bind_inr _ _ _ _ _ (getSock_run m _ _ sso_sock0)). by rewrite !(is_type_stream sk) by done.
Qed.

Lemma enqueue_run x m p q : CircQ.holds (the_queue x m) q → Z.of_nat (length q) < CircQ.capacity (the_queue x m) →
  ∃ sq, enqueue x p m = inr (0, set_queue x sq m) ∧ CircQ.holds sq (q ++ [p]).
Proof.
  intros Hq Hr. destruct (CircQ.Enqueue_refines _ _ p Hq) as (Er&Hq'&_). unfold Fifo.push in *.
  rewrite (proj2 (Z.ltb_lt _ _)) in Er, Hq' by lia. unfold enqueue. rewrite bind_gets. unfold StreamQ.StreamEnqueue.
  destruct (CircQ.Enqueue (the_queue x m) p) as [r sq]. simpl in Er, Hq'. subst r. exists sq. by rewrite bind_modify.
Qed.

(** The stream [p] has become [s'], the send queue holds [q]; nothing else of
    the streams has changed. *)
Definition handed m m' (p : Z) (s' : tcp_stream) (q : list Z) : Prop :=
  streams m' = <[p := s']> (streams m) ∧ CircQ.holds (sendq m') q ∧ smap m' = smap m ∧ events_ok m'.

Lemma CopyFromUser_full m p s buf len : streams m !! p = Some s → snd_wnd (sndvar s) = 0 → 
  CopyFromUser p buf len m = inr (-1, m <| errno := EAGAIN |>).
Proof.
  intros Es Ew. unfold CopyFromUser. rewrite (bind_inr _ _ _ _ _ (getS_run p m s Es)), Ew. change (s32 0) with 0.
  rewrite MIN_spec, (proj2 (Z.leb_le _ 0)) by lia. reflexivity.
Qed.
Lemma CopyFromUser_run m p s b buf : streams m !! p = Some s → sndbuf (sndvar s) = Some b → SB.sb_ok b →
  snd_wnd (sndvar s) = SB.size b - SB.len b → SB.len b < SB.size b → 0 < Z.of_nat (length buf) < 2147483648 →
  let k := Z.min (Z.of_nat (length buf)) (SB.size b - SB.len b) in
  ∃ b', CopyFromUser p buf (Z.of_nat (length buf)) m
        = inr (k, m <| streams := <[p := s <| sndvar := (sndvar s) <| sndbuf := Some b' |> <| snd_wnd := SB.size b - SB.len b - k |> |>]> (streams m) |>)
    ∧ SB.sb_ok b' ∧ SB.contents b' = SB.contents b ++ take (Z.to_nat k) buf ∧ SB.len b' = SB.len b + k ∧ SB.size b' = SB.size b
    ∧ SB.head_seq b' = SB.head_seq b.
Proof.
  intros Es Eb Hb Ew Hr Hl k. pose proof (SB.ok_size _ Hb). pose proof (SB.ok_len _ Hb).
  destruct (SB.SBPut_spec b buf k Hb) as (b'&Ep&Hb'&Ec&El&Esz&Eh&_); try lia. rewrite (Z.min_l k) in * by lia. exists b'.
  split; [|done]. unfold CopyFromUser. rewrite (bind_inr _ _ _ _ _ (getS_run p m s Es)), Ew.
  rewrite MIN_spec, s32_id, Z.min_comm by lia. fold k. rewrite (proj2 (Z.leb_gt k 0)) by lia.
  unfold send_buffer. unfold bind at 1. rewrite (bind_inr _ _ _ _ _ (getS_run p m s Es)), Eb. unfold ret at 1. cbv beta iota.
  rewrite Ep. unfold lift. rewrite (bind_inr (ret _) _ _ _ _ eq_refl). cbv zeta. rewrite s32_id by lia.
  unfold modSnd. rewrite (bind_inr _ _ _ _ _ (modS_run p _ m s Es)). rewrite (proj2 (Z.leb_gt k 0)) by lia.
  rewrite Esz, El, u32_id by lia. replace (SB.size b - (SB.len b + k)) with (SB.size b - SB.len b - k) by lia. reflexivity.
Qed.

(** The stream is handed over unless it is on its way already. *)
Lemma submit_run m p s q k : streams m !! p = Some s → CircQ.holds (sendq m) q →
  Z.of_nat (length q) < CircQ.capacity (sendq m) → events_ok m → 0 < k →
  let way := on_sendq (sndvar s) || on_send_list (sndvar s) in
  ∃ m', submit p k m = inr (tt, m')
    ∧ handed m m' p (if way then s else s <| sndvar := (sndvar s) <| on_sendq := true |> |>) (if way then q else q ++ [p]).
Proof.
  intros Es Hq Hr He Hk way. unfold submit. rewrite (bind_inr _ _ _ _ _ (getS_run p m s Es)). fold way.
  destruct (Z.gtb_spec k 0); [|lia]. destruct way; cbv beta iota delta [negb andb when].
  - exists m. split; [done|]. split; [by rewrite insert_id|done].
  - unfold modSnd. rewrite (bind_inr _ _ _ _ _ (modS_run p _ m s Es)). set (m1 := m <| streams := _ |>).
    destruct (enqueue_run SendQ m1 p q Hq Hr) as (sq&Eq&Hsq). rewrite (bind_inr _ _ _ _ _ Eq). eexists. split; [reflexivity|]. done.
Qed.

Lemma writable_run m sockid sk p s : stream_socket m sockid sk p s →
  state s = TCP_ST_ESTABLISHED ∨ state s = TCP_ST_CLOSE_WAIT → writable sk m = inr (inl p, m).
Proof.
  intros [] Hst. unfold writable. rewrite sso_ref0, (proj2 (Z.eqb_neq p 0)) by done.
  rewrite (bind_inr _ _ _ _ _ (getS_run p m s sso_stream0)). by destruct Hst as [-> | ->].
Qed.
Lemma write_event_run m p s sockid sk : streams m !! p = Some s → events_ok m → is_Some (smap m !! sockid) →
  ∃ m', write_event p sockid sk m = inr (tt, m') ∧ reported m m'.
Proof.
  intros Es He Hs. unfold write_event. rewrite (bind_inr _ _ _ _ _ (getS_run p m s Es)). by apply when_event_reports.
Qed.
(** Nothing taken: nothing to hand over; no room: nothing to report. *)
Lemma submit_none m p s : streams m !! p = Some s → submit p (-1) m = inr (tt, m).
Proof. intros Es. unfold submit. by rewrite (bind_inr _ _ _ _ _ (getS_run p m s Es)). Qed.
Lemma write_event_none m p s sockid sk : streams m !! p = Some s → snd_wnd (sndvar s) = 0 → write_event p sockid sk m = inr (tt, m).
Proof. intros Es Ew. unfold write_event. by rewrite (bind_inr _ _ _ _ _ (getS_run p m s Es)), Ew. Qed.
Lemma handed_reported m m' m'' p s q : handed m m' p s q → reported m' m'' →
  streams m'' = <[p := s]> (streams m) ∧ CircQ.holds (sendq m'') q.
Proof. by intros (Hs&Hq&_&_) (es&sm&->&_). Qed.

(** The stream after [k] bytes were taken into the send buffer [b]. *)
Definition written_stream (s : tcp_stream) (b : SB.tcp_send_buffer) (room : Z) : tcp_stream :=
  s <| sndvar := (sndvar s) <| sndbuf := Some b |> <| snd_wnd := room |>
                            <| on_sendq := on_sendq (sndvar s) || negb (on_send_list (sndvar s)) |> |>.

(** C17: [mtcp_write] on a connected socket takes as many bytes as the send
    buffer has room for, in their order behind those that are already there,
    and returns their number; the stream is put into the send queue exactly
    when it is neither there nor on a send list.  On a full buffer it returns
    -1 with [EAGAIN] and takes nothing.  No other stream is touched. *)
Theorem write_appends m sockid sk p s b q buf :
  stream_socket m sockid sk p s → state s = TCP_ST_ESTABLISHED ∨ state s = TCP_ST_CLOSE_WAIT →
  sndbuf (sndvar s) = Some b → SB.sb_ok b → snd_wnd (sndvar s) = SB.size b - SB.len b →
  CircQ.holds (sendq m) q → Z.of_nat (length q) < CircQ.capacity (sendq m) → 0 < Z.of_nat (length buf) < 2147483648 →
  let k := Z.min (Z.of_nat (length buf)) (SB.size b - SB.len b) in
  ∃ m', mtcp_write num_cpus (Some cpu) sockid buf m = inr (Some (if k =? 0 then -1 else k), m') ∧
  if k =? 0 then m' = m <| errno := EAGAIN |>
  else ∃ b', SB.sb_ok b' ∧ SB.contents b' = SB.contents b ++ take (Z.to_nat k) buf ∧ SB.head_seq b' = SB.head_seq b
    ∧ streams m' = <[p := written_stream s b' (SB.size b' - SB.len b')]> (streams m)
    ∧ CircQ.holds (sendq m') (if on_sendq (sndvar s) || on_send_list (sndvar s) then q else q ++ [p]).
Proof.
  intros Hss Hst Eb Hb Ew Hq Hr Hl k. pose proof (SB.ok_len _ Hb). pose proof (SB.ok_tail_bound _ Hb).
  pose proof (SB.ok_tail _ Hb). pose proof (SB.ok_head_off _ Hb). pose proof Hss as [_ _ Esk _ _ _ Es He].
  rewrite (mtcp_write_stream m sockid sk p s buf Hss), (bind_inr _ _ _ _ _ (writable_run m sockid sk p s Hss Hst)). cbv zeta.
  rewrite (proj2 (Z.leb_gt _ 0)), s32_id by lia. destruct (Z.eqb_spec k 0) as [Ek|Ek].
  - rewrite (bind_inr _ _ _ _ _ (CopyFromUser_full m p s buf _ Es ltac:(lia))). set (m1 := m <| errno := EAGAIN |>).
    rewrite (bind_inr _ _ _ _ _ (submit_none m1 p s Es)). unfold written. cbn [Z.eqb andb]. rewrite (bind_inr (ret (-1)) _ _ _ _ eq_refl).
    rewrite (bind_inr _ _ _ _ _ (write_event_none m1 p s sockid sk Es ltac:(lia))). by exists m1.
  - destruct (CopyFromUser_run m p s b buf Es Eb Hb Ew ltac:(lia) Hl) as (b'&Ec&Hb'&Hc&El&Esz&Eh). fold k in Ec, Hc, El.
    rewrite (bind_inr _ _ _ _ _ Ec). clear Ec. set (s1 := s <| sndvar := _ |>). set (m1 := m <| streams := _ |>).
    assert (streams m1 !! p = Some s1) as Es1 by (unfold m1; rec_simpl; by rewrite lookup_insert_eq).
    destruct (submit_run m1 p s1 q k Es1 Hq Hr He ltac:(lia)) as (m2&E2&Hh). cbv zeta in Hh.
    match type of Hh with handed _ _ _ ?x _ => set (s2 := x) in Hh end. rewrite (bind_inr _ _ _ _ _ E2). unfold written. rewrite (proj2 (Z.eqb_neq k 0)) by done. cbn [andb].
    rewrite (bind_inr (ret k) _ _ _ _ eq_refl). pose proof Hh as (Hs2&Hq2&Hm2&He2).
    destruct (write_event_run m2 p s2 sockid sk) as (m3&E3&R3); [rewrite Hs2; apply lookup_insert_eq|done|rewrite Hm2; by eexists|].
    rewrite (bind_inr _ _ _ _ _ E3). destruct (handed_reported _ _ _ _ _ _ Hh R3) as [Hs3 Hq3].
    exists m3. split; [done|]. exists b'. split; [done|]. split; [done|]. split; [done|]. split; [|done].
    rewrite Hs3. unfold m1. rec_simpl. rewrite insert_insert_eq. f_equal. unfold written_stream, s2, s1. rec_simpl.
    rewrite El, Esz. replace (SB.size b - (SB.len b + k)) with (SB.size b - SB.len b - k) by lia.
    destruct (sndvar s) as []. rec_simpl. by destruct on_sendq, on_send_list.
Qed.

(** ** Reading *)
Lemma mtcp_recv_stream m sockid sk p s len : stream_socket m sockid sk p s →
  mtcp_recv num_cpus (Some cpu) sockid len 0 m
  = (o <- readable sk ;;
     match o with
     | inr r => ret (Some (r, []))
     | inl p =>
       '(r, bs) <- CopyToUser p (s32 len) ;;
       e <- read_event p sk r ;;
       when (e && negb (EQ.epoll sk =? 0)) (add_user_event EQ.USR_SHADOW_EVENT_QUEUE sockid EQ.MTCP_EPOLLIN) ;;;
       ret (Some (r, bs))
     end) m.
Proof.
  intros []. unfold mtcp_recv. rewrite (bind_inr _ _ _ _ _ (GetMTCPManager_run _ _ m cpu_ok sso_running0)).
  cbv beta iota delta [negb]. rewrite (bind_inr _ _ _ _ _ (in_table_run m _ sso_range0)). cbv beta iota.
  rewrite (bind_inr _ _ _ _ _ (getSock_run m _ _ sso_sock0)). by rewrite !(is_type_stream sk) by done.
Qed.

(** A window that was reported as too small is advertised when a segment fits. *)
Definition advertises (s : tcp_stream) (wnd : Z) : bool :=
  need_wnd_adv s && (wnd >? eff_mss (sndvar s)) && negb (on_ackq (sndvar s)).
Definition read_stream (s : tcp_stream) (b : RB.tcp_ring_buffer) (wnd : Z) : tcp_stream :=
  s <| rcvvar := (rcvvar s) <| rcvbuf := Some b |> <| rcv_wnd := wnd |> |>
    <| sndvar := (sndvar s) <| on_ackq := on_ackq (sndvar s) || advertises s wnd |> |>
    <| need_wnd_adv := need_wnd_adv s && negb (advertises s wnd) |>.

Lemma advertise_run m p s q : streams m !! p = Some s → CircQ.holds (ackq m) q →
  Z.of_nat (length q) < CircQ.capacity (ackq m) →
  let adv := advertises s (rcv_wnd (rcvvar s)) in
  ∃ m', advertise p m = inr (tt, m') ∧ smap m' = smap m ∧ rbm_rcv m' = rbm_rcv m ∧ (events_ok m → events_ok m')
    ∧ streams m' = <[p := s <| sndvar := (sndvar s) <| on_ackq := on_ackq (sndvar s) || adv |> |>
                            <| need_wnd_adv := need_wnd_adv s && negb adv |>]> (streams m)
    ∧ CircQ.holds (ackq m') (if adv then q ++ [p] else q).
Proof.
  intros Es Hq Hr adv. unfold advertise. rewrite (bind_inr _ _ _ _ _ (getS_run p m s Es)).
  fold (advertises s (rcv_wnd (rcvvar s))). fold adv. destruct adv; cbv beta iota delta [when negb].
  - unfold modSnd. rewrite (bind_inr _ _ _ _ _ (modS_run p _ m s Es)). set (m1 := m <| streams := _ |>).
    destruct (enqueue_run AckQ m1 p q Hq Hr) as (sq&Eq&Hsq). rewrite (bind_inr _ _ _ _ _ Eq).
    erewrite (bind_inr (modS _ _)); [|eapply modS_run; simpl; apply lookup_insert_eq].
    eexists. split; [reflexivity|]. unfold m1. simpl. rewrite insert_insert_eq, orb_true_r, andb_false_r. done.
  - exists m. split; [done|]. split; [done|]. split; [done|]. split; [done|]. split; [|done]. rewrite orb_false_r, andb_true_r.
    symmetry. apply insert_id. rewrite Es. f_equal. by destruct s as [], sndvar.
Qed.

Definition reading (s : tcp_stream) : Prop :=
  st_num TCP_ST_ESTABLISHED <= st_num (state s) <= st_num TCP_ST_CLOSE_WAIT.

Lemma readable_run m sockid sk p s b : stream_socket m sockid sk p s → reading s → rcvbuf (rcvvar s) = Some b →
  readable sk m
  = if RB.merged_len b =? 0 then
      if st_eqb (state s) TCP_ST_CLOSE_WAIT then inr (inr 0, m)
      else if has_opt sk MTCP_NONBLOCK then inr (inr (-1), m <| errno := EAGAIN |>) else inr (inl p, m)
    else inr (inl p, m).
Proof.
  intros [] [H1 H2] Eb. unfold readable. rewrite sso_ref0, (proj2 (Z.eqb_neq p 0)) by done. cbv zeta.
  rewrite (bind_inr _ _ _ _ _ (getS_run p m s sso_stream0)), Eb.
  rewrite (proj2 (Z.leb_le _ _) H1), (proj2 (Z.leb_le _ _) H2). cbv beta iota delta [negb andb].
  destruct (RB.merged_len b =? 0), (st_eqb (state s) TCP_ST_CLOSE_WAIT), (has_opt sk MTCP_NONBLOCK); reflexivity.
Qed.

Lemma rcvbuf_run m p s b : streams m !! p = Some s → rcvbuf (rcvvar s) = Some b → rcvbuf_of p m = inr (b, m).
Proof. intros Es Eb. unfold rcvbuf_of. by rewrite (bind_inr _ _ _ _ _ (getS_run p m s Es)), Eb. Qed.

Lemma read_event_run m p s b sk r : streams m !! p = Some s → rcvbuf (rcvvar s) = Some b →
  read_event p sk r m
  = inr ((registered_for sk EQ.MTCP_EPOLLIN && negb (registered_for sk MTCP_EPOLLET) && (RB.merged_len b >? 0))
         || (st_eqb (state s) TCP_ST_CLOSE_WAIT && ((RB.merged_len b =? 0) && (r >? 0))), m).
Proof.
  intros Es Eb. pose proof (rcvbuf_run m p s b Es Eb) as Er. unfold read_event.
  destruct (registered_for sk EQ.MTCP_EPOLLIN && negb (registered_for sk MTCP_EPOLLET)), (st_eqb (state s) TCP_ST_CLOSE_WAIT) eqn:Ec;
    unfold bind; rewrite ?Er; unfold ret; rewrite (getS_run p m s Es), Ec, ?Er; reflexivity.
Qed.

Lemma merged_bounds b : RB.rb_ok b → 0 <= RB.merged_len b <= RB.rsize b.
Proof.
  intros Hok. destruct (RB.ready_len_spec _ _ _ (RB.ok_frags _ Hok) (RB.ok_head_seq _ Hok)) as (Hrl&_).
  rewrite <- (RB.ok_merged _ Hok) in Hrl.
  pose proof (RB.ok_tail _ Hok). pose proof (RB.ok_tail_bound _ Hok). pose proof (RB.ok_head_offset _ Hok).
  pose proof (RB.ok_last_len _ Hok). lia.
Qed.

Lemma CopyToUser_run m p s b others all q len :
  streams m !! p = Some s → rcvbuf (rcvvar s) = Some b → RB.rb_ok b → RB.not_calloc b →
  RB.rbm_owns (rbm_rcv m) ((RB.faddr <$> RB.fctx b) ++ others) all → CircQ.holds (ackq m) q →
  Z.of_nat (length q) < CircQ.capacity (ackq m) → 0 <= len →
  let n := Z.min (RB.merged_len b) len in
  if n <=? 0 then CopyToUser p len m = inr ((-1, []), m <| errno := EAGAIN |>)
  else ∃ bs b' m' all', CopyToUser p len m = inr ((n, bs), m')
    ∧ Z.of_nat (length bs) = n ∧ (∀ i, 0 <= i < n → RB.rb_byte b i = byte_at bs i)
    ∧ RB.rb_ok b' ∧ (∀ i, 0 <= i → RB.rb_byte b' i = RB.rb_byte b (i + n)) ∧ RB.merged_len b' = RB.merged_len b - n
    ∧ RB.rbm_owns (rbm_rcv m') ((RB.faddr <$> RB.fctx b') ++ others) all' ∧ all' ⊆ all
    ∧ smap m' = smap m ∧ (events_ok m → events_ok m')
    ∧ streams m' = <[p := read_stream s b' (RB.rsize b' - RB.merged_len b')]> (streams m)
    ∧ CircQ.holds (ackq m') (if advertises s (RB.rsize b' - RB.merged_len b') then q ++ [p] else q).
Proof.
  intros Es Eb Hok Hnc Ho Hq Hr Hl n. pose proof (RB.Session.rb_read_spec _ _ _ _ _ Hok Hnc Ho Hl) as Hrd. cbv zeta in Hrd. fold n in Hrd.
  unfold CopyToUser. rewrite (bind_inr _ _ _ _ _ (rcvbuf_run m p s b Es Eb)), bind_gets.
  destruct (Z.leb_spec n 0).
  { destruct Hrd as [-> _]. reflexivity. }
  destruct Hrd as (bs&rbm'&b'&all'&E&Hbl&Hg&Hok'&_&Ho'&Hsub&Hby&_&Hm&_&Hsz). rewrite E. unfold lift.
  rewrite (bind_inr (ret _) _ _ _ _ eq_refl). rewrite (proj2 (Z.leb_gt n 0)) by lia. rewrite bind_modify.
  set (m1 := m <| rbm_rcv := rbm' |>). unfold modRcv. rewrite (bind_inr _ _ _ _ _ (modS_run p _ m1 s Es)).
  pose proof (RB.ok_size _ Hok'). pose proof (merged_bounds _ Hok'). rewrite u32_id by lia.
  set (s1 := s <| rcvvar := _ |>). set (m2 := m1 <| streams := _ |>).
  assert (streams m2 !! p = Some s1) as Es2 by apply lookup_insert_eq.
  destruct (advertise_run m2 p s1 q Es2 Hq Hr) as (m3&E3&Hsm&Hrb&Hev&Hs3&Hq3). rewrite (bind_inr _ _ _ _ _ E3).
  exists bs, b', m3, all'. rewrite Hrb, Hs3. split; [done|]. split_and!; try done.
  unfold m2, m1. rec_simpl. rewrite insert_insert_eq. reflexivity.
Qed.

(** With something to read. *)
Lemma mtcp_recv_run m sockid sk p s b others all q len :
  stream_socket m sockid sk p s → reading s → rcvbuf (rcvvar s) = Some b → RB.rb_ok b → RB.not_calloc b →
  RB.rbm_owns (rbm_rcv m) ((RB.faddr <$> RB.fctx b) ++ others) all → CircQ.holds (ackq m) q →
  Z.of_nat (length q) < CircQ.capacity (ackq m) → 0 < len < 2147483648 →
  let n := Z.min (RB.merged_len b) len in 0 < n →
  ∃ bs b' m' all', mtcp_recv num_cpus (Some cpu) sockid len 0 m = inr (Some (n, bs), m')
    ∧ Z.of_nat (length bs) = n ∧ (∀ i, 0 <= i < n → RB.rb_byte b i = byte_at bs i)
    ∧ RB.rb_ok b' ∧ (∀ i, 0 <= i → RB.rb_byte b' i = RB.rb_byte b (i + n)) ∧ RB.merged_len b' = RB.merged_len b - n
    ∧ RB.rbm_owns (rbm_rcv m') ((RB.faddr <$> RB.fctx b') ++ others) all' ∧ all' ⊆ all
    ∧ streams m' = <[p := read_stream s b' (RB.rsize b' - RB.merged_len b')]> (streams m)
    ∧ CircQ.holds (ackq m') (if advertises s (RB.rsize b' - RB.merged_len b') then q ++ [p] else q).
Proof.
  intros Hss Hrd Eb Hok Hnc Ho Hq Hr Hl n Hn. pose proof Hss as [_ _ Esk _ _ _ Es He].
  pose proof (CopyToUser_run m p s b others all q len Es Eb Hok Hnc Ho Hq Hr ltac:(lia)) as Hc. cbv zeta in Hc. fold n in Hc. rewrite (proj2 (Z.leb_gt n 0)) in Hc by lia.
  rewrite (mtcp_recv_stream m sockid sk p s len Hss), s32_id by lia.
  pose proof (readable_run m sockid sk p s b Hss Hrd Eb) as Hrb. rewrite (proj2 (Z.eqb_neq _ 0)) in Hrb by lia. rewrite (bind_inr _ _ _ _ _ Hrb).
  destruct Hc as (bs&b'&m1&all'&E1&Hbl&Hg&Hok'&Hby&Hm&Ho'&Hsub&Hsm&Hev&Hs1&Hq1). rewrite (bind_inr _ _ _ _ _ E1).
  rewrite (bind_inr _ _ _ _ _ (read_event_run m1 p (read_stream s b' (RB.rsize b' - RB.merged_len b')) b' sk n ltac:(rewrite Hs1; apply lookup_insert_eq) eq_refl)).
  match goal with |- context [when ?c _] => set (e := c) end.
  destruct (when_event_reports e EQ.USR_SHADOW_EVENT_QUEUE sockid EQ.MTCP_EPOLLIN m1) as (m2&E2&es&sm&Em2&_); [by apply Hev|rewrite Hsm; by eexists|done|].
  rewrite (bind_inr _ _ _ _ _ E2). exists bs, b', m2, all'. rewrite Em2. split_and!; done.
Qed.

End Data.

Module DataDemo.
Import Demo CallsDemo.
(** The accepted connection on socket 5, with four bytes to read and five to
    acknowledge. *)
Definition demo_sndbuf : SB.tcp_send_buffer := SB.mk_sb 16384 (replicate 8 7) 16384 0 5 5 5 8 100 100.
Definition demo_socket : EQ.socket_map :=
  EQ.mk_smap 5 EQ.MTCP_SOCK_STREAM 0 (AddrPool.mk_addr peer_ip peer_port) 4096 0 0 0.
Definition in_use (s : tcp_stream) : tcp_stream :=
  s <| rcvvar := (rcvvar s) <| rcvbuf := Some RB.demo_ready |> |> <| need_wnd_adv := false |>
    <| sndvar := (sndvar s) <| sndbuf := Some demo_sndbuf |> <| snd_wnd := 3 |> <| on_sendq := false |> <| on_send_list := false |> |>.
Definition in_service (m : mtcp_manager MemPool.mem_pool Z) : option (mtcp_manager MemPool.mem_pool Z) :=
  s ← streams m !! 4096;
  Some (m <| streams := <[4096 := in_use s]> (streams m) |> <| smap := <[5 := demo_socket]> (smap m) |>
          <| sendq := calls_queue [] |> <| ackq := calls_queue [] |> <| rbm_rcv := RB.demo_rbm |>).

Lemma demo_sndbuf_ok : SB.sb_ok demo_sndbuf.
Proof. split; simpl; try done; lia. Qed.
Lemma demo_fragments :
  RB.rbm_owns RB.demo_rbm ((RB.faddr <$> RB.fctx RB.demo_ready) ++ []) (RB.demo_contexts ++ [70000; 70016]).
Proof.
  apply (RB.demo_owns [70000; 70016]); [|set_solver|simpl; lia]. apply (bool_decide_unpack _). vm_compute. exact I.
Qed.
Lemma in_service_socket : ∃ (m : mtcp_manager MemPool.mem_pool Z) s,
  demo_state demo_connected ≫= in_service = Some m ∧ stream_socket m 5 demo_socket 4096 (in_use s)
  ∧ state s = TCP_ST_ESTABLISHED ∧ sendq m = calls_queue [] ∧ ackq m = calls_queue [] ∧ rbm_rcv m = RB.demo_rbm.
Proof.
  destruct (demo_state demo_connected) as [m|] eqn:E; [|vm_compute in E; discriminate].
  assert ((max_concurrency (CONFIG m), stopping m, ep m, state <$> streams m !! 4096) = (8, false, 0, Some TCP_ST_ESTABLISHED)) as Em.
  { vm_compute in E. injection E as <-. vm_compute. reflexivity. }
  clear E. injection Em as H1 H2 H3 (s&Es&Hs)%fmap_Some. unfold in_service. cbn [mbind option_bind]. rewrite Es. eexists _, s. split; [reflexivity|].
  split; [|done]. split; simpl; rewrite ?H1, ?H2, ?lookup_insert_eq; try done. by left.
Qed.

Lemma write_appends_witness :
  ∃ (m : mtcp_manager MemPool.mem_pool Z) m', demo_state demo_connected ≫= in_service = Some m
    ∧ mtcp_write 1 (Some 0) 5 [1; 2; 3; 4] m = inr (Some 3, m') ∧ CircQ.holds (sendq m') [4096].
Proof.
  destruct in_service_socket as (m&s&E&Hss&Hs&Eq&_).
  destruct (write_appends 1 0 ltac:(lia) m 5 demo_socket 4096 (in_use s) demo_sndbuf [] [1; 2; 3; 4] Hss) as (m'&Ew&Hw).
  - left. exact Hs.
  - reflexivity.
  - exact demo_sndbuf_ok.
  - reflexivity.
  - rewrite Eq. apply calls_queue_holds. simpl. lia.
  - rewrite Eq. simpl. lia.
  - simpl. lia.
  - destruct Hw as (b'&_&_&_&_&Hq). exists m, m'. split; [exact E|]. split; [exact Ew|exact Hq].
Defined.

End DataDemo.
