(* ===== verification/Sunday.v ===== *)
(** * String matching of the stream generator

    [string_matcher.c]: Sunday's algorithm.  [sunday_pre] fills the table of
    shifts, [sunday_match] looks for the pattern.  Memory is a list of bytes;
    reading outside of it is [None]. *)
From S2P Require Import Prelude.

Definition MAX_STRING_LENGTH : Z := 1024.

(** The table [sun_shift]; an index outside of it is a fault. *)
Definition set_shift (t : list Z) (c v : Z) : option (list Z) :=
  if (0 <=? c) && (c <? Z.of_nat (length t)) then Some (<[Z.to_nat c := v]> t) else None.

(** The second loop, from [i] on. *)
Fixpoint shift_loop (len i : Z) (pat : list Z) (t : list Z) : option (list Z) :=
  match pat with
  | [] => Some t
  | c :: pat => t ← set_shift t c (len - i); shift_loop len (i + 1) pat t
  end.

(** [pat] is the string of [len] bytes. *)
Definition sunday_pre (pat : list Z) : option (list Z) :=
  let len := Z.of_nat (length pat) in
  shift_loop len 0 pat (replicate (Z.to_nat MAX_STRING_LENGTH) (len + 1)).

(** The inner loop: the first [j] at which the strings differ or the pattern
    ends.  The comparison of the bytes comes first: the byte behind the pattern
    and the byte behind the window are read when the pattern matches. *)
Fixpoint match_from (fuel : nat) (target : list Z) (pos : Z) (pat : list Z) (len_p j : Z) : option Z :=
  match fuel with
  | O => Some j
  | S fuel =>
    a ← byte_at target (pos + j);
    b ← byte_at pat j;
    if (a =? b) && (j <? len_p) then match_from fuel target pos pat len_p (j + 1) else Some j
  end.

Fixpoint match_loop (fuel : nat) (shift target : list Z) (len_t : Z) (pat : list Z) (len_p pos : Z) : option Z :=
  match fuel with
  | O => Some (-1)
  | S fuel =>
    if pos <=? len_t - len_p then
      j ← match_from (S (Z.to_nat len_p)) target pos pat len_p 0;
      if len_p <=? j then Some (pos + len_p)
      else
        c ← byte_at target (pos + len_p);
        s ← byte_at shift c;
        match_loop fuel shift target len_t pat len_p (pos + s)
    else Some (-1)
  end.

(** [pat] is the memory of the pattern, with the byte behind it; every shift is
    at least 1, so [len_t + 2] rounds are enough and [None] is a fault. *)
Definition sunday_match (shift target : list Z) (len_t : Z) (pat : list Z) (len_p : Z) : option Z :=
  match_loop (S (S (Z.to_nat len_t))) shift target len_t pat len_p 0.

(** ** Specification *)

(** The pattern [p] stands in [t] at [pos]. *)
Definition occurs (t p : list Z) (pos : Z) : Prop :=
  0 <= pos ∧ ∀ j : nat, (j < length p)%nat → t !! (Z.to_nat pos + j)%nat = p !! j.

#[export] Instance occurs_dec t p pos : Decision (occurs t p pos).
Proof.
  unfold occurs. destruct (decide (0 <= pos)); [|right; naive_solver].
  destruct (decide (Forall (λ j, t !! (Z.to_nat pos + j)%nat = p !! j) (seq 0 (length p)))) as [Hf|Hf].
  - left. split; [done|]. intros j Hj. rewrite Forall_forall in Hf. apply Hf, elem_of_seq. lia.
  - right. intros [_ Ho]. apply Hf, Forall_forall. intros j [_ Hj]%elem_of_seq. apply Ho. lia.
Defined.

(** A table that never jumps over an occurrence: [s] for the character [c] is
    positive and reaches at most the last occurrence of [c] in the pattern. *)
Definition good_shift (pat shift : list Z) : Prop :=
  ∀ c, is_u8 c → ∃ s, byte_at shift c = Some s ∧ 1 <= s <= Z.of_nat (length pat) + 1
    ∧ ∀ i : nat, pat !! i = Some c → s <= Z.of_nat (length pat) - Z.of_nat i.

Lemma set_shift_spec t c v : is_u8 c → (256 <= length t)%nat →
  set_shift t c v = Some (<[Z.to_nat c := v]> t).
Proof. intros. unfold set_shift. rewrite (proj2 (Z.leb_le _ _)), (proj2 (Z.ltb_lt _ _)) by lia. done. Qed.

(** After a part [done] of the pattern, the entry of [c] is determined by the
    last [c] in it. *)
Definition table_for (len : Z) (done t : list Z) : Prop :=
  (256 <= length t)%nat ∧ ∀ c, is_u8 c → ∃ s, byte_at t c = Some s
    ∧ len - Z.of_nat (length done) < s <= len + 1 ∧ ∀ i : nat, done !! i = Some c → s <= len - Z.of_nat i.

Lemma table_for_step len dn c t : is_u8 c → Z.of_nat (length dn) < len → table_for len dn t →
  table_for len (dn ++ [c]) (<[Z.to_nat c := len - Z.of_nat (length dn)]> t).
Proof.
  intros Hc Hl [Ht Hs]. split; [by rewrite length_insert|]. intros d Hd. rewrite length_app. simpl.
  rewrite byte_at_nonneg by lia. destruct (decide (d = c)) as [->|Hne].
  - exists (len - Z.of_nat (length dn)). rewrite list_lookup_insert_eq by lia. split_and!; try lia; [done|].
    intros i Hi. apply lookup_lt_Some in Hi. rewrite length_app in Hi. simpl in Hi. lia.
  - destruct (Hs d Hd) as (s&Es&Hb&Hi). exists s. rewrite byte_at_nonneg in Es by lia.
    rewrite list_lookup_insert_ne by lia. split_and!; try lia; [done|].
    intros i. rewrite lookup_app_Some. intros [Hi'|[Hge Hi']]; [by apply Hi|].
    apply list_lookup_singleton_Some in Hi' as [_ <-]. done.
Qed.

Lemma shift_loop_spec len pat : ∀ dn t, Forall (λ b, is_u8 b) pat → len = Z.of_nat (length dn + length pat) →
  table_for len dn t →
  ∃ t', shift_loop len (Z.of_nat (length dn)) pat t = Some t' ∧ table_for len (dn ++ pat) t'.
Proof.
  induction pat as [|c pat IH]; intros dn t Hb Hl Ht; simpl in *.
  - exists t. by rewrite app_nil_r.
  - apply Forall_cons in Hb as [Hc Hb]. rewrite set_shift_spec by (try apply Ht; done). simpl.
    destruct (IH (dn ++ [c]) (<[Z.to_nat c := len - Z.of_nat (length dn)]> t)) as (t'&E&Ht'); try done.
    { rewrite length_app. simpl. lia. }
    { apply table_for_step; [done|lia|done]. }
    rewrite length_app in E. simpl in E. replace (Z.of_nat (length dn + 1)) with (Z.of_nat (length dn) + 1) in E by lia.
    exists t'. by rewrite <- app_assoc in Ht'.
Qed.

Lemma sunday_pre_spec pat : Forall (λ b, is_u8 b) pat →
  ∃ t, sunday_pre pat = Some t ∧ good_shift pat t.
Proof.
  intros Hb. unfold sunday_pre. set (len := Z.of_nat (length pat)).
  destruct (shift_loop_spec len pat [] (replicate (Z.to_nat MAX_STRING_LENGTH) (len + 1))) as (t&E&Ht); try done.
  - split; [rewrite length_replicate; unfold MAX_STRING_LENGTH; lia|]. intros c Hc. exists (len + 1).
    rewrite byte_at_nonneg, lookup_replicate_2 by (unfold MAX_STRING_LENGTH; lia). simpl. split_and!; try lia; done.
  - exists t. split; [done|]. intros c Hc. destruct Ht as [_ Ht]. destruct (Ht c Hc) as (s&Es&Hs&Hi). simpl in *.
    exists s. split_and!; try done; lia.
Qed.

Section Match.
Context (shift target pat : list Z) (len_t end_p : Z).
Local Abbreviation len_p := (Z.of_nat (length pat)).
Hypothesis shift_good : good_shift pat shift.
Hypothesis target_bytes : Forall (λ b, is_u8 b) target.
(** One byte behind the [len_t] bytes of the target can be read. *)
Hypothesis target_room : 0 <= len_t < Z.of_nat (length target).

Lemma target_read i : 0 <= i <= len_t → ∃ b, byte_at target i = Some b ∧ is_u8 b.
Proof.
  intros Hi. rewrite byte_at_nonneg by lia. destruct (lookup_lt_is_Some_2 target (Z.to_nat i)) as [b Hb]; [lia|].
  exists b. split; [done|]. by eapply Forall_lookup_1 in target_bytes.
Qed.

(** What the inner loop finds. *)
Lemma match_from_spec fuel : ∀ pos j, 0 <= pos → pos + len_p <= len_t → 0 <= j <= len_p → len_p - j < Z.of_nat fuel →
  (∀ i : nat, Z.of_nat i < j → target !! (Z.to_nat pos + i)%nat = pat !! i) →
  ∃ k, match_from fuel target pos (pat ++ [end_p]) len_p j = Some k ∧ j <= k <= len_p
    ∧ (k = len_p ↔ occurs target pat pos).
Proof.
  induction fuel as [|fuel IH]; intros pos j Hp Hl Hj Hf Hpre; [lia|]. simpl.
  destruct (target_read (pos + j)) as (a&Ha&_); [lia|]. rewrite Ha. simpl.
  destruct (Z.eq_dec j len_p) as [->|Hne].
  - rewrite byte_at_nonneg, lookup_app_r by lia. replace (Z.to_nat len_p - length pat)%nat with 0%nat by lia. simpl.
    rewrite Z.ltb_irrefl, andb_false_r. exists len_p. split; [done|]. split; [lia|]. split; [|done]. intros _.
    split; [done|]. intros i Hi. apply Hpre. lia.
  - rewrite (byte_at_nonneg (pat ++ _)), lookup_app_l by lia. destruct (lookup_lt_is_Some_2 pat (Z.to_nat j)) as [b Hb]; [lia|].
    rewrite Hb. simpl. rewrite (proj2 (Z.ltb_lt j _)), andb_true_r by lia.
    rewrite byte_at_nonneg in Ha by lia. replace (Z.to_nat (pos + j)) with (Z.to_nat pos + Z.to_nat j)%nat in Ha by lia.
    destruct (Z.eqb_spec a b) as [->|Hab].
    + destruct (IH pos (j + 1)) as (k&Ek&Hk&Hocc); try lia.
      { intros i Hi. destruct (Z.eq_dec (Z.of_nat i) j) as [<-|]; [|apply Hpre; lia]. rewrite Nat2Z.id in *. congruence. }
      exists k. split; [done|]. split; [lia|done].
    + exists j. split; [done|]. split; [lia|]. split; [lia|]. intros [_ Ho]. exfalso. apply Hab.
      specialize (Ho (Z.to_nat j) ltac:(lia)). congruence.
Qed.

(** No occurrence is jumped over. *)
Lemma shift_safe pos c s q : 0 <= pos → pos + len_p <= len_t → byte_at target (pos + len_p) = Some c →
  byte_at shift c = Some s → is_u8 c → pos < q < pos + s → ¬ occurs target pat q.
Proof.
  intros Hp Hl Hc Hs Hb Hq [_ Ho]. destruct (shift_good c Hb) as (s'&Es&Hr&Hi). rewrite Hs in Es. injection Es as <-.
  set (i := Z.to_nat (pos + len_p - q)). specialize (Ho i ltac:(lia)).
  rewrite byte_at_nonneg in Hc by lia. replace (Z.to_nat q + i)%nat with (Z.to_nat (pos + len_p)) in Ho by lia.
  rewrite Hc in Ho. specialize (Hi i (eq_sym Ho)). lia.
Qed.

Definition first_end (r : Z) : Prop :=
  (∃ pos, occurs target pat pos ∧ pos + len_p <= len_t ∧ r = pos + len_p ∧ ∀ q, 0 <= q < pos → ¬ occurs target pat q)
  ∨ (r = -1 ∧ ∀ q, q + len_p <= len_t → ¬ occurs target pat q).

Lemma match_loop_spec fuel : ∀ pos, 0 <= pos → Z.max 0 (len_t + 1 - pos) < Z.of_nat fuel →
  (∀ q, 0 <= q < pos → q + len_p <= len_t → ¬ occurs target pat q) →
  ∃ r, match_loop fuel shift target len_t (pat ++ [end_p]) len_p pos = Some r ∧ first_end r.
Proof.
  induction fuel as [|fuel IH]; intros pos Hp Hf Hno; cbn [match_loop].
  { exfalso. lia. }
  destruct (Z.leb_spec pos (len_t - len_p)) as [Hl|Hl].
  - destruct (match_from_spec (S (Z.to_nat len_p)) pos 0) as (k&Ek&Hk&Hocc); try lia. rewrite Ek. cbn [mbind option_bind].
    destruct (Z.leb_spec len_p k) as [Hge|Hlt].
    + eexists. split; [done|]. left. exists pos. split; [apply Hocc; lia|]. split; [lia|]. split; [done|]. intros q Hq. apply Hno; lia.
    + destruct (target_read (pos + len_p)) as (c&Hc&Hcb); [lia|]. rewrite Hc. cbn [mbind option_bind].
      destruct (shift_good c Hcb) as (s&Hs&Hr&_). rewrite Hs. cbn [mbind option_bind]. apply IH; [lia|lia|].
      intros q Hq Hq'. destruct (Z.lt_ge_cases q pos); [apply Hno; [lia|done]|]. destruct (Z.eq_dec q pos) as [->|].
      * intros Ho%Hocc. lia.
      * eapply shift_safe; try done; lia.
  - exists (-1). split; [done|]. right. split; [done|]. intros q Hq Ho. pose proof Ho as [? _]. apply (Hno q); [lia|done|done].
Qed.
End Match.

(** C25: with the table that [sunday_pre] computes and one readable byte behind
    the target, [sunday_match] returns the end of the first occurrence of the
    pattern among the first [len_t] bytes, or -1 when there is none; it never
    reads outside of the target and that byte, and the byte does not matter. *)
Theorem sunday_finds_first (pat target : list Z) (len_t end_p : Z) :
  Forall (λ b, is_u8 b) pat → Forall (λ b, is_u8 b) target → 0 <= len_t < Z.of_nat (length target) →
  ∃ shift r, sunday_pre pat = Some shift
    ∧ sunday_match shift target len_t (pat ++ [end_p]) (Z.of_nat (length pat)) = Some r
    ∧ first_end target pat len_t r.
Proof.
  intros Hp Ht Hl. destruct (sunday_pre_spec pat Hp) as (shift&E&Hg).
  destruct (match_loop_spec shift target pat len_t end_p Hg Ht Hl (S (S (Z.to_nat len_t))) 0) as (r&Er&Hr); try lia.
  by exists shift, r.
Qed.

(** The byte behind a match at the very end is read. *)
Lemma match_from_end fuel target pos pat end_p : occurs target pat pos → Z.of_nat (length target) = pos + Z.of_nat (length pat) →
  ∀ j, 0 <= j <= Z.of_nat (length pat) → Z.of_nat (length pat) - j < Z.of_nat fuel →
  match_from fuel target pos (pat ++ [end_p]) (Z.of_nat (length pat)) j = None.
Proof.
  intros [Hp Ho] Hl. induction fuel as [|fuel IH]; intros j Hj Hf; [lia|]. simpl. rewrite (byte_at_nonneg target) by lia.
  destruct (Z.eq_dec j (Z.of_nat (length pat))) as [->|Hne].
  - by rewrite (lookup_ge_None_2 target) by lia.
  - specialize (Ho (Z.to_nat j) ltac:(lia)). replace (Z.to_nat (pos + j)) with (Z.to_nat pos + Z.to_nat j)%nat by lia.
    rewrite Ho. rewrite byte_at_nonneg, lookup_app_l by lia. destruct (pat !! Z.to_nat j) as [b|]; [|done]. simpl.
    rewrite Z.eqb_refl, (proj2 (Z.ltb_lt j _)) by lia. apply IH; lia.
Qed.

Lemma match_loop_end fuel shift target pat end_p last : good_shift pat shift → Forall (λ b, is_u8 b) target →
  Z.of_nat (length target) = last + Z.of_nat (length pat) → (∀ q, 0 <= q < last → ¬ occurs target pat q) → occurs target pat last →
  ∀ pos, 0 <= pos <= last → last - pos < Z.of_nat fuel →
  match_loop fuel shift target (Z.of_nat (length target)) (pat ++ [end_p]) (Z.of_nat (length pat)) pos = None.
Proof.
  intros Hg Ht Hl Hno Hocc. induction fuel as [|fuel IH]; intros pos Hp Hf; [lia|]. cbn [match_loop].
  rewrite (proj2 (Z.leb_le pos _)) by lia. destruct (Z.eq_dec pos last) as [->|Hne].
  { by rewrite match_from_end by (done || lia). }
  assert (0 <= Z.of_nat (length target) - 1 < Z.of_nat (length target)) as Hroom by lia.
  destruct (match_from_spec target pat _ end_p Ht Hroom (S (Z.to_nat (Z.of_nat (length pat)))) pos 0) as (k&Ek&Hk&Ho); try lia.
  rewrite Ek. cbn [mbind option_bind]. destruct (Z.leb_spec (Z.of_nat (length pat)) k) as [Hge|Hlt].
  { exfalso. apply (Hno pos); [lia|]. apply Ho. lia. }
  destruct (target_read target _ Ht Hroom (pos + Z.of_nat (length pat))) as (c&Hc&Hcb); [lia|]. rewrite Hc. cbn [mbind option_bind].
  destruct (Hg c Hcb) as (s&Hs&Hr&_). rewrite Hs. cbn [mbind option_bind].
  destruct (Z.le_gt_cases (pos + s) last) as [Hle|Hgt]; [apply IH; lia|].
  exfalso. eapply (shift_safe shift target pat _ Hg pos c s last); try done; lia.
Qed.

(** Without the byte behind the target the search crashes when the pattern
    first occurs at the very end. *)
Theorem sunday_reads_past_end (pat target : list Z) (end_p : Z) :
  Forall (λ b, is_u8 b) pat → Forall (λ b, is_u8 b) target → (length pat <= length target)%nat →
  (∀ q, 0 <= q < Z.of_nat (length target - length pat) → ¬ occurs target pat q) →
  occurs target pat (Z.of_nat (length target - length pat)) →
  ∃ shift, sunday_pre pat = Some shift
    ∧ sunday_match shift target (Z.of_nat (length target)) (pat ++ [end_p]) (Z.of_nat (length pat)) = None.
Proof.
  intros Hp Ht Hl Hno Ho. destruct (sunday_pre_spec pat Hp) as (shift&E&Hg). exists shift. split; [done|].
  apply (match_loop_end _ _ _ _ _ (Z.of_nat (length target - length pat))); try done; lia.
Qed.

Module SundayDemo.
(** The end of an HTTP header. *)
Definition crlf2 : list Z := [13; 10; 13; 10].
Definition message : list Z := [72; 58; 97; 13; 10; 13; 13; 10; 13; 10; 98; 99; 0].

Lemma sunday_finds_first_witness :
  ∃ shift r, sunday_pre crlf2 = Some shift ∧ sunday_match shift message 12 (crlf2 ++ [0]) 4 = Some r
    ∧ first_end message crlf2 12 r.
Proof.
  apply (sunday_finds_first crlf2 message 12 0).
  - apply (bool_decide_unpack _). vm_compute. exact I.
  - apply (bool_decide_unpack _). vm_compute. exact I.
  - simpl. lia.
Defined.
Example message_end : (shift ← sunday_pre crlf2; sunday_match shift message 12 (crlf2 ++ [0]) 4) = Some 10.
Proof. vm_compute. reflexivity. Qed.

Lemma sunday_reads_past_end_witness :
  ∃ shift, sunday_pre crlf2 = Some shift ∧ sunday_match shift (take 10 message) 10 (crlf2 ++ [0]) 4 = None.
Proof.
  apply (sunday_reads_past_end crlf2 (take 10 message) 0).
  - apply (bool_decide_unpack _). vm_compute. exact I.
  - apply (bool_decide_unpack _). vm_compute. exact I.
  - simpl. lia.
  - intros q Hq. simpl in Hq. assert (q = 0 ∨ q = 1 ∨ q = 2 ∨ q = 3 ∨ q = 4 ∨ q = 5) as Hc by lia.
    destruct Hc as [->|[->|[->|[->|[->| ->]]]]]; apply (bool_decide_unpack _); vm_compute; exact I.
  - apply (bool_decide_unpack _). vm_compute. exact I.
Defined.
End SundayDemo.
