(* ===== verification/StreamGen.v ===== *)
(** * The stream generator

    [src/src/stream_gen/stream_gen.c] with [include/checksum.h] and
    [include/tcp_header.h]: replaying the data of captured streams as TCP
    conversations, both directions of which the generator makes up itself.  The
    configuration is that of the [Makefile]: several sending threads, both
    directions sent, random addresses, streams used again.

    A thread builds every packet in its one buffer [pkt].  All header fields are
    rewritten for every packet; what is left of the packet before is the part
    behind the headers ([th_tail]).  Code of other packages (random numbers, the
    clock, the packet buffers and the card) is the class [GenWorld]. *)
From S2P Require Import Prelude Checksum FlowHash MemPool TcpTypes NetOut TcpOut Sunday.

Module Gen.

(** ** Constants of the headers *)
Definition PACKET_LEN : Z := 1600.
Definition MAX_BURST : Z := 128.
Definition PKT_RETRY_COUNT : nat := 1000.
Definition MAX_SEG_SIZE : Z := 1435.
Definition MAX_RATE_BOUND : Z := 100.
Definition HEADER_LEN : Z := 54.
Definition TCP_DEFAULT_MSS : Z := 1460.
Definition TCP_DEFAULT_WSCALE : Z := 7.

Inductive gen_state : Type :=
  | TCP_ST_CLOSED | TCP_ST_LISTEN | TCP_ST_SYN_SENT | TCP_ST_SYN_RCVD | TCP_ST_ESTABLISHED
  | TCP_ST_FIN_SENT_1 | TCP_ST_FIN_SENT_2 | TCP_ST_CLOSING.

(** ** [checksum.h] *)

(** The sum of the 16-bit words, folded; the last byte of an odd length is added
    behind the folding. *)
Definition checksum (buf : list Z) (nbytes sum : Z) : Z :=
  let sum := Checksum.sum_words sum (take (Z.to_nat (2 * (nbytes / 2))) buf) in
  let sum := u32 (Z.shiftr sum 16 + Z.land sum 0xffff) in
  let sum := u32 (sum + Z.shiftr sum 16) in
  let sum := if nbytes mod 2 =? 0 then sum else u32 (sum + default 0 (byte_at buf (nbytes - 1))) in
  u16 (Z.lnot sum).

(** [seg] is the memory from the TCP header on, its field [check] cleared. *)
Definition tcp_checksum (tot_len saddr daddr : Z) (seg : list Z) : Z :=
  let tcp_len := u16 (tot_len - 20) in
  let sum := u32 (saddr + daddr + swap16 IPPROTO_TCP + swap16 tcp_len) in
  checksum seg tcp_len sum.

Definition ip_checksum (tot_len id saddr daddr : Z) : Z :=
  checksum (ip_header tot_len id IPPROTO_TCP 0 saddr daddr) 20 0.

(** ** Options *)
Definition cal_opt_len (flags : Z) : Z := if has flags TCP_FLAG_SYN then 4 + 10 + 2 + 3 + 1 else 10 + 2.

Definition generate_timestamp (cur_ts ts_recent : Z) : list Z := [8; 10] ++ be32 cur_ts ++ be32 ts_recent.

Definition generate_opt (cur_ts flags ts_recent : Z) : list Z :=
  if has flags TCP_FLAG_SYN then
    [2; 4; Z.shiftr TCP_DEFAULT_MSS 8; TCP_DEFAULT_MSS mod 256; 1; 1] ++ generate_timestamp cur_ts ts_recent
    ++ [1; 3; 3; TCP_DEFAULT_WSCALE]
  else [1; 1] ++ generate_timestamp cur_ts ts_recent.

(** ** State *)
Record tuple4 := mk_tuple4 { t_source : Z; t_dest : Z; t_saddr : Z; t_daddr : Z }.

Record buf_node := mk_node {
  tup : tuple4;
  tot_buf : list Z;             (* the allocated bytes *)
  nd_len : Z;
  nd_offset : Z;
  nd_state : gen_state;
  nd_id : Z;
  rcv_id : Z;
  nd_saddr : Z;
  nd_daddr : Z;
  nd_sport : Z;
  nd_dport : Z;
  nd_seq : Z;
  nd_ack_seq : Z;
  nd_ts : Z;
  ts_peer : Z
}.
#[global] Instance eta_node : Eta buf_node :=
  λ r, mk_node (tup r) (tot_buf r) (nd_len r) (nd_offset r) (nd_state r) (nd_id r) (rcv_id r) (nd_saddr r)
         (nd_daddr r) (nd_sport r) (nd_dport r) (nd_seq r) (nd_ack_seq r) (nd_ts r) (ts_peer r).

(** The options of the command line. *)
Record gen_options := mk_options {
  is_len_fixed : bool;
  len_cut : Z;
  frag_rate : Z;
  burst : Z;
  nb_concur : Z;
  nb_snd_thread : Z
}.

(** What other packages do: [libnet_get_prand] and [rand] (not negative), the
    clock in milliseconds, the pool of packet buffers, and the card, which
    takes some of the packets it is offered. *)
Class GenWorld (W : Type) := {
  prand : W → Z * W;
  rand : W → Z * W;
  time_ms : W → Z * W;
  mbuf_alloc : W → option Z * W;
  mbuf_free : W → Z → W;
  tx_burst : W → list (Z * list Z) → Z * W
}.

(** A sending thread; [eth] is the Ethernet header, [log] all packets that were
    handed to [dpdk_send_pkt], [sent] those the card took. *)
Record thread_info {W : Type} := mk_th {
  th_eth : list Z;
  th_tail : list Z;
  tx_mbufs : list (Z * list Z);
  st_tx : Z;
  st_dropped : Z;
  nodes : list buf_node;
  pkt_type_cnt : Z;
  th_w : W;
  sent : list (Z * list Z);
  log : list (list Z)
}.
Arguments thread_info W : clear implicits.
#[global] Instance eta_th {W} : Eta (thread_info W) :=
  λ r, mk_th W (th_eth r) (th_tail r) (tx_mbufs r) (st_tx r) (st_dropped r) (nodes r) (pkt_type_cnt r) (th_w r) (sent r) (log r).

Section Gen.
Context {W : Type} `{GenWorld W} (opt : gen_options).
Local Abbreviation thread_info := (thread_info W).

(** ** Transmission *)

(** [while (nb_tx < cnt && (retry--))]. *)
Fixpoint retry_loop (retry : nat) (w : W) (nb_tx : Z) (table : list (Z * list Z)) : Z * W :=
  match retry with
  | O => (nb_tx, w)
  | S retry =>
    if nb_tx <? Z.of_nat (length table) then
      let '(n, w) := tx_burst w (drop (Z.to_nat nb_tx) table) in
      retry_loop retry w (nb_tx + n) table
    else (nb_tx, w)
  end.

(** Without [OOO_SEND]. *)
Definition dpdk_send_burst (th : thread_info) : thread_info :=
  let table := tx_mbufs th in
  let cnt := Z.of_nat (length table) in
  let '(nb_tx, w) := tx_burst (th_w th) table in
  let '(nb_tx, w) := if nb_tx <? cnt then retry_loop PKT_RETRY_COUNT w nb_tx table else (nb_tx, w) in
  let th := th <| st_tx := u64 (st_tx th + nb_tx) |> <| sent := sent th ++ take (Z.to_nat nb_tx) table |> <| th_w := w |> in
  if nb_tx <? cnt then
    th <| st_dropped := u64 (st_dropped th + (cnt - nb_tx)) |>
       <| th_w := foldl mbuf_free (th_w th) (drop (Z.to_nat nb_tx) table).*1 |>
  else th.

(** The table has [MAX_BURST] entries. *)
Definition dpdk_send_pkt (th : thread_info) (bs : list Z) : option (Z * thread_info) :=
  let th := th <| log := log th ++ [bs] |> in
  let '(m, w) := mbuf_alloc (th_w th) in
  let th := th <| th_w := w |> in
  match m with
  | None => Some (-1, th)
  | Some m =>
    guard (Z.of_nat (length (tx_mbufs th)) < MAX_BURST);;
    let th := th <| tx_mbufs := tx_mbufs th ++ [(m, bs)] |> in
    Some (1, if burst opt <=? Z.of_nat (length (tx_mbufs th)) then (dpdk_send_burst th) <| tx_mbufs := [] |> else th)
  end.

(** ** Packets *)

(** The headers and the options as every sender sets them, and the checksums
    over what the buffer holds then: the field [check] of a header is cleared
    while its checksum is computed.  The result is the first 54 bytes; the
    options are in the buffer. *)
Definition craft (th : thread_info) (id saddr daddr sport dport seq ack flags psh cur_ts ts_recent payloadlen : Z)
  : option (list Z * thread_info) :=
  let optlen := cal_opt_len flags in
  let tot_len := u16 (40 + optlen + payloadlen) in
  tail ← mem_write (th_tail th) 0 (generate_opt cur_ts flags ts_recent);
  let th := th <| th_tail := tail |> in
  let hdr := λ check, tcp_header (swap16 sport) (swap16 dport) seq ack (Z.shiftr (20 + optlen) 2)
                        (Z.lor (hdr_bits flags (Z.lor 0x10 0x03)) psh) 65535 check in
  let check := tcp_checksum tot_len saddr daddr (hdr 0 ++ tail) in
  let ip := ip_header tot_len id IPPROTO_TCP (ip_checksum tot_len id saddr daddr) saddr daddr in
  Some (th_eth th ++ ip ++ hdr check, th).

(** [dpdk_send_pkt(pkt, HEADER_LEN + n, ...)]. *)
Definition transmit (th : thread_info) (headers : list Z) (n : Z) : option thread_info :=
  bs ← mem_read (th_tail th) 0 n;
  '(_, th) ← dpdk_send_pkt th (headers ++ bs);
  Some th.

(** The four bytes of an address as [inet_addr] returns them. *)
Definition inet_addr4 (a b c d : Z) : Z := a + 256 * b + 65536 * c + 16777216 * d.

Definition draw (w : W) : Z * W := let '(v, w) := prand w in (u32 v, w).

Definition set_field (w : W) (node : buf_node) : buf_node * W :=
  let '(v, w) := draw w in let adr_3 := u8 v in
  let '(v, w) := draw w in let adr_4 := u8 v in
  let node := node <| nd_saddr := inet_addr4 10 0 adr_3 adr_4 |> <| nd_daddr := inet_addr4 10 1 adr_4 adr_3 |> in
  let '(v, w) := draw w in let node := node <| nd_sport := u16 v |> in
  let '(v, w) := draw w in let node := node <| nd_dport := u16 v |> in
  let '(v, w) := draw w in let node := node <| nd_id := u16 (v mod 32768) |> <| rcv_id := 0 |> in
  let '(v, w) := draw w in let node := node <| nd_seq := u32 (v mod 100000000 + 10000000) |> in
  let '(v, w) := draw w in let node := node <| nd_ack_seq := u32 (v mod 100000000 + 10000000) |> in
  (node <| nd_ts := 0 |> <| ts_peer := 0 |> <| nd_state := TCP_ST_CLOSED |> <| nd_offset := 0 |>, w).

Definition set_start_ts (th : thread_info) (node : buf_node) : buf_node * thread_info :=
  let '(t, w) := time_ms (th_w th) in
  let node := node <| nd_ts := u32 t |> in
  (node <| ts_peer := u32 (nd_ts node + 1234) |>, th <| th_w := w |>).

Definition SYN_ACK : Z := Z.lor TCP_FLAG_SYN TCP_FLAG_ACK.
Definition FIN_ACK : Z := Z.lor TCP_FLAG_FIN TCP_FLAG_ACK.
Definition PSH : Z := 8.

Definition send_syn (th : thread_info) (node : buf_node) : option (buf_node * thread_info) :=
  match nd_state node with
  | TCP_ST_CLOSED =>
    let '(node, th) := set_start_ts th node in
    '(h, th) ← craft th (nd_id node) (nd_saddr node) (nd_daddr node) (nd_sport node) (nd_dport node)
                 (nd_seq node) 0 TCP_FLAG_SYN 0 (nd_ts node) 0 0;
    th ← transmit th h (cal_opt_len TCP_FLAG_SYN);
    Some (node <| nd_state := TCP_ST_SYN_SENT |>, th)
  | TCP_ST_SYN_SENT =>
    let id := rcv_id node in
    let node := node <| rcv_id := u16 (id + 1) |> in
    let '(v, w) := draw (th_w th) in
    let th := th <| th_w := w |> in
    let node := node <| nd_ack_seq := u32 (v mod 100000000 + 10000000) |> in
    '(h, th) ← craft th id (nd_daddr node) (nd_saddr node) (nd_dport node) (nd_sport node)
                 (nd_ack_seq node ⊟ 1) (nd_seq node ⊞ 1) SYN_ACK 0 (ts_peer node) (nd_ts node) 0;
    th ← transmit th h (cal_opt_len SYN_ACK);
    Some (node <| nd_state := TCP_ST_SYN_RCVD |>, th)
  | TCP_ST_SYN_RCVD =>
    let node := node <| nd_id := u16 (nd_id node + 1) |> in
    let node := node <| nd_seq := nd_seq node ⊞ 1 |> in
    '(h, th) ← craft th (nd_id node) (nd_saddr node) (nd_daddr node) (nd_sport node) (nd_dport node)
                 (nd_seq node) (nd_ack_seq node) TCP_FLAG_ACK 0 (nd_ts node) (ts_peer node) 0;
    th ← transmit th h (cal_opt_len TCP_FLAG_ACK);
    Some (node <| nd_id := u16 (nd_id node + 1) |> <| nd_state := TCP_ST_ESTABLISHED |>, th)
  | _ => Some (node, th)
  end.

(** Exchanging the data of the node [i], which is [node], with that of a node
    outside of the concurrent ones. *)
Definition exchange (th : thread_info) (i : nat) (node : buf_node) (nb_stream : Z) : option thread_info :=
  let th := th <| nodes := <[i := node]> (nodes th) |> in
  let diff := nb_stream - nb_concur opt - 2 in
  if diff >? 10 then
    let '(r, w) := rand (th_w th) in
    let new_ind := Z.to_nat (r mod diff + nb_concur opt + 1) in
    let th := th <| th_w := w |> in
    other ← nodes th !! new_ind;
    let th := th <| nodes := <[i := node <| tot_buf := tot_buf other |> <| nd_len := nd_len other |>]> (nodes th) |> in
    Some (th <| nodes := <[new_ind := other <| tot_buf := tot_buf node |> <| nd_len := nd_len node |>]> (nodes th) |>)
  else Some th.

Definition send_fin (th : thread_info) (i : nat) (node : buf_node) (nb_stream : Z) : option thread_info :=
  match nd_state node with
  | TCP_ST_CLOSING =>
    let ts_recent := ts_peer node in
    let node := node <| ts_peer := ts_peer node ⊞ 1 |> <| nd_ts := nd_ts node ⊞ 1 |> in
    '(h, th) ← craft th (nd_id node) (nd_saddr node) (nd_daddr node) (nd_sport node) (nd_dport node)
                 (nd_seq node) (nd_ack_seq node) FIN_ACK 0 (nd_ts node) ts_recent 0;
    th ← transmit th h (cal_opt_len FIN_ACK);
    Some (th <| nodes := <[i := node <| nd_state := TCP_ST_FIN_SENT_1 |>]> (nodes th) |>)
  | TCP_ST_FIN_SENT_1 =>
    let id := rcv_id node in
    let ts_recent := nd_ts node in
    let node := node <| rcv_id := u16 (id + 1) |> <| nd_ts := nd_ts node ⊞ 1 |> in
    '(h, th) ← craft th id (nd_daddr node) (nd_saddr node) (nd_dport node) (nd_sport node)
                 (nd_ack_seq node) (nd_seq node ⊞ 1) FIN_ACK 0 (ts_peer node) ts_recent 0;
    th ← transmit th h (cal_opt_len FIN_ACK);
    Some (th <| nodes := <[i := node <| nd_state := TCP_ST_FIN_SENT_2 |>]> (nodes th) |>)
  | TCP_ST_FIN_SENT_2 =>
    let node := node <| nd_id := u16 (nd_id node + 1) |> in
    '(h, th) ← craft th (nd_id node) (nd_saddr node) (nd_daddr node) (nd_sport node) (nd_dport node)
                 (nd_seq node ⊞ 1) (nd_ack_seq node ⊞ 1) TCP_FLAG_ACK 0 (nd_ts node) (ts_peer node) 0;
    th ← transmit th h (cal_opt_len TCP_FLAG_ACK);
    let '(node, w) := set_field (th_w th) node in
    exchange (th <| th_w := w |>) i node nb_stream
  | _ => Some th
  end.

Definition send_ack (th : thread_info) (node : buf_node) : option (buf_node * thread_info) :=
  let id := rcv_id node in
  let node := node <| rcv_id := u16 (id + 1) |> <| ts_peer := ts_peer node ⊞ 1 |> in
  '(h, th) ← craft th id (nd_daddr node) (nd_saddr node) (nd_dport node) (nd_sport node)
               (nd_ack_seq node) (nd_seq node) TCP_FLAG_ACK 0 (ts_peer node) (nd_ts node) 0;
  th ← transmit th h (cal_opt_len TCP_FLAG_ACK);
  Some (node, th).

(** The payload is copied into the buffer behind the computation of the
    checksum. *)
Definition send_data_pkt (th : thread_info) (node : buf_node) (length : Z) : option (buf_node * thread_info) :=
  let rest_len := u32 (nd_len node - nd_offset node) in
  let '(length, node) := if rest_len <=? length then (rest_len, node <| nd_state := TCP_ST_CLOSING |>) else (length, node) in
  let optlen := cal_opt_len TCP_FLAG_ACK in
  let node := node <| nd_ts := nd_ts node ⊞ 1 |> in
  '(h, th) ← craft th (nd_id node) (nd_saddr node) (nd_daddr node) (nd_sport node) (nd_dport node)
               (nd_seq node) (nd_ack_seq node) TCP_FLAG_ACK PSH (nd_ts node) (ts_peer node) length;
  bs ← mem_read (tot_buf node) (nd_offset node) length;
  tail ← mem_write (th_tail th) optlen bs;
  let th := th <| th_tail := tail |> in
  let node := node <| nd_offset := s32 (nd_offset node + length) |> <| nd_id := u16 (nd_id node + 1) |>
                   <| nd_seq := nd_seq node ⊞ length |> in
  th ← transmit th h (optlen + length);
  send_ack th node.

Inductive pkt_type : Type := FRAGMENT_PKT | COMPLETE_PKT.

Definition get_pkt_type (cnt upper_bound : Z) : pkt_type * Z :=
  let cnt := s32 (cnt + 1) in
  if cnt <=? upper_bound then (FRAGMENT_PKT, cnt)
  else if cnt <=? MAX_RATE_BOUND then (COMPLETE_PKT, cnt)
  else (COMPLETE_PKT, 0).

Definition get_data_len (node : buf_node) (n_parts : Z) : Z :=
  let length := if is_len_fixed opt then len_cut opt else Z.quot (nd_len node) n_parts in
  if length <? 40 then 40 else if length >? MAX_SEG_SIZE then MAX_SEG_SIZE else length.

(** The data and the zero byte behind the literal, and the table of shifts that
    [gen_run] has filled for it. *)
Definition header_end : list Z := [13; 10; 13; 10; 0].

(** The result of the search is stored in an unsigned variable, so that the test
    for a negative one never succeeds. *)
Definition data_length (node : buf_node) (type : pkt_type) (shift : list Z) (n_parts : Z) : option Z :=
  match type with
  | FRAGMENT_PKT => Some (get_data_len node n_parts)
  | COMPLETE_PKT =>
    r ← sunday_match shift (drop (Z.to_nat (nd_offset node)) (tot_buf node)) (nd_len node - nd_offset node) header_end 4;
    let length := u32 r in
    let length := if length <? 0 then u32 (nd_len node - nd_offset node) else length in
    Some (if length >? MAX_SEG_SIZE then get_data_len node n_parts else length)
  end.

(** One packet of the stream [i], according to its state. *)
Definition send_packet (shift : list Z) (nb_stream n_parts : Z) (th : thread_info) (i : nat) : option thread_info :=
  node ← nodes th !! i;
  match nd_state node with
  | TCP_ST_CLOSED =>
    if nd_offset node =? 0 then
      '(node, th) ← send_syn th node;
      Some (th <| nodes := <[i := node]> (nodes th) |>)
    else Some th
  | TCP_ST_SYN_SENT | TCP_ST_SYN_RCVD =>
    '(node, th) ← send_syn th node;
    Some (th <| nodes := <[i := node]> (nodes th) |>)
  | TCP_ST_ESTABLISHED =>
    let '(type, cnt) := get_pkt_type (pkt_type_cnt th) (frag_rate opt) in
    let th := th <| pkt_type_cnt := cnt |> in
    length ← data_length node type shift n_parts;
    '(node, th) ← send_data_pkt th node length;
    Some (th <| nodes := <[i := node]> (nodes th) |>)
  | TCP_ST_CLOSING | TCP_ST_FIN_SENT_1 | TCP_ST_FIN_SENT_2 => send_fin th i node nb_stream
  | TCP_ST_LISTEN => Some th
  end.

(** ** The loop of a thread *)

(** [while (n_snd--)]: the packet that ends a stream is the last one. *)
Fixpoint send_some (shift : list Z) (nb_stream n_parts : Z) (n_snd : nat) (th : thread_info) (i : nat) : option thread_info :=
  match n_snd with
  | O => Some th
  | S n_snd =>
    node ← nodes th !! i;
    th ← send_packet shift nb_stream n_parts th i;
    match nd_state node with
    | TCP_ST_FIN_SENT_2 => Some th
    | _ => send_some shift nb_stream n_parts n_snd th i
    end
  end.

(** The inner [for]: the streams [i], [i + nb_snd_thread], ... below
    [nb_stream], at most [k] of them. *)
Fixpoint send_each (k : nat) (shift : list Z) (nb_stream n_parts : Z) (th : thread_info) (i : Z) : option thread_info :=
  match k with
  | O => Some th
  | S k =>
    if i <? nb_stream then
      let '(r, w) := rand (th_w th) in
      th ← send_some shift nb_stream n_parts (Z.to_nat (r mod 3 + 1)) (th <| th_w := w |>) (Z.to_nat i);
      send_each k shift nb_stream n_parts th (i + nb_snd_thread opt)
    else Some th
  end.

(** One pass of [send_loop] in the thread [th_id], and [n] passes: the number
    depends on when [force_quit] is set. *)
Definition concur_per_thread : Z := nb_concur opt / nb_snd_thread opt.
Definition send_pass (shift : list Z) (nb_stream th_id : Z) (th : thread_info) : option thread_info :=
  send_each (Z.to_nat concur_per_thread) shift nb_stream (25 + th_id) th th_id.

Fixpoint send_loop (n : nat) (shift : list Z) (nb_stream th_id : Z) (th : thread_info) : option thread_info :=
  match n with
  | O => Some th
  | S n => th ← send_pass shift nb_stream th_id th; send_loop n shift nb_stream th_id th
  end.

(** [prepare_header]: the Ethernet header; the source is the address of the
    port when a SYN flood is simulated. *)
Definition src_mac : list Z := [0x90; 0xe2; 0xba; 0x14; 0xbe; 0xae].
Definition dst_mac : list Z := [0x00; 0x30; 0x48; 0xf7; 0xc3; 0x4a].
Definition prepare_header (th : thread_info) (port_addr : option (list Z)) : thread_info :=
  th <| th_eth := dst_mac ++ default src_mac port_addr ++ be16 0x0800 |>.

(** [init_thread_info] for one thread. *)
Definition init_thread_info (th : thread_info) : thread_info :=
  th <| tx_mbufs := [] |> <| st_tx := 0 |> <| st_dropped := 0 |>.

(** At the end; the table keeps its length. *)
Definition dpdk_tx_flush (th : thread_info) : thread_info :=
  match tx_mbufs th with [] => th | _ => dpdk_send_burst th end.
End Gen.
End Gen.
