(* ===== verification/GenTrace.v ===== *)
(** * The conversations of the stream generator

    Whatever the random numbers, the clock, the buffer pool and the card do, and
    however the packets of the streams of a thread are interleaved, the packets
    that [send_packet] makes for one stream are a complete TCP conversation
    that carries the bytes of the stream; they are read with [view], the code
    with which the TCP stack reads a segment. *)
From S2P Require Import Prelude Checksum FlowHash MemPool TcpTypes NetOut TcpOptions TcpOut TcpIn Segment Sunday StreamGen.

(** ** Abstract conversations *)

(** A segment from the client to the server ([c2s]) or back. *)
Record conv_seg := mk_conv {
  c2s : bool;
  c_syn : bool;
  c_fin : bool;
  c_ack : bool;
  c_seq : Z;
  c_ackno : Z;
  c_payload : list Z
}.
Record endpoints := mk_ends { e_saddr : Z; e_daddr : Z; e_sport : Z; e_dport : Z }.

(** The frame is the segment, on the connection [e]. *)
Definition reads (e : endpoints) (c : conv_seg) (frame : list Z) : Prop :=
  ∃ g, view (drop 14 frame) (Z.of_nat (length frame) - 14) = Some g
    ∧ (g_saddr g, g_daddr g, g_source g, g_dest g)
      = (if c2s c then (e_saddr e, e_daddr e, swap16 (e_sport e), swap16 (e_dport e))
         else (e_daddr e, e_saddr e, swap16 (e_dport e), swap16 (e_sport e)))
    ∧ (g_syn g, g_fin g, g_ack g, g_rst g) = (c_syn c, c_fin c, c_ack c, false)
    ∧ g_seq g = c_seq c ∧ g_ack_seq g = c_ackno c
    ∧ g_payload g = c_payload c ∧ g_payloadlen g = Z.of_nat (length (c_payload c)).

(** The client starts at [x], the server's first byte of data would be [y]. *)
Definition syn x := mk_conv true true false false x 0 [].
Definition syn_ack x y := mk_conv false true false true (y ⊟ 1) (x ⊞ 1) [].
Definition ack_to x y := mk_conv true false false true (x ⊞ 1) y [].
Definition data_at x y off bs := mk_conv true false false true (x ⊞ (1 + off)) y bs.
Definition data_ack x y off := mk_conv false false false true y (x ⊞ (1 + off)) [].
Definition fin x y n := mk_conv true false true true (x ⊞ (1 + n)) y [].
Definition fin_ack x y n := mk_conv false false true true y (x ⊞ (2 + n)) [].
Definition last_ack x y n := mk_conv true false false true (x ⊞ (2 + n)) (y ⊞ 1) [].

Fixpoint transfer x y (off : Z) (chunks : list (list Z)) : list conv_seg :=
  match chunks with
  | [] => []
  | c :: chunks =>
    let off' := off + Z.of_nat (length c) in
    data_at x y off c :: data_ack x y off' :: transfer x y off' chunks
  end.
Definition conversation x y (chunks : list (list Z)) : list conv_seg :=
  let n := Z.of_nat (length (concat chunks)) in
  [syn x; syn_ack x y; ack_to x y] ++ transfer x y 0 chunks ++ [fin x y n; fin_ack x y n; last_ack x y n].

(** Where a stream with the data [d] is in its conversation. *)
Inductive phase : Type :=
  | PClosed | PSynSent (x : Z) | PSynRcvd (x y : Z) | PData (x y off : Z) | PClosing (x y : Z) | PFin1 (x y : Z) | PFin2 (x y : Z).

(** What is left of a conversation: the segments of the calls to come. *)
Inductive rest (d : list Z) : phase → list (list conv_seg) → Prop :=
  | rest_syn x l : rest d (PSynSent x) l → rest d PClosed ([syn x] :: l)
  | rest_syn_ack x y l : rest d (PSynRcvd x y) l → rest d (PSynSent x) ([syn_ack x y] :: l)
  | rest_ack x y l : rest d (PData x y 0) l → rest d (PSynRcvd x y) ([ack_to x y] :: l)
  | rest_data x y off c l : 0 <= off → 0 < Z.of_nat (length c) <= Gen.MAX_SEG_SIZE → off + Z.of_nat (length c) < Z.of_nat (length d) →
      c = take (length c) (drop (Z.to_nat off) d) → rest d (PData x y (off + Z.of_nat (length c))) l →
      rest d (PData x y off) ([data_at x y off c; data_ack x y (off + Z.of_nat (length c))] :: l)
  | rest_last x y off c l : 0 <= off <= Z.of_nat (length d) → c = drop (Z.to_nat off) d → Z.of_nat (length c) <= Gen.MAX_SEG_SIZE →
      rest d (PClosing x y) l →
      rest d (PData x y off) ([data_at x y off c; data_ack x y (off + Z.of_nat (length c))] :: l)
  | rest_fin x y l : rest d (PFin1 x y) l → rest d (PClosing x y) ([fin x y (Z.of_nat (length d))] :: l)
  | rest_fin_ack x y l : rest d (PFin2 x y) l → rest d (PFin1 x y) ([fin_ack x y (Z.of_nat (length d))] :: l)
  | rest_last_ack x y : rest d (PFin2 x y) [[last_ack x y (Z.of_nat (length d))]].

(** The chunks of a conversation that is over are the data. *)
Definition chunk_ok (c : list Z) : Prop := Z.of_nat (length c) <= Gen.MAX_SEG_SIZE.
Lemma rest_closing d x y l : rest d (PClosing x y) l →
  concat l = [fin x y (Z.of_nat (length d)); fin_ack x y (Z.of_nat (length d)); last_ack x y (Z.of_nat (length d))].
Proof.
  intros Hr. inversion Hr as [| | | | |? ? l1 H1| |]; subst. inversion H1 as [| | | | | |? ? l2 H2|]; subst.
  by inversion H2; subst.
Qed.
Lemma rest_transfer d ph l : rest d ph l → ∀ x y off, ph = PData x y off → 0 <= off <= Z.of_nat (length d) →
  ∃ chunks, concat chunks = drop (Z.to_nat off) d ∧ Forall chunk_ok chunks
    ∧ concat l = transfer x y off chunks ++ [fin x y (Z.of_nat (length d)); fin_ack x y (Z.of_nat (length d)); last_ack x y (Z.of_nat (length d))].
Proof.
  induction 1 as [| | |x0 y0 off0 c l ? Hlen Hlt Hc Hr IH|x0 y0 off0 c l ? Hc Hcl Hr _| | |]; intros u v w E Ho; try done; injection E as <- <- <-.
  - destruct (IH x0 y0 (off0 + Z.of_nat (length c)) eq_refl ltac:(lia)) as (chunks&E&Hk&El). exists (c :: chunks).
    split; [|split; [constructor; [unfold chunk_ok; lia|done]|]].
    + cbn [concat]. rewrite E. transitivity (take (length c) (drop (Z.to_nat off0) d) ++ drop (length c) (drop (Z.to_nat off0) d)).
      * f_equal; [done|]. rewrite drop_drop. f_equal. lia.
      * apply take_drop.
    + cbn [concat transfer]. rewrite El. done.
  - exists [c]. split; [by cbn [concat]; rewrite app_nil_r|]. split; [by repeat constructor|].
    cbn [concat transfer]. rewrite (rest_closing _ _ _ _ Hr). done.
Qed.
Lemma rest_conversation d l : rest d PClosed l →
  ∃ x y chunks, concat chunks = d ∧ Forall chunk_ok chunks ∧ concat l = conversation x y chunks.
Proof.
  intros Hr. inversion Hr as [x l1 H1| | | | | | |]; subst. inversion H1 as [|? y l2 H2| | | | | |]; subst.
  inversion H2 as [| |? ? l3 H3| | | | |]; subst. destruct (rest_transfer _ _ _ H3 x y 0 eq_refl ltac:(lia)) as (chunks&E&Hk&El).
  exists x, y, chunks. rewrite drop_0 in E. split; [done|]. split; [done|]. cbn [concat]. rewrite El. unfold conversation. by rewrite E.
Qed.

Lemma opt_length cur flags recent : Z.of_nat (length (Gen.generate_opt cur flags recent)) = Gen.cal_opt_len flags.
Proof. unfold Gen.generate_opt, Gen.cal_opt_len. by destruct (has flags TCP_FLAG_SYN). Qed.
Lemma opt_len_bounds flags : 12 <= Gen.cal_opt_len flags <= 20 ∧ Z.shiftr (20 + Gen.cal_opt_len flags) 2 * 4 = 20 + Gen.cal_opt_len flags
  ∧ 0 <= Z.shiftr (20 + Gen.cal_opt_len flags) 2 < 16.
Proof. unfold Gen.cal_opt_len. destruct (has flags TCP_FLAG_SYN); vm_compute; intuition congruence. Qed.

Section Trace.
Context {W : Type} `{Gen.GenWorld W} (opt : Gen.gen_options).
Local Abbreviation thread := (Gen.thread_info W).
Implicit Types (th : thread) (node : Gen.buf_node).
Hypothesis burst_ok : 1 <= Gen.burst opt < Gen.MAX_BURST.

(** ** Packets *)
Record th_ok th : Prop := {
  to_eth : length (Gen.th_eth th) = 14%nat;
  to_tail : length (Gen.th_tail th) = 1546%nat;
  to_mbufs : Z.of_nat (length (Gen.tx_mbufs th)) < Gen.burst opt
}.
(** [th'] is [th] after packets were handed over. *)
Record sends th (fs : list (list Z)) th' : Prop := {
  se_ok : th_ok th';
  se_nodes : Gen.nodes th' = Gen.nodes th;
  se_cnt : Gen.pkt_type_cnt th' = Gen.pkt_type_cnt th;
  se_eth : Gen.th_eth th' = Gen.th_eth th;
  se_log : Gen.log th' = Gen.log th ++ fs
}.

Lemma sends_trans th1 fs th2 gs th3 : sends th1 fs th2 → sends th2 gs th3 → sends th1 (fs ++ gs) th3.
Proof. intros [] []. split; try congruence. rewrite app_assoc. congruence. Qed.
Lemma sends_world th w fs th' : sends (th <| Gen.th_w := w |>) fs th' → sends th fs th'.
Proof. by intros []; split. Qed.

Lemma send_burst_core th :
  let th' := Gen.dpdk_send_burst th in
  Gen.th_eth th' = Gen.th_eth th ∧ Gen.th_tail th' = Gen.th_tail th ∧ Gen.nodes th' = Gen.nodes th
  ∧ Gen.pkt_type_cnt th' = Gen.pkt_type_cnt th ∧ Gen.log th' = Gen.log th.
Proof.
  unfold Gen.dpdk_send_burst. destruct (Gen.tx_burst _ _) as [n w]. destruct (n <? _).
  - destruct (Gen.retry_loop _ _ _ _) as [n' w']. by destruct (n' <? _).
  - by destruct (n <? _).
Qed.

Lemma dpdk_send_pkt_spec th bs : th_ok th → ∃ r th', Gen.dpdk_send_pkt opt th bs = Some (r, th') ∧ sends th [bs] th' ∧ Gen.th_tail th' = Gen.th_tail th.
Proof.
  intros []. unfold Gen.dpdk_send_pkt. destruct (Gen.mbuf_alloc _) as [[m|] w]; cbv beta iota zeta.
  2: { do 2 eexists. split; [reflexivity|]. split; [|done]. split; try done. }
  rewrite option_guard_True by (rec_simpl; lia). cbn [mbind option_bind]. do 2 eexists. split; [reflexivity|].
  rec_simpl. rewrite length_app. cbn [length]. destruct (Z.leb_spec (Gen.burst opt) (Z.of_nat (length (Gen.tx_mbufs th) + 1))).
  - match goal with |- context [Gen.dpdk_send_burst ?t] => destruct (send_burst_core t) as (E1&E2&E3&E4&E5) end. rec_simpl.
    split; [|done]. split; rec_simpl; rewrite ?E1, ?E2, ?E3, ?E4, ?E5; try done.
    split; rec_simpl; rewrite ?E1, ?E2; try done. simpl. lia.
  - split; [|done]. split; rec_simpl; try done. split; rec_simpl; try done. rewrite length_app. simpl. lia.
Qed.

Lemma transmit_spec th h n : th_ok th → 0 <= n <= 1546 →
  ∃ th', Gen.transmit opt th h n = Some th' ∧ sends th [h ++ take (Z.to_nat n) (Gen.th_tail th)] th' ∧ Gen.th_tail th' = Gen.th_tail th.
Proof.
  intros Ho Hn. unfold Gen.transmit. pose proof (to_tail _ Ho). rewrite mem_read_ok, drop_0 by lia. cbn [mbind option_bind].
  destruct (dpdk_send_pkt_spec th (h ++ take (Z.to_nat n) (Gen.th_tail th)) Ho) as (r&th'&->&Hs&Ht). cbn [mbind option_bind]. by exists th'.
Qed.

(** The headers that are made, with some checksum. *)
Definition headers th (tot id sa da sp dp sq ack flags psh check : Z) : list Z :=
  Gen.th_eth th ++ ip_header tot id IPPROTO_TCP (Gen.ip_checksum tot id sa da) sa da
  ++ tcp_header (swap16 sp) (swap16 dp) sq ack (Z.shiftr (20 + Gen.cal_opt_len flags) 2)
       (Z.lor (hdr_bits flags (Z.lor 0x10 0x03)) psh) 65535 check.

Lemma craft_spec th id sa da sp dp sq ack flags psh cur recent n : th_ok th →
  ∃ check th', Gen.craft th id sa da sp dp sq ack flags psh cur recent n
    = Some (headers th (u16 (40 + Gen.cal_opt_len flags + n)) id sa da sp dp sq ack flags psh check, th')
  ∧ sends th [] th'
  ∧ Gen.th_tail th' = Gen.generate_opt cur flags recent ++ drop (Z.to_nat (Gen.cal_opt_len flags)) (Gen.th_tail th)
  ∧ check = Gen.tcp_checksum (u16 (40 + Gen.cal_opt_len flags + n)) sa da
              (tcp_header (swap16 sp) (swap16 dp) sq ack (Z.shiftr (20 + Gen.cal_opt_len flags) 2)
                 (Z.lor (hdr_bits flags (Z.lor 0x10 0x03)) psh) 65535 0 ++ Gen.th_tail th').
Proof.
  intros Ho. pose proof (to_tail _ Ho). pose proof (opt_length cur flags recent). destruct (opt_len_bounds flags) as [? _].
  unfold Gen.craft. rewrite mem_write_ok by lia. cbn [mbind option_bind]. do 2 eexists. split; [reflexivity|].
  assert (Z.to_nat (Gen.cal_opt_len flags) = length (Gen.generate_opt cur flags recent)) as El by lia.
  assert (list_inserts (Z.to_nat 0) (Gen.generate_opt cur flags recent) (Gen.th_tail th)
          = Gen.generate_opt cur flags recent ++ drop (Z.to_nat (Gen.cal_opt_len flags)) (Gen.th_tail th)) as Et.
  { rewrite El. rewrite <- (take_drop (length (Gen.generate_opt cur flags recent)) (Gen.th_tail th)) at 1.
    apply list_inserts_0_r. rewrite length_take. lia. }
  rec_simpl. split; [|done]. destruct Ho. split; rec_simpl; try done; [|by rewrite app_nil_r]. split; rec_simpl; try done. by rewrite length_inserts.
Qed.

Definition bits (flags psh : Z) : Z := Z.lor (hdr_bits flags (Z.lor 0x10 0x03)) psh.
Lemma reads_frame e th tot id sq ack flags psh check c opts :
  length (Gen.th_eth th) = 14%nat → is_u32 (e_saddr e) → is_u32 (e_daddr e) → is_u32 sq → is_u32 ack →
  Z.of_nat (length opts) = Gen.cal_opt_len flags →
  (has (bits flags psh) TCP_FLAG_SYN, has (bits flags psh) TCP_FLAG_FIN, has (bits flags psh) TCP_FLAG_ACK, has (bits flags psh) TCP_FLAG_RST)
  = (c_syn c, c_fin c, c_ack c, false) → c_seq c = sq → c_ackno c = ack →
  reads e c ((if c2s c then headers th tot id (e_saddr e) (e_daddr e) (e_sport e) (e_dport e) sq ack flags psh check
              else headers th tot id (e_daddr e) (e_saddr e) (e_dport e) (e_sport e) sq ack flags psh check) ++ opts ++ c_payload c).
Proof.
  intros He Hs Hd Hq Ha Ho Hb Es Ea. destruct (opt_len_bounds flags) as (?&Ed&Hdo). injection Hb as B1 B2 B3 B4.
  set (sa := if c2s c then e_saddr e else e_daddr e). set (da := if c2s c then e_daddr e else e_saddr e).
  set (sp := if c2s c then e_sport e else e_dport e). set (dp := if c2s c then e_dport e else e_sport e).
  assert ((if c2s c then headers th tot id (e_saddr e) (e_daddr e) (e_sport e) (e_dport e) sq ack flags psh check
           else headers th tot id (e_daddr e) (e_saddr e) (e_dport e) (e_sport e) sq ack flags psh check)
          = headers th tot id sa da sp dp sq ack flags psh check) as -> by (unfold sa, da, sp, dp; by destruct (c2s c)).
  assert (is_u32 sa ∧ is_u32 da) as [Hsa Hda] by (unfold sa, da; by destruct (c2s c)).
  unfold headers, reads. rewrite <- !app_assoc, drop_app_length' by done. fold (bits flags psh).
  rewrite view_headers by (done || apply swap16_range || lia). eexists. split; [reflexivity|]. cbn [g_saddr g_daddr g_source g_dest g_syn g_fin g_ack g_rst g_seq g_ack_seq g_payload g_payloadlen].
  rewrite B1, B2, B3, B4, Es, Ea. split; [unfold sa, da, sp, dp; by destruct (c2s c)|]. split; [done|]. split; [done|]. split; [done|]. split.
  - rewrite Ed, !app_assoc. apply drop_app_length'. rewrite !length_app, length_ip_header, length_tcp_header. lia.
  - rewrite Ed, !length_app, length_ip_header, length_tcp_header. lia.
Qed.

(** A packet without data. *)
Lemma emit_spec th e c id sa da sp dp flags cur recent :
  th_ok th → is_u32 (e_saddr e) → is_u32 (e_daddr e) → is_u32 (c_seq c) → is_u32 (c_ackno c) → c_payload c = [] →
  (has (bits flags 0) TCP_FLAG_SYN, has (bits flags 0) TCP_FLAG_FIN, has (bits flags 0) TCP_FLAG_ACK, has (bits flags 0) TCP_FLAG_RST)
  = (c_syn c, c_fin c, c_ack c, false) →
  (sa, da, sp, dp) = (if c2s c then (e_saddr e, e_daddr e, e_sport e, e_dport e) else (e_daddr e, e_saddr e, e_dport e, e_sport e)) →
  ∃ h th1 th2 f, Gen.craft th id sa da sp dp (c_seq c) (c_ackno c) flags 0 cur recent 0 = Some (h, th1)
    ∧ Gen.transmit opt th1 h (Gen.cal_opt_len flags) = Some th2 ∧ sends th [f] th2 ∧ reads e c f.
Proof.
  intros Ho Hs Hd Hq Ha Hp Hb Hdir. destruct (opt_len_bounds flags) as (?&_). pose proof (opt_length cur flags recent) as Hl.
  destruct (craft_spec th id sa da sp dp (c_seq c) (c_ackno c) flags 0 cur recent 0 Ho) as (check&th1&E1&S1&T1&_).
  destruct (transmit_spec th1 (headers th (u16 (40 + Gen.cal_opt_len flags + 0)) id sa da sp dp (c_seq c) (c_ackno c) flags 0 check)
    (Gen.cal_opt_len flags) (se_ok _ _ _ S1) ltac:(lia)) as (th2&E2&S2&_).
  do 4 eexists. split; [exact E1|]. split; [exact E2|]. split; [exact (sends_trans _ _ _ _ _ S1 S2)|].
  rewrite T1. rewrite take_app_length' by lia. pose proof (reads_frame e th (u16 (40 + Gen.cal_opt_len flags + 0)) id (c_seq c) (c_ackno c) flags 0 check c
    (Gen.generate_opt cur flags recent) (to_eth _ Ho) Hs Hd Hq Ha Hl Hb eq_refl eq_refl) as Hr.
  rewrite Hp, app_nil_r in Hr. destruct (c2s c); injection Hdir as -> -> -> ->; exact Hr.
Qed.

(** ** One call *)

(** A node whose data can be sent: one byte behind the data can be read. *)
Record node_ok node : Prop := {
  no_len : 0 <= Gen.nd_len node < Z.of_nat (length (Gen.tot_buf node));
  no_max : Gen.nd_len node < 2147483648;
  no_bytes : Forall (λ b, is_u8 b) (Gen.tot_buf node)
}.
Definition ends_of node : endpoints := mk_ends (Gen.nd_saddr node) (Gen.nd_daddr node) (Gen.nd_sport node) (Gen.nd_dport node).
Definition data_of node : list Z := take (Z.to_nat (Gen.nd_len node)) (Gen.tot_buf node).

Definition at_phase node (ph : phase) : Prop :=
  match ph with
  | PClosed => Gen.nd_state node = Gen.TCP_ST_CLOSED ∧ Gen.nd_offset node = 0
  | PSynSent x => Gen.nd_state node = Gen.TCP_ST_SYN_SENT ∧ Gen.nd_offset node = 0 ∧ Gen.nd_seq node = x
  | PSynRcvd x y => Gen.nd_state node = Gen.TCP_ST_SYN_RCVD ∧ Gen.nd_offset node = 0 ∧ Gen.nd_seq node = x ∧ Gen.nd_ack_seq node = y
  | PData x y off => Gen.nd_state node = Gen.TCP_ST_ESTABLISHED ∧ Gen.nd_offset node = off ∧ 0 <= off <= Gen.nd_len node
      ∧ Gen.nd_seq node = x ⊞ (1 + off) ∧ Gen.nd_ack_seq node = y
  | PClosing x y => Gen.nd_state node = Gen.TCP_ST_CLOSING ∧ Gen.nd_seq node = x ⊞ (1 + Gen.nd_len node) ∧ Gen.nd_ack_seq node = y
  | PFin1 x y => Gen.nd_state node = Gen.TCP_ST_FIN_SENT_1 ∧ Gen.nd_seq node = x ⊞ (1 + Gen.nd_len node) ∧ Gen.nd_ack_seq node = y
  | PFin2 x y => Gen.nd_state node = Gen.TCP_ST_FIN_SENT_2 ∧ Gen.nd_seq node = x ⊞ (1 + Gen.nd_len node) ∧ Gen.nd_ack_seq node = y
  end.

Definition in_phase node (ph : phase) : Prop :=
  is_u32 (Gen.nd_saddr node) ∧ is_u32 (Gen.nd_daddr node) ∧ is_u32 (Gen.nd_seq node) ∧ is_u32 (Gen.nd_ack_seq node) ∧ at_phase node ph.
Lemma in_phase_intro node ph : is_u32 (Gen.nd_saddr node) → is_u32 (Gen.nd_daddr node) → is_u32 (Gen.nd_seq node) →
  is_u32 (Gen.nd_ack_seq node) → at_phase node ph → in_phase node ph.
Proof. done. Qed.

(** The call for the stream [i] in phase [ph] has made the packets of [cs] and
    left the stream in phase [ph'], with the same data and addresses. *)
Definition advances th (i : nat) node (cs : list conv_seg) ph' th' : Prop :=
  ∃ fs node', th_ok th' ∧ Gen.log th' = Gen.log th ++ fs ∧ Forall2 (reads (ends_of node)) cs fs
    ∧ Gen.nodes th' = <[i := node']> (Gen.nodes th) ∧ ends_of node' = ends_of node ∧ node_ok node'
    ∧ data_of node' = data_of node ∧ Gen.nd_len node' = Gen.nd_len node ∧ in_phase node' ph'.

Context (shift : list Z) (nb_stream n_parts : Z).
Local Abbreviation send_packet := (Gen.send_packet opt shift nb_stream n_parts).
Hypothesis shift_ok : sunday_pre [13; 10; 13; 10] = Some shift.

Lemma u32_seq_succ x : u32 (u32 (x + 0) + 1) = u32 (x + 1).
Proof. ulia. Qed.

Lemma advances_intro th th0 i node cs ph' th2 fs node' :
  Gen.nodes th0 = Gen.nodes th → Gen.log th0 = Gen.log th → sends th0 fs th2 → Forall2 (reads (ends_of node)) cs fs →
  ends_of node' = ends_of node → node_ok node → Gen.tot_buf node' = Gen.tot_buf node → Gen.nd_len node' = Gen.nd_len node →
  in_phase node' ph' → advances th i node cs ph' (th2 <| Gen.nodes := <[i := node']> (Gen.nodes th2) |>).
Proof.
  intros En El [[] Hn Hc He Hl] Hr Ee [] Eb Eln Hp. exists fs, node'. split; [by split|]. split; [by rewrite <- El|]. split; [done|].
  split; [by rewrite <- En, <- Hn|]. split; [done|]. split; [by split; rewrite ?Eb, ?Eln|]. split; [by unfold data_of; rewrite Eb, Eln|done].
Qed.
Lemma th_ok_world th w : th_ok th → th_ok (th <| Gen.th_w := w |>).
Proof. intros []. by split. Qed.
Hint Resolve th_ok_world u32_range : core.

(** The first three calls: the handshake. *)
Ltac made E1 E2 := rec_simpl; rewrite E1; cbn [mbind option_bind]; rewrite E2; cbn [mbind option_bind].
Lemma call_syn th i node : th_ok th → Gen.nodes th !! i = Some node → node_ok node → in_phase node PClosed →
  ∃ x th', send_packet th i = Some th' ∧ advances th i node [syn x] (PSynSent x) th'.
Proof.
  intros Ho Hi Hn (Hs&Hd&Hq&Ha&Est&Eo). unfold Gen.send_packet. rewrite Hi. cbn [mbind option_bind]. rewrite Est, Eo. cbn [Z.eqb].
  unfold Gen.send_syn. rewrite Est. unfold Gen.set_start_ts. destruct (Gen.time_ms (Gen.th_w th)) as [t w].
  destruct (emit_spec (th <| Gen.th_w := w |>) (ends_of node) (syn (Gen.nd_seq node)) (Gen.nd_id node) (Gen.nd_saddr node) (Gen.nd_daddr node)
    (Gen.nd_sport node) (Gen.nd_dport node) TCP_FLAG_SYN (u32 t) 0) as (h&th1&th2&f&E1&E2&S2&R2); auto; try done.
  cbn [c_seq c_ackno syn] in E1. made E1 E2. do 2 eexists. split; [reflexivity|].
  apply (advances_intro th (th <| Gen.th_w := w |>) _ _ _ _ _ [f]); try done. by repeat constructor.
Qed.

Lemma call_syn_ack th i node x : th_ok th → Gen.nodes th !! i = Some node → node_ok node → in_phase node (PSynSent x) →
  ∃ y th', send_packet th i = Some th' ∧ advances th i node [syn_ack x y] (PSynRcvd x y) th'.
Proof.
  intros Ho Hi Hn (Hs&Hd&Hq&Ha&Est&Eo&Ex). unfold Gen.send_packet. rewrite Hi. cbn [mbind option_bind]. rewrite Est.
  unfold Gen.send_syn. rewrite Est. unfold Gen.draw. destruct (Gen.prand (Gen.th_w th)) as [v w].
  set (y := u32 (u32 v mod 100000000 + 10000000)).
  destruct (emit_spec (th <| Gen.th_w := w |>) (ends_of node) (syn_ack x y) (Gen.rcv_id node) (Gen.nd_daddr node) (Gen.nd_saddr node)
    (Gen.nd_dport node) (Gen.nd_sport node) Gen.SYN_ACK (Gen.ts_peer node) (Gen.nd_ts node)) as (h&th1&th2&f&E1&E2&S2&R2); auto; try done; try apply u32_range.
  cbn [c_seq c_ackno syn_ack] in E1. rewrite <- Ex in E1. made E1 E2. exists y. eexists. split; [reflexivity|].
  apply (advances_intro th (th <| Gen.th_w := w |>) _ _ _ _ _ [f]); try done; [by repeat constructor|].
  by apply in_phase_intro; try apply u32_range.
Qed.

Lemma call_ack th i node x y : th_ok th → Gen.nodes th !! i = Some node → node_ok node → in_phase node (PSynRcvd x y) →
  ∃ th', send_packet th i = Some th' ∧ advances th i node [ack_to x y] (PData x y 0) th'.
Proof.
  intros Ho Hi Hn (Hs&Hd&Hq&Ha&Est&Eo&Ex&Ey). unfold Gen.send_packet. rewrite Hi. cbn [mbind option_bind]. rewrite Est.
  unfold Gen.send_syn. rewrite Est.
  destruct (emit_spec th (ends_of node) (ack_to x y) (u16 (Gen.nd_id node + 1)) (Gen.nd_saddr node) (Gen.nd_daddr node)
    (Gen.nd_sport node) (Gen.nd_dport node) TCP_FLAG_ACK (Gen.nd_ts node) (Gen.ts_peer node)) as (h&th1&th2&f&E1&E2&S2&R2); auto; try done; try apply u32_range.
  { cbn. by subst. }
  cbn [c_seq c_ackno ack_to] in E1. rewrite <- Ex, <- Ey in E1. made E1 E2. eexists. split; [reflexivity|].
  apply (advances_intro th th _ _ _ _ _ [f]); try done; [by repeat constructor|].
  apply in_phase_intro; rec_simpl; try done; try apply u32_range. split_and!; try done; [apply Hn|by rewrite <- Ex].
Qed.

(** The fourth kind of call: data, and the acknowledgement of it. *)
Lemma get_data_len_range node : 40 <= Gen.get_data_len opt node n_parts <= Gen.MAX_SEG_SIZE.
Proof. unfold Gen.get_data_len, Gen.MAX_SEG_SIZE. repeat case_match; try lia. Qed.

Lemma data_length_spec node type : node_ok node → 0 <= Gen.nd_offset node <= Gen.nd_len node →
  ∃ n, Gen.data_length opt node type shift n_parts = Some n ∧ 4 <= n <= Gen.MAX_SEG_SIZE.
Proof.
  intros Hn Hoff. pose proof (get_data_len_range node) as Hg. destruct Hn as [Hl Hm Hb]. unfold Gen.data_length. destruct type.
  { eexists. split; [done|]. lia. }
  destruct (sunday_pre_spec [13; 10; 13; 10]) as (shift'&E&Hs); [repeat constructor; done|]. assert (shift' = shift) as -> by congruence.
  destruct (match_loop_spec shift (drop (Z.to_nat (Gen.nd_offset node)) (Gen.tot_buf node)) [13; 10; 13; 10] (Gen.nd_len node - Gen.nd_offset node) 0 Hs
    (Forall_drop _ _ _ Hb) ltac:(rewrite length_drop; lia) (S (S (Z.to_nat (Gen.nd_len node - Gen.nd_offset node)))) 0) as (r&Er&Hr); try lia.
  unfold sunday_match. change (Z.of_nat (length [13; 10; 13; 10])) with 4 in *. cbn [app] in Er. unfold Gen.header_end. rewrite Er. cbn [mbind option_bind].
  eexists. split; [reflexivity|]. replace (u32 r <? 0) with false by (symmetry; apply Z.ltb_ge; apply u32_range).
  destruct (Z.gtb_spec (u32 r) Gen.MAX_SEG_SIZE); [lia|]. split; [|lia].
  destruct Hr as [(pos&[Hp _]&Hpl&->&_)|[-> _]]; [|done]. change (Z.of_nat (length [13; 10; 13; 10])) with 4 in *. rewrite u32_id by lia. lia.
Qed.

Lemma send_ack_spec th node x y off : th_ok th → is_u32 (Gen.nd_saddr node) → is_u32 (Gen.nd_daddr node) →
  Gen.nd_seq node = x ⊞ (1 + off) → Gen.nd_ack_seq node = y → is_u32 y →
  ∃ f node' th', Gen.send_ack opt th node = Some (node', th') ∧ sends th [f] th' ∧ reads (ends_of node) (data_ack x y off) f
    ∧ node' = node <| Gen.rcv_id := u16 (Gen.rcv_id node + 1) |> <| Gen.ts_peer := Gen.ts_peer node ⊞ 1 |>.
Proof.
  intros Ho Hs Hd Eq Ey Hy. unfold Gen.send_ack.
  destruct (emit_spec th (ends_of node) (data_ack x y off) (Gen.rcv_id node) (Gen.nd_daddr node) (Gen.nd_saddr node)
    (Gen.nd_dport node) (Gen.nd_sport node) TCP_FLAG_ACK (Gen.ts_peer node ⊞ 1) (Gen.nd_ts node)) as (h&th1&th2&f&E1&E2&S2&R2); auto; try done; try apply u32_range.
  cbn [c_seq c_ackno data_ack] in E1. rewrite <- Eq, <- Ey in E1. made E1 E2. do 3 eexists. split; [reflexivity|]. by subst.
Qed.

(** The payload behind the options. *)
Lemma take_payload (opts tail bs : list Z) :
  (length opts + length bs <= length tail)%nat →
  take (length opts + length bs) (list_inserts (length opts) bs (opts ++ drop (length opts) tail)) = opts ++ bs.
Proof.
  intros Hl. rewrite <- (Nat.add_0_r (length opts)) at 2. rewrite list_inserts_app_r, take_app_add. f_equal.
  rewrite <- (take_drop (length bs) (drop (length opts) tail)). rewrite list_inserts_0_r by (rewrite length_take, length_drop; lia).
  by apply take_app_length'.
Qed.

(** What [send_data_pkt] sends, and how it leaves the stream. *)
Definition sent_data node (n : Z) : Gen.buf_node :=
  let rest_len := Gen.nd_len node - Gen.nd_offset node in
  let node := if rest_len <=? n then node <| Gen.nd_state := Gen.TCP_ST_CLOSING |> else node in
  let n := Z.min rest_len n in
  node <| Gen.nd_ts := Gen.nd_ts node ⊞ 1 |> <| Gen.nd_offset := Gen.nd_offset node + n |> <| Gen.nd_id := u16 (Gen.nd_id node + 1) |>
       <| Gen.nd_seq := Gen.nd_seq node ⊞ n |> <| Gen.rcv_id := u16 (Gen.rcv_id node + 1) |> <| Gen.ts_peer := Gen.ts_peer node ⊞ 1 |>.

Lemma send_data_pkt_spec th node n x y : th_ok th → node_ok node → 0 <= Gen.nd_offset node <= Gen.nd_len node → 0 <= n <= Gen.MAX_SEG_SIZE →
  is_u32 (Gen.nd_saddr node) → is_u32 (Gen.nd_daddr node) → Gen.nd_seq node = x ⊞ (1 + Gen.nd_offset node) → Gen.nd_ack_seq node = y → is_u32 y →
  let off := Gen.nd_offset node in
  let bs := take (Z.to_nat n) (drop (Z.to_nat off) (data_of node)) in
  ∃ f g th', Gen.send_data_pkt opt th node n = Some (sent_data node n, th') ∧ sends th [f; g] th'
    ∧ reads (ends_of node) (data_at x y off bs) f ∧ reads (ends_of node) (data_ack x y (off + Z.of_nat (length bs))) g.
Proof.
  intros Ho [Hl Hm Hb] Hoff Hn Hs Hd Eq Ey Hy off bs. set (rest_len := Gen.nd_len node - Gen.nd_offset node).
  set (k := Z.min rest_len n). assert (0 <= k <= 1435) as Hk by (unfold Gen.MAX_SEG_SIZE in *; lia).
  assert (bs = take (Z.to_nat k) (drop (Z.to_nat off) (Gen.tot_buf node))) as Ebs.
  { unfold bs, data_of. rewrite skipn_firstn_comm, take_take. f_equal. lia. }
  assert (Z.of_nat (length bs) = k) as Ebl by (rewrite Ebs, length_take, length_drop; lia).
  unfold Gen.send_data_pkt. rewrite (u32_id (Gen.nd_len node - _)) by lia. fold rest_len.
  set (node1 := if rest_len <=? n then node <| Gen.nd_state := Gen.TCP_ST_CLOSING |> else node).
  assert ((if rest_len <=? n then (rest_len, node <| Gen.nd_state := Gen.TCP_ST_CLOSING |>) else (n, node)) = (k, node1)) as ->.
  { unfold k, node1. destruct (Z.leb_spec rest_len n); f_equal; lia. }
  assert (ends_of node1 = ends_of node ∧ Gen.nd_id node1 = Gen.nd_id node ∧ Gen.nd_seq node1 = Gen.nd_seq node ∧ Gen.nd_ack_seq node1 = Gen.nd_ack_seq node
    ∧ Gen.tot_buf node1 = Gen.tot_buf node ∧ Gen.nd_offset node1 = Gen.nd_offset node) as (Ee&Ei&Es&Ea&Et&Eo) by (unfold node1; by destruct (_ <=? _)).
  unfold ends_of in Ee. injection Ee as Ea1 Ea2 Ep1 Ep2. rec_simpl. rewrite Ea1, Ea2, Ep1, Ep2, Ei, Es, Ea, Et, Eo.
  destruct (craft_spec th (Gen.nd_id node) (Gen.nd_saddr node) (Gen.nd_daddr node) (Gen.nd_sport node) (Gen.nd_dport node) (Gen.nd_seq node)
    (Gen.nd_ack_seq node) TCP_FLAG_ACK Gen.PSH (Gen.nd_ts node1 ⊞ 1) (Gen.ts_peer node1) k Ho) as (check&th1&->&S1&T1&_).
  cbn [mbind option_bind]. rewrite mem_read_ok by lia. cbn [mbind option_bind]. fold off. rewrite <- Ebs.
  set (opts := Gen.generate_opt (Gen.nd_ts node1 ⊞ 1) TCP_FLAG_ACK (Gen.ts_peer node1)) in *.
  assert (length opts = 12%nat) as Eol by done. change (Gen.cal_opt_len TCP_FLAG_ACK) with 12 in *.
  pose proof (to_tail _ (se_ok _ _ _ S1)) as Htl. rewrite mem_write_ok by lia. cbn [mbind option_bind].
  set (th1' := th1 <| Gen.th_tail := _ |>).
  assert (th_ok th1') as Ho1 by (destruct S1 as [[] _ _ _ _]; split; unfold th1'; rec_simpl; rewrite ?length_inserts; done).
  assert (sends th [] th1') as S1' by (destruct S1; split; done).
  match goal with |- context [Gen.transmit opt th1' ?h _] => destruct (transmit_spec th1' h (12 + k) Ho1 ltac:(lia)) as (th2&->&S2&_) end.
  cbn [mbind option_bind]. rewrite (s32_id (off + k)) by lia.
  match goal with |- context [Gen.send_ack opt th2 ?nd] =>
    destruct (send_ack_spec th2 nd x y (off + k) (se_ok _ _ _ S2)) as (g&node'&th3&->&S3&R3&->) end; rec_simpl; try congruence.
  { rewrite Eq. fold off. clear. ulia. }
  do 3 eexists. split; [f_equal; f_equal|]. 2: split; [exact (sends_trans _ _ _ _ _ S1' (sends_trans _ _ _ _ _ S2 S3))|].
  { unfold sent_data. fold rest_len. fold k. unfold node1, off. by destruct (rest_len <=? n). }
  split; [|by rewrite Ebl; unfold ends_of in *; rec_simpl; rewrite Ea1, Ea2, Ep1, Ep2 in R3].
  unfold th1'. rec_simpl. rewrite T1. replace (Z.to_nat (12 + k)) with (length opts + length bs)%nat by lia.
  replace (Z.to_nat 12) with (length opts) by lia. rewrite take_payload by (pose proof (to_tail _ Ho); lia).
  pose proof (reads_frame (ends_of node) th (u16 (40 + 12 + k)) (Gen.nd_id node) (Gen.nd_seq node) (Gen.nd_ack_seq node) TCP_FLAG_ACK Gen.PSH check
    (data_at x y off bs) opts (to_eth _ Ho) Hs Hd) as Hr.
  cbn [c2s data_at c_payload ends_of e_saddr e_daddr e_sport e_dport] in Hr. apply Hr; try done; [rewrite Eq; apply u32_range|congruence].
Qed.

Lemma length_data_of node : node_ok node → Z.of_nat (length (data_of node)) = Gen.nd_len node.
Proof. intros []. unfold data_of. rewrite length_take. lia. Qed.

Lemma call_data th i node x y off : th_ok th → Gen.nodes th !! i = Some node → node_ok node → in_phase node (PData x y off) →
  ∃ c ph' th', send_packet th i = Some th'
    ∧ advances th i node [data_at x y off c; data_ack x y (off + Z.of_nat (length c))] ph' th'
    ∧ Z.of_nat (length c) <= Gen.MAX_SEG_SIZE
    ∧ ((ph' = PData x y (off + Z.of_nat (length c)) ∧ 4 <= Z.of_nat (length c) ∧ off + Z.of_nat (length c) < Gen.nd_len node
          ∧ c = take (length c) (drop (Z.to_nat off) (data_of node)))
       ∨ (ph' = PClosing x y ∧ c = drop (Z.to_nat off) (data_of node))).
Proof.
  intros Ho Hi Hn (Hs&Hd&Hq&Ha&Est&Eo&Hoff&Ex&Ey). subst off. unfold Gen.send_packet. rewrite Hi. cbn [mbind option_bind]. rewrite Est.
  destruct (Gen.get_pkt_type _ _) as [type cnt]. destruct (data_length_spec node type Hn Hoff) as (n&->&Hlen). cbn [mbind option_bind].
  set (th0 := th <| Gen.pkt_type_cnt := cnt |>). assert (th_ok th0) as Ho0 by (destruct Ho; by split).
  destruct (send_data_pkt_spec th0 node n x y Ho0 Hn Hoff ltac:(lia) Hs Hd Ex Ey ltac:(by subst)) as (f&g&th'&->&Hse&R1&R2). cbn [mbind option_bind].
  set (c := take (Z.to_nat n) (drop (Z.to_nat (Gen.nd_offset node)) (data_of node))) in *.
  pose proof (length_data_of _ Hn) as Hdl.
  assert (Z.of_nat (length c) = Z.min (Gen.nd_len node - Gen.nd_offset node) n) as Hcl by (unfold c; rewrite length_take, length_drop; lia).
  assert (∀ ph', in_phase (sent_data node n) ph' → advances th i node [data_at x y (Gen.nd_offset node) c;
      data_ack x y (Gen.nd_offset node + Z.of_nat (length c))] ph' (th' <| Gen.nodes := <[i := sent_data node n]> (Gen.nodes th') |>)) as Hadv.
  { intros ph' Hp. apply (advances_intro th th0 _ _ _ _ _ [f; g]); try done; [by repeat constructor|..];
    unfold sent_data; by destruct (_ <=? n). }
  assert (u32 (x ⊞ (1 + Gen.nd_offset node) + Z.of_nat (length c)) = x ⊞ (1 + (Gen.nd_offset node + Z.of_nat (length c)))) as Eseq by (clear; ulia).
  destruct (Z.leb_spec (Gen.nd_len node - Gen.nd_offset node) n) as [Hle|Hlt].
  - exists c, (PClosing x y). eexists. split; [reflexivity|]. split; [apply Hadv|split; [lia|right; split; [done|]]].
    + unfold sent_data. rewrite (proj2 (Z.leb_le _ _)) by done. apply in_phase_intro; rec_simpl; try done; try apply u32_range.
      split; [done|]. split; [|done]. rec_simpl. rewrite <- Hcl, Ex, Eseq. do 2 f_equal. lia.
    + unfold c. apply take_ge. rewrite length_drop. lia.
  - exists c, (PData x y (Gen.nd_offset node + Z.of_nat (length c))). eexists. split; [reflexivity|]. split; [apply Hadv|split; [lia|left; split_and!; [done|lia|lia|]]].
    + unfold sent_data. rewrite (proj2 (Z.leb_gt _ _)) by done. apply in_phase_intro; rec_simpl; try done; try apply u32_range.
      rewrite <- Hcl. split_and!; rec_simpl; try done; try lia. by rewrite Ex, Eseq.
    + unfold c at 1. f_equal. lia.
Qed.

(** The last three calls. *)
Lemma call_fin th i node x y : th_ok th → Gen.nodes th !! i = Some node → node_ok node → in_phase node (PClosing x y) →
  ∃ th', send_packet th i = Some th' ∧ advances th i node [fin x y (Gen.nd_len node)] (PFin1 x y) th'.
Proof.
  intros Ho Hi Hn (Hs&Hd&Hq&Ha&Est&Ex&Ey). unfold Gen.send_packet. rewrite Hi. cbn [mbind option_bind]. rewrite Est.
  unfold Gen.send_fin. rewrite Est.
  destruct (emit_spec th (ends_of node) (fin x y (Gen.nd_len node)) (Gen.nd_id node) (Gen.nd_saddr node) (Gen.nd_daddr node)
    (Gen.nd_sport node) (Gen.nd_dport node) Gen.FIN_ACK (Gen.nd_ts node ⊞ 1) (Gen.ts_peer node)) as (h&th1&th2&f&E1&E2&S2&R2); auto; try done; try apply u32_range.
  { cbn. by subst. }
  cbn [c_seq c_ackno fin] in E1. rewrite <- Ex, <- Ey in E1. made E1 E2. eexists. split; [reflexivity|].
  apply (advances_intro th th _ _ _ _ _ [f]); try done. by repeat constructor.
Qed.

Lemma call_fin_ack th i node x y : th_ok th → Gen.nodes th !! i = Some node → node_ok node → in_phase node (PFin1 x y) →
  ∃ th', send_packet th i = Some th' ∧ advances th i node [fin_ack x y (Gen.nd_len node)] (PFin2 x y) th'.
Proof.
  intros Ho Hi Hn (Hs&Hd&Hq&Ha&Est&Ex&Ey). unfold Gen.send_packet. rewrite Hi. cbn [mbind option_bind]. rewrite Est.
  unfold Gen.send_fin. rewrite Est.
  destruct (emit_spec th (ends_of node) (fin_ack x y (Gen.nd_len node)) (Gen.rcv_id node) (Gen.nd_daddr node) (Gen.nd_saddr node)
    (Gen.nd_dport node) (Gen.nd_sport node) Gen.FIN_ACK (Gen.ts_peer node) (Gen.nd_ts node)) as (h&th1&th2&f&E1&E2&S2&R2); auto; try done; try apply u32_range.
  { cbn. by subst. }
  assert (Gen.nd_seq node ⊞ 1 = x ⊞ (2 + Gen.nd_len node)) as Eq2 by (rewrite Ex; clear; ulia).
  cbn [c_seq c_ackno fin_ack] in E1. rewrite <- Eq2, <- Ey in E1. made E1 E2. eexists. split; [reflexivity|].
  apply (advances_intro th th _ _ _ _ _ [f]); try done. by repeat constructor.
Qed.

(** The stream is free again, perhaps with other data. *)
Lemma set_field_spec (w : W) node : ∃ node' w', Gen.set_field w node = (node', w') ∧ in_phase node' PClosed
  ∧ Gen.tup node' = Gen.tup node ∧ Gen.tot_buf node' = Gen.tot_buf node ∧ Gen.nd_len node' = Gen.nd_len node.
Proof.
  unfold Gen.set_field.
  destruct (Gen.draw w) as [v1 w1], (Gen.draw w1) as [v2 w2], (Gen.draw w2) as [v3 w3], (Gen.draw w3) as [v4 w4], (Gen.draw w4) as [v5 w5],
    (Gen.draw w5) as [v6 w6], (Gen.draw w6) as [v7 w7]. pose proof (u8_range v1). pose proof (u8_range v2).
  do 2 eexists. split; [reflexivity|]. split; [|done]. split; [|split; [|split; [apply u32_range|split; [apply u32_range|done]]]].
  - change (is_u32 (Gen.inet_addr4 10 0 (u8 v1) (u8 v2))). unfold Gen.inet_addr4. lia.
  - change (is_u32 (Gen.inet_addr4 10 1 (u8 v2) (u8 v1))). unfold Gen.inet_addr4. lia.
Qed.

(** All nodes are there; the streams below [nb_concur] are in some phase. *)
Record streams_ok th : Prop := {
  st_th : th_ok th;
  st_len : Z.of_nat (length (Gen.nodes th)) = nb_stream;
  st_nodes : Forall node_ok (Gen.nodes th);
  st_phase : ∀ i node, Gen.nodes th !! i = Some node → Z.of_nat i < Gen.nb_concur opt → ∃ ph, in_phase node ph
}.
Lemma exchange_spec th i node node0 : th_ok th → Z.of_nat (length (Gen.nodes th)) = nb_stream → Forall node_ok (Gen.nodes th) →
  Z.of_nat i < Gen.nb_concur opt → Gen.nodes th !! i = Some node0 → node_ok node → in_phase node PClosed →
  ∃ th' node', Gen.exchange opt th i node nb_stream = Some th' ∧ th_ok th' ∧ Gen.log th' = Gen.log th
    ∧ Z.of_nat (length (Gen.nodes th')) = nb_stream ∧ Forall node_ok (Gen.nodes th')
    ∧ Gen.nodes th' !! i = Some node' ∧ in_phase node' PClosed
    ∧ ∀ j, j ≠ i → Z.of_nat j < Gen.nb_concur opt → Gen.nodes th' !! j = Gen.nodes th !! j.
Proof.
  intros Ho Hl Hf Hi Hn0 Hn Hp. pose proof (lookup_lt_Some _ _ _ Hn0) as Hlt. unfold Gen.exchange.
  assert (Forall node_ok (<[i:=node]> (Gen.nodes th))) as Hf' by by apply Forall_insert.
  destruct (_ >? 10) eqn:Ed.
  2: { do 2 eexists. split; [reflexivity|]. rec_simpl. rewrite length_insert, list_lookup_insert_eq by done. destruct Ho.
       split_and!; try done. intros j Hj _. by rewrite list_lookup_insert_ne. }
  apply Z.gtb_lt in Ed. destruct (Gen.rand _) as [r w]. set (diff := nb_stream - Gen.nb_concur opt - 2) in *.
  pose proof (Z.mod_pos_bound r diff ltac:(lia)). set (k := Z.to_nat (r mod diff + Gen.nb_concur opt + 1)). rec_simpl.
  destruct (lookup_lt_is_Some_2 (Gen.nodes th) k) as [other Hk]; [lia|]. rewrite list_lookup_insert_ne by lia. rewrite Hk. cbn [mbind option_bind].
  pose proof (Forall_lookup_1 _ _ _ _ Hf Hk) as Hok. do 2 eexists. split; [reflexivity|]. rec_simpl. rewrite !length_insert.
  rewrite list_lookup_insert_ne by lia. rewrite list_lookup_insert_eq by (rewrite length_insert; done).
  destruct Ho, Hok, Hn. split_and!; try done.
  - repeat apply Forall_insert; by try split.
  - intros j Hj Hjn. by rewrite !list_lookup_insert_ne by lia.
Qed.

Lemma call_last_ack th i node x y : streams_ok th → Z.of_nat i < Gen.nb_concur opt → Gen.nodes th !! i = Some node → in_phase node (PFin2 x y) →
  ∃ f th' node', send_packet th i = Some th' ∧ streams_ok th' ∧ Gen.log th' = Gen.log th ++ [f]
    ∧ reads (ends_of node) (last_ack x y (Gen.nd_len node)) f ∧ Gen.nodes th' !! i = Some node' ∧ in_phase node' PClosed
    ∧ ∀ j, j ≠ i → Z.of_nat j < Gen.nb_concur opt → Gen.nodes th' !! j = Gen.nodes th !! j.
Proof.
  intros [Ho Hl Hf Hph] Hlt Hi (Hs&Hd&Hq&Ha&Est&Ex&Ey). pose proof (Forall_lookup_1 _ _ _ _ Hf Hi) as Hn.
  unfold Gen.send_packet. rewrite Hi. cbn [mbind option_bind]. rewrite Est. unfold Gen.send_fin. rewrite Est.
  assert (Gen.nd_seq node ⊞ 1 = x ⊞ (2 + Gen.nd_len node)) as Eq2 by (rewrite Ex; clear; ulia).
  destruct (emit_spec th (ends_of node) (last_ack x y (Gen.nd_len node)) (u16 (Gen.nd_id node + 1)) (Gen.nd_saddr node) (Gen.nd_daddr node)
    (Gen.nd_sport node) (Gen.nd_dport node) TCP_FLAG_ACK (Gen.nd_ts node) (Gen.ts_peer node)) as (h&th1&th2&f&E1&E2&S2&R2); auto; try done; try apply u32_range.
  cbn [c_seq c_ackno last_ack] in E1. rewrite <- Eq2, <- Ey in E1. made E1 E2.
  destruct (set_field_spec (Gen.th_w th2) (node <| Gen.nd_id := u16 (Gen.nd_id node + 1) |>)) as (node1&w&->&Hp1&_&Eb&En). destruct S2 as [Ho2 Hn2 _ _ Hl2].
  destruct (exchange_spec (th2 <| Gen.th_w := w |>) i node1 node) as (th'&node'&->&Ho'&Hl'&Hlen'&Hf'&Hi'&Hp'&Hj'); auto; rec_simpl; rewrite ?Hn2; try done.
  { destruct Hn. by split; rewrite ?Eb, ?En. }
  exists f, th', node'. split; [done|]. split; [|split; [by rewrite Hl'|split; [done|split; [done|split; [done|]]]]].
  - split; try done. intros j nd Hj Hjl. destruct (decide (j = i)) as [->|Hne]; [|rewrite Hj' in Hj by done; rec_simpl; rewrite Hn2 in Hj; eauto].
    rewrite Hi' in Hj. injection Hj as <-. eauto.
  - intros j Hj Hjl. rewrite Hj' by done. rec_simpl. by rewrite Hn2.
Qed.

(** ** All calls *)

(** An upper bound of the calls that a stream needs until it is over. *)
Definition budget (len : Z) (ph : phase) : Z :=
  match ph with
  | PClosed => len / 4 + 7 | PSynSent _ => len / 4 + 6 | PSynRcvd _ _ => len / 4 + 5
  | PData _ _ off => (len - off) / 4 + 4 | PClosing _ _ => 3 | PFin1 _ _ => 2 | PFin2 _ _ => 1
  end.

(** The call for the stream [i], in the phase [ph], has made the packets [fs];
    the conversation goes on or is over. *)
Definition goes_on node (ph : phase) (cs : list conv_seg) node' : Prop :=
  ∃ ph', in_phase node' ph' ∧ ends_of node' = ends_of node ∧ data_of node' = data_of node ∧ Gen.nd_len node' = Gen.nd_len node
    ∧ budget (Gen.nd_len node) ph' < budget (Gen.nd_len node) ph ∧ ∀ l, rest (data_of node) ph' l → rest (data_of node) ph (cs :: l).
Definition is_over node (ph : phase) (cs : list conv_seg) node' : Prop := rest (data_of node) ph [cs] ∧ in_phase node' PClosed.
Record called th (i : nat) node (ph : phase) th' (fs : list (list Z)) cs node' : Prop := {
  ca_ok : streams_ok th';
  ca_log : Gen.log th' = Gen.log th ++ fs;
  ca_reads : Forall2 (reads (ends_of node)) cs fs;
  ca_node : Gen.nodes th' !! i = Some node';
  ca_others : ∀ j, j ≠ i → Z.of_nat j < Gen.nb_concur opt → Gen.nodes th' !! j = Gen.nodes th !! j;
  ca_next : goes_on node ph cs node' ∨ is_over node ph cs node'
}.

Lemma called_advances th i node ph cs ph' th' : streams_ok th → Gen.nodes th !! i = Some node → send_packet th i = Some th' →
  advances th i node cs ph' th' → budget (Gen.nd_len node) ph' < budget (Gen.nd_len node) ph →
  (∀ l, rest (data_of node) ph' l → rest (data_of node) ph (cs :: l)) →
  ∃ th' fs cs node', send_packet th i = Some th' ∧ called th i node ph th' fs cs node'.
Proof.
  intros [Ho Hl Hf Hph] Hi E (fs&node'&Ho'&Hlog&Hr&Hnodes&Ee&Hn'&Ed&En&Hp') Hb Hrest. exists th', fs, cs, node'. split; [done|].
  pose proof (lookup_lt_Some _ _ _ Hi). split; try done; [|..].
  - split; [done|by rewrite Hnodes, length_insert|rewrite Hnodes; by apply Forall_insert|]. rewrite Hnodes. intros j nd Hj Hjl.
    apply list_lookup_insert_Some in Hj as [(<-&<-&_)|[_ Hj]]; eauto.
  - rewrite Hnodes. by apply list_lookup_insert_eq.
  - intros. rewrite Hnodes. by apply list_lookup_insert_ne.
  - left. by exists ph'.
Qed.

Lemma call_any th i node ph : streams_ok th → Z.of_nat i < Gen.nb_concur opt → Gen.nodes th !! i = Some node → in_phase node ph →
  ∃ th' fs cs node', send_packet th i = Some th' ∧ called th i node ph th' fs cs node'.
Proof.
  intros Hst Hlt Hi Hph. pose proof Hst as [Ho Hl Hf _]. pose proof (Forall_lookup_1 _ _ _ _ Hf Hi) as Hn. pose proof (length_data_of _ Hn) as Hdl.
  destruct ph as [|x|x y|x y off|x y|x y|x y].
  - destruct (call_syn _ _ _ Ho Hi Hn Hph) as (x&th'&E&Ha). eapply called_advances; eauto; [simpl; lia|by constructor].
  - destruct (call_syn_ack _ _ _ _ Ho Hi Hn Hph) as (y&th'&E&Ha). eapply called_advances; eauto; [simpl; lia|by constructor].
  - destruct (call_ack _ _ _ _ _ Ho Hi Hn Hph) as (th'&E&Ha). eapply called_advances; eauto; [simpl; rewrite Z.sub_0_r; lia|by constructor].
  - destruct (call_data _ _ _ _ _ _ Ho Hi Hn Hph) as (c&ph'&th'&E&Ha&Hc&Hcase). destruct Hph as (_&_&_&_&_&_&Hoff&_).
    destruct Hcase as [(->&Hc4&Hcl&Ec)|[-> Ec]]; eapply called_advances; eauto.
    + simpl. clear -Hc4. Z.div_mod_to_equations. lia.
    + intros l Hr. apply rest_data; try done; lia.
    + simpl. clear -Hoff. Z.div_mod_to_equations. lia.
    + intros l Hr. apply rest_last; try done; lia.
  - destruct (call_fin _ _ _ _ _ Ho Hi Hn Hph) as (th'&E&Ha). rewrite <- Hdl in Ha. eapply called_advances; eauto; [simpl; lia|by constructor].
  - destruct (call_fin_ack _ _ _ _ _ Ho Hi Hn Hph) as (th'&E&Ha). rewrite <- Hdl in Ha. eapply called_advances; eauto; [simpl; lia|by constructor].
  - destruct (call_last_ack _ _ _ _ _ Hst Hlt Hi Hph) as (f&th'&node'&E&Hst'&Hlog&Hr&Hi'&Hp'&Hj').
    exists th', [f], [last_ack x y (Gen.nd_len node)], node'. split; [done|]. split; try done; [by repeat constructor|].
    right. split; [|done]. rewrite <- Hdl. constructor.
Qed.

(** A sequence of calls, with the packets that each one hands over; before each
    one the environment may change. *)
Fixpoint calls (js : list (nat * (W → W))) th : option (list (nat * list (list Z)) * thread) :=
  match js with
  | [] => Some ([], th)
  | (i, f) :: js =>
    th' ← send_packet (th <| Gen.th_w := f (Gen.th_w th) |>) i;
    '(tr, th'') ← calls js th';
    Some ((i, drop (length (Gen.log th)) (Gen.log th')) :: tr, th'')
  end.
(** The packets of the stream [i], call by call. *)
Definition own (i : nat) (tr : list (nat * list (list Z))) : list (list (list Z)) := (filter (λ p, p.1 = i) tr).*2.

Lemma own_cons i j fs tr : own i ((j, fs) :: tr) = if decide (j = i) then fs :: own i tr else own i tr.
Proof. unfold own. rewrite filter_cons. simpl. by destruct (decide (j = i)). Qed.

(** One call of the sequence. *)
Definition active (j : nat) : Prop := Z.of_nat j < Gen.nb_concur opt ∧ Z.of_nat j < nb_stream.
Lemma streams_ok_world th w : streams_ok th → streams_ok (th <| Gen.th_w := w |>).
Proof. intros [[]]. by repeat split. Qed.
Lemma called_world th w i node ph th' fs cs node' : called (th <| Gen.th_w := w |>) i node ph th' fs cs node' → called th i node ph th' fs cs node'.
Proof. intros []. by split. Qed.
Lemma calls_one th j f js node ph : streams_ok th → Z.of_nat j < Gen.nb_concur opt → Gen.nodes th !! j = Some node → in_phase node ph →
  ∃ th' fs cs node', called th j node ph th' fs cs node' ∧ send_packet (th <| Gen.th_w := f (Gen.th_w th) |>) j = Some th'
    ∧ ∀ tr th'', calls js th' = Some (tr, th'') → calls ((j, f) :: js) th = Some ((j, fs) :: tr, th'').
Proof.
  intros Hst Hj Hn Hph. destruct (call_any _ _ _ _ (streams_ok_world _ (f (Gen.th_w th)) Hst) Hj Hn Hph) as (th'&fs&cs&node'&E&Hc).
  exists th', fs, cs, node'. split; [by apply called_world in Hc|]. split; [done|]. intros tr th'' Et. cbn [calls]. rewrite E. cbn [mbind option_bind]. rewrite Et.
  cbn [mbind option_bind]. by rewrite (ca_log _ _ _ _ _ _ _ _ (called_world _ _ _ _ _ _ _ _ _ Hc)), drop_app_length.
Qed.
Lemma active_node th j : streams_ok th → active j → ∃ node ph, Gen.nodes th !! j = Some node ∧ in_phase node ph.
Proof.
  intros Hst [Hj Hjn]. destruct (lookup_lt_is_Some_2 (Gen.nodes th) j) as [node Hn]; [pose proof (st_len _ Hst); lia|].
  destruct (st_phase _ Hst _ _ Hn Hj) as [ph Hph]. eauto.
Qed.

Lemma calls_total js : ∀ th, streams_ok th → Forall active js.*1 → ∃ tr th', calls js th = Some (tr, th') ∧ streams_ok th'.
Proof.
  induction js as [|[j f] js IH]; intros th Hst Hb; [by exists [], th|]. apply Forall_cons in Hb as [Hj Hb].
  destruct (active_node th j Hst Hj) as (node&ph&Hn&Hph). destruct (calls_one th j f js node ph Hst (proj1 Hj) Hn Hph) as (th'&fs&cs&node'&Hc&_&Hgo).
  destruct (IH th' (ca_ok _ _ _ _ _ _ _ _ Hc) Hb) as (tr&th''&E&Hst'). eauto.
Qed.

Lemma budget_pos node ph : in_phase node ph → 0 <= Gen.nd_len node → 0 < budget (Gen.nd_len node) ph.
Proof. intros (_&_&_&_&Hp) Hl. destruct ph; cbn [budget at_phase] in *; try lia; pose proof (Z.div_pos (Gen.nd_len node) 4); try lia.
  pose proof (Z.div_pos (Gen.nd_len node - off) 4). lia. Qed.

(** The calls for the stream [i]. *)
Definition turns (i : nat) (js : list (nat * (W → W))) : Z := Z.of_nat (length (filter (λ j, j = i) js.*1)).
Lemma turns_cons i j f js : turns i ((j, f) :: js) = (if decide (j = i) then 1 else 0) + turns i js.
Proof. unfold turns. rewrite fmap_cons, filter_cons. simpl. destruct (decide (j = i)); cbn [length]; lia. Qed.
Lemma turns_none i js : Forall active js.*1 → ¬ Z.of_nat i < Gen.nb_concur opt → turns i js = 0.
Proof.
  intros Hb Hi. induction js as [|[j f] js IH]; [done|]. apply Forall_cons in Hb as [[Hj _] Hb]. simpl in Hj.
  rewrite turns_cons, decide_False, IH by (try done; lia). lia.
Qed.

Lemma calls_conversation js : ∀ th i node ph, streams_ok th → Forall active js.*1 → Gen.nodes th !! i = Some node → in_phase node ph →
  budget (Gen.nd_len node) ph <= turns i js →
  ∃ tr th' (k : nat) css, calls js th = Some (tr, th') ∧ streams_ok th' ∧ Z.of_nat k <= budget (Gen.nd_len node) ph
    ∧ rest (data_of node) ph css ∧ Forall2 (Forall2 (reads (ends_of node))) css (take k (own i tr)).
Proof.
  induction js as [|[j f] js IH]; intros th i node ph Hst Hb Hi Hph Hk; pose proof (no_len _ (Forall_lookup_1 _ _ _ _ (st_nodes _ Hst) Hi)) as Hlen;
    pose proof (budget_pos _ _ Hph ltac:(lia)) as Hpos; [unfold turns in Hk; simpl in Hk; lia|].
  destruct (decide (Z.of_nat i < Gen.nb_concur opt)) as [Hil|Hil]; [|rewrite turns_none in Hk by done; lia].
  apply Forall_cons in Hb as [Hj Hb]. simpl in Hj, Hb. rewrite turns_cons in Hk. destruct (decide (j = i)) as [->|Hne].
  - destruct (calls_one th i f js node ph Hst Hil Hi Hph) as (th'&fs&cs&node'&Hc&_&Hgo). destruct Hc as [Hst' Hlog Hr Hi' Hoth Hnext].
    destruct Hnext as [(ph'&Hp'&Ee&Ed&El&Hbud&Hrest)|[Hrest Hp']].
    + destruct (IH th' i node' ph') as (tr&th''&k&css&Et&Hst''&Hkb&Hcss&Hfr); try done; [by rewrite El; lia|].
      exists ((i, fs) :: tr), th'', (S k), (cs :: css). split; [auto|]. split; [done|]. rewrite El in Hkb. split; [lia|]. rewrite Ed in Hcss. rewrite Ee in Hfr.
      split; [auto|]. rewrite own_cons, decide_True by done. cbn [take firstn]. by constructor.
    + destruct (calls_total js th' Hst' Hb) as (tr&th''&Et&Hst''). exists ((i, fs) :: tr), th'', 1%nat, [cs].
      split; [auto|]. split; [done|]. split; [lia|]. split; [done|]. rewrite own_cons, decide_True by done. cbn [take firstn]. by repeat constructor.
  - destruct (active_node th j Hst Hj) as (nodej&phj&Hnj&Hphj).
    destruct (calls_one th j f js nodej phj Hst (proj1 Hj) Hnj Hphj) as (th'&fs&cs&node'&Hc&_&Hgo).
    assert (Gen.nodes th' !! i = Some node) as Hi' by (rewrite (ca_others _ _ _ _ _ _ _ _ Hc) by done; done).
    destruct (IH th' i node ph (ca_ok _ _ _ _ _ _ _ _ Hc) Hb Hi' Hph ltac:(lia)) as (tr&th''&k&css&Et&Hst''&Hkb&Hcss&Hfr).
    exists ((j, fs) :: tr), th'', k, css. split; [auto|]. by rewrite own_cons, decide_False.
Qed.

Lemma Forall2_concat_2 {A B} (P : A → B → Prop) ll kk : Forall2 (Forall2 P) ll kk → Forall2 P (concat ll) (concat kk).
Proof. induction 1; cbn [concat]; [constructor|by apply Forall2_app]. Qed.

(** The packets made for the stream [i], which was idle, are a conversation that
    carries its data, followed by those of what comes next. *)
Definition replayed (i : nat) node (tr : list (nat * list (list Z))) : Prop :=
  ∃ (k : nat) x y chunks, Z.of_nat k <= Gen.nd_len node / 4 + 7
    ∧ Forall2 (reads (ends_of node)) (conversation x y chunks) (concat (take k (own i tr)))
    ∧ concat chunks = data_of node ∧ Forall chunk_ok chunks.

Lemma calls_replay js th i node : streams_ok th → Forall active js.*1 → Gen.nodes th !! i = Some node → in_phase node PClosed →
  Gen.nd_len node / 4 + 7 <= turns i js → ∃ tr th', calls js th = Some (tr, th') ∧ replayed i node tr.
Proof.
  intros Hst Hb Hi Hph Hk. destruct (calls_conversation js th i node PClosed Hst Hb Hi Hph Hk) as (tr&th'&k&css&E&Hst'&Hkb&Hr&Hf).
  destruct (rest_conversation _ _ Hr) as (x&y&chunks&Ec&Hok&Econ). exists tr, th'. split; [done|]. exists k, x, y, chunks. split_and!; try done.
  rewrite <- Econ. by apply Forall2_concat_2.
Qed.

(** ** The loop of a thread *)

(** [th'] is the state after the calls [js]. *)
Definition runs th js th' : Prop := streams_ok th' ∧ Forall active js.*1 ∧ ∃ tr, calls js th = Some (tr, th').

Lemma runs_nil th : streams_ok th → runs th [] th.
Proof. intros Hst. split; [done|]. split; [constructor|]. by exists []. Qed.
Lemma calls_app js1 : ∀ js2 th tr1 th1 tr2 th2, calls js1 th = Some (tr1, th1) → calls js2 th1 = Some (tr2, th2) →
  calls (js1 ++ js2) th = Some (tr1 ++ tr2, th2).
Proof.
  induction js1 as [|[j f] js1 IH]; intros js2 th tr1 th1 tr2 th2 E1 E2; cbn [calls app] in *; [by injection E1 as <- <-|].
  destruct (send_packet _ j) as [th'|]; cbn [mbind option_bind] in *; [|done].
  destruct (calls js1 th') as [[tr' th'']|] eqn:E; cbn [mbind option_bind] in *; [|done]. injection E1 as <- <-.
  by rewrite (IH _ _ _ _ _ _ E E2).
Qed.
Lemma runs_app th js1 th1 js2 th2 : runs th js1 th1 → runs th1 js2 th2 → runs th (js1 ++ js2) th2.
Proof.
  intros (_&A1&tr1&E1) (Hst&A2&tr2&E2). split; [done|]. split; [rewrite fmap_app; by apply Forall_app|]. eexists. by eapply calls_app.
Qed.
Lemma turns_app i js1 js2 : turns i (js1 ++ js2) = turns i js1 + turns i js2.
Proof. unfold turns. rewrite fmap_app, filter_app, length_app. lia. Qed.
Lemma turns_nonneg i js : 0 <= turns i js.
Proof. unfold turns. lia. Qed.

Lemma send_packet_runs th j f : streams_ok th → active j →
  ∃ th', send_packet (th <| Gen.th_w := f (Gen.th_w th) |>) j = Some th' ∧ runs th [(j, f)] th'.
Proof.
  intros Hst Hj. destruct (active_node th j Hst Hj) as (node&ph&Hn&Hph).
  destruct (calls_one th j f [] node ph Hst (proj1 Hj) Hn Hph) as (th'&fs&cs&node'&Hc&E&Hgo). exists th'. split; [done|].
  split; [by apply Hc|]. split; [by constructor|]. eexists. by apply Hgo.
Qed.
Lemma th_w_self th : th <| Gen.th_w := id (Gen.th_w th) |> = th.
Proof. by destruct th. Qed.

Lemma send_some_runs n : ∀ f th i, streams_ok th → active i →
  ∃ js th', Gen.send_some opt shift nb_stream n_parts (S n) (th <| Gen.th_w := f (Gen.th_w th) |>) i = Some th' ∧ runs th js th' ∧ 0 < turns i js.
Proof.
  induction n as [|n IH]; intros f th i Hst Hi; destruct (active_node th i Hst Hi) as (node&ph&Hn&_);
    destruct (send_packet_runs th i f Hst Hi) as (th1&E1&R1); cbn [Gen.send_some]; rec_simpl; rewrite Hn; cbn [mbind option_bind]; rewrite E1; cbn [mbind option_bind].
  - exists [(i, f)], th1. split; [by destruct (Gen.nd_state node)|]. split; [done|]. rewrite turns_cons, decide_True by done. unfold turns. simpl. lia.
  - assert (0 < turns i [(i, f)]) as Ht by (rewrite turns_cons, decide_True by done; unfold turns; simpl; lia).
    destruct (IH id th1 i (proj1 R1) Hi) as (js&th2&E2&R2&T2). rewrite th_w_self in E2. cbn [Gen.send_some] in E2.
    destruct (Gen.nd_state node); try (exists ((i, f) :: js), th2; split; [done|]; split; [exact (runs_app _ [(i, f)] _ _ _ R1 R2)|];
      rewrite turns_cons, decide_True by done; lia).
    by exists [(i, f)], th1.
Qed.

Hypothesis threads_ok : 0 < Gen.nb_snd_thread opt.
Lemma send_each_runs k : ∀ th i, streams_ok th → 0 <= i → (∀ m, 0 <= m < Z.of_nat k → i + m * Gen.nb_snd_thread opt < Gen.nb_concur opt) →
  ∃ js th', Gen.send_each opt k shift nb_stream n_parts th i = Some th' ∧ runs th js th'
    ∧ ∀ m, 0 <= m < Z.of_nat k → i + m * Gen.nb_snd_thread opt < nb_stream → 0 < turns (Z.to_nat (i + m * Gen.nb_snd_thread opt)) js.
Proof.
  induction k as [|k IH]; intros th i Hst Hi Hc; cbn [Gen.send_each]; [exists [], th; split; [done|]; split; [by apply runs_nil|lia]|].
  destruct (Z.ltb_spec i nb_stream) as [Hlt|Hge].
  2: { exists [], th. split; [done|]. split; [by apply runs_nil|]. intros m Hm Hn. nia. }
  destruct (Gen.rand (Gen.th_w th)) as [r w]. pose proof (Z.mod_pos_bound r 3 ltac:(lia)).
  replace (Z.to_nat (r mod 3 + 1)) with (S (Z.to_nat (r mod 3))) by lia.
  pose proof (Hc 0 ltac:(lia)) as Hc0.
  destruct (send_some_runs (Z.to_nat (r mod 3)) (λ _, w) th (Z.to_nat i) Hst ltac:(split; lia)) as (js1&th1&->&R1&T1). cbn [mbind option_bind].
  destruct (IH th1 (i + Gen.nb_snd_thread opt) (proj1 R1) ltac:(lia)) as (js2&th2&E2&R2&T2).
  { intros m Hm. specialize (Hc (m + 1) ltac:(lia)). lia. }
  exists (js1 ++ js2), th2. split; [done|]. split; [by eapply runs_app|]. intros m Hm Hn. rewrite turns_app.
  destruct (decide (m = 0)) as [->|Hm0].
  - rewrite Z.mul_0_l, Z.add_0_r. pose proof (turns_nonneg (Z.to_nat i) js2). lia.
  - specialize (T2 (m - 1) ltac:(lia) ltac:(lia)). replace (i + Gen.nb_snd_thread opt + (m - 1) * Gen.nb_snd_thread opt) with (i + m * Gen.nb_snd_thread opt) in T2 by lia.
    pose proof (turns_nonneg (Z.to_nat (i + m * Gen.nb_snd_thread opt)) js1). lia.
Qed.
End Trace.

Section Loop.
Context {W : Type} `{Gen.GenWorld W} (opt : Gen.gen_options) (shift : list Z) (nb_stream th_id : Z).
Local Abbreviation thread := (Gen.thread_info W).
Implicit Types (th : thread) (node : Gen.buf_node).
Hypothesis burst_ok : 1 <= Gen.burst opt < Gen.MAX_BURST.
Hypothesis shift_ok : sunday_pre [13; 10; 13; 10] = Some shift.
Hypothesis th_id_ok : 0 <= th_id < Gen.nb_snd_thread opt.

(** The [m]-th stream of the thread; at most [concur_per_thread] are served. *)
Definition served (i : nat) : Prop :=
  ∃ m, 0 <= m < Gen.concur_per_thread opt ∧ Z.of_nat i = th_id + m * Gen.nb_snd_thread opt ∧ Z.of_nat i < nb_stream.

Local Abbreviation runs := (runs opt shift nb_stream (25 + th_id)).
Lemma send_pass_runs th : streams_ok opt nb_stream th →
  ∃ js th', Gen.send_pass opt shift nb_stream th_id th = Some th' ∧ runs th js th' ∧ ∀ i, served i → 0 < turns i js.
Proof.
  intros Hst. unfold Gen.send_pass.
  destruct (send_each_runs opt burst_ok shift nb_stream (25 + th_id) shift_ok ltac:(lia) (Z.to_nat (Gen.concur_per_thread opt)) th th_id Hst ltac:(lia))
    as (js&th'&E&R&T).
  - intros m Hm. unfold Gen.concur_per_thread in Hm. pose proof (Z.mul_div_le (Gen.nb_concur opt) (Gen.nb_snd_thread opt)). nia.
  - exists js, th'. split; [done|]. split; [done|]. intros i (m&Hm&Ei&Hi). specialize (T m ltac:(lia) ltac:(lia)).
    by rewrite <- Ei, Nat2Z.id in T.
Qed.

Lemma send_loop_runs n : ∀ th, streams_ok opt nb_stream th →
  ∃ js th', Gen.send_loop opt n shift nb_stream th_id th = Some th' ∧ runs th js th' ∧ ∀ i, served i → Z.of_nat n <= turns i js.
Proof.
  induction n as [|n IH]; intros th Hst; cbn [Gen.send_loop].
  { exists [], th. split; [done|]. split; [by apply runs_nil|]. intros. apply turns_nonneg. }
  destruct (send_pass_runs th Hst) as (js1&th1&->&R1&T1). cbn [mbind option_bind]. destruct (IH th1 (proj1 R1)) as (js2&th2&E2&R2&T2).
  exists (js1 ++ js2), th2. split; [done|]. split; [by eapply runs_app|]. intros i Hi. rewrite turns_app. specialize (T1 i Hi). specialize (T2 i Hi). lia.
Qed.

Lemma loop_replays (n : nat) th i node : streams_ok opt nb_stream th → served i → Gen.nodes th !! i = Some node →
  in_phase node PClosed → Gen.nd_len node / 4 + 7 <= Z.of_nat n →
  ∃ js tr th', Gen.send_loop opt n shift nb_stream th_id th = Some th' ∧ streams_ok opt nb_stream th'
    ∧ calls opt shift nb_stream (25 + th_id) js th = Some (tr, th') ∧ replayed i node tr.
Proof.
  intros Hst Hi Hn Hph Hlen. destruct (send_loop_runs n th Hst) as (js&th'&E&(Hst'&Ha&tr&Et)&T). specialize (T i Hi).
  destruct (calls_replay opt burst_ok shift nb_stream (25 + th_id) shift_ok js th i node Hst Ha Hn Hph ltac:(lia)) as (tr'&th''&Et'&Hr).
  exists js, tr, th'. rewrite Et in Et'. injection Et' as <- <-. split; [exact E|]. split; [exact Hst'|]. split; [exact Et|exact Hr].
Qed.

(** C15: whatever random numbers, times, packet buffers and places in its ring the
    environment gives, the loop of a sending thread never faults, and when it
    has gone round [len / 4 + 7] times the packets it has made for an idle
    stream that it serves are a complete TCP conversation, whatever it has sent
    for the other streams in between: handshake, the bytes of the stream in
    order in segments of at most [MAX_SEG_SIZE] bytes, each acknowledged, and
    the closing in both directions, with the sequence numbers,
    acknowledgements, addresses and ports of both sides as the TCP stack reads
    them.  Behind the data of a stream one byte has to be readable. *)
Theorem send_loop_replays_stream (n : nat) th i node : streams_ok opt nb_stream th → served i → Gen.nodes th !! i = Some node →
  in_phase node PClosed → Gen.nd_len node / 4 + 7 <= Z.of_nat n →
  ∃ js tr th', Gen.send_loop opt n shift nb_stream th_id th = Some th' ∧ streams_ok opt nb_stream th'
    ∧ calls opt shift nb_stream (25 + th_id) js th = Some (tr, th') ∧ replayed i node tr.
Proof. apply loop_replays. Qed.
End Loop.

(** ** A run of two streams *)
Module TraceDemo.
#[local] Instance demo_world : Gen.GenWorld Z := {|
  Gen.prand w := (w * 977, w + 1);
  Gen.rand w := (Z.abs w, w + 1);
  Gen.time_ms w := (w, w + 3);
  Gen.mbuf_alloc w := (if w mod 5 =? 0 then None else Some w, w + 1);
  Gen.mbuf_free w _ := w;
  Gen.tx_burst w l := (Z.of_nat (length l) - w mod 2, w + 1)
|}.
Definition demo_opt : Gen.gen_options := Gen.mk_options true 45 50 4 2 1.
(** An idle stream with [n] bytes of data. *)
Definition demo_node (n : nat) : Gen.buf_node :=
  Gen.mk_node (Gen.mk_tuple4 0 0 0 0) (replicate n 71 ++ [13; 10; 13; 10; 0]) (Z.of_nat n + 4) 0 Gen.TCP_ST_CLOSED 1 0
    (Gen.inet_addr4 10 0 1 2) (Gen.inet_addr4 10 1 2 1) 4000 80 20000000 30000000 0 0.
Definition demo_th : Gen.thread_info Z :=
  Gen.mk_th Z (Gen.dst_mac ++ Gen.src_mac ++ [8; 0]) (replicate 1546 0) [] 0 0 [demo_node 60; demo_node 100] 0 1 [] [].
Definition demo_shift : list Z := default [] (sunday_pre [13; 10; 13; 10]).

Lemma demo_node_ok n : (n < 1000)%nat → node_ok (demo_node n).
Proof.
  intros Hn. unfold demo_node. split; cbn [Gen.nd_len Gen.tot_buf]; rewrite ?length_app, ?length_replicate; cbn [length]; try lia.
  apply Forall_app. split; [by apply Forall_replicate|].
  repeat (apply Forall_cons; split; [done|]). constructor.
Qed.
Lemma demo_in_phase n : in_phase (demo_node n) PClosed.
Proof. by apply in_phase_intro. Qed.
Lemma demo_streams_ok : streams_ok demo_opt 2 demo_th.
Proof.
  split; [by split|done|constructor; [apply demo_node_ok; lia|constructor; [apply demo_node_ok; lia|constructor]]|].
  intros [|[|i]] node Hi _; [injection Hi as <-|injection Hi as <-|done]; exists PClosed; apply demo_in_phase.
Qed.
Lemma demo_served : served demo_opt 2 0 1.
Proof. exists 1. vm_compute. intuition congruence. Qed.

Lemma send_loop_replays_stream_witness :
  ∃ (js : list (nat * (Z → Z))) (tr : list (nat * list (list Z))) (th' : Gen.thread_info Z),
    Gen.send_loop demo_opt 33 demo_shift 2 0 demo_th = Some th'
    ∧ calls demo_opt demo_shift 2 25 js demo_th = Some (tr, th') ∧ replayed 1 (demo_node 100) tr.
Proof.
  destruct (send_loop_replays_stream demo_opt demo_shift 2 0 ltac:(done) ltac:(vm_compute; reflexivity) ltac:(done) 33 demo_th 1 (demo_node 100)
    demo_streams_ok demo_served eq_refl (demo_in_phase 100) ltac:(vm_compute; discriminate)) as (js&tr&th'&E&_&Ec&Hr).
  exists js, tr, th'. exact (conj E (conj Ec Hr)).
Defined.
End TraceDemo.
