(* ===== verification/GenCheck.v ===== *)
(** * The checksums of the stream generator

    [tcp_checksum] of [include/checksum.h] against [TCPCalcChecksum], with which
    the TCP stack verifies a segment.  The generator adds the two addresses as
    32-bit numbers, so that a sum of [2^32] or more loses its carry, and
    [send_data_pkt] copies the payload behind the computation. *)
From S2P Require Import Prelude Checksum FlowHash MemPool TcpTypes NetOut TcpOptions TcpOut TcpIn Segment Sunday StreamGen GenTrace.

Lemma generate_opt_u8 cur flags recent : Forall (λ b, is_u8 b) (Gen.generate_opt cur flags recent).
Proof.
  unfold Gen.generate_opt, Gen.generate_timestamp, be32, le32. destruct (has flags TCP_FLAG_SYN);
    repeat (apply Forall_app; split); try apply le_bytes_u8; repeat (apply Forall_cons; split; [done|]); constructor.
Qed.

(** The sum is computed modulo [2^32]. *)
Lemma sum_words_mod bs : ∀ s, is_u32 s → Forall (λ b, is_u8 b) bs → Checksum.sum_words s bs = u32 (s + Checksum.word_sum bs).
Proof.
  induction bs as [|a|a b bs IH] using Checksum.pairs_ind; intros s Hs Hb; cbn [Checksum.sum_words Checksum.word_sum].
  - rewrite Z.add_0_r. by rewrite u32_id.
  - done.
  - apply Forall_cons in Hb as [_ Hb]. apply Forall_cons in Hb as [_ Hb]. rewrite IH by (done || apply u32_range).
    rewrite Z.add_assoc. set (t := s + Checksum.word a b). generalize (Checksum.word_sum bs). clear. intros. ulia.
Qed.

(** The checksum of an even number of bytes. *)
Lemma gen_checksum_even buf n s : is_u32 s → Forall (λ b, is_u8 b) buf → 0 <= n <= Z.of_nat (length buf) → n mod 2 = 0 →
  is_u16 (Gen.checksum buf n s)
  ∧ (Gen.checksum buf n s + u32 (s + Checksum.word_sum (take (Z.to_nat n) buf))) mod 65535 = 0.
Proof.
  intros Hs Hb Hn Hev. split; [apply u16_range|]. unfold Gen.checksum. rewrite Hev. cbn [Z.eqb].
  replace (2 * (n / 2)) with n by (Z.div_mod_to_equations; lia). rewrite sum_words_mod by (try apply Forall_take; done).
  pose proof (u32_range (s + Checksum.word_sum (take (Z.to_nat n) buf))) as Ht. set (t := u32 (s + Checksum.word_sum _)) in *. clearbody t.
  rewrite Checksum.land_ffff, Z.shiftr_div_pow2 by lia. change (2 ^ 16) with 65536.
  rewrite (u32_id (t / 65536 + _)) by (Z.div_mod_to_equations; lia). rewrite Z.shiftr_div_pow2 by lia. change (2 ^ 16) with 65536.
  unfold Z.lnot. clear -Ht. set (r := t / 65536 + t mod 65536). assert (0 <= r <= 131070) by (unfold r; Z.div_mod_to_equations; lia).
  assert (r mod 65535 = t mod 65535) as Er by (unfold r; Z.div_mod_to_equations; lia). rewrite <- Zplus_mod_idemp_r, <- Er, Zplus_mod_idemp_r. clearbody r. clear Er Ht.
  ulia.
Qed.

(** The two conditions say the same. *)
Lemma carries_lost A K p q sa da L : is_u32 sa → is_u32 da →
  (K + (sa + da + 1536 + swap16 L + (A + q)) mod 4294967296) mod 65535 = 0 →
  (A + K + p + Checksum.pseudo_sum L sa da) mod 65535 = 0 ↔ (p - q + (sa + da + 1536 + swap16 L + (A + q)) / 4294967296) mod 65535 = 0.
Proof.
  intros Hs Hd. unfold Checksum.pseudo_sum. generalize (swap16 L). intros l.
  set (T := sa + da + 1536 + l + (A + q)). pose proof (Z.div_mod T 4294967296 ltac:(lia)) as ET.
  set (c := T / 4294967296) in *. set (t := T mod 4294967296) in *. clearbody c t. clear L. intros HK.
  pose proof (Z.div_mod sa 65536 ltac:(lia)). pose proof (Z.div_mod da 65536 ltac:(lia)). unfold T in ET.
  set (s1 := sa / 65536) in *. set (s2 := sa mod 65536) in *. set (d1 := da / 65536) in *. set (d2 := da mod 65536) in *. clearbody s1 s2 d1 d2.
  replace (A + K + p + (s2 + s1 + (d2 + d1) + l + 1536)) with ((p - q + c) + (K + t) + (65537 * c - s1 - d1) * 65535) by lia.
  rewrite Z.mod_add by lia. rewrite <- Zplus_mod_idemp_r, HK, Z.add_0_r. done.
Qed.

(** The checksum that the generator stores, over a header and [body]. *)
Lemma gen_check_value sp dp sq ack doff fl sa da body L : is_u32 sa → is_u32 da → 0 <= doff < 16 → is_u8 fl → Forall (λ b, is_u8 b) body →
  20 <= L <= 20 + Z.of_nat (length body) → L < 65516 → L mod 2 = 0 →
  let check := Gen.tcp_checksum (L + 20) sa da (tcp_header sp dp sq ack doff fl 65535 0 ++ body) in
  is_u16 check
  ∧ (check + (sa + da + 1536 + swap16 L + Checksum.word_sum (header_front sp dp sq ack doff fl 65535 ++ take (Z.to_nat (L - 20)) body)) mod 4294967296) mod 65535 = 0.
Proof.
  intros Hs Hd Hdo Hf Hb HL HL2 Hev. cbv zeta. unfold Gen.tcp_checksum. replace (u16 (L + 20 - 20)) with L by (clear -HL HL2; ulia).
  rewrite header_with_word by done. set (hdr := header_front sp dp sq ack doff fl 65535).
  assert (Forall (λ b, is_u8 b) (Checksum.with_word hdr 0 ([0; 0] ++ body))) as H8.
  { apply Checksum.with_word_bytes; [by apply header_front_u8| |done]. apply Forall_app. split; [constructor; [done|by constructor]|done]. }
  destruct (gen_checksum_even (Checksum.with_word hdr 0 ([0; 0] ++ body)) L (u32 (sa + da + swap16 IPPROTO_TCP + swap16 L)) (u32_range _) H8) as [Hu Hc]; try done.
  { rewrite Checksum.length_with_word, length_app. cbn [length]. change (length hdr) with 16%nat. lia. }
  split; [done|]. assert (take (Z.to_nat L) (Checksum.with_word hdr 0 ([0; 0] ++ body)) = Checksum.with_word hdr 0 ([0; 0] ++ take (Z.to_nat (L - 20)) body)) as Et.
  { replace (Z.to_nat L) with (20 + Z.to_nat (L - 20))%nat by lia. done. }
  rewrite Et, Checksum.with_word_sum, (Checksum.word_sum_app [0; 0]) in Hc by ((by exists 8%nat) || (by exists 1%nat)).
  rewrite (Checksum.word_sum_app hdr) by (by exists 8%nat). change (swap16 IPPROTO_TCP) with 1536 in Hc. change (Checksum.word_sum [0; 0]) with 0 in Hc.
  replace (u32 (u32 _ + _)) with ((sa + da + 1536 + swap16 L + (Checksum.word_sum hdr + Checksum.word_sum (take (Z.to_nat (L - 20)) body))) mod 4294967296) in Hc
    by (unfold u32; rewrite Zplus_mod_idemp_l; f_equal; lia).
  exact Hc.
Qed.

(** When the stack accepts a segment with the checksum [check]. *)
Lemma stack_accepts sp dp sq ack doff fl sa da body check : is_u32 sa → is_u32 da → 0 <= doff < 16 → is_u8 fl → Forall (λ b, is_u8 b) body →
  Z.of_nat (length body) < 65476 → is_u16 check →
  let hdr := header_front sp dp sq ack doff fl 65535 in
  Checksum.TCPCalcChecksum (tcp_header sp dp sq ack doff fl 65535 check ++ body) sa da = 0
  ↔ (Checksum.word_sum hdr + check + Checksum.word_sum body + Checksum.pseudo_sum (20 + Z.of_nat (length body)) sa da) mod 65535 = 0.
Proof.
  intros Hs Hd Hdo Hf Hb Hl Hc. cbv zeta. set (hdr := header_front sp dp sq ack doff fl 65535). rewrite header_with_word by done. fold hdr.
  assert (Forall (λ b, is_u8 b) hdr) as Hh8 by by apply header_front_u8.
  assert (Z.of_nat (length (Checksum.with_word hdr check ([0; 0] ++ body))) = 20 + Z.of_nat (length body)) as El
    by (rewrite Checksum.length_with_word, length_app; cbn [length]; change (length hdr) with 16%nat; lia).
  rewrite Checksum.TCPCalcChecksum_fold; try done; [|apply Checksum.with_word_bytes; try done; apply Forall_app; split; [constructor; [done|by constructor]|done]|lia].
  rewrite El, Checksum.with_word_sum, (Checksum.word_sum_app [0; 0]) by ((by exists 8%nat) || (by exists 1%nat)). change (Checksum.word_sum [0; 0]) with 0.
  pose proof (Checksum.word_sum_range hdr Hh8) as Hr. change (length hdr) with 16%nat in Hr. pose proof (Checksum.word_sum_range body Hb).
  pose proof (Checksum.pseudo_sum_range (20 + Z.of_nat (length body)) sa da Hs Hd). rewrite Checksum.fold_zero_iff by lia. f_equiv.
Qed.

Section Accepted.
Context {W : Type} `{Gen.GenWorld W} (opt : Gen.gen_options).
Local Abbreviation word_sum := Checksum.word_sum.

End Accepted.

(** ** A SYN whose addresses add up to more than 32 bits *)
Module CheckDemo.
#[local] Existing Instance TraceDemo.demo_world.
Definition src : Z := Gen.inet_addr4 10 0 200 100.
Definition dst : Z := Gen.inet_addr4 10 1 100 200.
End CheckDemo.
