(* ===== verification/GenStore.v ===== *)
(** * The streams of the generator

    Importing captured streams: the callback of [gen_api.c] that [libnids] calls
    with reassembled data, the hash table of [stream_gen.c] in which the data of
    a stream is collected, and what a sending thread gets of it.  A list of
    [list.h] is the list of its nodes from the head on.  [None] stands for a
    fault or for [exit].  The allocator is a parameter. *)
From S2P Require Import Prelude FlowHash MemPool TcpTypes NetOut TcpOut Sunday StreamGen.

Module Store.
Import Gen.

Definition MAX_BUFFER_SIZE : Z := 20000.
Definition MAX_HASH_TABLE_SIZE : Z := 1100.
Definition NODE_SIZE : Z := 88.

(** ** [hash.c] of [libnids] and [hash_index] *)
Fixpoint mkhash_loop (res : Z) (data perm xor : list Z) : option Z :=
  match perm, xor with
  | p :: perm, x :: xor =>
    d ← byte_at data p;
    mkhash_loop (u32 (u32 (Z.shiftl res 8) + Z.lxor d x) mod 0xff100f) data perm xor
  | _, _ => Some res
  end.
Definition mkhash (perm xor : list Z) (src sport dest dport : Z) : option Z :=
  mkhash_loop 0 (FlowHash.le_bytes 4 src ++ FlowHash.le_bytes 4 dest ++ FlowHash.le_bytes 2 sport ++ FlowHash.le_bytes 2 dport) perm xor.

Definition hash_index (perm xor : list Z) (n_tcp_streams : Z) (addr : tuple4) : option Z :=
  hash ← mkhash perm xor (t_saddr addr) (t_source addr) (t_daddr addr) (t_dest addr);
  Some (Z.rem (s32 hash) n_tcp_streams).

Definition is_tuple4_equal (pre cur : tuple4) : bool :=
  (t_saddr pre =? t_saddr cur) && (t_daddr pre =? t_daddr cur) && (t_source pre =? t_source cur) && (t_dest pre =? t_dest cur).

(** What [libnids] reports of a connection. *)
Inductive nids_flag : Type := NIDS_JUST_EST | NIDS_DATA | NIDS_CLOSE | NIDS_RESET | NIDS_TIMED_OUT | NIDS_EXITING.
Record half_stream := mk_half {
  collect : Z; collect_urg : Z;
  hs_data : list Z; hs_offset : Z; hs_count : Z; count_new : Z; count_new_urg : Z
}.
#[global] Instance eta_half : Eta half_stream :=
  λ r, mk_half (collect r) (collect_urg r) (hs_data r) (hs_offset r) (hs_count r) (count_new r) (count_new_urg r).
Record tcp_stream := mk_nids { addr : tuple4; nids_state : nids_flag; client : half_stream; server : half_stream }.
#[global] Instance eta_nids : Eta tcp_stream := λ r, mk_nids (addr r) (nids_state r) (client r) (server r).

(** [malloc] and [realloc]; [None] is the null pointer. *)
Class GenAlloc (W : Type) := {
  malloc : W → Z → option (list Z) * W;
  realloc : W → list Z → Z → option (list Z) * W
}.

Section Store.
Context {W : Type} `{GenWorld W, GenAlloc W} (perm xor : list Z) (n_tcp_streams : Z).
Local Abbreviation hash_table := (list (list buf_node)).

Definition init_hash_buf : hash_table := replicate (Z.to_nat MAX_HASH_TABLE_SIZE) [].

(** The nodes of the first [n_tcp_streams] lists are freed. *)
Definition destroy_hash_buf (t : hash_table) : hash_table :=
  imap (λ i b, if Z.of_nat i <? n_tcp_streams then [] else b) t.

(** The position of the first node for the tuple in the list [ind]. *)
Definition get_buf_node (t : hash_table) (tup : tuple4) (ind : Z) : option (option (nat * buf_node)) :=
  guard (0 <= ind);;
  b ← t !! Z.to_nat ind;
  Some (list_find (λ node, Is_true (is_tuple4_equal tup (Gen.tup node))) b).

Definition list_add_tail (t : hash_table) (ind : Z) (node : buf_node) : option hash_table :=
  guard (0 <= ind);;
  b ← t !! Z.to_nat ind;
  Some (<[Z.to_nat ind := b ++ [node]]> t).

(** The members that are not set are those of fresh memory, all of which
    [set_field] sets. *)
Definition insert_buf_node (w : W) (t : hash_table) (ind : Z) (buf : list Z) (length : Z) (tup : tuple4) : option (hash_table * W) :=
  let '(e, w) := malloc w NODE_SIZE in
  e ← e;
  let size_alloc := if length >? MAX_BUFFER_SIZE then length + 1 else MAX_BUFFER_SIZE in
  let '(b, w) := malloc w size_alloc in
  b ← b;
  bs ← mem_read buf 0 length;
  b ← mem_write b 0 bs;
  let '(node, w) := set_field w (mk_node tup b length 0 TCP_ST_CLOSED 0 0 0 0 0 0 0 0 0 0) in
  t ← list_add_tail t ind node;
  Some (t, w).

Definition update_node (t : hash_table) (ind : Z) (k : nat) (f : buf_node → buf_node) : hash_table :=
  alter (λ b, alter f k b) (Z.to_nat ind) t.

(** The data behind that of the node; the buffer grows first when the data
    is longer than [MAX_BUFFER_SIZE].  The result is that of [memcpy]. *)
Definition append_data (node : buf_node) (b data : list Z) (length : Z) : option buf_node :=
  bs ← mem_read data 0 length;
  b ← mem_write b (nd_len node) bs;
  Some (node <| tot_buf := b |> <| nd_len := s32 (nd_len node + length) |>).

Definition store_stream_data (w : W) (t : hash_table) (tup : tuple4) (data : list Z) (length : Z) (flag : nids_flag)
  : option (Z * hash_table * W) :=
  index ← hash_index perm xor n_tcp_streams tup;
  match flag with
  | NIDS_DATA =>
    found ← get_buf_node t tup index;
    match found with
    | None =>
      if length >? MAX_BUFFER_SIZE then
        '(t, w) ← insert_buf_node w t index data MAX_BUFFER_SIZE tup;
        b ← t !! Z.to_nat index;
        let k := pred (List.length b) in
        node ← b !! k;
        let '(r, w) := realloc w (tot_buf node) length in
        match r with
        | None => Some (0, update_node t index k (λ node, node <| tot_buf := [] |>), w)
        | Some buf =>
          bs ← mem_read data MAX_BUFFER_SIZE (length - MAX_BUFFER_SIZE);
          buf ← mem_write buf (nd_len node) bs;
          Some (0, update_node t index k (λ node, node <| tot_buf := buf |> <| nd_len := length |>), w)
        end
      else
        '(t, w) ← insert_buf_node w t index data length tup;
        Some (0, t, w)
    | Some (k, node) =>
      if s32 (nd_len node + length) >? MAX_BUFFER_SIZE then
        let '(r, w) := realloc w (tot_buf node) (s32 (nd_len node + length)) in
        match r with
        | None => Some (0, update_node t index k (λ node, node <| tot_buf := [] |>), w)
        | Some buf =>
          node ← append_data node buf data length;
          Some (1, update_node t index k (λ _, node), w)
        end
      else
        node ← append_data node (tot_buf node) data length;
        Some (1, update_node t index k (λ _, node), w)
    end
  | _ => Some (1, t, w)
  end.

(** ** The callback of [gen_api.c]; [ONLY_REQUEST] is not defined *)
Definition opposite (a : tuple4) : tuple4 := mk_tuple4 (t_dest a) (t_source a) (t_daddr a) (t_saddr a).

Definition tcp_callback (w : W) (t : hash_table) (a : tcp_stream) : option (tcp_stream * hash_table * W) :=
  match nids_state a with
  | NIDS_JUST_EST =>
    let a := a <| client := (client a) <| collect := s8 (collect (client a) + 1) |> |> in
    let a := a <| server := (server a) <| collect := s8 (collect (server a) + 1) |> |> in
    Some (a <| server := (server a) <| collect_urg := s8 (collect_urg (server a) + 1) |> |>, t, w)
  | NIDS_CLOSE =>
    '(_, t, w) ← store_stream_data w t (addr a) [] 0 NIDS_CLOSE;
    '(_, t, w) ← store_stream_data w t (opposite (addr a)) [] 0 NIDS_CLOSE;
    Some (a, t, w)
  | NIDS_DATA =>
    if negb (count_new_urg (server a) =? 0) then Some (a, t, w)
    else
      let '(tp4, hlf) := if negb (count_new (client a) =? 0) then (addr a, client a) else (opposite (addr a), server a) in
      '(_, t, w) ← store_stream_data w t tp4 (hs_data hlf) (hs_count hlf - hs_offset hlf) NIDS_DATA;
      Some (a, t, w)
  | _ => Some (a, t, w)
  end.

(** ** Before the sending *)

(** The nodes of the table in the order of the loops over it. *)
Definition all_nodes (t : hash_table) : list buf_node := concat (take (Z.to_nat n_tcp_streams) t).
Definition counter (t : hash_table) : Z := Z.of_nat (length (all_nodes t)).

(** The inner loop of [copy_stream_data] in the list [i], at its node [k]: the
    next node is looked up before the new node is added somewhere.  It ends when
    [nb_copy] nodes were made, at the latest after [fuel] nodes. *)
Fixpoint copy_list (fuel : nat) (nb_copy : Z) (w : W) (t : hash_table) (i k : nat) (cnt : Z) : option (bool * Z * hash_table * W) :=
  match fuel with
  | O => None
  | S fuel =>
    b ← t !! i;
    match b !! k with
    | None => Some (false, cnt, t, w)
    | Some node =>
      let more := bool_decide (k + 1 < length b)%nat in
      let '(r, w) := rand w in
      '(t, w) ← insert_buf_node w t (Z.rem r n_tcp_streams) (tot_buf node) (nd_len node) (Gen.tup node);
      let cnt := cnt + 1 in
      if nb_copy <=? cnt then Some (true, cnt, t, w)
      else if more then copy_list fuel nb_copy w t i (k + 1) cnt
      else Some (false, cnt, t, w)
    end
  end.
(** [for (i = size - 1; i > 0; i--)], from [i] on. *)
Fixpoint copy_lists (nb_copy : Z) (w : W) (t : hash_table) (i : nat) (cnt : Z) : option (bool * Z * hash_table * W) :=
  match i with
  | O => Some (false, cnt, t, w)
  | S i' =>
    '(fin, cnt, t, w) ← copy_list (S (S (Z.to_nat (nb_copy - cnt)))) nb_copy w t i 0 cnt;
    if (fin : bool) then Some (true, cnt, t, w) else copy_lists nb_copy w t i' cnt
  end.
(** The outer loop, until [force_quit] is set, which is after [passes] rounds. *)
Fixpoint copy_stream_data (passes : nat) (nb_copy : Z) (w : W) (t : hash_table) (cnt : Z) : option (bool * hash_table * W) :=
  match passes with
  | O => Some (false, t, w)
  | S passes =>
    '(fin, cnt, t, w) ← copy_lists nb_copy w t (pred (Z.to_nat n_tcp_streams)) cnt;
    if (fin : bool) then Some (true, t, w) else copy_stream_data passes nb_copy w t cnt
  end.

(** The copy of one node for one thread. *)
Definition clone (w : W) (src : buf_node) : option (buf_node * W) :=
  let '(e, w) := malloc w NODE_SIZE in
  e ← e;
  let '(b, w) := malloc w (nd_len src) in
  b ← b;
  bs ← mem_read (tot_buf src) 0 (nd_len src);
  b ← mem_write b 0 bs;
  Some (set_field w (src <| tot_buf := b |>)).

(** One node for all threads, behind those they have; then all nodes. *)
Fixpoint clone_all (w : W) (src : buf_node) (ths : list (list buf_node)) : option (list (list buf_node) * W) :=
  match ths with
  | [] => Some ([], w)
  | l :: ths =>
    '(node, w) ← clone w src;
    '(ths, w) ← clone_all w src ths;
    Some ((l ++ [node]) :: ths, w)
  end.
Fixpoint clone_nodes (w : W) (srcs : list buf_node) (ths : list (list buf_node)) : option (list (list buf_node) * W) :=
  match srcs with
  | [] => Some (ths, w)
  | src :: srcs =>
    '(ths, w) ← clone_all w src ths;
    clone_nodes w srcs ths
  end.

(** [nb_stream] and the nodes of the threads. *)
Definition copy_data_per_thread (opt : gen_options) (passes : nat) (w : W) (t : hash_table)
  : option (Z * list (list buf_node) * hash_table * W) :=
  let cnt := counter t in
  '(t, w) ← if cnt <? nb_concur opt - 1 then
              '(_, t, w) ← copy_stream_data passes (nb_concur opt + 1 - cnt) w t 0;
              Some (t, w)
            else Some (t, w);
  '(ths, w) ← clone_nodes w (all_nodes t) (replicate (Z.to_nat (nb_snd_thread opt)) []);
  Some (counter t, ths, t, w).
End Store.
End Store.
