(* ===== verification/GenImport.v ===== *)
(** * What the generator has imported

    The hash table refines a map from the addresses and ports of a direction of
    a connection to the bytes that were captured in that direction. *)
From stdpp Require Import fin_maps gmap.
From S2P Require Import Prelude Checksum FlowHash MemPool TcpTypes NetOut TcpOptions TcpOut TcpIn Segment Sunday StreamGen GenTrace GenStore.
Import Store.

#[export] Instance tuple4_eq_dec : EqDecision Gen.tuple4.
Proof. solve_decision. Defined.
#[export] Instance tuple4_countable : Countable Gen.tuple4.
Proof.
  apply (inj_countable' (λ t, (Gen.t_source t, Gen.t_dest t, Gen.t_saddr t, Gen.t_daddr t))
    (λ p, let '(a, b, c, d) := p in Gen.mk_tuple4 a b c d)). by intros [].
Defined.

Lemma is_tuple4_equal_spec a b : Is_true (is_tuple4_equal a b) ↔ a = b.
Proof.
  unfold is_tuple4_equal. rewrite !andb_True, !Is_true_true, !Z.eqb_eq. destruct a, b. simpl. naive_solver.
Qed.

(** What the allocator gives: blocks of at least the size asked for; [realloc]
    keeps what was there. *)
Class AllocLaws (W : Type) `{GenAlloc W} := {
  malloc_ok : ∀ (w : W) n, 0 <= n → ∃ b w', malloc w n = (Some b, w') ∧ n <= Z.of_nat (length b) ∧ Forall (λ c, is_u8 c) b;
  realloc_ok : ∀ (w : W) b n, 0 <= n → Forall (λ c, is_u8 c) b →
    ∃ b' w', realloc w b n = (Some b', w') ∧ n <= Z.of_nat (length b') ∧ Forall (λ c, is_u8 c) b'
      ∧ ∀ k, (k <= length b)%nat → Z.of_nat k <= n → take k b' = take k b
}.

Section Imported.
Context {W : Type} `{Gen.GenWorld W, !GenAlloc W, !AllocLaws W} (perm xor : list Z) (n : Z).
Local Abbreviation hash := (hash_index perm xor n).
(** [init_hash] makes [perm] a permutation of the twelve positions. *)
Hypothesis perm_ok : Forall (λ p, 0 <= p < 12) perm.
Hypothesis n_ok : 0 < n <= MAX_HASH_TABLE_SIZE.

Lemma mkhash_loop_range data ps : length data = 12%nat → Forall (λ p, 0 <= p < 12) ps →
  ∀ xs res, 0 <= res < 0xff100f → ∃ h, mkhash_loop res data ps xs = Some h ∧ 0 <= h < 0xff100f.
Proof.
  intros Hd. induction 1 as [|p ps Hp _ IH]; intros [|x xs] res Hr; cbn [mkhash_loop]; eauto.
  rewrite byte_at_nonneg by lia. destruct (lookup_lt_is_Some_2 data (Z.to_nat p)) as [d ->]; [lia|]. cbn [mbind option_bind].
  apply IH. apply Z.mod_pos_bound. lia.
Qed.
Lemma hash_range tup : ∃ i, hash tup = Some (Z.of_nat i) ∧ Z.of_nat i < n.
Proof.
  unfold hash_index, mkhash. destruct (mkhash_loop_range (FlowHash.le_bytes 4 (Gen.t_saddr tup) ++ FlowHash.le_bytes 4 (Gen.t_daddr tup)
    ++ FlowHash.le_bytes 2 (Gen.t_source tup) ++ FlowHash.le_bytes 2 (Gen.t_dest tup)) perm eq_refl perm_ok xor 0 ltac:(lia)) as (h&->&Hh).
  cbn [mbind option_bind]. rewrite s32_id by lia. rewrite Z.rem_mod_nonneg by lia. pose proof (Z.mod_pos_bound h n ltac:(lia)).
  exists (Z.to_nat (h mod n)). rewrite Z2Nat.id by lia. split; [done|lia].
Qed.

(** ** The representation *)

(** A node of the table: up to [MAX_BUFFER_SIZE] bytes fit without a new block. *)
Record stored node : Prop := {
  sn_len : 0 <= Gen.nd_len node <= Z.of_nat (length (Gen.tot_buf node));
  sn_max : Gen.nd_len node < 2147483648;
  sn_room : MAX_BUFFER_SIZE <= Z.of_nat (length (Gen.tot_buf node));
  sn_bytes : Forall (λ b, is_u8 b) (Gen.tot_buf node);
  sn_idle : in_phase node PClosed
}.
Definition entry node : Gen.tuple4 * list Z := (Gen.tup node, data_of node).
Record holds (t : list (list Gen.buf_node)) (m : gmap Gen.tuple4 (list Z)) : Prop := {
  h_len : length t = Z.to_nat MAX_HASH_TABLE_SIZE;
  h_stored : ∀ i b node, t !! i = Some b → node ∈ b → stored node ∧ hash (Gen.tup node) = Some (Z.of_nat i);
  h_map : entry <$> all_nodes n t ≡ₚ map_to_list m
}.

(** The nodes of the list [i] and the others. *)
Lemma all_nodes_split (t : list (list Gen.buf_node)) i b : t !! i = Some b → Z.of_nat i < n →
  ∃ l, all_nodes n t ≡ₚ b ++ l ∧ ∀ b', all_nodes n (<[i := b']> t) ≡ₚ b' ++ l.
Proof.
  intros Hi Hn. unfold all_nodes. set (u := take (Z.to_nat n) t).
  assert (u !! i = Some b) as Hu by (unfold u; rewrite lookup_take_lt by lia; done).
  exists (concat (take i u) ++ concat (drop (S i) u)).
  assert (∀ b', concat (<[i := b']> u) ≡ₚ b' ++ concat (take i u) ++ concat (drop (S i) u)) as Hins.
  { intros b'. rewrite insert_take_drop by (by eapply lookup_lt_Some). rewrite concat_app. cbn [concat]. solve_Permutation. }
  split; [rewrite <- (list_insert_id u i b) at 1 by done; apply Hins|]. intros b'. unfold u. rewrite take_insert_lt by lia. apply Hins.
Qed.

Lemma holds_empty : holds init_hash_buf ∅.
Proof.
  split; [apply length_replicate| |].
  - intros i b node Hi Hb. apply lookup_replicate_1 in Hi as [-> _]. by apply not_elem_of_nil in Hb.
  - unfold all_nodes, init_hash_buf. rewrite take_replicate, map_to_list_empty. generalize (Z.to_nat n `min` Z.to_nat MAX_HASH_TABLE_SIZE)%nat.
    intros k. induction k; [done|]. simpl. done.
Qed.

(** ** Operations *)
Lemma take_written (b bs : list Z) (k : nat) : (k + length bs <= length b)%nat →
  take (k + length bs) (list_inserts k bs b) = take k b ++ bs.
Proof.
  intros Hl. rewrite <- (take_drop k b) at 1. assert (length (take k b) = k) as Ek by (rewrite length_take; lia).
  rewrite <- Ek at 1 2. rewrite <- (Nat.add_0_r (length (take k b))) at 2. rewrite list_inserts_app_r, take_app_add. f_equal.
  rewrite <- (take_drop (length bs) (drop k b)). rewrite list_inserts_0_r by (rewrite length_take, length_drop; lia). by apply take_app_length'.
Qed.
Lemma list_inserts_u8 (b bs : list Z) k : Forall (λ c, is_u8 c) b → Forall (λ c, is_u8 c) bs → Forall (λ c, is_u8 c) (list_inserts k bs b).
Proof. revert k. induction bs as [|c bs IH]; intros k Hb Hbs; [done|]. apply Forall_cons in Hbs as [Hc Hbs]. simpl. apply Forall_insert; auto. Qed.

Lemma insert_spec w (t : list (list Gen.buf_node)) i b buf len tup : t !! i = Some b → 0 <= len <= Z.of_nat (length buf) → len < 2147483648 →
  Forall (λ c, is_u8 c) buf →
  ∃ node w', insert_buf_node w t (Z.of_nat i) buf len tup = Some (<[i := b ++ [node]]> t, w') ∧ stored node ∧ Gen.tup node = tup
    ∧ data_of node = take (Z.to_nat len) buf ∧ Gen.nd_len node = len.
Proof.
  intros Hi Hl Hm Hb. unfold insert_buf_node. destruct (malloc_ok w NODE_SIZE ltac:(done)) as (e&w1&->&_). cbn [mbind option_bind].
  set (size := if len >? MAX_BUFFER_SIZE then len + 1 else MAX_BUFFER_SIZE).
  assert (len <= size ∧ MAX_BUFFER_SIZE <= size ∧ 0 <= size) as (Hs1&Hs2&Hs3).
  { unfold size, MAX_BUFFER_SIZE. destruct (Z.gtb_spec len 20000); lia. }
  destruct (malloc_ok w1 size Hs3) as (c&w2&->&Hc&Hc8). cbn [mbind option_bind]. rewrite mem_read_ok, drop_0 by lia. cbn [mbind option_bind].
  assert (length (take (Z.to_nat len) buf) = Z.to_nat len) as Et by (rewrite length_take; lia).
  rewrite mem_write_ok by lia. cbn [mbind option_bind]. change (Z.to_nat 0) with 0%nat.
  destruct (set_field_spec w2 (Gen.mk_node tup (list_inserts 0 (take (Z.to_nat len) buf) c) len 0 Gen.TCP_ST_CLOSED 0 0 0 0 0 0 0 0 0 0))
    as (node&w3&->&Hp&Etup&Eb&El). cbn [Gen.tup Gen.tot_buf Gen.nd_len] in *. unfold list_add_tail.
  rewrite option_guard_True by lia. cbn [mbind option_bind]. rewrite Nat2Z.id, Hi. cbn [mbind option_bind]. exists node, w3.
  split; [done|]. split; [|split; [done|split; [|done]]].
  - split; rewrite ?Eb, ?El, ?length_inserts; try done; try lia. apply list_inserts_u8; [done|by apply Forall_take].
  - unfold data_of. rewrite Eb, El. pose proof (take_written c (take (Z.to_nat len) buf) 0 ltac:(lia)) as Hw. simpl in Hw. rewrite Et in Hw. exact Hw.
Qed.

Lemma holds_bucket t m tup : holds t m → ∃ i b, hash tup = Some (Z.of_nat i) ∧ Z.of_nat i < n ∧ t !! i = Some b.
Proof.
  intros Ht. destruct (hash_range tup) as (i&Hi&Hn). destruct (lookup_lt_is_Some_2 t i) as [b Hb]; [rewrite (h_len _ _ Ht); lia|]. eauto.
Qed.
Lemma holds_lookup t m i b node : holds t m → t !! i = Some b → Z.of_nat i < n → node ∈ b → m !! Gen.tup node = Some (data_of node).
Proof.
  intros Ht Hi Hn Hb. apply elem_of_map_to_list. rewrite <- (h_map _ _ Ht). destruct (all_nodes_split t i b Hi Hn) as (l&E&_). rewrite E.
  rewrite fmap_app. apply elem_of_app. left. by apply (list_elem_of_fmap_2 entry).
Qed.
Lemma holds_find t m tup i b : holds t m → hash tup = Some (Z.of_nat i) → Z.of_nat i < n → t !! i = Some b →
  match list_find (λ node, Is_true (is_tuple4_equal tup (Gen.tup node))) b with
  | Some (k, node) => b !! k = Some node ∧ Gen.tup node = tup ∧ m !! tup = Some (data_of node)
  | None => m !! tup = None
  end.
Proof.
  intros Ht Hh Hn Hi. destruct (list_find _ b) as [[k node]|] eqn:Ef.
  - apply list_find_Some in Ef as (Hk&He&_). apply is_tuple4_equal_spec in He. subst tup. split; [done|]. split; [done|].
    eapply holds_lookup; eauto. by eapply list_elem_of_lookup_2.
  - apply list_find_None in Ef. destruct (m !! tup) as [d|] eqn:Em; [|done]. exfalso.
    apply elem_of_map_to_list in Em. rewrite <- (h_map _ _ Ht) in Em. apply list_elem_of_fmap_1 in Em as (node&E&Hin). injection E as -> ->.
    unfold all_nodes in Hin. apply list_elem_of_In, in_concat in Hin as (b'&Hin&Hb'). apply list_elem_of_In in Hb'. apply list_elem_of_In, list_elem_of_lookup_1 in Hin as [j Hj].
    apply lookup_take_Some in Hj as [Hj _]. destruct (h_stored _ _ Ht _ _ _ Hj Hb') as [_ Hh']. rewrite Hh in Hh'. injection Hh' as Eij. apply Nat2Z.inj in Eij. subst j.
    rewrite Hi in Hj. injection Hj as <-. rewrite Forall_forall in Ef. apply (Ef node Hb'). by apply is_tuple4_equal_spec.
Qed.

Lemma holds_new t m i b node : holds t m → t !! i = Some b → Z.of_nat i < n → hash (Gen.tup node) = Some (Z.of_nat i) →
  m !! Gen.tup node = None → stored node → holds (<[i := b ++ [node]]> t) (<[Gen.tup node := data_of node]> m).
Proof.
  intros Ht Hi Hn Hh Hm Hs. split.
  - rewrite length_insert. apply Ht.
  - intros j b' nd Hj Hb'. apply list_lookup_insert_Some in Hj as [(<-&<-&_)|[_ Hj]]; [|by eapply h_stored].
    apply elem_of_app in Hb' as [Hb'|Hb']; [by eapply h_stored|]. apply list_elem_of_singleton in Hb' as ->. done.
  - destruct (all_nodes_split t i b Hi Hn) as (l&E&E'). rewrite E'. rewrite map_to_list_insert by done. rewrite <- (h_map _ _ Ht), E.
    rewrite !fmap_app. cbn [fmap list_fmap]. change (entry node) with (Gen.tup node, data_of node). solve_Permutation.
Qed.
Lemma holds_update t m i b k node node' : holds t m → t !! i = Some b → Z.of_nat i < n → b !! k = Some node →
  Gen.tup node' = Gen.tup node → stored node' → holds (<[i := <[k := node']> b]> t) (<[Gen.tup node := data_of node']> m).
Proof.
  intros Ht Hi Hn Hk Etup Hs. pose proof (list_elem_of_lookup_2 _ _ _ Hk) as Hin. destruct (h_stored _ _ Ht _ _ _ Hi Hin) as [_ Hh]. split.
  - rewrite length_insert. apply Ht.
  - intros j b' nd Hj Hb'. apply list_lookup_insert_Some in Hj as [(<-&<-&_)|[_ Hj]]; [|by eapply h_stored].
    apply list_elem_of_lookup_1 in Hb' as [k' Hk']. apply list_lookup_insert_Some in Hk' as [(<-&<-&_)|[_ Hk']]; [by rewrite Etup|].
    eapply h_stored; eauto. by eapply list_elem_of_lookup_2.
  - destruct (all_nodes_split t i b Hi Hn) as (l&E&E'). rewrite E'. pose proof (holds_lookup _ _ _ _ _ Ht Hi Hn Hin) as Hm.
    rewrite <- insert_delete_eq, map_to_list_insert by apply lookup_delete_eq.
    pose proof (h_map _ _ Ht) as Hp. rewrite E, <- (map_to_list_delete m _ _ Hm) in Hp.
    rewrite <- (take_drop_middle _ _ _ Hk) in Hp. rewrite insert_take_drop by (by eapply lookup_lt_Some).
    rewrite !fmap_app, !fmap_cons in *. unfold entry at 2. rewrite Etup. change (entry node) with (Gen.tup node, data_of node) in Hp.
    rewrite <- app_assoc, <- app_comm_cons, <- Permutation_middle in Hp. rewrite <- app_assoc, <- app_comm_cons, <- Permutation_middle.
    apply Permutation_cons_inv in Hp. by rewrite Hp.
Qed.

(** The new state of a stream that has got more data. *)
Definition captured (m : gmap Gen.tuple4 (list Z)) tup (data : list Z) : gmap Gen.tuple4 (list Z) := <[tup := default [] (m !! tup) ++ data]> m.

Lemma update_node_spec (t : list (list Gen.buf_node)) i b k node f : t !! i = Some b → b !! k = Some node →
  update_node t (Z.of_nat i) k f = <[i := <[k := f node]> b]> t.
Proof.
  intros Hi Hk. unfold update_node. rewrite Nat2Z.id. apply list_eq. intros j. destruct (decide (j = i)) as [->|Hne].
  - rewrite list_lookup_alter_eq, list_lookup_insert_eq, Hi by (by eapply lookup_lt_Some). simpl. f_equal. apply list_eq. intros l.
    destruct (decide (l = k)) as [->|Hl]; [rewrite list_lookup_alter_eq, list_lookup_insert_eq, Hk by (by eapply lookup_lt_Some); done|].
    by rewrite list_lookup_alter_ne, list_lookup_insert_ne.
  - by rewrite list_lookup_alter_ne, list_lookup_insert_ne.
Qed.

(** Bytes behind the data in a block that has room for them. *)
Lemma grown node buf bs : stored node → take (Z.to_nat (Gen.nd_len node)) buf = data_of node → Forall (λ c, is_u8 c) buf → Forall (λ c, is_u8 c) bs →
  Gen.nd_len node + Z.of_nat (length bs) <= Z.of_nat (length buf) → MAX_BUFFER_SIZE <= Z.of_nat (length buf) →
  Gen.nd_len node + Z.of_nat (length bs) < 2147483648 →
  let node' := node <| Gen.tot_buf := list_inserts (Z.to_nat (Gen.nd_len node)) bs buf |> <| Gen.nd_len := Gen.nd_len node + Z.of_nat (length bs) |> in
  mem_write buf (Gen.nd_len node) bs = Some (Gen.tot_buf node') ∧ stored node' ∧ data_of node' = data_of node ++ bs.
Proof.
  intros [[Hl0 Hl] Hm Hr Hb Hi] Ek Hb8 Hbs8 Hroom Hmax Hlt. cbv zeta. rewrite mem_write_ok by lia. split; [done|]. split.
  - split; rec_simpl; rewrite ?length_inserts; try done; try lia. by apply list_inserts_u8.
  - unfold data_of at 1. rec_simpl. replace (Z.to_nat (Gen.nd_len node + Z.of_nat (length bs))) with (Z.to_nat (Gen.nd_len node) + length bs)%nat by lia.
    rewrite take_written by lia. by rewrite Ek.
Qed.
Lemma length_stored node : stored node → Z.of_nat (length (data_of node)) = Gen.nd_len node.
Proof. intros []. unfold data_of. rewrite length_take. lia. Qed.

Lemma append_spec node buf data len : stored node → take (Z.to_nat (Gen.nd_len node)) buf = data_of node → Forall (λ c, is_u8 c) buf → Forall (λ c, is_u8 c) data →
  0 <= len <= Z.of_nat (length data) → Gen.nd_len node + len <= Z.of_nat (length buf) → MAX_BUFFER_SIZE <= Z.of_nat (length buf) →
  Gen.nd_len node + len < 2147483648 →
  ∃ node', append_data node buf data len = Some node' ∧ stored node' ∧ Gen.tup node' = Gen.tup node ∧ data_of node' = data_of node ++ take (Z.to_nat len) data.
Proof.
  intros Hs Ek Hb Hd Hl Hroom Hmax Hlt. unfold append_data. rewrite mem_read_ok, drop_0 by lia. cbn [mbind option_bind].
  assert (Z.of_nat (length (take (Z.to_nat len) data)) = len) as El by (rewrite length_take; lia).
  destruct (grown node buf (take (Z.to_nat len) data) Hs Ek Hb (Forall_take _ _ _ Hd)) as (->&Hs'&Ed); try lia. cbn [mbind option_bind].
  rewrite El in *. rewrite s32_id by (destruct Hs; lia). eauto.
Qed.

(** Data of a stream that is there already. *)
Lemma store_known w t m tup i b k node data len : holds t m → hash tup = Some (Z.of_nat i) → Z.of_nat i < n → t !! i = Some b →
  list_find (λ node, Is_true (is_tuple4_equal tup (Gen.tup node))) b = Some (k, node) →
  b !! k = Some node → Gen.tup node = tup → m !! tup = Some (data_of node) →
  Forall (λ c, is_u8 c) data → 0 <= len <= Z.of_nat (length data) → Gen.nd_len node + len < 2147483648 →
  ∃ r t' w', store_stream_data perm xor n w t tup data len NIDS_DATA = Some (r, t', w') ∧ holds t' (captured m tup (take (Z.to_nat len) data)).
Proof.
  intros Ht Hh Hn Hi Ef Hk Etup Hm Hd Hl Hlt. unfold store_stream_data. rewrite Hh. cbn [mbind option_bind]. unfold get_buf_node.
  rewrite option_guard_True by lia. cbn [mbind option_bind]. rewrite Nat2Z.id, Hi. cbn [mbind option_bind]. rewrite Ef. cbn [mbind option_bind].
  destruct (h_stored _ _ Ht _ _ _ Hi (list_elem_of_lookup_2 _ _ _ Hk)) as [Hs _]. pose proof Hs as [Hsl Hsm Hsr Hsb _].
  assert (∀ node', Gen.tup node' = Gen.tup node → stored node' → data_of node' = data_of node ++ take (Z.to_nat len) data →
    holds (update_node t (Z.of_nat i) k (λ _, node')) (captured m tup (take (Z.to_nat len) data))) as Hup.
  { intros node' Et Hs' Ed. rewrite (update_node_spec t i b k node) by done. unfold captured. rewrite Hm. cbn [default]. unfold id. rewrite <- Ed, <- Etup.
    by eapply holds_update. }
  rewrite s32_id by lia. destruct (Z.gtb_spec (Gen.nd_len node + len) MAX_BUFFER_SIZE) as [Hbig|Hsmall].
  - destruct (realloc_ok w (Gen.tot_buf node) (Gen.nd_len node + len) ltac:(lia) Hsb) as (buf&w'&->&Hbl&Hb8&Hkeep). cbn [mbind option_bind].
    destruct (append_spec node buf data len Hs) as (node'&->&Hs'&Et&Ed); try done; try lia; [by rewrite Hkeep by lia|]. cbn [mbind option_bind]. do 3 eexists.
    split; [reflexivity|]. by apply Hup.
  - destruct (append_spec node (Gen.tot_buf node) data len Hs) as (node'&->&Hs'&Et&Ed); try done; try lia. cbn [mbind option_bind]. do 3 eexists.
    split; [reflexivity|]. by apply Hup.
Qed.

(** Data of a new stream. *)
Lemma store_new w t m tup i b data len : holds t m → hash tup = Some (Z.of_nat i) → Z.of_nat i < n → t !! i = Some b →
  list_find (λ node, Is_true (is_tuple4_equal tup (Gen.tup node))) b = None → m !! tup = None →
  Forall (λ c, is_u8 c) data → 0 <= len <= Z.of_nat (length data) → len < 2147483648 →
  ∃ r t' w', store_stream_data perm xor n w t tup data len NIDS_DATA = Some (r, t', w') ∧ holds t' (captured m tup (take (Z.to_nat len) data)).
Proof.
  intros Ht Hh Hn Hi Ef Hm Hd Hl Hlt. unfold store_stream_data. rewrite Hh. cbn [mbind option_bind]. unfold get_buf_node.
  rewrite option_guard_True by lia. cbn [mbind option_bind]. rewrite Nat2Z.id, Hi. cbn [mbind option_bind]. rewrite Ef. cbn [mbind option_bind].
  unfold captured. rewrite Hm. cbn [default app].
  destruct (Z.gtb_spec len MAX_BUFFER_SIZE) as [Hbig|Hsmall].
  2: { destruct (insert_spec w t i b data len tup Hi Hl Hlt Hd) as (node&w'&->&Hs&<-&<-&_). cbn [mbind option_bind].
       do 3 eexists. split; [reflexivity|]. by apply holds_new. }
  assert (0 <= MAX_BUFFER_SIZE < 2147483648) as Hmx by done.
  destruct (insert_spec w t i b data MAX_BUFFER_SIZE tup Hi) as (node&w1&->&Hs&Etup&Ed&El); try done; try lia. cbn [mbind option_bind].
  assert (<[i := b ++ [node]]> t !! i = Some (b ++ [node])) as Hi' by (apply list_lookup_insert_eq; by eapply lookup_lt_Some).
  assert ((b ++ [node]) !! pred (length (b ++ [node])) = Some node) as Hk by (rewrite length_app, Nat.add_1_r; cbn [pred]; by apply list_lookup_middle).
  rewrite Hi'. cbn [mbind option_bind]. rewrite Hk. cbn [mbind option_bind]. pose proof Hs as [Hsl Hsm Hsr Hsb _].
  destruct (realloc_ok w1 (Gen.tot_buf node) len ltac:(lia) Hsb) as (buf&w2&->&Hbl&Hb8&Hkeep). rewrite mem_read_ok by (unfold MAX_BUFFER_SIZE in *; lia). cbn [mbind option_bind].
  set (bs := take (Z.to_nat (len - MAX_BUFFER_SIZE)) (drop (Z.to_nat MAX_BUFFER_SIZE) data)).
  assert (Z.of_nat (length bs) = len - MAX_BUFFER_SIZE) as Elb by (unfold bs; rewrite length_take, length_drop; unfold MAX_BUFFER_SIZE in *; lia).
  destruct (grown node buf bs Hs) as (->&Hs'&Ed'); try done; try lia; [by rewrite Hkeep by lia|by apply Forall_take, Forall_drop|].
  cbn [mbind option_bind]. do 3 eexists. split; [reflexivity|]. rewrite (update_node_spec _ i (b ++ [node]) _ node) by done.
  rewrite El, Elb in *. replace (MAX_BUFFER_SIZE + (len - MAX_BUFFER_SIZE)) with len in * by lia.
  assert (data_of node ++ bs = take (Z.to_nat len) data) as E.
  { rewrite Ed. unfold bs. replace (Z.to_nat len) with (Z.to_nat MAX_BUFFER_SIZE + Z.to_nat (len - MAX_BUFFER_SIZE))%nat by (unfold MAX_BUFFER_SIZE in *; lia).
    apply take_take_drop. }
  rewrite <- E, <- Ed', <- (insert_insert_eq m tup _ (data_of node)), <- Etup. eapply holds_update; try done. apply holds_new; try done; by rewrite Etup.
Qed.

Lemma store_spec w t m tup data len : holds t m → Forall (λ c, is_u8 c) data → 0 <= len <= Z.of_nat (length data) →
  Z.of_nat (length (default [] (m !! tup))) + len < 2147483648 →
  ∃ r t' w', store_stream_data perm xor n w t tup data len NIDS_DATA = Some (r, t', w') ∧ holds t' (captured m tup (take (Z.to_nat len) data)).
Proof.
  intros Ht Hd Hl Hlt. destruct (holds_bucket t m tup Ht) as (i&b&Hh&Hn&Hi). pose proof (holds_find t m tup i b Ht Hh Hn Hi) as Hf.
  destruct (list_find _ b) as [[k node]|] eqn:Ef.
  - destruct Hf as (Hk&Et&Hm). eapply store_known; eauto. rewrite Hm in Hlt. cbn [default] in Hlt. unfold id in Hlt.
    rewrite length_stored in Hlt; [done|]. destruct (h_stored _ _ Ht _ _ _ Hi (list_elem_of_lookup_2 _ _ _ Hk)). done.
  - eapply store_new; eauto. lia.
Qed.

(** ** The callbacks of an import *)

(** The bytes that a callback is about. *)
Definition chunk_of (a : tcp_stream) : option (Gen.tuple4 * list Z) :=
  match nids_state a with
  | NIDS_DATA =>
    if negb (count_new_urg (server a) =? 0) then None
    else if negb (count_new (client a) =? 0) then Some (addr a, take (Z.to_nat (hs_count (client a) - hs_offset (client a))) (hs_data (client a)))
    else Some (opposite (addr a), take (Z.to_nat (hs_count (server a) - hs_offset (server a))) (hs_data (server a)))
  | _ => None
  end.
Definition half_ok (h : half_stream) : Prop := 0 <= hs_count h - hs_offset h <= Z.of_nat (length (hs_data h)) ∧ Forall (λ c, is_u8 c) (hs_data h).
Definition stream_of_ok (a : tcp_stream) : Prop := half_ok (client a) ∧ half_ok (server a).
Definition capture m (c : Gen.tuple4 * list Z) : gmap Gen.tuple4 (list Z) := captured m c.1 c.2.

Fixpoint import (w : W) (t : list (list Gen.buf_node)) (l : list tcp_stream) : option (list (list Gen.buf_node) * W) :=
  match l with
  | [] => Some (t, w)
  | a :: l => '(_, t, w) ← tcp_callback perm xor n w t a; import w t l
  end.

Lemma tcp_callback_spec w t m a : holds t m → stream_of_ok a →
  (∀ tup d, chunk_of a = Some (tup, d) → Z.of_nat (length (default [] (m !! tup))) + Z.of_nat (length d) < 2147483648) →
  ∃ a' t' w', tcp_callback perm xor n w t a = Some (a', t', w') ∧ holds t' (foldl capture m (option_list (chunk_of a))).
Proof.
  intros Ht [Hc Hs] Hlen. unfold tcp_callback, chunk_of in *. destruct (nids_state a); try (do 3 eexists; split; [reflexivity|exact Ht]).
  - destruct (negb (count_new_urg (server a) =? 0)); [do 3 eexists; by split|].
    assert (∀ tup h, half_ok h → Z.of_nat (length (default [] (m !! tup))) + Z.of_nat (length (take (Z.to_nat (hs_count h - hs_offset h)) (hs_data h))) < 2147483648 →
      ∃ r t' w', store_stream_data perm xor n w t tup (hs_data h) (hs_count h - hs_offset h) NIDS_DATA = Some (r, t', w')
        ∧ holds t' (captured m tup (take (Z.to_nat (hs_count h - hs_offset h)) (hs_data h)))) as Hst.
    { intros tup h [Hl Hb] Hlt. apply store_spec; try done. rewrite length_take in Hlt. lia. }
    destruct (negb (count_new (client a) =? 0)).
    + destruct (Hst (addr a) (client a) Hc (Hlen _ _ eq_refl)) as (r&t'&w'&->&Ht'). cbn [mbind option_bind]. do 3 eexists. by split.
    + destruct (Hst (opposite (addr a)) (server a) Hs (Hlen _ _ eq_refl)) as (r&t'&w'&->&Ht'). cbn [mbind option_bind]. do 3 eexists. by split.
  - unfold store_stream_data. destruct (hash_range (addr a)) as (i&->&_). cbn [mbind option_bind]. destruct (hash_range (opposite (addr a))) as (j&->&_).
    cbn [mbind option_bind]. do 3 eexists. by split.
Qed.

(** The data of the direction [tup] in the order of the callbacks. *)
Definition data_for (cs : list (Gen.tuple4 * list Z)) tup : list Z := concat (filter (λ c, c.1 = tup) cs).*2.
Lemma capture_all cs : ∀ m tup, foldl capture m cs !! tup
  = if decide (tup ∈ cs.*1) then Some (default [] (m !! tup) ++ data_for cs tup) else m !! tup.
Proof.
  induction cs as [|[tp d] cs IH]; intros m tup; cbn [foldl fmap list_fmap]; [by rewrite decide_False by apply not_elem_of_nil|].
  rewrite IH. unfold data_for, capture, captured. cbn [fst snd]. rewrite filter_cons. cbn [fst]. destruct (decide (tp = tup)) as [->|Hne].
  - rewrite lookup_insert_eq. cbn [default fmap list_fmap concat]. unfold id. rewrite (decide_True (P := tup ∈ tup :: cs.*1)) by left. destruct (decide _) as [Hin|Hin].
    + by rewrite app_assoc.
    + do 2 f_equal. assert (filter (λ c, c.1 = tup) cs = []) as ->; [|by rewrite app_nil_r].
      destruct (filter _ cs) as [|c l] eqn:E; [done|]. assert (c ∈ filter (λ c, c.1 = tup) cs) as Hc by (rewrite E; left).
      apply list_elem_of_filter in Hc as [<- Hc]. destruct Hin. by apply list_elem_of_fmap_2.
  - rewrite lookup_insert_ne by done. destruct (decide (tup ∈ cs.*1)) as [Hin|Hin]; [by rewrite decide_True by by right|].
    rewrite decide_False; [done|]. intros [->|Hc]%elem_of_cons; done.
Qed.

Definition fits (m : gmap Gen.tuple4 (list Z)) (cs : list (Gen.tuple4 * list Z)) : Prop :=
  ∀ tup, Z.of_nat (length (default [] (m !! tup))) + Z.of_nat (length (data_for cs tup)) < 2147483648.
Lemma fits_cons m tp d cs : fits m ((tp, d) :: cs) →
  Z.of_nat (length (default [] (m !! tp))) + Z.of_nat (length d) < 2147483648 ∧ fits (capture m (tp, d)) cs.
Proof.
  intros Hf. split.
  - specialize (Hf tp). unfold data_for in Hf. rewrite filter_cons, decide_True in Hf by done. cbn [fmap list_fmap concat] in Hf.
    rewrite length_app in Hf. simpl in Hf. lia.
  - intros tup. specialize (Hf tup). unfold data_for, capture, captured in *. rewrite filter_cons in Hf. cbn [fst snd] in *.
    destruct (decide (tp = tup)) as [->|Hne].
    + rewrite lookup_insert_eq. cbn [fmap list_fmap concat] in Hf. rewrite length_app in Hf. cbn [default from_option]. unfold id.
       rewrite length_app. simpl in Hf. change (from_option (λ x : list Z, x) [] (m !! tup)) with (default [] (m !! tup)). lia.
    + by rewrite lookup_insert_ne by done.
Qed.

Lemma import_spec l : ∀ w t m, holds t m → Forall stream_of_ok l → fits m (omap chunk_of l) →
  ∃ t' w', import w t l = Some (t', w') ∧ holds t' (foldl capture m (omap chunk_of l)).
Proof.
  induction l as [|a l IH]; intros w t m Ht Hok Hf; cbn [import]; [by do 2 eexists|]. apply Forall_cons in Hok as [Ha Hok].
  assert (omap chunk_of (a :: l) = option_list (chunk_of a) ++ omap chunk_of l) as Eo by (cbn [omap list_omap]; by destruct (chunk_of a)).
  rewrite Eo in *. destruct (tcp_callback_spec w t m a Ht Ha) as (a'&t'&w'&->&Ht').
  { intros tup d E. rewrite E in Hf. by apply fits_cons in Hf as [? _]. }
  cbn [mbind option_bind]. rewrite foldl_app. apply IH; try done. destruct (chunk_of a) as [[tp d]|]; [|done]. by apply fits_cons in Hf as [_ ?].
Qed.

End Imported.

(** ** A small capture *)
Module ImportDemo.
#[local] Existing Instance TraceDemo.demo_world.
#[export] Instance demo_alloc : GenAlloc Z := {|
  malloc w n := (Some (replicate (Z.to_nat n + 1) 0), w + 1);
  realloc w b n := (Some (take (Z.to_nat n) b ++ replicate (Z.to_nat n - length b) 0), w)
|}.
#[export] Instance demo_laws : AllocLaws Z.
Proof.
  split.
  - intros w n Hn. do 2 eexists. split; [reflexivity|]. rewrite length_replicate. split; [lia|by apply Forall_replicate].
  - intros w b n Hn Hb. do 2 eexists. split; [reflexivity|]. rewrite length_app, length_take, length_replicate. split; [lia|]. split.
    + apply Forall_app. split; [by apply Forall_take|by apply Forall_replicate].
    + intros k Hk Hkn. rewrite take_app_le by (rewrite length_take; lia). rewrite take_take. f_equal. lia.
Qed.
Definition demo_perm : list Z := [0; 1; 2; 3; 4; 5; 6; 7; 8; 9; 10; 11].
Definition demo_xor : list Z := replicate 12 7.
Lemma demo_perm_ok : Forall (λ p, 0 <= p < 12) demo_perm.
Proof. repeat (apply Forall_cons; split; [lia|]). constructor. Qed.

(** A connection is established; a request in two parts and its answer arrive. *)
Definition half (new : Z) (data : list Z) : half_stream := mk_half 1 0 data 0 (Z.of_nat (length data)) new 0.
Definition conn : Gen.tuple4 := Gen.mk_tuple4 4000 80 (Gen.inet_addr4 192 168 0 1) (Gen.inet_addr4 192 168 0 2).
Definition to_server (data : list Z) : tcp_stream := mk_nids conn NIDS_DATA (half 0 []) (half (Z.of_nat (length data)) data).
Definition to_client (data : list Z) : tcp_stream := mk_nids conn NIDS_DATA (half (Z.of_nat (length data)) data) (half 0 []).
Definition demo_events : list tcp_stream :=
  [mk_nids conn NIDS_JUST_EST (half 0 []) (half 0 []); to_server [71; 69; 84]; to_client [79; 75]; to_server [13; 10; 13; 10];
   mk_nids conn NIDS_CLOSE (half 0 []) (half 0 [])].
Lemma demo_events_ok : Forall stream_of_ok demo_events.
Proof.
  assert (∀ new data, Forall (λ c, is_u8 c) data → half_ok (half new data)) as Hh by (intros new data Hd; split; [simpl; lia|done]).
  unfold demo_events, to_server, to_client. repeat (apply Forall_cons; split; [split; apply Hh; repeat (apply Forall_cons; split; [done|]); constructor|]). constructor.
Qed.
Lemma demo_fits : fits ∅ (omap chunk_of demo_events).
Proof.
  intros tup. rewrite lookup_empty. change (omap chunk_of demo_events) with [(opposite conn, [71; 69; 84]); (conn, [79; 75]); (opposite conn, [13; 10; 13; 10])].
  unfold data_for. rewrite !filter_cons, filter_nil. cbn [fst]. repeat destruct (decide _); vm_compute; done.
Qed.

End ImportDemo.
