(* ===== verification/GenCopy.v ===== *)
(** * Copies of the imported streams

    [copy_stream_data], which makes more streams out of the imported ones, and
    [copy_data_per_thread], which gives every sending thread its nodes. *)
From stdpp Require Import fin_maps gmap.
From S2P Require Import Prelude Checksum FlowHash MemPool TcpTypes NetOut TcpOptions TcpOut TcpIn Segment Sunday StreamGen GenTrace GenStore GenImport.
Import Store.

Section Copy.
Context {W : Type} `{Gen.GenWorld W, !GenAlloc W, !AllocLaws W} (n : Z).
Hypothesis n_ok : 0 < n <= MAX_HASH_TABLE_SIZE.
(** [rand] returns a number that is not negative. *)
Hypothesis rand_ok : ∀ w : W, 0 <= (Gen.rand w).1.
Implicit Types (t : list (list Gen.buf_node)) (m : gmap Gen.tuple4 (list Z)).

(** The nodes are copies of the streams [m], each of which is there. *)
Record spread t m : Prop := {
  sp_len : length t = Z.to_nat MAX_HASH_TABLE_SIZE;
  sp_nodes : ∀ i b node, t !! i = Some b → node ∈ b → stored node ∧ m !! Gen.tup node = Some (data_of node);
  sp_all : ∀ tup d, m !! tup = Some d → (tup, d) ∈ entry <$> all_nodes n t
}.
Lemma spread_all t m : spread t m → Forall (λ src, stored src ∧ m !! Gen.tup src = Some (data_of src)) (all_nodes n t).
Proof.
  intros Hsp. apply Forall_forall. intros src Hin. unfold all_nodes in Hin. apply list_elem_of_In, in_concat in Hin as (b&Hin&Hb). apply list_elem_of_In in Hb.
  apply list_elem_of_In, list_elem_of_lookup_1 in Hin as [i Hi]. apply lookup_take_Some in Hi as [Hi _]. by eapply sp_nodes.
Qed.

(** Every list has kept its nodes, perhaps with more behind them. *)
Definition grows t t' : Prop := ∀ i b, t !! i = Some b → ∃ l, t' !! i = Some (b ++ l).
Lemma grows_refl t : grows t t.
Proof. intros i b Hi. exists []. by rewrite app_nil_r. Qed.
Lemma grows_trans t1 t2 t3 : grows t1 t2 → grows t2 t3 → grows t1 t3.
Proof.
  intros H12 H23 i b Hi. destruct (H12 _ _ Hi) as [l Hl]. destruct (H23 _ _ Hl) as [l' Hl']. exists (l ++ l'). by rewrite app_assoc.
Qed.

Lemma insert_copy w t m i b node : spread t m → t !! i = Some b → Z.of_nat i < n → stored node → m !! Gen.tup node = Some (data_of node) →
  ∃ t' w', insert_buf_node w t (Z.of_nat i) (Gen.tot_buf node) (Gen.nd_len node) (Gen.tup node) = Some (t', w')
    ∧ spread t' m ∧ grows t t' ∧ counter n t' = counter n t + 1.
Proof.
  intros Hsp Hi Hn Hs Hm. pose proof Hs as [Hl Hmx Hr Hb _].
  destruct (insert_spec w t i b (Gen.tot_buf node) (Gen.nd_len node) (Gen.tup node) Hi Hl Hmx Hb) as (node'&w'&->&Hs'&Et&Ed&_).
  assert (data_of node' = data_of node) as Ed' by done.
  destruct (all_nodes_split n n_ok t i b Hi Hn) as (l&E&E'). do 2 eexists. split; [reflexivity|]. split; [|split].
  - split; [rewrite length_insert; apply Hsp| |].
    + intros j b' nd Hj Hb'. apply list_lookup_insert_Some in Hj as [(<-&<-&_)|[_ Hj]]; [|by eapply sp_nodes].
      apply elem_of_app in Hb' as [Hb'|Hb']; [by eapply sp_nodes|]. apply list_elem_of_singleton in Hb' as ->. by rewrite Et, Ed'.
    + intros tup d Hd. pose proof (sp_all _ _ Hsp _ _ Hd) as Hin. rewrite E in Hin. rewrite E'. rewrite !fmap_app in *. set_solver.
  - intros j b' Hj. destruct (decide (j = i)) as [->|Hne].
    + rewrite Hi in Hj. injection Hj as <-. exists [node']. apply list_lookup_insert_eq. by eapply lookup_lt_Some.
    + exists []. by rewrite app_nil_r, list_lookup_insert_ne.
  - unfold counter. rewrite E, E'. rewrite !length_app. simpl. lia.
Qed.

(** ** [copy_stream_data] *)

(** [t'] has got the copies that take the count from [cnt] to [cnt']. *)
Record copied m t (cnt : Z) t' (cnt' : Z) : Prop := {
  co_spread : spread t' m;
  co_grows : grows t t';
  co_cnt : cnt <= cnt';
  co_counter : counter n t' = counter n t + (cnt' - cnt)
}.
Lemma copied_refl m t cnt : spread t m → copied m t cnt t cnt.
Proof. intros. split; [done|apply grows_refl|lia|lia]. Qed.
Lemma copied_trans m t1 c1 t2 c2 t3 c3 : copied m t1 c1 t2 c2 → copied m t2 c2 t3 c3 → copied m t1 c1 t3 c3.
Proof. intros [] []. split; [done|by eapply grows_trans|lia|lia]. Qed.

Lemma copy_one w t m i b k node cnt : spread t m → t !! i = Some b → b !! k = Some node →
  ∃ t' w', insert_buf_node (Gen.rand w).2 t (Z.rem (Gen.rand w).1 n) (Gen.tot_buf node) (Gen.nd_len node) (Gen.tup node) = Some (t', w')
    ∧ copied m t cnt t' (cnt + 1).
Proof.
  intros Hsp Hi Hk. destruct (sp_nodes _ _ Hsp _ _ _ Hi (list_elem_of_lookup_2 _ _ _ Hk)) as [Hs Hm].
  pose proof (rand_ok w) as Hr. rewrite Z.rem_mod_nonneg by lia. pose proof (Z.mod_pos_bound (Gen.rand w).1 n ltac:(lia)) as Hmod.
  set (j := Z.to_nat ((Gen.rand w).1 mod n)). replace ((Gen.rand w).1 mod n) with (Z.of_nat j) by lia.
  destruct (lookup_lt_is_Some_2 t j) as [b' Hj]; [rewrite (sp_len _ _ Hsp); lia|].
  destruct (insert_copy (Gen.rand w).2 t m j b' node Hsp Hj ltac:(lia) Hs Hm) as (t'&w'&E&Hsp'&Hg&Hc). exists t', w'. split; [done|]. split; try done; lia.
Qed.

Lemma copy_list_spec nb fuel : ∀ w t m i k cnt, spread t m → (i < length t)%nat → cnt < nb → nb - cnt < Z.of_nat fuel →
  ∃ fin cnt' t' w', copy_list n fuel nb w t i k cnt = Some (fin, cnt', t', w') ∧ copied m t cnt t' cnt'
    ∧ (∀ b, t !! i = Some b → (k < length b)%nat → cnt < cnt') ∧ (if fin then cnt' = nb else cnt' < nb).
Proof.
  induction fuel as [|fuel IH]; intros w t m i k cnt Hsp Hi Hc Hf; [lia|]. cbn [copy_list].
  destruct (lookup_lt_is_Some_2 t i Hi) as [b Hb]. rewrite Hb. cbn [mbind option_bind]. destruct (b !! k) as [node|] eqn:Ek.
  2: { exists false, cnt, t, w. split; [done|]. split; [by apply copied_refl|]. split; [|done]. intros ? [= <-]. apply lookup_ge_None_1 in Ek. lia. }
  destruct (copy_one w t m i b k node cnt Hsp Hb Ek) as (t1&w1&E&Hco). destruct (Gen.rand w) as [r w0]. cbn [fst snd] in E. rewrite E. cbn [mbind option_bind].
  destruct (Z.leb_spec nb (cnt + 1)) as [Hle|Hgt].
  { exists true, (cnt + 1), t1, w1. split; [done|]. split; [done|]. split; [intros; lia|lia]. }
  destruct (bool_decide_reflect (k + 1 < length b)%nat) as [Hmore|Hno].
  - destruct (IH w1 t1 m i (k + 1)%nat (cnt + 1)) as (fin&cnt'&t2&w2&E2&Hco2&_&Hfin); try lia.
    + by apply (co_spread _ _ _ _ _ Hco).
    + destruct (co_grows _ _ _ _ _ Hco _ _ Hb) as [l Hl]. by eapply lookup_lt_Some.
    + exists fin, cnt', t2, w2. split; [done|]. split; [by eapply copied_trans|]. split; [|done]. intros. pose proof (co_cnt _ _ _ _ _ Hco2). lia.
  - exists false, (cnt + 1), t1, w1. split; [done|]. split; [done|]. split; [intros; lia|lia].
Qed.

(** Some list from the first on to the [i]-th has a node. *)
Definition some_node t (i : nat) : Prop := ∃ (j : nat) b, (0 < j <= i)%nat ∧ t !! j = Some b ∧ b ≠ [].
Lemma some_node_grows t t' i : grows t t' → some_node t i → some_node t' i.
Proof.
  intros Hg (j&b&Hj&Hb&Hne). destruct (Hg _ _ Hb) as [l Hl]. exists j, (b ++ l). split_and!; try done; try lia. by destruct b.
Qed.

Lemma copy_lists_spec nb i : ∀ w t m cnt, spread t m → (i < length t)%nat → cnt < nb →
  ∃ fin cnt' t' w', copy_lists n nb w t i cnt = Some (fin, cnt', t', w') ∧ copied m t cnt t' cnt'
    ∧ (some_node t i → cnt < cnt') ∧ (if fin then cnt' = nb else cnt' < nb).
Proof.
  induction i as [|i IH]; intros w t m cnt Hsp Hi Hc; cbn [copy_lists].
  { exists false, cnt, t, w. split; [done|]. split; [by apply copied_refl|]. split; [|done]. intros (j&b&Hj&_). lia. }
  destruct (copy_list_spec nb (S (S (Z.to_nat (nb - cnt)))) w t m (S i) 0 cnt Hsp Hi Hc ltac:(lia)) as (fin&cnt1&t1&w1&E&Hco&Hprog&Hfin).
  rewrite E. cbn [mbind option_bind]. destruct fin.
  { exists true, cnt1, t1, w1. split; [done|]. split; [done|]. split; [intros; lia|done]. }
  destruct (IH w1 t1 m cnt1 (co_spread _ _ _ _ _ Hco)) as (fin&cnt2&t2&w2&E2&Hco2&Hprog2&Hfin2); try done.
  { rewrite (sp_len _ _ (co_spread _ _ _ _ _ Hco)). rewrite <- (sp_len _ _ Hsp). lia. }
  exists fin, cnt2, t2, w2. split; [done|]. split; [by eapply copied_trans|]. split; [|done]. intros (j&b&Hj&Hb&Hne).
  pose proof (co_cnt _ _ _ _ _ Hco). pose proof (co_cnt _ _ _ _ _ Hco2). destruct (decide (j = S i)) as [->|Hji].
  - assert (cnt < cnt1); [|lia]. apply (Hprog b Hb). destruct b; [done|simpl; lia].
  - assert (cnt1 < cnt2); [|lia]. apply Hprog2. apply (some_node_grows t); [apply Hco|]. exists j, b. split_and!; try done; lia.
Qed.

Lemma copy_stream_data_spec nb passes : ∀ w t m cnt, spread t m → cnt < nb → some_node t (pred (Z.to_nat n)) → nb - cnt <= Z.of_nat passes →
  ∃ t' w', copy_stream_data n passes nb w t cnt = Some (true, t', w') ∧ copied m t cnt t' nb.
Proof.
  induction passes as [|passes IH]; intros w t m cnt Hsp Hc Hn Hp; [lia|]. cbn [copy_stream_data].
  destruct (copy_lists_spec nb (pred (Z.to_nat n)) w t m cnt Hsp) as (fin&cnt1&t1&w1&->&Hco&Hprog&Hfin); try done.
  { rewrite (sp_len _ _ Hsp). lia. }
  cbn [mbind option_bind]. specialize (Hprog Hn). destruct fin; [subst cnt1; by exists t1, w1|].
  destruct (IH w1 t1 m cnt1 (co_spread _ _ _ _ _ Hco)) as (t2&w2&E2&Hco2); try lia; [by eapply some_node_grows; [apply Hco|]|].
  exists t2, w2. split; [done|]. by eapply copied_trans.
Qed.

Lemma copy_lists_empty nb i : ∀ w t cnt, (∀ j, (0 < j <= i)%nat → t !! j = Some []) → copy_lists n nb w t i cnt = Some (false, cnt, t, w).
Proof.
  induction i as [|i IH]; intros w t cnt He; cbn [copy_lists copy_list]; [done|]. rewrite (He (S i)) by lia. cbn [mbind option_bind].
  cbn. apply IH. intros j Hj. apply He. lia.
Qed.


(** ** The nodes of the threads *)

(** One byte more than asked for can be read in a block. *)
Hypothesis malloc_spare : ∀ (w : W) k b w', malloc w k = (Some b, w') → k < Z.of_nat (length b).

(** A node for a thread. *)
Definition ready m node : Prop := node_ok node ∧ in_phase node PClosed ∧ m !! Gen.tup node = Some (data_of node).
Definition is_copy (src node : Gen.buf_node) : Prop := node_ok node ∧ in_phase node PClosed ∧ entry node = entry src.

Lemma clone_spec w src : stored src → ∃ node w', clone w src = Some (node, w') ∧ is_copy src node.
Proof.
  intros [Hl Hm Hr Hb _]. unfold clone. destruct (malloc_ok w NODE_SIZE ltac:(done)) as (e&w1&->&_). cbn [mbind option_bind].
  destruct (malloc_ok w1 (Gen.nd_len src) ltac:(lia)) as (c&w2&Ec&Hc&Hc8). pose proof (malloc_spare _ _ _ _ Ec) as Hsp. rewrite Ec. cbn [mbind option_bind].
  rewrite mem_read_ok, drop_0 by lia. cbn [mbind option_bind]. assert (length (take (Z.to_nat (Gen.nd_len src)) (Gen.tot_buf src)) = Z.to_nat (Gen.nd_len src)) as Et by (rewrite length_take; lia).
  rewrite mem_write_ok by lia. cbn [mbind option_bind]. change (Z.to_nat 0) with 0%nat.
  set (bs := take (Z.to_nat (Gen.nd_len src)) (Gen.tot_buf src)) in *.
  destruct (set_field_spec w2 (src <| Gen.tot_buf := list_inserts 0 bs c |>)) as (node&w3&E&Hp&Etup&Eb&El). rec_simpl.
  exists node, w3. split; [by rewrite E|]. split; [|split; [done|]].
  - split; rewrite ?El, ?Eb, ?length_inserts; try lia. apply list_inserts_u8; [done|by apply Forall_take].
  - unfold entry, data_of. rewrite Etup, Eb, El. f_equal. pose proof (take_written c bs 0 ltac:(lia)) as Hw. simpl in Hw. rewrite Et in Hw. exact Hw.
Qed.

Lemma clone_all_spec src ths : ∀ w, stored src →
  ∃ ths' w', clone_all w src ths = Some (ths', w') ∧ Forall2 (λ l l', ∃ node, l' = l ++ [node] ∧ is_copy src node) ths ths'.
Proof.
  induction ths as [|l ths IH]; intros w Hs; cbn [clone_all]; [by do 2 eexists|].
  destruct (clone_spec w src Hs) as (node&w1&->&Hc). cbn [mbind option_bind]. destruct (IH w1 Hs) as (ths'&w2&->&Hf). cbn [mbind option_bind].
  do 2 eexists. split; [reflexivity|]. constructor; eauto.
Qed.
Lemma clone_nodes_spec srcs : ∀ ths w, Forall stored srcs →
  ∃ ths' w', clone_nodes w srcs ths = Some (ths', w') ∧ Forall2 (λ l l', ∃ k, l' = l ++ k ∧ Forall2 is_copy srcs k) ths ths'.
Proof.
  induction srcs as [|src srcs IH]; intros ths w Hs; cbn [clone_nodes].
  { do 2 eexists. split; [reflexivity|]. apply Forall_Forall2_diag, Forall_forall. intros l _. exists []. by rewrite app_nil_r. }
  apply Forall_cons in Hs as [Hs Hss]. destruct (clone_all_spec src ths w Hs) as (ths1&w1&->&Hf1). cbn [mbind option_bind].
  destruct (IH ths1 w1 Hss) as (ths2&w2&->&Hf2). do 2 eexists. split; [reflexivity|].
  clear IH. revert ths2 Hf2. induction Hf1 as [|x y xs ys (node&->&Hc) _ IH]; intros zs Hf2; inversion Hf2 as [|? z ? zs' (k&->&Hk) Hf]; subst; constructor; [|by apply IH].
  exists (node :: k). split; [by rewrite <- app_assoc|]. by constructor.
Qed.

Lemma copies_ready t m k : spread t m → Forall2 is_copy (all_nodes n t) k →
  Forall (ready m) k ∧ Z.of_nat (length k) = counter n t ∧ ∀ tup d, m !! tup = Some d → ∃ node, node ∈ k ∧ entry node = (tup, d).
Proof.
  intros Hsp Hf. split; [|split].
  - pose proof (spread_all t m Hsp) as Hall.
    clear -Hf Hall. induction Hf as [|src node srcs k (Hn&Hp&E) _ IH]; [done|]. apply Forall_cons in Hall as [[_ Hm] Hall]. constructor; [|auto].
    injection E as Et Ed. split_and!; try done; [apply Hp..|]. by rewrite Et, Ed.
  - unfold counter. by rewrite (Forall2_length _ _ _ Hf).
  - intros tup d Hm. pose proof (sp_all _ _ Hsp _ _ Hm) as Hin. apply list_elem_of_fmap_1 in Hin as (src&E&Hin).
    apply list_elem_of_lookup_1 in Hin as [i Hi]. destruct (Forall2_lookup_l _ _ _ _ _ Hf Hi) as (node&Hk&_&_&E'). exists node.
    split; [by eapply list_elem_of_lookup_2|]. congruence.
Qed.

(** The nodes of a thread: idle copies of the streams [m], each of which is
    there. *)
Definition thread_nodes m (nb_stream : Z) (k : list Gen.buf_node) : Prop :=
  Forall (ready m) k ∧ Z.of_nat (length k) = nb_stream ∧ ∀ tup d, m !! tup = Some d → ∃ node, node ∈ k ∧ entry node = (tup, d).

Lemma copy_data_per_thread_spec opt passes w t m : spread t m → some_node t (pred (Z.to_nat n)) → Gen.nb_concur opt + 1 <= Z.of_nat passes →
  ∃ nb_stream ths t' w', copy_data_per_thread n opt passes w t = Some (nb_stream, ths, t', w')
    ∧ length ths = Z.to_nat (Gen.nb_snd_thread opt) ∧ Gen.nb_concur opt - 1 <= nb_stream ∧ Forall (thread_nodes m nb_stream) ths.
Proof.
  intros Hsp Hsome Hp. unfold copy_data_per_thread.
  assert (∃ t' w', (if counter n t <? Gen.nb_concur opt - 1 then
     '(_, t, w) ← copy_stream_data n passes (Gen.nb_concur opt + 1 - counter n t) w t 0; Some (t, w) else Some (t, w)) = Some (t', w')
     ∧ spread t' m ∧ Gen.nb_concur opt - 1 <= counter n t') as (t'&w'&->&Hsp'&Hcnt).
  { pose proof (Nat2Z.is_nonneg (length (all_nodes n t))). destruct (Z.ltb_spec (counter n t) (Gen.nb_concur opt - 1)) as [Hlt|]; [|by do 2 eexists].
    destruct (copy_stream_data_spec (Gen.nb_concur opt + 1 - counter n t) passes w t m 0 Hsp) as (t'&w'&->&[]); try done; try (unfold counter in *; lia).
    cbn [mbind option_bind]. do 2 eexists. split; [reflexivity|]. split; [done|lia]. }
  cbn [mbind option_bind].
  destruct (clone_nodes_spec (all_nodes n t') (replicate (Z.to_nat (Gen.nb_snd_thread opt)) []) w') as (ths&w2&->&Hf).
  { eapply Forall_impl; [by apply (spread_all t' m)|]. by intros ? []. }
  cbn [mbind option_bind]. do 4 eexists. split; [reflexivity|]. split; [by rewrite <- (Forall2_length _ _ _ Hf), length_replicate|]. split; [done|].
  apply Forall_forall. intros l Hl. apply list_elem_of_lookup_1 in Hl as [j Hj]. destruct (Forall2_lookup_r _ _ _ _ _ Hf Hj) as (l0&H0&k&->&Hk).
  apply lookup_replicate_1 in H0 as [-> _]. cbn [app]. by apply (copies_ready t' m).
Qed.

End Copy.

(** ** From the capture to the wire *)
Section Capture.
Context {W : Type} `{Gen.GenWorld W, !GenAlloc W, !AllocLaws W} (perm xor : list Z) (n : Z).
Hypothesis perm_ok : Forall (λ p, 0 <= p < 12) perm.
Hypothesis n_ok : 0 < n <= MAX_HASH_TABLE_SIZE.
Implicit Types (t : list (list Gen.buf_node)) (m : gmap Gen.tuple4 (list Z)).
Lemma holds_spread t m : holds perm xor n t m → spread n t m.
Proof.
  intros Ht. split; [apply Ht| |].
  - intros i b node Hi Hb. destruct (h_stored _ _ _ _ _ Ht _ _ _ Hi Hb) as [Hs Hh]. split; [done|].
    destruct (hash_range perm xor n perm_ok n_ok (Gen.tup node)) as (j&Hj&Hn). rewrite Hh in Hj. injection Hj as E%Nat2Z.inj. subst j.
    by eapply holds_lookup.
  - intros tup d Hm. rewrite (h_map _ _ _ _ _ Ht). by apply elem_of_map_to_list.
Qed.

Lemma some_node_of t m tup d j : holds perm xor n t m → m !! tup = Some d → hash_index perm xor n tup = Some j → 0 < j → some_node t (pred (Z.to_nat n)).
Proof.
  intros Ht Hm Hj Hpos. apply elem_of_map_to_list in Hm. rewrite <- (h_map _ _ _ _ _ Ht) in Hm. apply list_elem_of_fmap_1 in Hm as (node&E&Hin). injection E as -> ->.
  unfold all_nodes in Hin. apply list_elem_of_In, in_concat in Hin as (b&Hin&Hb). apply list_elem_of_In in Hb.
  apply list_elem_of_In, list_elem_of_lookup_1 in Hin as [i Hi]. apply lookup_take_Some in Hi as [Hi Hin].
  destruct (h_stored _ _ _ _ _ Ht _ _ _ Hi Hb) as [_ Hh]. rewrite Hj in Hh. injection Hh as ->. exists i, b. split_and!; try done; try lia.
  intros ->. by apply not_elem_of_nil in Hb.
Qed.
Hypothesis rand_ok : ∀ w : W, 0 <= (Gen.rand w).1.
Hypothesis malloc_spare : ∀ (w : W) k b w', malloc w k = (Some b, w') → k < Z.of_nat (length b).
Definition dirs (l : list tcp_stream) : list Gen.tuple4 := (omap chunk_of l).*1.

End Capture.

(** ** A run from a small capture *)
Module CopyDemo.
Import ImportDemo.
#[local] Existing Instance TraceDemo.demo_world.
Lemma demo_n_ok : 0 < 1040 <= MAX_HASH_TABLE_SIZE.
Proof. done. Qed.
Lemma demo_five : 0 < 5.
Proof. lia. Qed.
Lemma demo_rand : ∀ w : Z, 0 <= (Gen.rand w).1.
Proof. intros w. simpl. lia. Qed.
Lemma demo_spare : ∀ (w : Z) k b w', malloc w k = (Some b, w') → k < Z.of_nat (length b).
Proof. intros w k b w' E. injection E as <- <-. rewrite length_replicate. lia. Qed.
Lemma demo_dir : ∃ tup j, tup ∈ dirs demo_events ∧ hash_index demo_perm demo_xor 1040 tup = Some j ∧ 0 < j.
Proof.
  exists (opposite conn). eexists. split; [|split; [vm_compute; reflexivity|done]].
  change (dirs demo_events) with [opposite conn; conn; opposite conn]. left.
Qed.


End CopyDemo.
