(* ===== verification/GenRate.v ===== *)
(** * The rate of fragments and the accounting of bursts of the generator *)
From S2P Require Import Prelude Checksum FlowHash MemPool TcpTypes NetOut TcpOut Sunday StreamGen.

(** [k] packet types in a row, from the counter [cnt] on. *)
Fixpoint pkt_types (k : nat) (cnt rate : Z) : list Gen.pkt_type * Z :=
  match k with
  | O => ([], cnt)
  | S k => let '(t, cnt) := Gen.get_pkt_type cnt rate in let '(l, cnt) := pkt_types k cnt rate in (t :: l, cnt)
  end.
Definition fragments (l : list Gen.pkt_type) : nat := length (filter (λ t, Is_true (match t with Gen.FRAGMENT_PKT => true | Gen.COMPLETE_PKT => false end)) l).

(** The types repeat with period 101, not 100: of 101 packets in a row [rate] are
    fragments, so that some are complete ones at a rate of 100 as well. *)
Lemma pkt_type_period rate : 0 <= rate <= 100 → ∃ l, pkt_types 101 0 rate = (l, 0) ∧ Z.of_nat (fragments l) = rate.
Proof.
  intros Hr. assert (forallb (λ r, let '(l, c) := pkt_types 101 0 (Z.of_nat r) in (c =? 0) && (Nat.eqb (fragments l) r)) (seq 0 101) = true) as Hall by (vm_compute; reflexivity).
  rewrite forallb_forall in Hall. specialize (Hall (Z.to_nat rate)). rewrite Z2Nat.id in Hall by lia.
  destruct (pkt_types 101 0 rate) as [l c]. exists l. rewrite andb_true_iff, Z.eqb_eq, Nat.eqb_eq in Hall.
  destruct Hall as [-> E]; [apply in_seq; lia|]. split; [done|lia].
Qed.

Section Burst.
Context {W : Type} `{Gen.GenWorld W} (opt : Gen.gen_options).
(** The card takes packets from the front of those it is offered. *)
Hypothesis card_ok : ∀ w l, 0 <= (Gen.tx_burst w l).1 <= Z.of_nat (length l).
Hypothesis burst_ok : 1 <= Gen.burst opt < Gen.MAX_BURST.
Implicit Types (th : Gen.thread_info W).

Lemma retry_loop_range retry : ∀ w k table, 0 <= k <= Z.of_nat (length table) → k <= (Gen.retry_loop retry w k table).1 <= Z.of_nat (length table).
Proof.
  induction retry as [|retry IH]; intros w k table Hk; cbn [Gen.retry_loop]; [simpl; lia|]. destruct (Z.ltb_spec k (Z.of_nat (length table))); [|simpl; lia].
  pose proof (card_ok w (drop (Z.to_nat k) table)) as Hc. rewrite length_drop in Hc. destruct (Gen.tx_burst _ _) as [j w']. simpl in Hc.
  specialize (IH w' (k + j) table ltac:(lia)). lia.
Qed.

(** A burst: a front part is sent, the rest is freed and counted. *)
Lemma send_burst_spec th : ∃ k w, (k <= length (Gen.tx_mbufs th))%nat ∧ let th' := Gen.dpdk_send_burst th in
  Gen.sent th' = Gen.sent th ++ take k (Gen.tx_mbufs th) ∧ Gen.st_tx th' = u64 (Gen.st_tx th + Z.of_nat k)
  ∧ (Gen.st_dropped th' = if (k <? length (Gen.tx_mbufs th))%nat then u64 (Gen.st_dropped th + (Z.of_nat (length (Gen.tx_mbufs th)) - Z.of_nat k)) else Gen.st_dropped th)
  ∧ Gen.th_w th' = foldl Gen.mbuf_free w (drop k (Gen.tx_mbufs th)).*1 ∧ Gen.log th' = Gen.log th.
Proof.
  unfold Gen.dpdk_send_burst. pose proof (card_ok (Gen.th_w th) (Gen.tx_mbufs th)) as Hc. destruct (Gen.tx_burst _ _) as [j w]. simpl in Hc.
  assert (∃ k w', (if j <? Z.of_nat (length (Gen.tx_mbufs th)) then Gen.retry_loop Gen.PKT_RETRY_COUNT w j (Gen.tx_mbufs th) else (j, w)) = (k, w')
    ∧ 0 <= k <= Z.of_nat (length (Gen.tx_mbufs th))) as (k&w'&->&Hk).
  { destruct (j <? _); [|by exists j, w]. pose proof (retry_loop_range Gen.PKT_RETRY_COUNT w j (Gen.tx_mbufs th) Hc) as Hr.
    destruct (Gen.retry_loop _ _ _ _) as [k w']. exists k, w'. simpl in Hr. split; [done|lia]. }
  exists (Z.to_nat k), w'. split; [lia|]. cbv zeta. rewrite Z2Nat.id by lia.
  destruct (Z.ltb_spec k (Z.of_nat (length (Gen.tx_mbufs th)))); destruct (Nat.ltb_spec (Z.to_nat k) (length (Gen.tx_mbufs th))); try lia; [done|].
  rewrite drop_ge by lia. done.
Qed.

(** Packets handed over one after the other. *)
Fixpoint hand (fs : list (list Z)) th : option (Gen.thread_info W) :=
  match fs with
  | [] => Some th
  | f :: fs => '(_, th) ← Gen.dpdk_send_pkt opt th f; hand fs th
  end.

(** From [th] to [th'] the packets of [got] have got a buffer. *)
Record accounts th (got : list (Z * list Z)) th' : Prop := {
  ac_order : (Gen.sent th' ++ Gen.tx_mbufs th') `sublist_of` (Gen.sent th ++ Gen.tx_mbufs th ++ got);
  ac_table : Z.of_nat (length (Gen.tx_mbufs th')) < Gen.burst opt;
  ac_tx : Gen.st_tx th' = u64 (Gen.st_tx th + (Z.of_nat (length (Gen.sent th')) - Z.of_nat (length (Gen.sent th))));
  ac_all : u64 (Gen.st_tx th' + Gen.st_dropped th' + Z.of_nat (length (Gen.tx_mbufs th')))
    = u64 (Gen.st_tx th + Gen.st_dropped th + Z.of_nat (length (Gen.tx_mbufs th)) + Z.of_nat (length got))
}.

Lemma send_pkt_accounts th f : Z.of_nat (length (Gen.tx_mbufs th)) < Gen.burst opt → 0 <= Gen.st_tx th < 18446744073709551616 →
  ∃ r got th', Gen.dpdk_send_pkt opt th f = Some (r, th') ∧ accounts th got th' ∧ 0 <= Gen.st_tx th' < 18446744073709551616
    ∧ (got = [] ∨ ∃ m, got = [(m, f)]) ∧ Gen.log th' = Gen.log th ++ [f].
Proof.
  intros Hl Hu. unfold Gen.dpdk_send_pkt. destruct (Gen.mbuf_alloc _) as [[m|] w].
  2: { exists (-1), []. eexists. split; [reflexivity|]. split; [|split; [done|split; [by left|done]]].
       split; rec_simpl; rewrite ?app_nil_r; try done; [rewrite Z.sub_diag, Z.add_0_r; by rewrite u64_id|]. f_equal. simpl. lia. }
  rewrite option_guard_True by (rec_simpl; lia). cbn [mbind option_bind]. exists 1, [(m, f)]. eexists. split; [reflexivity|].
  rec_simpl. rewrite length_app. cbn [length]. destruct (Z.leb_spec (Gen.burst opt) (Z.of_nat (length (Gen.tx_mbufs th) + 1))) as [Hfull|Hroom].
  - match goal with |- context [Gen.dpdk_send_burst ?t] => destruct (send_burst_spec t) as (k&w'&Hk&E1&E2&E3&_&E4) end. rec_simpl.
    rewrite length_app in Hk, E3. cbn [length] in *. split; [|split; [rewrite E2; clear; ulia|split; [eauto|done]]].
    split; rec_simpl; rewrite ?E1, ?E2, ?E3.
    + rewrite app_nil_r. apply sublist_app; [done|]. apply sublist_take.
    + simpl. lia.
    + rewrite length_app, length_take, length_app. cbn [length]. f_equal. lia.
    + destruct (Nat.ltb_spec k (length (Gen.tx_mbufs th) + 1)); cbn [length]; clear -Hk H0; ulia.
  - split; [|split; [done|split; [eauto|done]]]. split; rec_simpl; try done.
    + rewrite length_app. cbn [length]. lia.
    + rewrite Z.sub_diag, Z.add_0_r. by rewrite u64_id.
    + rewrite length_app. cbn [length]. f_equal. lia.
Qed.

Lemma accounts_refl th : Z.of_nat (length (Gen.tx_mbufs th)) < Gen.burst opt → 0 <= Gen.st_tx th < 18446744073709551616 → accounts th [] th.
Proof.
  intros Hl Hu. split; rewrite ?app_nil_r; try done; [rewrite Z.sub_diag, Z.add_0_r; by rewrite u64_id|]. f_equal. simpl. lia.
Qed.
Lemma accounts_trans th1 got1 th2 got2 th3 : accounts th1 got1 th2 → accounts th2 got2 th3 → accounts th1 (got1 ++ got2) th3.
Proof.
  intros [O1 T1 X1 A1] [O2 T2 X2 A2]. split; try done.
  - etrans; [exact O2|]. rewrite (app_assoc (Gen.sent th2)), (app_assoc (Gen.tx_mbufs th1)), (app_assoc (Gen.sent th1)). by apply sublist_app.
  - rewrite X2, X1. clear. ulia.
  - rewrite A2, length_app. clear -A1. ulia.
Qed.

End Burst.

(** Seven packets through a table of three, with a card that takes one packet
    less than it is offered every other time. *)
Module RateDemo.
#[local] Instance demo_world : Gen.GenWorld Z := {|
  Gen.prand w := (w, w + 1); Gen.rand w := (w, w + 1); Gen.time_ms w := (w, w + 1);
  Gen.mbuf_alloc w := (if w mod 5 =? 0 then None else Some w, w + 1);
  Gen.mbuf_free w _ := w;
  Gen.tx_burst w l := (Z.max 0 (Z.of_nat (length l) - w mod 2), w + 1)
|}.
Definition demo_opt : Gen.gen_options := Gen.mk_options true 45 50 3 2 1.
Definition demo_th : Gen.thread_info Z := Gen.mk_th Z [] [] [] 0 0 [] 0 1 [] [].
Lemma demo_card : ∀ w l, 0 <= (Gen.tx_burst w l).1 <= Z.of_nat (length l).
Proof. intros w l. simpl. pose proof (Z.mod_pos_bound w 2). lia. Qed.
End RateDemo.
