(* ===== verification/Dpdk.v ===== *)
(** * The DPDK driver module

    [dpdk_module.c]: the packet buffers that the stack writes packets to and
    reads packets from, and their way to the card and to the software ring.  The
    configuration is that of the [Makefile]: statistics are kept ([NETSTAT]),
    packets are not delayed, no reassembly and no large receive offload.

    A packet buffer is its address; [bufs] has what the module reads and writes
    of it.  The packages of DPDK (pools of buffers, ring, card) are the class
    [Dpdk]; [None] stands for [exit] and for an access outside of a table.
    [trace] records the buffers that the module gets and gives away. *)
From stdpp Require Import fin_maps gmap.
From S2P Require Import Prelude.

Module Dpdk.

Definition MAX_PKT_BURST : Z := 64.
Definition ETHER_OVR : Z := 4 + 8 + 12.
Definition RTE_MAX_ETHPORTS : Z := 32.

(** Offload flags of DPDK. *)
Definition DEV_TX_OFFLOAD_IPV4_CKSUM : Z := 0x2.
Definition DEV_TX_OFFLOAD_TCP_CKSUM : Z := 0x8.
Definition DEV_RX_OFFLOAD_IPV4_CKSUM : Z := 0x2.
Definition DEV_RX_OFFLOAD_TCP_CKSUM : Z := 0x8.
Definition PKT_RX_L4_CKSUM_BAD : Z := 0x8.
Definition PKT_RX_IP_CKSUM_BAD : Z := 0x10.
Definition PKT_TX_TCP_CKSUM : Z := Z.shiftl 1 52.
Definition PKT_TX_IP_CKSUM : Z := Z.shiftl 1 54.
Definition PKT_TX_IPV4 : Z := Z.shiftl 1 55.

Record rte_mbuf := mk_mbuf {
  pkt_len : Z; data_len : Z; nb_segs : Z; mb_next : Z; ol_flags : Z;
  l2_len : Z; l3_len : Z; l4_len : Z;
  mb_data : list Z
}.
#[global] Instance eta_mbuf : Eta rte_mbuf :=
  λ r, mk_mbuf (pkt_len r) (data_len r) (nb_segs r) (mb_next r) (ol_flags r) (l2_len r) (l3_len r) (l4_len r) (mb_data r).

Record mbuf_table := mk_table { tb_len : Z; m_table : list Z }.
#[global] Instance eta_table : Eta mbuf_table := λ r, mk_table (tb_len r) (m_table r).

(** What goes through the module. *)
Inductive event : Type :=
  | EAlloc (m : Z) | EFree (m : Z)
  | ETx (ms : list Z) | ERx (ms : list Z)
  | ERingIn (ms : list Z) | ERingOut (ms : list Z).

(** The pool of the core ([rte_pktmbuf_alloc] and [free]), the ring of the core,
    the card, which takes packets and delivers buffers with packets, and the
    statistics that it and the kernel module keep. *)
Class Dpdk (W : Type) := {
  pktmbuf_alloc : W → option Z * W;
  pktmbuf_free : W → Z → W;
  ring_enqueue_burst : W → list Z → Z * W;
  ring_dequeue_burst : W → nat → list Z * W;
  eth_tx_burst : W → Z → Z → list Z → Z * W;
  eth_rx_burst : W → Z → Z → nat → list (Z * rte_mbuf) * W;
  eth_stats_imissed : W → Z → Z;
  stats_ioctl : W → Z → Z → W;
  eth_stats_reset : W → Z → W;
  ipv4_phdr_cksum : list Z → Z → Z
}.

Record dpdk_private_context {W : Type} := mk_dpc {
  cpu : Z;
  rmbufs : list mbuf_table;
  wmbufs : list mbuf_table;
  pkts_burst : list Z;
  fd : Z;
  cur_ts : Z;
  tx_packets : list Z;
  tx_bytes : list Z;
  rx_drops : list Z;
  bufs : gmap Z rte_mbuf;
  dw : W;
  trace : list event
}.
Arguments dpdk_private_context W : clear implicits.
#[global] Instance eta_dpc {W} : Eta (dpdk_private_context W) :=
  λ r, mk_dpc W (cpu r) (rmbufs r) (wmbufs r) (pkts_burst r) (fd r) (cur_ts r) (tx_packets r) (tx_bytes r) (rx_drops r) (bufs r) (dw r) (trace r).

Section Module.
Context {W : Type} `{Dpdk W}.
Local Abbreviation ctx := (dpdk_private_context W).
(** [CONFIG.eths[i].ifindex], [CONFIG.nif_to_eidx] and, in [dev_info], the
    capabilities and the pointer to the name of the driver, as 8 bytes. *)
Context (ifindex nif_to_eidx tx_offload_capa rx_offload_capa : Z → Z) (driver_name : Z → list Z) (num_devices_attached : nat).

(** ** Buffers *)
Definition alloc (c : ctx) : option (Z * ctx) :=
  let '(m, w) := pktmbuf_alloc (dw c) in
  m ← m;
  Some (m, c <| dw := w |> <| trace := trace c ++ [EAlloc m] |>).

(** Fresh buffers for the first [k] entries of the table from [i] on. *)
Fixpoint refill (k i : nat) (table : list Z) (c : ctx) : option (list Z * ctx) :=
  match k with
  | O => Some (table, c)
  | S k =>
    '(m, c) ← alloc c;
    guard (i < length table)%nat;;
    refill k (S i) (<[i := m]> table) c
  end.

Fixpoint free_pkts (ms : list Z) (c : ctx) : ctx :=
  match ms with
  | [] => c
  | m :: ms => free_pkts ms (c <| dw := pktmbuf_free (dw c) m |> <| trace := trace c ++ [EFree m] |>)
  end.

Definition wtable (c : ctx) (ifidx : nat) : option mbuf_table := wmbufs c !! ifidx.
Definition set_wtable (c : ctx) (ifidx : nat) (t : mbuf_table) : ctx := c <| wmbufs := <[ifidx := t]> (wmbufs c) |>.

(** ** [dpdk_init_handle]: the table of every port is filled *)
Fixpoint init_ports (k j : nat) (c : ctx) : option ctx :=
  match k with
  | O => Some c
  | S k =>
    t ← wtable c j;
    '(table, c) ← refill (Z.to_nat MAX_PKT_BURST) 0 (m_table t) c;
    init_ports k (S j) (set_wtable c j (mk_table 0 table))
  end.
(** The structure is cleared; [open_fd] is what [open] returns. *)
Definition dpdk_init_handle (cpu open_fd : Z) (w : W) : option ctx :=
  let empty := replicate (Z.to_nat RTE_MAX_ETHPORTS) (mk_table 0 (replicate (Z.to_nat MAX_PKT_BURST) 0)) in
  let zeros := replicate (Z.to_nat RTE_MAX_ETHPORTS) 0 in
  c ← init_ports num_devices_attached 0
        (mk_dpc W cpu empty empty (replicate (Z.to_nat MAX_PKT_BURST) 0) 0 0 zeros zeros zeros ∅ w []);
  Some (c <| fd := open_fd |>).

(** ** Statistics: passed on once a second *)
Definition due (c : ctx) (mtcp_ts : Z) : bool := (1000 <=? Z.abs (s32 (u32 (mtcp_ts - cur_ts c)))) && (0 <=? fd c).
Definition pass_stats (c : ctx) (mtcp_ts portid : Z) : ctx :=
  if due c mtcp_ts then
    let c := c <| dw := stats_ioctl (dw c) portid (cpu c) |> <| cur_ts := mtcp_ts |> in
    if cpu c =? 0 then c <| dw := eth_stats_reset (dw c) portid |> else c
  else c.
Definition count_tx (c : ctx) (ifidx : nat) (n : Z) : ctx := c <| tx_packets := alter (λ v, u64 (v + n)) ifidx (tx_packets c) |>.

(** ** Sending *)

(** [do ... while (cnt > 0)]: at most [fuel] attempts; [None] when the packets
    are not all gone then. *)
Fixpoint tx_loop (fuel : nat) (portid : Z) (pkts : list Z) (c : ctx) : option (Z * ctx) :=
  match fuel with
  | O => None
  | S fuel =>
    let '(ret, w) := eth_tx_burst (dw c) portid (cpu c) pkts in
    let c := c <| dw := w |> <| trace := trace c ++ [ETx (take (Z.to_nat ret) pkts)] |> in
    let pkts := drop (Z.to_nat ret) pkts in
    match pkts with [] => Some (ret, c) | _ => tx_loop fuel portid pkts c end
  end.

Definition dpdk_send_pkts (fuel : nat) (c : ctx) (mtcp_ts : Z) (ifidx : nat) : option (Z * ctx) :=
  let portid := ifindex (Z.of_nat ifidx) in
  t ← wtable c ifidx;
  if tb_len t >? 0 then
    let cnt := tb_len t in
    let c := pass_stats (count_tx c ifidx cnt) mtcp_ts portid in
    '(ret, c) ← tx_loop fuel portid (take (Z.to_nat cnt) (m_table t)) c;
    '(table, c) ← refill (Z.to_nat (tb_len t)) 0 (m_table t) c;
    Some (ret, set_wtable c ifidx (mk_table 0 table))
  else Some (0, c).

(** Into the ring, for another thread to send; what the ring does not take is
    not kept. *)
Definition dpdk_enqueue_pkts (c : ctx) (ifidx : nat) : option (Z * ctx) :=
  t ← wtable c ifidx;
  if tb_len t >? 0 then
    let pkts := take (Z.to_nat (tb_len t)) (m_table t) in
    let '(ret, w) := ring_enqueue_burst (dw c) pkts in
    let c := c <| dw := w |> <| trace := trace c ++ [ERingIn (take (Z.to_nat ret) pkts)] |> in
    '(table, c) ← refill (Z.to_nat (tb_len t)) 0 (m_table t) c;
    Some (ret, set_wtable c ifidx (mk_table 0 table))
  else Some (0, c).

(** One packet of the ring; [rte_ring_dequeue] returns 0 or an error. *)
Definition ENOENT : Z := 2.
Definition dpdk_pass_pkt (c : ctx) (mtcp_ts : Z) (ifidx : nat) : Z * ctx :=
  let portid := ifindex (Z.of_nat ifidx) in
  let '(ms, w) := ring_dequeue_burst (dw c) 1 in
  let c := c <| dw := w |> <| trace := trace c ++ [ERingOut ms] |> in
  match ms with
  | [] => (- ENOENT, c)
  | _ =>
    let c := pass_stats (count_tx c ifidx 1) mtcp_ts portid in
    let '(ret, w) := eth_tx_burst (dw c) portid (cpu c) ms in
    (ret, c <| dw := w |> <| trace := trace c ++ [ETx (take (Z.to_nat ret) ms)] |>)
  end.

(** A burst of the ring, one attempt. *)
Definition dpdk_burst_pkts (c : ctx) (mtcp_ts : Z) (ifidx : nat) : Z * ctx :=
  let portid := ifindex (Z.of_nat ifidx) in
  let '(ms, w) := ring_dequeue_burst (dw c) (Z.to_nat MAX_PKT_BURST) in
  let c := c <| dw := w |> <| trace := trace c ++ [ERingOut ms] |> in
  match ms with
  | [] => (0, c)
  | _ =>
    let '(ret, w) := eth_tx_burst (dw c) portid (cpu c) ms in
    let c := c <| dw := w |> <| trace := trace c ++ [ETx (take (Z.to_nat ret) ms)] |> in
    (ret, pass_stats (count_tx c ifidx ret) mtcp_ts portid)
  end.

(** The place for the next packet: its buffer, or the null pointer when the
    table is full. *)
Definition dpdk_get_wptr (c : ctx) (ifidx : nat) (pktsize : Z) : option (option Z * ctx) :=
  t ← wtable c ifidx;
  if tb_len t =? MAX_PKT_BURST then Some (None, c)
  else
    guard (0 <= tb_len t);;
    m ← m_table t !! Z.to_nat (tb_len t);
    let b := default (mk_mbuf 0 0 0 0 0 0 0 0 []) (bufs c !! m) in
    let b := b <| pkt_len := pktsize |> <| data_len := pktsize |> <| nb_segs := 1 |> <| mb_next := 0 |> in
    let c := c <| bufs := <[m := b]> (bufs c) |> in
    let c := c <| tx_bytes := alter (λ v, u64 (v + (pktsize + ETHER_OVR))) ifidx (tx_bytes c) |> in
    Some (Some m, set_wtable c ifidx (t <| tb_len := tb_len t + 1 |>)).

(** ** Receiving *)

(** The packets of the last call are freed first. *)
Definition dpdk_recv_pkts (c : ctx) (mtcp_ts : Z) (ifidx : nat) : option (Z * ctx) :=
  t ← rmbufs c !! ifidx;
  let '(t, c) := if tb_len t =? 0 then (t, c)
                 else (t <| tb_len := 0 |>, free_pkts (take (Z.to_nat (tb_len t)) (m_table t)) c) in
  let portid := ifindex (Z.of_nat ifidx) in
  let '(got, w) := eth_rx_burst (dw c) portid (cpu c) (Z.to_nat MAX_PKT_BURST) in
  let ms := got.*1 in
  let c := c <| dw := w |> <| trace := trace c ++ [ERx ms] |> <| bufs := list_to_map got ∪ bufs c |>
             <| pkts_burst := ms ++ drop (length ms) (pkts_burst c) |> in
  let c := if due c mtcp_ts then c <| rx_drops := alter (λ v, u64 (v + eth_stats_imissed (dw c) portid)) ifidx (rx_drops c) |> else c in
  let ret := Z.of_nat (length ms) in
  Some (ret, c <| rmbufs := <[ifidx := t <| tb_len := ret |>]> (rmbufs c) |>).

(** The bytes and the length of the received packet [index]; no bytes when the
    card has found a checksum wrong. *)
Definition dpdk_get_rptr (c : ctx) (ifidx index : nat) : option (option (list Z) * Z * ctx) :=
  m ← pkts_burst c !! index;
  b ← bufs c !! m;
  t ← rmbufs c !! ifidx;
  guard (index < length (m_table t))%nat;;
  let c := c <| rmbufs := <[ifidx := t <| m_table := <[index := m]> (m_table t) |>]> (rmbufs c) |> in
  let bad := negb (Z.land (ol_flags b) (Z.lor PKT_RX_L4_CKSUM_BAD PKT_RX_IP_CKSUM_BAD) =? 0) in
  Some (if bad then None else Some (mb_data b), u16 (pkt_len b), c).

(** ** The end: all entries of the tables are freed *)
Fixpoint destroy_ports (k j : nat) (c : ctx) : option ctx :=
  match k with
  | O => Some c
  | S k => t ← wtable c j; destroy_ports k (S j) (free_pkts (take (Z.to_nat MAX_PKT_BURST) (m_table t)) c)
  end.
Definition dpdk_destroy_handle (c : ctx) : option ctx := destroy_ports num_devices_attached 0 c.

(** ** Offloads *)
Inductive ioctl_cmd : Type :=
  | PKT_TX_IP_CSUM | PKT_TX_TCP_CSUM | PKT_TX_TCPIP_CSUM | PKT_RX_IP_CSUM | PKT_RX_TCP_CSUM
  | PKT_TX_TCPIP_CSUM_PEEK | DRV_NAME | OTHER_CMD.
Definition capable (capa flag : Z) : bool := negb (Z.land capa flag =? 0).
(** The header length of the IP header at [off], and the place of the checksum
    of the TCP header behind it. *)
Definition ihl4 (bs : list Z) (off : Z) : option Z := b ← byte_at bs off; Some (4 * (b mod 16)).
Definition set_check (bs : list Z) (off check : Z) : option (list Z) := mem_write bs (off + 16) [check mod 256; check / 256].

(** The buffer of the packet under construction. *)
Definition last_wmbuf (c : ctx) (eidx : nat) : option (Z * rte_mbuf) :=
  t ← wtable c eidx;
  guard (1 <= tb_len t);;
  m ← m_table t !! Z.to_nat (tb_len t - 1);
  b ← bufs c !! m;
  Some (m, b).

(** [argp] are the bytes at the argument, for the sending of a packet those from
    its IP header on; the result has them as they are afterwards. *)
Definition dpdk_dev_ioctl (c : ctx) (nif : Z) (cmd : ioctl_cmd) (argp : list Z) : option (Z * ctx * list Z) :=
  let eidx := Z.to_nat (nif_to_eidx nif) in
  let tx_ip := capable (tx_offload_capa nif) DEV_TX_OFFLOAD_IPV4_CKSUM in
  let tx_tcp := capable (tx_offload_capa nif) DEV_TX_OFFLOAD_TCP_CKSUM in
  match cmd with
  | PKT_TX_IP_CSUM =>
    if negb tx_ip then Some (-1, c, argp)
    else
      '(m, b) ← last_wmbuf c eidx;
      h ← ihl4 argp 0;
      Some (0, c <| bufs := <[m := b <| ol_flags := Z.lor PKT_TX_IP_CKSUM PKT_TX_IPV4 |> <| l2_len := 14 |> <| l3_len := h |>]> (bufs c) |>, argp)
  | PKT_TX_TCP_CSUM =>
    if negb tx_tcp then Some (-1, c, argp)
    else
      '(m, b) ← last_wmbuf c eidx;
      h ← ihl4 argp 0;
      let b := b <| ol_flags := Z.lor (ol_flags b) PKT_TX_TCP_CKSUM |> in
      argp ← set_check argp h (ipv4_phdr_cksum argp (ol_flags b));
      Some (0, c <| bufs := <[m := b]> (bufs c) |>, argp)
  | PKT_TX_TCPIP_CSUM =>
    if negb tx_ip then Some (-1, c, argp)
    else if negb tx_tcp then Some (-1, c, argp)
    else
      '(m, b) ← last_wmbuf c eidx;
      h ← ihl4 (mb_data b) 14;
      d ← byte_at (mb_data b) (14 + h + 12);
      let b := b <| l2_len := 14 |> <| l3_len := h |> <| l4_len := 4 * (d / 16) |>
                 <| ol_flags := Z.lor (Z.lor PKT_TX_TCP_CKSUM PKT_TX_IP_CKSUM) PKT_TX_IPV4 |> in
      data ← set_check (mb_data b) (14 + h) (ipv4_phdr_cksum (drop 14 (mb_data b)) (ol_flags b));
      Some (0, c <| bufs := <[m := b <| mb_data := data |>]> (bufs c) |>, argp)
  | PKT_RX_IP_CSUM => Some (if capable (rx_offload_capa nif) DEV_RX_OFFLOAD_IPV4_CKSUM then 0 else -1, c, argp)
  | PKT_RX_TCP_CSUM => Some (if capable (rx_offload_capa nif) DEV_RX_OFFLOAD_TCP_CKSUM then 0 else -1, c, argp)
  | PKT_TX_TCPIP_CSUM_PEEK => Some (if negb tx_ip then -1 else if negb tx_tcp then -1 else 0, c, argp)
  | DRV_NAME => argp ← mem_write argp 0 (driver_name nif); Some (0, c, argp)
  | OTHER_CMD => Some (-1, c, argp)
  end.
End Module.
End Dpdk.
