(* ===== verification/DpdkInv.v ===== *)
(** * What the DPDK driver module does with packet buffers

    Sending ends with a card that keeps making progress, and no buffer is freed
    or given away twice; how many are lost when the ring or the card is full. *)
From stdpp Require Import fin_maps gmap.
From S2P Require Import Prelude Dpdk.
Import Dpdk.

Section Driver.
Context {W : Type} `{Dpdk W}.
Local Abbreviation ctx := (dpdk_private_context W).
Implicit Types (c : ctx).
Context (ifindex : Z → Z) (num : nat).
(** What the packages of DPDK document: no more packets are taken than offered,
    or returned than asked for. *)
Hypothesis tx_ok : ∀ w p q ms, 0 <= (eth_tx_burst w p q ms).1 <= Z.of_nat (length ms).
Hypothesis rx_ok : ∀ w p q n, (length (eth_rx_burst w p q n).1 <= n)%nat.
Hypothesis enq_ok : ∀ w ms, 0 <= (ring_enqueue_burst w ms).1 <= Z.of_nat (length ms).

(** ** Sending *)

(** The card refuses all of [ms] in [k] attempts in a row. *)
Fixpoint refuses (k : nat) (w : W) (p q : Z) (ms : list Z) : bool :=
  match k with
  | O => true
  | S k => let '(ret, w) := eth_tx_burst w p q ms in (ret =? 0) && refuses k w p q ms
  end.

Lemma tx_attempt fuel p ms c : ms ≠ [] →
  let ret := (eth_tx_burst (dw c) p (cpu c) ms).1 in
  let c' := c <| dw := (eth_tx_burst (dw c) p (cpu c) ms).2 |> <| trace := trace c ++ [ETx (take (Z.to_nat ret) ms)] |> in
  tx_loop (S fuel) p ms c = match drop (Z.to_nat ret) ms with [] => Some (ret, c') | rest => tx_loop fuel p rest c' end.
Proof. intros Hm. cbn [tx_loop]. destruct (eth_tx_burst _ _ _ _) as [ret w]. cbn [fst snd]. by destruct (drop (Z.to_nat ret) ms). Qed.

(** What the loop leaves unchanged. *)
Definition same_tables c c' : Prop :=
  cpu c' = cpu c ∧ wmbufs c' = wmbufs c ∧ rmbufs c' = rmbufs c ∧ pkts_burst c' = pkts_burst c ∧ bufs c' = bufs c.
Lemma same_tables_trans c1 c2 c3 : same_tables c1 c2 → same_tables c2 c3 → same_tables c1 c3.
Proof. unfold same_tables. intros (?&?&?&?&?) (?&?&?&?&?). by repeat split; etrans. Qed.

Definition taken c c' ms : Prop := same_tables c c' ∧ ∃ txs, trace c' = trace c ++ (ETx <$> txs) ∧ concat txs = ms.

Section Fair.
Context (K : nat).
(** The card never refuses [K] times in a row. *)
Hypothesis fair : ∀ w p q ms, ms ≠ [] → refuses K w p q ms = false.

Lemma tx_loop_ends n : ∀ ms p c fuel, ms ≠ [] → (length ms <= n)%nat → (K * n <= fuel)%nat → ∃ ret c', tx_loop fuel p ms c = Some (ret, c') ∧ taken c c' ms.
Proof.
  induction n as [|n IHn]; intros ms p c fuel Hm Hl Hf; [destruct ms; [done|simpl in Hl; lia]|].
  assert (∀ k c fuel, refuses k (dw c) p (cpu c) ms = false → (k + K * n <= fuel)%nat → ∃ ret c', tx_loop fuel p ms c = Some (ret, c') ∧ taken c c' ms) as Hk.
  2: { apply (Hk K); [by apply fair|lia]. }
  clear c fuel Hf. induction k as [|k IHk]; intros c fuel Hr Hf; [done|]. destruct fuel as [|fuel]; [lia|]. rewrite tx_attempt by done.
  pose proof (tx_ok (dw c) p (cpu c) ms) as Hret. cbn [refuses] in Hr. destruct (eth_tx_burst (dw c) p (cpu c) ms) as [ret w] eqn:Et. cbn [fst snd] in *.
  set (c1 := c <| dw := w |> <| trace := trace c ++ [ETx (take (Z.to_nat ret) ms)] |>).
  assert (same_tables c c1) as Hs1 by done.
  destruct (Z.eqb_spec ret 0) as [->|Hne].
  - change (Z.to_nat 0) with 0%nat. rewrite drop_0. destruct ms as [|m ms]; [done|]. set (ms' := m :: ms) in *.
    destruct (IHk c1 fuel Hr ltac:(lia)) as (ret&c'&E&Hs&txs&Etr&Ec). exists ret, c'. split; [done|]. split; [by eapply same_tables_trans|].
    exists ([] :: txs). split; [|done]. rewrite Etr. unfold c1. rec_simpl. by rewrite <- app_assoc.
  - assert (take (Z.to_nat ret) ms ++ drop (Z.to_nat ret) ms = ms) as Etd by apply take_drop.
    destruct (drop (Z.to_nat ret) ms) as [|m rest] eqn:Ed.
    + exists ret, c1. split; [done|]. split; [done|]. exists [take (Z.to_nat ret) ms]. split; [done|]. by cbn [concat].
    + destruct (IHn (m :: rest) p c1 fuel) as (ret'&c'&E&Hs&txs&Etr&Ec); [done| |lia|].
      { rewrite <- Ed, length_drop. lia. }
      exists ret', c'. split; [done|]. split; [by eapply same_tables_trans|]. exists (take (Z.to_nat ret) ms :: txs).
      split; [rewrite Etr; unfold c1; rec_simpl; by rewrite <- app_assoc|]. cbn [concat]. by rewrite Ec.
Qed.
End Fair.

Lemma tx_loop_stuck p ms fuel : (∀ w q, (eth_tx_burst w p q ms).1 = 0) → ms ≠ [] → ∀ c, tx_loop fuel p ms c = None.
Proof.
  intros Hr Hm. induction fuel as [|fuel IH]; intros c; [done|]. rewrite tx_attempt by done. rewrite Hr. change (Z.to_nat 0) with 0%nat. rewrite drop_0.
  destruct ms; [done|]. apply IH.
Qed.

(** ** Whose buffers *)
Definition ins (e : event) : list Z := match e with EAlloc m => [m] | ERx ms | ERingOut ms => ms | _ => [] end.
Definition outs (e : event) : list Z := match e with EFree m => [m] | ETx ms | ERingIn ms => ms | _ => [] end.
(** The buffers in the tables: all entries of the writing tables, the received
    packets of the reading tables. *)
Definition received (t : mbuf_table) : list Z := take (Z.to_nat (tb_len t)) (m_table t).
Definition held c : list Z := concat (m_table <$> take num (wmbufs c)) ++ concat (received <$> rmbufs c).
(** Every buffer that came in went out, is held or is one of [lost]. *)
Definition conserves c (lost : list Z) : Prop := (trace c ≫= ins) ≡ₚ (trace c ≫= outs) ++ held c ++ lost.

Definition table_ok (t : mbuf_table) : Prop := length (m_table t) = 64%nat ∧ 0 <= tb_len t <= 64.
Record wf c : Prop := {
  wf_w : (num <= length (wmbufs c))%nat;
  wf_wt : ∀ j t, (j < num)%nat → wmbufs c !! j = Some t → table_ok t;
  wf_r : (num <= length (rmbufs c))%nat;
  wf_rt : ∀ j t, rmbufs c !! j = Some t → table_ok t;
  wf_b : length (pkts_burst c) = 64%nat
}.

(** The pool has buffers. *)
Hypothesis pool_ok : ∀ w, ∃ m w', pktmbuf_alloc w = (Some m, w').

Lemma refill_spec k : ∀ i table c, (i + k <= length table)%nat →
  ∃ new c', refill k i table c = Some (take i table ++ new ++ drop (i + k) table, c') ∧ length new = k
    ∧ same_tables c c' ∧ trace c' = trace c ++ (EAlloc <$> new).
Proof.
  induction k as [|k IH]; intros i table c Hl; cbn [refill].
  { exists [], c. rewrite Nat.add_0_r. cbn [app fmap list_fmap]. rewrite take_drop, app_nil_r. done. }
  unfold alloc. destruct (pool_ok (dw c)) as (m&w'&->). cbn [mbind option_bind]. rewrite option_guard_True by lia. cbn [mbind option_bind].
  set (c1 := c <| dw := w' |> <| trace := trace c ++ [EAlloc m] |>).
  destruct (IH (S i) (<[i := m]> table) c1) as (new&c'&E&Hn&Hs&Ht); [rewrite length_insert; lia|]. exists (m :: new), c'.
  split; [rewrite E|split; [simpl; lia|split; [by eapply same_tables_trans; [|exact Hs]|]]].
  - f_equal. f_equal. rewrite (take_S_r _ _ m) by (apply list_lookup_insert_eq; lia). rewrite take_insert_ge by lia. rewrite drop_insert_lt by lia.
    rewrite <- app_assoc. by replace (i + S k)%nat with (S i + k)%nat by lia.
  - rewrite Ht. unfold c1. rec_simpl. by rewrite <- app_assoc.
Qed.

Lemma free_pkts_spec ms : ∀ c, same_tables c (free_pkts ms c) ∧ trace (free_pkts ms c) = trace c ++ (EFree <$> ms).
Proof.
  induction ms as [|m ms IH]; intros c; cbn [free_pkts]; [by rewrite app_nil_r|].
  destruct (IH (c <| dw := pktmbuf_free (dw c) m |> <| trace := trace c ++ [EFree m] |>)) as [Hs Ht]. split; [done|].
  rewrite Ht. rec_simpl. by rewrite <- app_assoc.
Qed.

Lemma ins_allocs new : (EAlloc <$> new) ≫= ins = new.
Proof. induction new; simpl; [done|by f_equal]. Qed.
Lemma outs_allocs new : (EAlloc <$> new) ≫= outs = [].
Proof. by induction new. Qed.
Lemma ins_frees ms : (EFree <$> ms) ≫= ins = [].
Proof. by induction ms. Qed.
Lemma outs_frees ms : (EFree <$> ms) ≫= outs = ms.
Proof. induction ms; simpl; [done|by f_equal]. Qed.
Lemma ins_txs txs : (ETx <$> txs) ≫= ins = [].
Proof. by induction txs. Qed.
Lemma outs_txs txs : (ETx <$> txs) ≫= outs = concat txs.
Proof. induction txs; simpl; [done|by f_equal]. Qed.

(** The entries of the table of the port [j] and the others. *)
Lemma tables_split {A B} (f : A → list B) (l : list A) j t : l !! j = Some t →
  ∃ r, concat (f <$> l) ≡ₚ f t ++ r ∧ ∀ t', concat (f <$> <[j := t']> l) ≡ₚ f t' ++ r.
Proof.
  intros Hj. exists (concat (f <$> take j l) ++ concat (f <$> drop (S j) l)).
  assert (∀ t', concat (f <$> <[j := t']> l) ≡ₚ f t' ++ concat (f <$> take j l) ++ concat (f <$> drop (S j) l)) as Hins.
  { intros t'. rewrite insert_take_drop by (by eapply lookup_lt_Some). rewrite fmap_app, fmap_cons, concat_app. cbn [concat]. solve_Permutation. }
  split; [|done]. rewrite <- (list_insert_id l j t) at 1 by done. apply Hins.
Qed.

(** The writing table of the port [j] replaced, with the same reading tables. *)
Lemma held_write c c' j t t' : (j < num)%nat → wmbufs c !! j = Some t → wmbufs c' = <[j := t']> (wmbufs c) → rmbufs c' = rmbufs c →
  ∃ r, held c ≡ₚ m_table t ++ r ∧ held c' ≡ₚ m_table t' ++ r.
Proof.
  intros Hj Ht Hw Hr. unfold held. rewrite Hw, Hr. rewrite take_insert_lt by done.
  destruct (tables_split m_table (take num (wmbufs c)) j t) as (r&E&E'); [by rewrite lookup_take_lt|].
  exists (r ++ concat (received <$> rmbufs c)). rewrite E, E'. by rewrite <- !app_assoc.
Qed.
Lemma wf_write c c' j t' : wf c → wmbufs c' = <[j := t']> (wmbufs c) → rmbufs c' = rmbufs c → pkts_burst c' = pkts_burst c → table_ok t' → wf c'.
Proof.
  intros [] Hw Hr Hb Hok. split; rewrite ?Hw, ?Hr, ?Hb, ?length_insert; try done.
  intros i t Hi Ht. apply list_lookup_insert_Some in Ht as [(_&<-&_)|[_ Ht]]; eauto.
Qed.
Lemma wf_same c c' : wf c → same_tables c c' → wf c'.
Proof. intros [] (_&Ew&Er&Eb&_). by split; rewrite ?Ew, ?Er, ?Eb. Qed.
Lemma held_same c c' : same_tables c c' → held c' = held c.
Proof. intros (_&Ew&Er&_&_). unfold held. by rewrite Ew, Er. Qed.

(** Statistics touch no table. *)
Lemma pass_stats_same c ts p : same_tables c (pass_stats c ts p) ∧ trace (pass_stats c ts p) = trace c.
Proof. unfold pass_stats. destruct (due c ts); [|done]. cbv zeta. by destruct (_ =? 0). Qed.

(** Packets that left the front of a table, and its fresh buffers. *)
Lemma refilled c c1 j t out lost0 lost : wf c → conserves c lost0 → (j < num)%nat → wmbufs c !! j = Some t → same_tables c c1 →
  trace c1 = trace c ++ out → out ≫= ins = [] → take (Z.to_nat (tb_len t)) (m_table t) ≡ₚ (out ≫= outs) ++ lost →
  ∃ table c2, refill (Z.to_nat (tb_len t)) 0 (m_table t) c1 = Some (table, c2) ∧ wf (set_wtable c2 j (mk_table 0 table))
    ∧ conserves (set_wtable c2 j (mk_table 0 table)) (lost0 ++ lost).
Proof.
  intros Hwf Hco Hj Ht Hs Htr Hi Ho. destruct (wf_wt _ Hwf _ _ Hj Ht) as [Hlen Hl].
  destruct (refill_spec (Z.to_nat (tb_len t)) 0 (m_table t) c1) as (new&c2'&E&Hn&Hs2&Ht2); [lia|]. rewrite take_0 in E. cbn [app] in E.
  do 2 eexists. split; [exact E|]. set (t' := mk_table 0 (new ++ drop (0 + Z.to_nat (tb_len t)) (m_table t))).
  pose proof (same_tables_trans _ _ _ Hs Hs2) as (_&Ew&Er&Eb&_).
  assert (wmbufs (set_wtable c2' j t') = <[j := t']> (wmbufs c)) as Ew' by (unfold set_wtable; rec_simpl; by rewrite Ew).
  split; [apply (wf_write c _ j t'); try done; split; [unfold t'; cbn [m_table]; rewrite length_app, length_drop; lia|simpl; lia]|].
  destruct (held_write c (set_wtable c2' j t') j t t' Hj Ht Ew' Er) as (r&E1&E2). unfold conserves in *. rewrite E2.
  replace (trace (set_wtable c2' j t')) with ((trace c ++ out) ++ (EAlloc <$> new)) by (unfold set_wtable; rec_simpl; by rewrite Ht2, Htr).
  rewrite !bind_app, ins_allocs, outs_allocs, Hi, !app_nil_r, Hco, E1. unfold t'. cbn [m_table]. rewrite Nat.add_0_l.
  rewrite <- (take_drop (Z.to_nat (tb_len t)) (m_table t)) at 1. rewrite Ho. solve_Permutation.
Qed.

(** ** The operations of the stack thread and of the sending thread *)

(** The packets of one call of [dpdk_recv_pkts] read one after the other, as the
    main loop does. *)
Fixpoint read_all (k i : nat) (ifidx : nat) c : option ctx :=
  match k with
  | O => Some c
  | S k => '(_, _, c) ← dpdk_get_rptr c ifidx i; read_all k (S i) ifidx c
  end.
Inductive op : Type :=
  | OWptr (ifidx : nat) (size : Z) | OSend (fuel : nat) (ts : Z) (ifidx : nat) | ORecv (ts : Z) (ifidx : nat)
  | OEnqueue (ifidx : nat) | OPass (ts : Z) (ifidx : nat) | OBurst (ts : Z) (ifidx : nat).
(** The result has the buffers that the ring or the card did not take. *)
Definition run_op (o : op) c : option (list Z * ctx) :=
  match o with
  | OWptr ifidx size => '(_, c) ← dpdk_get_wptr c ifidx size; Some ([], c)
  | OSend fuel ts ifidx => '(_, c) ← dpdk_send_pkts ifindex fuel c ts ifidx; Some ([], c)
  | ORecv ts ifidx => '(ret, c) ← dpdk_recv_pkts ifindex c ts ifidx; c ← read_all (Z.to_nat ret) 0 ifidx c; Some ([], c)
  | OEnqueue ifidx =>
    t ← wtable c ifidx;
    '(ret, c') ← dpdk_enqueue_pkts c ifidx;
    Some (drop (Z.to_nat ret) (take (Z.to_nat (tb_len t)) (m_table t)), c')
  | OPass ts ifidx =>
    let '(ret, c') := dpdk_pass_pkt ifindex c ts ifidx in
    Some (drop (Z.to_nat ret) (ring_dequeue_burst (dw c) 1).1, c')
  | OBurst ts ifidx =>
    let '(ret, c') := dpdk_burst_pkts ifindex c ts ifidx in
    Some (drop (Z.to_nat ret) (ring_dequeue_burst (dw c) (Z.to_nat MAX_PKT_BURST)).1, c')
  end.
Definition op_port (o : op) : nat := match o with OWptr i _ | OSend _ _ i | ORecv _ i | OEnqueue i | OPass _ i | OBurst _ i => i end.

Lemma wptr_ok c lost0 ifidx size : wf c → conserves c lost0 → (ifidx < num)%nat →
  ∃ r c', dpdk_get_wptr c ifidx size = Some (r, c') ∧ wf c' ∧ conserves c' lost0.
Proof.
  intros Hwf Hco Hi. unfold dpdk_get_wptr, wtable. destruct (lookup_lt_is_Some_2 (wmbufs c) ifidx) as [t Ht]; [pose proof (wf_w _ Hwf); lia|]. rewrite Ht.
  cbn [mbind option_bind]. destruct (wf_wt _ Hwf _ _ Hi Ht) as [Hlen Hl]. unfold MAX_PKT_BURST. destruct (Z.eqb_spec (tb_len t) 64); [by do 2 eexists|].
  rewrite option_guard_True by lia. cbn [mbind option_bind]. destruct (lookup_lt_is_Some_2 (m_table t) (Z.to_nat (tb_len t))) as [m Hm]; [lia|].
  rewrite Hm. cbn [mbind option_bind]. do 2 eexists. split; [reflexivity|]. match goal with |- wf ?x ∧ _ => set (c' := x) end.
  assert (wmbufs c' = <[ifidx := t <| tb_len := tb_len t + 1 |>]> (wmbufs c)) as Ew by done.
  split; [apply (wf_write c c' ifidx (t <| tb_len := tb_len t + 1 |>)); try done; split; [done|simpl; lia]|].
  destruct (held_write c c' ifidx t (t <| tb_len := tb_len t + 1 |>) Hi Ht Ew eq_refl) as (r&E1&E2). unfold conserves in *. rewrite E2. rec_simpl.
  by rewrite <- E1.
Qed.

Lemma enqueue_ok c lost0 ifidx : wf c → conserves c lost0 → (ifidx < num)%nat →
  ∃ lost c', run_op (OEnqueue ifidx) c = Some (lost, c') ∧ wf c' ∧ conserves c' (lost0 ++ lost).
Proof.
  intros Hwf Hco Hi. unfold run_op, dpdk_enqueue_pkts, wtable. destruct (lookup_lt_is_Some_2 (wmbufs c) ifidx) as [t Ht]; [pose proof (wf_w _ Hwf); lia|]. rewrite Ht.
  cbn [mbind option_bind]. destruct (Z.gtb_spec (tb_len t) 0).
  2: { cbn [mbind option_bind]. do 2 eexists. split; [reflexivity|]. pose proof (proj2 (wf_wt _ Hwf _ _ Hi Ht)). replace (Z.to_nat (tb_len t)) with 0%nat by lia.
       by rewrite take_0, drop_nil, app_nil_r. }
  set (pkts := take (Z.to_nat (tb_len t)) (m_table t)). pose proof (enq_ok (dw c) pkts) as Hr. destruct (ring_enqueue_burst (dw c) pkts) as [ret w]. simpl in Hr.
  set (c1 := c <| dw := w |> <| trace := trace c ++ [ERingIn (take (Z.to_nat ret) pkts)] |>).
  destruct (refilled c c1 ifidx t [ERingIn (take (Z.to_nat ret) pkts)] lost0 (drop (Z.to_nat ret) pkts) Hwf Hco Hi Ht) as (table&c2&->&Hwf2&Hco2); try done.
  { simpl. rewrite app_nil_r, take_drop. done. }
  cbn [mbind option_bind]. do 2 eexists. split; [reflexivity|]. done.
Qed.

(** Packets of the ring, those the card took and the others. *)
Lemma ring_ok c c' lost0 ms ret : wf c → conserves c lost0 → same_tables c c' → trace c' = trace c ++ [ERingOut ms; ETx (take ret ms)] →
  wf c' ∧ conserves c' (lost0 ++ drop ret ms).
Proof.
  intros Hwf Hco Hs Ht. split; [by eapply wf_same|]. unfold conserves in *. rewrite (held_same _ _ Hs), Ht, !bind_app, Hco. simpl. rewrite !app_nil_r.
  rewrite <- (take_drop ret ms) at 1. solve_Permutation.
Qed.

Lemma nothing_from_ring c c' lost0 : wf c → conserves c lost0 → same_tables c c' → trace c' = trace c ++ [ERingOut []] → wf c' ∧ conserves c' lost0.
Proof.
  intros Hwf Hco Hs Ht. split; [by eapply wf_same|]. unfold conserves in *. rewrite (held_same _ _ Hs), Ht, !bind_app, Hco. simpl. by rewrite !app_nil_r.
Qed.
Lemma pass_ok c lost0 ts ifidx : wf c → conserves c lost0 →
  ∃ lost c', run_op (OPass ts ifidx) c = Some (lost, c') ∧ wf c' ∧ conserves c' (lost0 ++ lost).
Proof.
  intros Hwf Hco. unfold run_op, dpdk_pass_pkt. destruct (ring_dequeue_burst (dw c) 1) as [ms w]. cbn [fst]. destruct ms as [|m ms'].
  { do 2 eexists. split; [reflexivity|]. rewrite drop_nil, app_nil_r. by eapply nothing_from_ring. }
  set (ms := m :: ms'). set (c1 := pass_stats _ _ _). destruct (pass_stats_same (count_tx (c <| dw := w |> <| trace := trace c ++ [ERingOut ms] |>) ifidx 1) ts (ifindex (Z.of_nat ifidx)))
    as [Hs Ht]. fold c1 in Hs, Ht. destruct (eth_tx_burst (dw c1) _ _ ms) as [ret w2]. do 2 eexists. split; [reflexivity|].
  apply (ring_ok c); try done. rec_simpl. rewrite Ht. unfold count_tx. rec_simpl. by rewrite <- app_assoc.
Qed.
Lemma burst_ok c lost0 ts ifidx : wf c → conserves c lost0 →
  ∃ lost c', run_op (OBurst ts ifidx) c = Some (lost, c') ∧ wf c' ∧ conserves c' (lost0 ++ lost).
Proof.
  intros Hwf Hco. unfold run_op, dpdk_burst_pkts. destruct (ring_dequeue_burst (dw c) _) as [ms w]. cbn [fst]. destruct ms as [|m ms'].
  { do 2 eexists. split; [reflexivity|]. rewrite drop_nil, app_nil_r. by eapply nothing_from_ring. }
  set (ms := m :: ms'). rec_simpl. destruct (eth_tx_burst w _ _ ms) as [ret w2]. do 2 eexists. split; [reflexivity|].
  match goal with |- context [pass_stats ?x ?y ?z] => destruct (pass_stats_same x y z) as [Hs Ht] end.
  apply (ring_ok c); [done|done|exact Hs|]. rewrite Ht. unfold count_tx. rec_simpl. by rewrite <- app_assoc.
Qed.

(** Reading the packets of a burst. *)
Lemma read_all_spec k : ∀ i ifidx c t, rmbufs c !! ifidx = Some t → (i + k <= length (m_table t))%nat → (i + k <= length (pkts_burst c))%nat →
  (∀ m, m ∈ take k (drop i (pkts_burst c)) → is_Some (bufs c !! m)) →
  ∃ c', read_all k i ifidx c = Some c' ∧ trace c' = trace c ∧ wmbufs c' = wmbufs c ∧ pkts_burst c' = pkts_burst c
    ∧ rmbufs c' = <[ifidx := t <| m_table := take i (m_table t) ++ take k (drop i (pkts_burst c)) ++ drop (i + k) (m_table t) |>]> (rmbufs c).
Proof.
  induction k as [|k IH]; intros i ifidx c t Ht Hl Hb Hm; cbn [read_all].
  { exists c. rewrite take_0, Nat.add_0_r. cbn [app]. rewrite take_drop. split_and!; try done. rewrite list_insert_id; [done|]. by destruct t. }
  destruct (lookup_lt_is_Some_2 (pkts_burst c) i) as [m Hi]; [lia|]. unfold dpdk_get_rptr. rewrite Hi. cbn [mbind option_bind].
  rewrite (drop_S _ _ _ Hi) in Hm |- *. cbn [take firstn] in Hm |- *. destruct (Hm m ltac:(left)) as [b ->]. cbn [mbind option_bind]. rewrite Ht. cbn [mbind option_bind].
  rewrite option_guard_True by lia. cbn [mbind option_bind]. set (c1 := c <| rmbufs := _ |>).
  assert (rmbufs c1 !! ifidx = Some (t <| m_table := <[i := m]> (m_table t) |>)) as Ht1 by (apply list_lookup_insert_eq; by eapply lookup_lt_Some).
  destruct (IH (S i) ifidx c1 _ Ht1) as (c'&E&Etr&Ew&Eb&Er); rec_simpl; [rewrite length_insert; lia|unfold c1; rec_simpl; lia| |].
  { intros m' Hm'. apply Hm. by right. }
  exists c'. split; [done|]. split_and!; try done. rewrite Er. unfold c1. rec_simpl. rewrite list_insert_insert_eq. do 2 f_equal.
  rewrite (take_S_r _ _ m) by (apply list_lookup_insert_eq; lia). rewrite take_insert_ge, drop_insert_lt by lia. rewrite <- app_assoc. cbn [app].
  by replace (i + S k)%nat with (S i + k)%nat by lia.
Qed.

Lemma recv_ok c lost0 ts ifidx : wf c → conserves c lost0 → (ifidx < num)%nat →
  ∃ c', run_op (ORecv ts ifidx) c = Some ([], c') ∧ wf c' ∧ conserves c' lost0.
Proof.
  intros Hwf Hco Hi. unfold run_op, dpdk_recv_pkts. destruct (lookup_lt_is_Some_2 (rmbufs c) ifidx) as [t Ht]; [pose proof (wf_r _ Hwf); lia|]. rewrite Ht.
  cbn [mbind option_bind]. destruct (wf_rt _ Hwf _ _ Ht) as [Hlen Hl].
  assert (∃ c0, (if tb_len t =? 0 then (t, c) else (t <| tb_len := 0 |>, free_pkts (take (Z.to_nat (tb_len t)) (m_table t)) c)) = (t <| tb_len := 0 |>, c0)
    ∧ same_tables c c0 ∧ trace c0 = trace c ++ (EFree <$> received t)) as (c0&->&Hs0&Ht0).
  { destruct (Z.eqb_spec (tb_len t) 0) as [E|]; [|eexists; split; [reflexivity|]; apply free_pkts_spec].
    exists c. unfold received. rewrite E. change (Z.to_nat 0) with 0%nat. rewrite take_0, app_nil_r. split_and!; try done. destruct t. simpl in E. by subst. }
  pose proof (rx_ok (dw c0) (ifindex (Z.of_nat ifidx)) (cpu c0) (Z.to_nat MAX_PKT_BURST)) as Hrx.
  destruct (eth_rx_burst (dw c0) _ _ _) as [got w]. cbn [fst] in Hrx. change (Z.to_nat MAX_PKT_BURST) with 64%nat in Hrx.
  set (ms := got.*1). assert (length ms = length got) as Eg by apply length_fmap.
  set (c1 := c0 <| dw := w |> <| trace := trace c0 ++ [ERx ms] |> <| bufs := list_to_map got ∪ bufs c0 |> <| pkts_burst := ms ++ drop (length ms) (pkts_burst c0) |>).
  set (c2 := if due c1 ts then _ else c1).
  assert (same_tables c1 c2 ∧ trace c2 = trace c1) as [Hs2 Ht2] by (unfold c2; by destruct (due c1 ts)). cbn [mbind option_bind].
  set (t1 := t <| tb_len := 0 |> <| tb_len := Z.of_nat (length ms) |>). set (c3 := c2 <| rmbufs := <[ifidx := t1]> (rmbufs c2) |>).
  destruct Hs0 as (_&Ew0&Er0&Eb0&_). destruct Hs2 as (_&Ew2&Er2&Eb2&Ef2).
  assert (rmbufs c3 !! ifidx = Some t1) as Ht3.
  { unfold c3. rec_simpl. rewrite Er2. unfold c1. rec_simpl. rewrite Er0. apply list_lookup_insert_eq. by eapply lookup_lt_Some. }
  assert (pkts_burst c3 = ms ++ drop (length ms) (pkts_burst c)) as Eb3 by (unfold c3; rec_simpl; rewrite Eb2; unfold c1; rec_simpl; by rewrite Eb0).
  destruct (read_all_spec (length ms) 0 ifidx c3 t1 Ht3) as (c4&E4&Etr4&Ew4&Eb4&Er4).
  { change (m_table t1) with (m_table t). lia. } { rewrite Eb3, length_app. lia. }
  { rewrite drop_0, Eb3, take_app_length. intros m Hm. unfold c3. rec_simpl. rewrite Ef2. unfold c1. rec_simpl. apply lookup_union_is_Some. left.
    apply elem_of_dom. rewrite dom_list_to_map_L. apply elem_of_list_to_set. done. }
  rewrite Nat2Z.id, E4. cbn [mbind option_bind]. exists c4. split; [done|].
  rewrite take_0, drop_0, Eb3, take_app_length in Er4. cbn [app] in Er4. rewrite Nat.add_0_l in Er4.
  set (t4 := t1 <| m_table := ms ++ drop (length ms) (m_table t1) |>) in *.
  assert (rmbufs c4 = <[ifidx := t4]> (rmbufs c)) as Er by (rewrite Er4; unfold c3; rec_simpl; rewrite Er2; unfold c1; rec_simpl; by rewrite Er0, list_insert_insert_eq).
  assert (wmbufs c4 = wmbufs c) as Ew by (rewrite Ew4; unfold c3; rec_simpl; rewrite Ew2; unfold c1; rec_simpl; done).
  assert (trace c4 = trace c ++ (EFree <$> received t) ++ [ERx ms]) as Etr by (rewrite Etr4; unfold c3; rec_simpl; rewrite Ht2; unfold c1; rec_simpl; rewrite Ht0; by rewrite <- app_assoc).
  split.
  - split; rewrite ?Ew, ?Er, ?length_insert; try apply Hwf.
    + intros j t' Hj. apply list_lookup_insert_Some in Hj as [(_&<-&_)|[_ Hj]]; [|by eapply wf_rt].
      split; [unfold t4; simpl; rewrite length_app, length_drop; lia|unfold t4; simpl; lia].
    + rewrite Eb4, Eb3, length_app, length_drop. pose proof (wf_b _ Hwf). lia.
  - unfold conserves, held in *. rewrite Etr, Ew, Er. destruct (tables_split received (rmbufs c) ifidx t Ht) as (r&E1&E2). rewrite E2, !bind_app, ins_frees, outs_frees, Hco, E1.
    replace (received t4) with ms; [simpl; solve_Permutation|]. unfold received, t4. simpl. rewrite Nat2Z.id. by rewrite take_app_length.
Qed.

Section Fair.
Context (K : nat).
Hypothesis fair : ∀ w p q ms, ms ≠ [] → refuses K w p q ms = false.

Lemma send_ok c lost0 fuel ts ifidx : wf c → conserves c lost0 → (ifidx < num)%nat → (K * 64 <= fuel)%nat →
  ∃ ret c' t txs, wmbufs c !! ifidx = Some t ∧ dpdk_send_pkts ifindex fuel c ts ifidx = Some (ret, c') ∧ wf c' ∧ conserves c' lost0
    ∧ concat txs = take (Z.to_nat (tb_len t)) (m_table t) ∧ (∃ rest, trace c' = trace c ++ (ETx <$> txs) ++ rest ∧ rest ≫= outs = [])
    ∧ (∃ t', wmbufs c' !! ifidx = Some t' ∧ tb_len t' = 0).
Proof.
  intros Hwf Hco Hi Hf. unfold dpdk_send_pkts, wtable. destruct (lookup_lt_is_Some_2 (wmbufs c) ifidx) as [t Ht]; [pose proof (wf_w _ Hwf); lia|]. rewrite Ht.
  cbn [mbind option_bind]. destruct (wf_wt _ Hwf _ _ Hi Ht) as [Hlen Hl]. destruct (Z.gtb_spec (tb_len t) 0).
  2: { exists 0, c, t, []. replace (tb_len t) with 0 by lia. split_and!; try done; [exists []; by rewrite app_nil_r|]. exists t. split; [done|lia]. }
  set (pkts := take (Z.to_nat (tb_len t)) (m_table t)). destruct (pass_stats_same (count_tx c ifidx (tb_len t)) ts (ifindex (Z.of_nat ifidx))) as [Hs0 Ht0].
  set (c0 := pass_stats _ _ _) in *. assert (length pkts = Z.to_nat (tb_len t)) as Hpl by (unfold pkts; rewrite length_take; lia).
  destruct (tx_loop_ends K fair 64 pkts (ifindex (Z.of_nat ifidx)) c0 fuel) as (ret&c1&->&Hs1&txs&Htr&Etx); [by destruct pkts; [simpl in Hpl; lia|]|lia|done|].
  cbn [mbind option_bind]. pose proof (same_tables_trans c c0 c1 Hs0 Hs1) as Hs.
  destruct (refilled c c1 ifidx t (ETx <$> txs) lost0 [] Hwf Hco Hi Ht Hs) as (table&c2&E2&Hwf2&Hco2).
  { rewrite Htr, Ht0. done. } { apply ins_txs. } { rewrite outs_txs, Etx, app_nil_r. done. }
  destruct (refill_spec (Z.to_nat (tb_len t)) 0 (m_table t) c1) as (new&c2'&E&_&(_&Ew2&_)&Ht2); [lia|]. rewrite E2 in E. injection E as _ <-.
  rewrite E2. cbn [mbind option_bind]. rewrite app_nil_r in Hco2. exists ret, (set_wtable c2 ifidx (mk_table 0 table)), t, txs. split_and!; try done.
  - exists (EAlloc <$> new). split; [|apply outs_allocs]. unfold set_wtable. rec_simpl. rewrite Ht2, Htr, Ht0. unfold count_tx. rec_simpl. by rewrite <- app_assoc.
  - exists (mk_table 0 table). split; [|done]. unfold set_wtable. rec_simpl. rewrite Ew2. destruct Hs as (_&->&_). apply list_lookup_insert_eq. by eapply lookup_lt_Some.
Qed.

(** C20: with a card that never refuses [K] times in a row and a pool that has
    buffers, [dpdk_send_pkts] returns, after at most [K * 64] attempts; the
    packets of the table have been taken by the card, each once and in their
    order, and the table is empty again. *)
Theorem send_pkts_returns c lost fuel ts ifidx : wf c → conserves c lost → (ifidx < num)%nat → (K * 64 <= fuel)%nat →
  ∃ ret c' t t' txs rest, wmbufs c !! ifidx = Some t ∧ dpdk_send_pkts ifindex fuel c ts ifidx = Some (ret, c') ∧ wf c' ∧ conserves c' lost
    ∧ trace c' = trace c ++ (ETx <$> txs) ++ rest ∧ concat txs = take (Z.to_nat (tb_len t)) (m_table t) ∧ rest ≫= outs = []
    ∧ wmbufs c' !! ifidx = Some t' ∧ tb_len t' = 0.
Proof.
  intros Hwf Hco Hi Hf. destruct (send_ok c lost fuel ts ifidx Hwf Hco Hi Hf) as (ret&c'&t&txs&Ht&E&Hwf'&Hco'&Etx&(rest&Etr&Er)&(t'&Ht'&El)).
  by exists ret, c', t, t', txs, rest.
Qed.

(** ** Runs *)
Definition op_ok (o : op) : Prop := (op_port o < num)%nat ∧ match o with OSend fuel _ _ => (K * 64 <= fuel)%nat | _ => True end.
Definition uses_ring (o : op) : bool := match o with OEnqueue _ | OPass _ _ | OBurst _ _ => true | _ => false end.
Fixpoint run_ops (os : list op) c : option (list Z * ctx) :=
  match os with
  | [] => Some ([], c)
  | o :: os => '(l, c) ← run_op o c; '(l', c) ← run_ops os c; Some (l ++ l', c)
  end.
Lemma run_op_ok o c lost0 : wf c → conserves c lost0 → op_ok o →
  ∃ lost c', run_op o c = Some (lost, c') ∧ wf c' ∧ conserves c' (lost0 ++ lost) ∧ (uses_ring o = false → lost = []).
Proof.
  intros Hwf Hco [Hp Hf]. destruct o as [ifidx size|fuel ts ifidx|ts ifidx|ifidx|ts ifidx|ts ifidx]; cbn [op_port] in Hp.
  - destruct (wptr_ok c lost0 ifidx size Hwf Hco Hp) as (r&c'&E&Hwf'&Hco'). exists [], c'. cbn [run_op]. rewrite E, app_nil_r. done.
  - destruct (send_ok c lost0 fuel ts ifidx Hwf Hco Hp Hf) as (ret&c'&t&txs&_&E&Hwf'&Hco'&_). exists [], c'. cbn [run_op]. rewrite E, app_nil_r. done.
  - destruct (recv_ok c lost0 ts ifidx Hwf Hco Hp) as (c'&E&Hwf'&Hco'). exists [], c'. by rewrite app_nil_r.
  - destruct (enqueue_ok c lost0 ifidx Hwf Hco Hp) as (lost&c'&E&Hwf'&Hco'). exists lost, c'. done.
  - destruct (pass_ok c lost0 ts ifidx Hwf Hco) as (lost&c'&E&Hwf'&Hco'). exists lost, c'. done.
  - destruct (burst_ok c lost0 ts ifidx Hwf Hco) as (lost&c'&E&Hwf'&Hco'). exists lost, c'. done.
Qed.
Lemma run_ops_ok os : ∀ c lost0, wf c → conserves c lost0 → Forall op_ok os →
  ∃ lost c', run_ops os c = Some (lost, c') ∧ wf c' ∧ conserves c' (lost0 ++ lost) ∧ (forallb (λ o, negb (uses_ring o)) os = true → lost = []).
Proof.
  induction os as [|o os IH]; intros c lost0 Hwf Hco Hok; cbn [run_ops]; [exists [], c; by rewrite app_nil_r|]. apply Forall_cons in Hok as [Ho Hok].
  destruct (run_op_ok o c lost0 Hwf Hco Ho) as (l1&c1&->&Hwf1&Hco1&Hr1). cbn [mbind option_bind].
  destruct (IH c1 (lost0 ++ l1) Hwf1 Hco1 Hok) as (l2&c2&->&Hwf2&Hco2&Hr2). cbn [mbind option_bind]. exists (l1 ++ l2), c2. rewrite app_assoc. split_and!; try done.
  cbn [forallb]. intros [Hn Hns]%andb_true_iff. by rewrite Hr1, Hr2 by (done || by apply negb_true_iff).
Qed.

(** The start. *)
Hypothesis ports_ok : (num <= 32)%nat.
Lemma init_ports_ok k : ∀ j c, (k + j = num)%nat → length (wmbufs c) = 32%nat → (∀ i t, wmbufs c !! i = Some t → table_ok t) →
  (trace c ≫= ins) ≡ₚ concat (m_table <$> take j (wmbufs c)) → trace c ≫= outs = [] →
  ∃ c', init_ports k j c = Some c' ∧ length (wmbufs c') = 32%nat ∧ (∀ i t, wmbufs c' !! i = Some t → table_ok t)
    ∧ (trace c' ≫= ins) ≡ₚ concat (m_table <$> take num (wmbufs c')) ∧ trace c' ≫= outs = [] ∧ rmbufs c' = rmbufs c ∧ pkts_burst c' = pkts_burst c.
Proof.
  induction k as [|k IH]; intros j c Hk Hlen Ht Hi Ho; cbn [init_ports]; [exists c; by replace num with j by lia|].
  unfold wtable. destruct (lookup_lt_is_Some_2 (wmbufs c) j) as [t Hj]; [lia|]. rewrite Hj. cbn [mbind option_bind]. destruct (Ht _ _ Hj) as [Hml Htl].
  destruct (refill_spec 64 0 (m_table t) c) as (new&c1&E&Hn&(_&Ew&Er&Eb&_)&Etr); [lia|]. change (Z.to_nat MAX_PKT_BURST) with 64%nat. rewrite E. cbn [mbind option_bind].
  rewrite take_0, drop_ge, app_nil_r by lia. cbn [app]. set (c2 := set_wtable c1 j (mk_table 0 new)).
  assert (wmbufs c2 = <[j := mk_table 0 new]> (wmbufs c)) as Ew2 by (unfold c2, set_wtable; rec_simpl; by rewrite Ew).
  destruct (IH (S j) c2) as (c'&E'&Hlen'&Ht'&Hi'&Ho'&Er'&Eb'); try lia.
  - by rewrite Ew2, length_insert.
  - intros i t' Hit. rewrite Ew2 in Hit. apply list_lookup_insert_Some in Hit as [(_&<-&_)|[_ Hit]]; [split; [done|simpl; lia]|eauto].
  - unfold c2, set_wtable. rec_simpl. rewrite Etr, bind_app, ins_allocs, Hi, Ew. rewrite (take_S_r _ _ (mk_table 0 new)) by (apply list_lookup_insert_eq; lia).
    rewrite take_insert_ge by lia. rewrite fmap_app, concat_app. cbn [fmap list_fmap concat m_table]. by rewrite app_nil_r.
  - unfold c2, set_wtable. rec_simpl. by rewrite Etr, bind_app, outs_allocs, Ho.
  - exists c'. split_and!; try done; [by rewrite Er'|by rewrite Eb'].
Qed.
Lemma init_handle_ok q open_fd w : ∃ c, dpdk_init_handle num q open_fd w = Some c ∧ wf c ∧ conserves c [].
Proof.
  unfold dpdk_init_handle. set (c0 := mk_dpc _ _ _ _ _ _ _ _ _ _ _ _ _).
  assert (∀ i t, replicate (Z.to_nat RTE_MAX_ETHPORTS) (mk_table 0 (replicate (Z.to_nat MAX_PKT_BURST) 0)) !! i = Some t → table_ok t ∧ received t = []) as Hempty.
  { intros i t Ht. apply lookup_replicate_1 in Ht as [-> _]. split; [split; [done|simpl; lia]|done]. }
  destruct (init_ports_ok num 0 c0) as (c&E&Hlen&Ht&Hi&Ho&Er&Eb); try done; try lia; [intros i t Hit; by eapply Hempty|].
  rewrite E. cbn [mbind option_bind]. eexists. split; [reflexivity|]. split.
  - split; rec_simpl; rewrite ?Er, ?Eb; try done; try lia; intros; (by eapply Ht) || (by eapply Hempty).
  - unfold conserves, held. rec_simpl. rewrite Hi, Ho, Er. replace (concat (received <$> rmbufs c0)) with (@nil Z) by done. by rewrite !app_nil_r.
Qed.

End Fair.

(** When the card takes no packet any more, [dpdk_send_pkts] never returns,
    whatever the number of its attempts. *)
Theorem send_pkts_hangs c t ts ifidx : (∀ w p q ms, (eth_tx_burst w p q ms).1 = 0) → wmbufs c !! ifidx = Some t → table_ok t → 0 < tb_len t →
  ∀ fuel, dpdk_send_pkts ifindex fuel c ts ifidx = None.
Proof.
  intros Hr Ht [Hl Hb] Hpos fuel. unfold dpdk_send_pkts, wtable. rewrite Ht. cbn [mbind option_bind]. rewrite (proj2 (Z.gtb_lt _ _)) by done.
  rewrite tx_loop_stuck; [done|intros; apply Hr|]. intros E. apply (f_equal length) in E. rewrite length_take in E. simpl in E. lia.
Qed.
End Driver.

(** ** A card that takes one packet at every second attempt *)
Module Card.
(** The pool and the card count: the buffers handed out, the attempts made. *)
Record world := mk_world { next_buf : Z; attempts : Z; ring : list Z }.
Definition pkt (n : Z) : rte_mbuf := mk_mbuf 60 60 1 0 0 0 0 0 [n].
#[export] Instance card : Dpdk world := {|
  pktmbuf_alloc w := (Some (next_buf w), mk_world (next_buf w + 1) (attempts w) (ring w));
  pktmbuf_free w _ := w;
  ring_enqueue_burst w ms := (Z.min 2 (Z.of_nat (length ms)), mk_world (next_buf w) (attempts w) (ring w ++ take 2 ms));
  ring_dequeue_burst w n := (take n (ring w), mk_world (next_buf w) (attempts w) (drop n (ring w)));
  eth_tx_burst w _ _ ms := (if Z.even (attempts w) then 0 else Z.min 1 (Z.of_nat (length ms)), mk_world (next_buf w) (attempts w + 1) (ring w));
  eth_rx_burst w _ _ n := ((λ m, (m, pkt m)) <$> take n [next_buf w; next_buf w + 1], mk_world (next_buf w + 2) (attempts w) (ring w));
  eth_stats_imissed _ _ := 0;
  stats_ioctl w _ _ := w;
  eth_stats_reset w _ := w;
  ipv4_phdr_cksum _ _ := 0
|}.
(** A card whose link is down. *)
Definition stuck : Dpdk world := {|
  pktmbuf_alloc w := (Some (next_buf w), mk_world (next_buf w + 1) (attempts w) (ring w));
  pktmbuf_free w _ := w;
  ring_enqueue_burst w ms := (0, w);
  ring_dequeue_burst w n := ([], w);
  eth_tx_burst w _ _ ms := (0, w);
  eth_rx_burst w _ _ n := ([], w);
  eth_stats_imissed _ _ := 0;
  stats_ioctl w _ _ := w;
  eth_stats_reset w _ := w;
  ipv4_phdr_cksum _ _ := 0
|}.
Definition w0 : world := mk_world 1000 0 [].

Lemma card_tx w p q ms : 0 <= (eth_tx_burst w p q ms).1 <= Z.of_nat (length ms).
Proof. simpl. destruct (Z.even _); lia. Qed.
Lemma card_rx w p q n : (length (eth_rx_burst w p q n).1 <= n)%nat.
Proof. simpl. rewrite length_fmap, length_take. lia. Qed.
Lemma card_enq w ms : 0 <= (ring_enqueue_burst w ms).1 <= Z.of_nat (length ms).
Proof. simpl. lia. Qed.
Lemma card_pool w : ∃ m w', pktmbuf_alloc w = (Some m, w').
Proof. simpl. eauto. Qed.
Lemma card_fair w p q ms : ms ≠ [] → refuses 2 w p q ms = false.
Proof.
  intros Hm. unfold refuses. cbn [eth_tx_burst card attempts]. rewrite Z.even_add. destruct ms as [|m ms]; [done|].
  destruct (Z.even (attempts w)); cbn [Bool.eqb Z.even fst snd]; [rewrite andb_true_l, andb_true_r|apply andb_false_iff; left]; apply Z.eqb_neq; simpl length; lia.
Qed.

(** Three packets written, then sent. *)
Definition three : list op := [OWptr 0 60; OWptr 0 60; OWptr 0 1514].
Definition all : list op := three ++ [OSend 128 0 0; ORecv 0 0; OWptr 1 60; OWptr 1 60; OWptr 1 60; OEnqueue 1; OBurst 0 1; OPass 0 1; ORecv 0 0].

Definition start (os : list op) : option (list Z * dpdk_private_context world) :=
  c ← dpdk_init_handle 2 0 (-1) w0; run_ops (λ i, i) os c.
Lemma start_ok os : Forall (op_ok 2 2) os → ∃ lost c, start os = Some (lost, c) ∧ wf 2 c ∧ conserves 2 c lost
  ∧ (forallb (λ o, negb (uses_ring o)) os = true → lost = []).
Proof.
  intros Hok. destruct (init_handle_ok 2 card_pool ltac:(lia) 0 (-1) w0) as (c0&E&Hwf&Hco). unfold start. rewrite E. cbn [mbind option_bind].
  destruct (run_ops_ok (λ i, i) 2 card_tx card_rx card_enq card_pool 2 card_fair os c0 [] Hwf Hco Hok) as (lost&c&Er&H). exists lost, c. exact (conj Er H).
Qed.
Lemma three_ok : Forall (op_ok 2 2) three.
Proof. repeat constructor; simpl; lia. Qed.
Lemma all_ok : Forall (op_ok 2 2) all.
Proof. repeat constructor; simpl; lia. Qed.
(** The third packet does not fit into the ring, and the card refuses the burst. *)
Example all_computed : option_map fst (start all) = Some [1066; 1064; 1065].
Proof. vm_compute. reflexivity. Qed.

Lemma send_pkts_returns_witness : ∃ c ret c' t t' txs rest, start three = Some ([], c) ∧ wmbufs c !! 0%nat = Some t
  ∧ dpdk_send_pkts (λ i, i) 128 c 0 0 = Some (ret, c') ∧ trace c' = trace c ++ (ETx <$> txs) ++ rest
  ∧ concat txs = take (Z.to_nat (tb_len t)) (m_table t) ∧ tb_len t' = 0.
Proof.
  destruct (start_ok three three_ok) as (lost&c&E&Hwf&Hco&Hl). rewrite (Hl eq_refl) in E, Hco.
  destruct (send_pkts_returns (λ i, i) 2 card_tx card_pool 2 card_fair c [] 128 0 0 Hwf Hco ltac:(lia) ltac:(lia))
    as (ret&c'&t&t'&txs&rest&Ht&Es&_&_&Etr&Etx&_&_&El).
  exists c, ret, c', t, t', txs, rest. exact (conj E (conj Ht (conj Es (conj Etr (conj Etx El))))).
Defined.


(** One packet to send. *)
Definition one_packet : dpdk_private_context world :=
  mk_dpc world 0 [] [mk_table 1 (replicate 64 7)] [] (-1) 0 [0] [0] [0] ∅ w0 [].
Lemma send_pkts_hangs_witness : @dpdk_send_pkts world stuck (λ i, i) 100 one_packet 0 0 = None.
Proof.
  apply (@send_pkts_hangs world stuck (λ i, i) one_packet (mk_table 1 (replicate 64 7)) 0 0%nat); [done|reflexivity|split; [reflexivity|simpl; lia]|reflexivity].
Defined.
End Card.
