(* ===== verification/CText.v ===== *)
(** * Text in C

    The functions of the C library that [config.c] reads its files with, on
    strings of bytes without the final zero: character classes, [strchr],
    [strtok_r], [strtol], [sscanf] with ["%x"], [inet_addr] and [fgets]; and how
    they read back decimal and hexadecimal numbers and addresses. *)
From Stdlib Require Import Ascii String.
From stdpp Require Import list strings.
From S2P Require Import Prelude.

Module CText.

Definition str (s : string) : list Z := (λ a, Z.of_N (N_of_ascii a)) <$> list_ascii_of_string s.
Arguments str s%_string.
Definition isspace (c : Z) : bool := (c =? 32) || (9 <=? c) && (c <=? 13).
Definition isdigit (c : Z) : bool := (48 <=? c) && (c <=? 57).
(** The value of a digit of a base up to 16; 99 for other characters. *)
Definition digit_val (c : Z) : Z :=
  if isdigit c then c - 48
  else if (97 <=? c) && (c <=? 102) then c - 87
  else if (65 <=? c) && (c <=? 70) then c - 55
  else 99.

Fixpoint span (f : Z → bool) (s : list Z) : list Z * list Z :=
  match s with
  | c :: s' => if f c then let '(l, r) := span f s' in (c :: l, r) else ([], s)
  | [] => ([], [])
  end.
Definition skip (f : Z → bool) (s : list Z) : list Z := (span f s).2.
Definition until (f : Z → bool) (s : list Z) : list Z := (span (λ c, negb (f c)) s).1.
Definition c_str (s : list Z) : list Z := until (λ c, c =? 0) s.

(** The token and what remains behind its delimiter. *)
Definition strtok_r (s delim : list Z) : option (list Z) * list Z :=
  let is_delim c := bool_decide (c ∈ delim) in
  match skip is_delim s with
  | [] => (None, [])
  | s => let '(tok, rest) := span (λ c, negb (is_delim c)) s in (Some tok, drop 1 rest)
  end.
(** The rest of the string from the first occurrence of [w] on. *)
Fixpoint strstr (s w : list Z) : option (list Z) :=
  if bool_decide (take (length w) s = w) then Some s
  else match s with [] => None | _ :: s => strstr s w end.
Definition strncmp_eq (s w : list Z) : bool := bool_decide (take (length w) s = w).
Definition strcmp_eq (s w : list Z) : bool := bool_decide (s = w).

(** ** Numbers *)
Definition value (base : Z) (ds : list Z) : Z := foldl (λ v c, v * base + digit_val c) 0 ds.
Definition digits (base : Z) (s : list Z) : list Z * list Z := span (λ c, digit_val c <? base) s.
Definition sign (s : list Z) : Z * list Z :=
  match s with
  | c :: r => if c =? 45 then (-1, r) else if c =? 43 then (1, r) else (1, s)
  | [] => (1, s)
  end.

Definition LONG_MAX : Z := 9223372036854775807.
Definition LONG_MIN : Z := -9223372036854775808.
(** In base 10; the value, whether there is a number, whether it is out of the
    range of [long]. *)
Definition strtol (s : list Z) : Z * bool * bool :=
  let '(sg, s) := sign (skip isspace s) in
  match (digits 10 s).1 with
  | [] => (0, false, false)
  | ds =>
    let v := sg * value 10 ds in
    (Z.max LONG_MIN (Z.min LONG_MAX v), true, (v <? LONG_MIN) || (LONG_MAX <? v))
  end.
(** ["%x"]: the value in 64 bits, nothing when there is no number. *)
Definition is_x (c : Z) : bool := (c =? 120) || (c =? 88).
Definition skip_0x (s : list Z) : list Z :=
  match s with
  | c :: x :: r => if (c =? 48) && is_x x then c :: r else s
  | _ => s
  end.
Definition sscanf_x (s : list Z) : option Z :=
  let '(sg, s) := sign (skip isspace s) in
  match (digits 16 (skip_0x s)).1 with
  | [] => None
  | ds => Some (u64 (sg * Z.min (value 16 ds) (2 ^ 64 - 1)))
  end.

(** ** Addresses *)

(** [strtoul] with base 0 on a string that starts with a digit. *)
Definition strtoul0 (s : list Z) : Z * list Z :=
  let '(base, s) :=
    match s with
    | c :: x :: d :: r => if (c =? 48) && is_x x && (digit_val d <? 16) then (16, d :: r) else if c =? 48 then (8, s) else (10, s)
    | c :: _ => if c =? 48 then (8, s) else (10, s)
    | [] => (10, s)
    end in
  let '(ds, rest) := digits base s in (value base ds, rest).

(** The number of a byte sequence in memory. *)
Definition of_bytes (bs : list Z) : Z := foldr (λ b v, b + 256 * v) 0 bs.
Fixpoint be_bytes (n : nat) (v : Z) : list Z :=
  match n with O => [] | S n => u8 (v / 256 ^ Z.of_nat n) :: be_bytes n v end.

(** Parts of numbers with dots between them, the last one for all the bytes that
    are left. *)
Fixpoint aton (dots : nat) (parts : list Z) (s : list Z) : option Z :=
  match s with
  | [] => None
  | c :: _ =>
    if negb (isdigit c) then None
    else
      let '(v, rest) := strtoul0 s in
      if v >? 4294967295 then None
      else
        let last := if v <? 256 ^ Z.of_nat (S dots) then Some (of_bytes (parts ++ be_bytes (S dots) v)) else None in
        match rest with
        | [] => last
        | c :: rest =>
          if c =? 46 then
            match dots with
            | O => None
            | S dots => if v >? 255 then None else aton dots (parts ++ [v]) rest
            end
          else if isspace c then last else None
        end
  end.
Definition INADDR_NONE : Z := 4294967295.
Definition inet_addr (s : list Z) : Z := default INADDR_NONE (aton 3 [] s).

(** ** Files *)
Definition MAX_OPTLINE_LEN : nat := 1024.
(** What the calls of [fgets] with a buffer of [MAX_OPTLINE_LEN] bytes return. *)
Fixpoint lines_from (room : nat) (cur s : list Z) : list (list Z) :=
  match s with
  | [] => match cur with [] => [] | _ => [cur] end
  | c :: s =>
    if (c =? 10) || (room =? 1)%nat then (cur ++ [c]) :: lines_from (MAX_OPTLINE_LEN - 1) [] s
    else lines_from (room - 1) (cur ++ [c]) s
  end.
Definition lines (s : list Z) : list (list Z) := c_str <$> lines_from (MAX_OPTLINE_LEN - 1) [] s.

(** ** Reading back *)
Lemma span_app f l r : forallb f l = true → match r with c :: _ => f c = false | [] => True end → span f (l ++ r) = (l, r).
Proof.
  induction l as [|c l IH]; cbn [forallb app span]; intros Hl Hr; [destruct r; cbn [span]; [done|by rewrite Hr]|].
  apply andb_true_iff in Hl as [-> Hl]. by rewrite IH.
Qed.
Lemma span_all f l : forallb f l = true → span f l = (l, []).
Proof. intros Hl. rewrite <- (app_nil_r l) at 1. by apply span_app. Qed.
Lemma skip_none f s : match s with c :: _ => f c = false | [] => True end → skip f s = s.
Proof. unfold skip. destruct s as [|c s]; [done|]. cbn [span]. by intros ->. Qed.

(** A token in front of its delimiter, or at the end. *)
Definition free_of (delim s : list Z) : bool := forallb (λ c, negb (bool_decide (c ∈ delim))) s.
Lemma free_of_head delim c s : free_of delim (c :: s) = true → bool_decide (c ∈ delim) = false.
Proof. unfold free_of. cbn [forallb]. intros [Hc _]%andb_true_iff. by apply negb_true_iff. Qed.
Lemma strtok_r_app tok delim d rest : tok ≠ [] → free_of delim tok = true → d ∈ delim → strtok_r (tok ++ d :: rest) delim = (Some tok, rest).
Proof.
  intros Hne Hf Hd. unfold strtok_r. rewrite skip_none by (destruct tok; [done|by eapply free_of_head]).
  pose proof (span_app (λ c, negb (bool_decide (c ∈ delim))) tok (d :: rest) Hf) as Hs. cbv beta iota in Hs. rewrite bool_decide_eq_true_2 in Hs by done.
  destruct tok as [|c tok]; [done|]. cbn [app] in *. by rewrite (Hs eq_refl).
Qed.
Lemma strtok_r_end tok delim : tok ≠ [] → free_of delim tok = true → strtok_r tok delim = (Some tok, []).
Proof.
  intros Hne Hf. unfold strtok_r. rewrite skip_none by (destruct tok; [done|by eapply free_of_head]).
  destruct tok as [|c tok]; [done|]. rewrite span_all; done.
Qed.

(** Decimal numbers, without leading zeros. *)
Fixpoint dec_fuel (fuel : nat) (n : Z) (acc : list Z) : list Z :=
  match fuel with
  | O => acc
  | S fuel => let acc := 48 + n mod 10 :: acc in if n <? 10 then acc else dec_fuel fuel (n / 10) acc
  end.
Definition dec (n : Z) : list Z := dec_fuel 20 n [].

(** Checked for all numbers that occur in the files. *)
Definition dec_check (n : Z) : bool :=
  match dec n with
  | [] => false
  | c :: ds => (value 10 (c :: ds) =? n) && forallb isdigit (c :: ds) && ((n =? 0) || negb (c =? 48))
  end.
Lemma check_range (f : Z → bool) k : forallb f (seqZ 0 k) = true → ∀ n, 0 <= n < k → f n = true.
Proof. intros Hf n Hn. rewrite forallb_forall in Hf. apply Hf, list_elem_of_In, elem_of_seqZ. lia. Qed.
Lemma dec_checked n : 0 <= n < 2048 → dec_check n = true.
Proof. apply check_range. vm_compute. reflexivity. Qed.
Lemma dec_spec n : 0 <= n < 2048 → ∃ c ds, dec n = c :: ds ∧ value 10 (dec n) = n ∧ forallb isdigit (dec n) = true ∧ (n = 0 ∨ c ≠ 48).
Proof.
  intros Hn. pose proof (dec_checked n Hn) as Hc. unfold dec_check in Hc. destruct (dec n) as [|c ds]; [done|]. exists c, ds.
  apply andb_true_iff in Hc as [[Hv Hd]%andb_true_iff Hz]. split_and!; [done|by apply Z.eqb_eq|done|].
  apply orb_true_iff in Hz as [Hz|Hz]; [left; by apply Z.eqb_eq|right; by apply Z.eqb_neq, negb_true_iff].
Qed.
Lemma digits_isdigit base ds : 10 <= base → forallb isdigit ds = true → forallb (λ c, digit_val c <? base) ds = true.
Proof.
  intros Hb. induction ds as [|c ds IH]; [done|]. cbn [forallb]. intros [Hc Hds]%andb_true_iff. rewrite IH by done. rewrite andb_true_r.
  unfold digit_val. rewrite Hc. unfold isdigit in Hc. apply Z.ltb_lt. lia.
Qed.
Definition ends_number (r : list Z) : Prop := match r with c :: _ => (digit_val c <? 16) = false ∧ is_x c = false | [] => True end.
Lemma digits_dec base n r : 10 <= base <= 16 → 0 <= n < 2048 → ends_number r → digits base (dec n ++ r) = (dec n, r).
Proof.
  intros Hb Hn Hr. destruct (dec_spec n Hn) as (c&ds&_&_&Hd&_). unfold digits. apply span_app; [by apply digits_isdigit; [lia|]|].
  destruct r as [|x r]; [done|]. destruct Hr as [Hr _]. apply Z.ltb_ge in Hr. apply Z.ltb_ge. lia.
Qed.
Lemma isdigit_plain c : isdigit c = true → isspace c = false ∧ (c =? 45) = false ∧ (c =? 43) = false.
Proof. unfold isdigit, isspace. lia. Qed.
Lemma strtol_dec n r : 0 <= n < 2048 → ends_number r → strtol (dec n ++ r) = (n, true, false).
Proof.
  intros Hn Hr. destruct (dec_spec n Hn) as (c&ds&E&Hv&Hd&_). rewrite E in Hd. cbn [forallb] in Hd. apply andb_true_iff in Hd as [Hc _].
  destruct (isdigit_plain c Hc) as (Hs&Hm&Hp). unfold strtol. rewrite skip_none by (rewrite E; exact Hs).
  replace (sign (dec n ++ r)) with (1, dec n ++ r) by (rewrite E; cbn [app sign]; by rewrite Hm, Hp). rewrite digits_dec by (done || lia). cbn [fst].
  rewrite E at 1. rewrite <- E, Hv, Z.mul_1_l. unfold LONG_MIN, LONG_MAX. f_equal; [f_equal; lia|]. lia.
Qed.

Lemma strtoul0_dec n r : 0 <= n < 256 → ends_number r → strtoul0 (dec n ++ r) = (n, r).
Proof.
  intros Hn Hr. destruct (decide (n = 0)) as [->|Hz].
  - change (dec 0) with [48]. unfold strtoul0. replace (match [48] ++ r with | c :: x :: d :: r0 => _ | _ => _ end) with (8, [48] ++ r).
    { unfold digits. rewrite span_app; [done|done|]. destruct r as [|x r]; [done|]. destruct Hr as [Hr _]. apply Z.ltb_ge in Hr. apply Z.ltb_ge. lia. }
    destruct r as [|x [|d r]]; [done|done|]. destruct Hr as [_ Hx]. cbn [app]. by rewrite Hx.
  - destruct (dec_spec n ltac:(lia)) as (c&ds&E&Hv&Hd&[Hc|Hc]); [done|]. unfold strtoul0.
    replace (match dec n ++ r with | c :: x :: d :: r0 => _ | _ => _ end) with (10, dec n ++ r).
    { rewrite digits_dec by (done || lia). by rewrite Hv. }
    rewrite E. cbn [app]. apply Z.eqb_neq in Hc. destruct (ds ++ r) as [|x [|d r']]; by rewrite Hc.
Qed.

Definition dotted (a b c d : Z) : list Z := dec a ++ 46 :: dec b ++ 46 :: dec c ++ 46 :: dec d.
Lemma aton_part dots parts n rest : 0 <= n < 256 → aton (S dots) parts (dec n ++ 46 :: rest) = aton dots (parts ++ [n]) rest.
Proof.
  intros Hn. destruct (dec_spec n ltac:(lia)) as (x&ds&E&_&Hd&_). rewrite E in Hd. cbn [forallb] in Hd. apply andb_true_iff in Hd as [Hx _].
  pose proof (strtoul0_dec n (46 :: rest) Hn (conj eq_refl eq_refl)) as Hs. rewrite E in *. cbn [app] in *. unfold aton at 1. fold aton. rewrite Hx, Hs.
  cbn [negb]. change (46 =? 46) with true. rewrite !Z.gtb_ltb, !(proj2 (Z.ltb_ge _ _)) by lia. done.
Qed.
Lemma aton_last parts n : 0 <= n < 256 → aton 0 parts (dec n) = Some (of_bytes (parts ++ [n])).
Proof.
  intros Hn. destruct (dec_spec n ltac:(lia)) as (x&ds&E&_&Hd&_). rewrite E in Hd. cbn [forallb] in Hd. apply andb_true_iff in Hd as [Hx _].
  pose proof (strtoul0_dec n [] Hn I) as Hs. rewrite app_nil_r in Hs. rewrite E in *. unfold aton. rewrite Hx, Hs. cbn [negb].
  rewrite Z.gtb_ltb, (proj2 (Z.ltb_ge _ _)) by lia. rewrite (proj2 (Z.ltb_lt n _)) by (change (256 ^ Z.of_nat 1) with 256; lia).
  cbn [be_bytes]. change (256 ^ Z.of_nat 0) with 1. by rewrite Z.div_1_r, u8_id.
Qed.
Lemma inet_addr_dotted a b c d : is_u8 a → is_u8 b → is_u8 c → is_u8 d → inet_addr (dotted a b c d) = of_bytes [a; b; c; d].
Proof. intros. unfold inet_addr, dotted. by rewrite !aton_part, aton_last by done. Qed.

(** Hardware addresses as ["%02X:%02X:..."] writes them. *)
Definition hex_digit (v : Z) : Z := if v <? 10 then 48 + v else 55 + v.
Definition hex2 (b : Z) : list Z := [hex_digit (b / 16); hex_digit (b mod 16)].
Fixpoint mac (bs : list Z) : list Z :=
  match bs with
  | [] => []
  | [b] => hex2 b
  | b :: bs => hex2 b ++ 58 :: mac bs
  end.
Lemma sscanf_hex2 b : is_u8 b → sscanf_x (hex2 b) = Some b.
Proof.
  intros Hb. assert (forallb (λ b, bool_decide (sscanf_x (hex2 b) = Some b)) (seqZ 0 256) = true) as Hc by (vm_compute; reflexivity).
  by apply (check_range _ _ Hc b), bool_decide_eq_true_1 in Hb.
Qed.
Lemma hex2_free delim b : is_u8 b → forallb (λ c, negb (bool_decide (c ∈ delim))) ((48 :: seqZ 49 9) ++ seqZ 65 6) = true → free_of delim (hex2 b) = true.
Proof.
  intros Hb Hf. unfold free_of, hex2. rewrite forallb_forall in Hf. apply forallb_forall. intros x Hx. apply Hf. apply list_elem_of_In.
  assert (∃ v, 0 <= v < 16 ∧ x = hex_digit v) as (v&Hv&->).
  { destruct Hx as [<-|[<-|[]]]; eexists; (split; [|reflexivity]); [|apply Z.mod_pos_bound; lia].
    split; [apply Z.div_pos; lia|apply Z.div_lt_upper_bound; lia]. }
  unfold hex_digit. destruct (Z.ltb_spec v 10); [|apply elem_of_app; right; apply elem_of_seqZ; lia].
  apply elem_of_app; left. destruct (decide (v = 0)) as [->|]; [by left|right; apply elem_of_seqZ; lia].
Qed.
End CText.
