(* ===== verification/Config.v ===== *)
(** * Configuration

    [config.c], the environment of the network in [io_module.c] and [mtcp_init]
    of [core.c]: from the texts of the configuration file, the routes and the
    ARP entries to the tables that the stack uses.  The configuration is that of
    the [Makefile] with DPDK: no PSIO, netmap or ONVM module.

    A result [None] stands for [exit], a failing [assert] and undefined
    behaviour; error returns are values. *)
From stdpp Require Import list strings.
From S2P Require Import Prelude CText TcpTypes NetOut.
Import CText.

Module Config.

Definition MAX_ROUTE_ENTRY : Z := 64.
Definition MAX_DEVICES : Z := 128.
Definition MAX_CPUS : Z := 32.
Definition ALL_STRING : list Z := str "all".
Definition TIME_TICK : Z := 1000000 / 1000.
Definition TCP_TIMEWAIT : Z := 0.
Definition TCP_TIMEOUT : Z := 30000 * 1000 / TIME_TICK.
Definition SEC_TO_USEC (t : Z) : Z := s32 (t * 1000000).

Record eth_table := mk_eth {
  dev_name : list Z; ifindex : Z; stat_print : bool; haddr : list Z; netmask : Z; ip_addr : Z
}.
#[export] Instance eta_eth : Eta eth_table := λ r, mk_eth (dev_name r) (ifindex r) (stat_print r) (haddr r) (netmask r) (ip_addr r).
Inductive io_module_func : Type := ps_module_func | dpdk_module_func | netmap_module_func | onvm_module_func.
#[export] Instance io_module_func_eq : EqDecision io_module_func.
Proof. solve_decision. Defined.

(** [CONFIG] and the other variables of the file, and [errno]; the numbers of
    entries are the lengths of the lists. *)
Record config := mk_conf {
  eths : list eth_table;
  nif_to_eidx : list Z;
  rtable : list route_table;
  gateway : option route_table;
  arp_entries : list arp_entry;
  arp_gateway : option arp_entry;
  num_cores : Z;
  num_mem_ch : Z;
  max_concurrency : Z;
  _cpumask : Z;
  max_num_buffers : Z;
  rcvbuf_size : Z;
  sndbuf_size : Z;
  tcp_timewait : Z;
  tcp_timeout : Z;
  multi_process : Z;
  multi_process_is_master : bool;
  current_iomodule_func : io_module_func;
  port_list : list Z;
  port_stat_list : list Z;
  num_cpus : Z;
  num_queues : Z;
  num_devices : Z;
  devices_attached : list Z;
  errno : Z
}.
#[export] Instance eta_conf : Eta config :=
  λ r, mk_conf (eths r) (nif_to_eidx r) (rtable r) (gateway r) (arp_entries r) (arp_gateway r) (num_cores r) (num_mem_ch r)
    (max_concurrency r) (_cpumask r) (max_num_buffers r) (rcvbuf_size r) (sndbuf_size r) (tcp_timewait r) (tcp_timeout r)
    (multi_process r) (multi_process_is_master r) (current_iomodule_func r) (port_list r) (port_stat_list r) (num_cpus r)
    (num_queues r) (num_devices r) (devices_attached r) (errno r).
Definition CONFIG0 : config :=
  mk_conf [] [] [] None [] None 0 0 10000 0 10000 (-1) (-1) TCP_TIMEWAIT TCP_TIMEOUT 0 false dpdk_module_func [] [] 0 0 0 [] 0.

(** What the stack threads use of it. *)
Definition stack_config (c : config) : mtcp_config :=
  mk_config ((λ e, TcpTypes.mk_eth (ifindex e) (haddr e) (ip_addr e)) <$> eths c) (nif_to_eidx c) (rtable c) (gateway c)
    (arp_entries c) (arp_gateway c) (max_concurrency c) (sndbuf_size c) (tcp_timewait c) (tcp_timeout c).

(** ** Numbers *)
Definition ERANGE : Z := 34.
Definition EINVAL : Z := 22.
(** [rval] is an [int]: it is compared with the bounds of [long] after the
    conversion. *)
Definition mystrtol (nptr : list Z) (c : config) : option (Z * config) :=
  let '(v, found, range) := strtol nptr in
  let c := c <| errno := if range then ERANGE else 0 |> in
  let rval := s32 v in
  if ((errno c =? ERANGE) && ((rval =? LONG_MAX) || (rval =? LONG_MIN))) || (negb (errno c =? 0) && (rval =? 0)) then None
  else if negb found then None
  else Some (rval, c).
(** [errno] is not cleared. *)
Definition GetIntValue (s : list Z) (c : config) : Z * config :=
  let '(v, _, range) := strtol s in
  let c := if range then c <| errno := ERANGE |> else c in
  if (errno c =? EINVAL) || (errno c =? ERANGE) then (-1, c) else (s32 v, c).

(** The bytes of the mask in memory, each from its highest bit on. *)
Fixpoint mask_bits (k : nat) (j lim v : Z) : Z :=
  match k with
  | O => v
  | S k => if j <? lim then mask_bits k (j + 1) lim (Z.lor v (Z.shiftl 1 (7 - j))) else v
  end.
Fixpoint mask_loop (k : nat) (i prefix : Z) : list Z :=
  match k with
  | O => []
  | S k => (if i <=? prefix / 8 then mask_bits 8 0 (prefix - i * 8) 0 else 0) :: mask_loop k (i + 1) prefix
  end.
Definition MaskFromPrefix (prefix : Z) : Z := of_bytes (mask_loop 4 0 prefix).

(** ** Addresses *)
Definition ETH_ALEN : nat := 6.
Fixpoint mac_loop (room : nat) (saved : list Z) (haddr : list Z) : option (list Z) :=
  match strtok_r saved (str ":") with
  | (None, _) => match room with O => Some haddr | _ => None end
  | (Some t, saved) =>
    match room with
    | O => None
    | S room => temp ← sscanf_x t; mac_loop room saved (haddr ++ [u8 temp])
    end
  end.
Definition ParseMACAddress (haddr_str : list Z) : option (list Z) := mac_loop ETH_ALEN haddr_str [].
Definition ParseIPAddress (ip_str : list Z) : Z * Z :=
  let ip_addr := inet_addr ip_str in
  if ip_addr =? INADDR_NONE then (-1, 0) else (0, ip_addr).

(** The string at [n] bytes from the start of a line that was shortened from
    [raw] to [l] in place: the byte at the cut is zero, those behind it are still
    there. *)
Definition behind (raw l : list Z) (n : nat) : option (list Z) :=
  if (n <=? length l)%nat then Some (drop n l)
  else guard (n <= length raw)%nat;; Some (drop n raw).

(** ** Routes *)
Fixpoint find_dev (dev : list Z) (es : list eth_table) : Z :=
  match es with
  | [] => -1
  | e :: es => if strcmp_eq (dev_name e) dev then ifindex e else find_dev dev es
  end.
Definition ifidx_of (dev : list Z) (c : config) : Z :=
  match current_iomodule_func c with
  | dpdk_module_func | onvm_module_func => find_dev dev (take (Z.to_nat (num_devices c)) (eths c))
  | _ => -1
  end.
Definition EnrollRouteTableEntry (optstr : list Z) (c : config) : option config :=
  let '(daddr_s, saveptr) := strtok_r optstr (str "/") in
  let '(prefix, saveptr) := strtok_r saveptr (str " ") in
  let '(dev, _) := strtok_r saveptr [10] in
  daddr_s ← daddr_s; prefix ← prefix; dev ← dev;
  let ifidx := ifidx_of dev c in
  if Z.of_nat (length (rtable c)) =? MAX_ROUTE_ENTRY then None
  else
    let daddr := inet_addr daddr_s in
    '(prefix, c) ← mystrtol prefix c;
    if (prefix >? 32) || (prefix <? 0) then None
    else
      let mask := MaskFromPrefix prefix in
      let r := mk_route daddr mask (Z.land daddr mask) prefix ifidx in
      let c := c <| rtable := rtable c ++ [r] |> in
      Some (if mask =? 0 then c <| gateway := Some r |> else c).

Definition ROUTES : list Z := str "ROUTES".
(** The [num] lines behind the keyword, and the lines behind them. *)
Fixpoint route_lines (num : nat) (ls : list (list Z)) (c : config) : option (list (list Z) * config) :=
  match num with
  | O => Some (ls, c)
  | S num' =>
    (fix skip_comments (ls : list (list Z)) : option (list (list Z) * config) :=
       match ls with
       | [] => Some ([], c)
       | l :: ls =>
         if bool_decide (head l = Some 35) then skip_comments ls
         else
           match gateway c with
           | Some _ => None
           | None => c ← EnrollRouteTableEntry l c; route_lines num' ls c
           end
       end) ls
  end.
(** [fuel] bounds the lines: each round reads at least one. *)
Fixpoint route_file_loop (fuel : nat) (ls : list (list Z)) (c : config) : option config :=
  match fuel with
  | O => None
  | S fuel =>
    match ls with
    | [] => Some c
    | raw :: ls =>
      if bool_decide (head raw = Some 35) then route_file_loop fuel ls c
      else
        let l := until (λ x, x =? 35) raw in
        if strncmp_eq l ROUTES then
          s ← behind raw l (S (length ROUTES));
          let '(num, c) := GetIntValue s c in
          if num <=? 0 then Some c
          else '(ls, c) ← route_lines (Z.to_nat num) ls c; route_file_loop fuel ls c
        else route_file_loop fuel ls c
    end
  end.
Definition SetRoutingTableFromFile (file : option (list Z)) (c : config) : option (Z * config) :=
  match file with
  | None => Some (-1, c)
  | Some text => let ls := lines text in c ← route_file_loop (S (length ls)) ls c; Some (0, c)
  end.

(** The length that a mask stands for, as the code counts it. *)
Fixpoint mask_len (k : nat) (c prefix : Z) : Z :=
  match k with
  | O => prefix
  | S k => let c := Z.shiftr c 1 in if c =? 0 then prefix else mask_len k c (prefix + 1)
  end.
Definition default_route (e : eth_table) : route_table :=
  let daddr := Z.land (ip_addr e) (netmask e) in
  mk_route daddr (netmask e) daddr (mask_len 32 (netmask e) 0 + 1) (ifindex e).
Definition SetRoutingTable (file : option (list Z)) (c : config) : option (Z * config) :=
  guard (Z.of_nat (length (eths c)) <= MAX_ROUTE_ENTRY);;
  let c := c <| rtable := default_route <$> eths c |> in
  '(_, c) ← SetRoutingTableFromFile file c;
  Some (0, c).

(** ** ARP entries *)
Definition EnrollARPTableEntry (optstr : list Z) (c : config) : option config :=
  let '(dip_s, saveptr) := strtok_r optstr (str "/") in
  let '(prefix_s, saveptr) := strtok_r saveptr (str " ") in
  let '(daddr_s, _) := strtok_r saveptr [10] in
  dip_s ← dip_s; prefix_s ← prefix_s; daddr_s ← daddr_s;
  '(prefix, c) ← mystrtol prefix_s c;
  if (prefix >? 32) || (prefix <? 0) then Some c
  else
    guard (Z.of_nat (length (arp_entries c)) < MAX_ARPENTRY);;
    let '(_, ip) := ParseIPAddress dip_s in
    haddr ← ParseMACAddress daddr_s;
    let dip_mask := MaskFromPrefix prefix in
    let e := mk_arp ip prefix dip_mask (Z.land ip dip_mask) haddr in
    let c := c <| arp_entries := arp_entries c ++ [e] |> in
    Some (match gateway c with
          | Some g => if Z.land (rt_daddr g) (ip_mask e) =? ip_masked e then c <| arp_gateway := Some e |> else c
          | None => c
          end).

(** A comment and the spaces in front removed, and one at the end: the loop that
    removes spaces at the end does not move. *)
Definition strip (l : list Z) : list Z :=
  let p := skip isspace (until (λ x, x =? 35) l) in
  match last p with
  | Some t => if isspace t then take (length p - 1) p else p
  | None => p
  end.
Definition ARP_ENTRY : list Z := str "ARP_ENTRY".
Fixpoint arp_file_loop (ls : list (list Z)) (numEntry : Z) (hasNumEntry : bool) (c : config) : option config :=
  match ls with
  | [] => Some c
  | l :: ls =>
    let p := strip l in
    if bool_decide (p = []) then arp_file_loop ls numEntry hasNumEntry c
    else if negb hasNumEntry && strncmp_eq p ARP_ENTRY then
      s ← behind (skip isspace l) p (S (length ARP_ENTRY));
      let '(numEntry, c) := GetIntValue s c in
      if numEntry <=? 0 then None else arp_file_loop ls numEntry true c
    else if numEntry <=? 0 then None
    else c ← EnrollARPTableEntry p c; arp_file_loop ls (numEntry - 1) hasNumEntry c
  end.
Definition LoadARPTable (file : option (list Z)) (c : config) : option (Z * config) :=
  let c := c <| arp_entries := [] |> in
  match file with
  | None => Some (-1, c)
  | Some text => c ← arp_file_loop (lines text) 0 false c; Some (0, c)
  end.

(** ** The configuration file *)

(** The result is that of [mystrtol] or -1 without a token; it is not used. *)
Definition SetMultiProcessSupport (details : list Z) (c : config) : option config :=
  match (strtok_r details (str " =")).1 with
  | None => Some c
  | Some sample => '(v, c) ← mystrtol sample c; Some (c <| multi_process := u8 v |>)
  end.
Definition AssignIOModule (m : list Z) : option io_module_func :=
  if strcmp_eq m (str "psio") then Some ps_module_func
  else if strcmp_eq m (str "dpdk") then Some dpdk_module_func
  else if strcmp_eq m (str "netmap") then Some netmap_module_func
  else if strcmp_eq m (str "onvm") then Some onvm_module_func
  else None.

(** What the system says: an interface of [getifaddrs], whether its address is
    an Internet address ([None] when there is none: the pointer is null), with
    what the [ioctl] calls give for it; the processors, the user, the ports that
    DPDK finds. *)
Record ifaddrs := mk_ifa {
  ifa_name : list Z; ifa_inet : option bool; ifr_addr : option Z; ifr_hwaddr : option (list Z); ifr_netmask : option Z
}.
Record machine := mk_machine {
  GetNumCPUs : Z;
  geteuid : Z;
  open_netmap : Z;
  rte_eal_init : Z;
  socket : Z;
  port_macs : list (list Z);
  getifaddrs : list ifaddrs;
  is_primary : bool;
  mpz_set_str : Z → list Z → Z
}.

Section Machine.
Context (mc : machine).

Definition CheckIOModuleAccessPermissions (m : io_module_func) : Z :=
  match m with
  | netmap_module_func => open_netmap mc
  | _ => if geteuid mc =? 0 then 0 else -1
  end.

(** An option that takes a number, with the check of its value. *)
Definition set_number (q : list Z) (c : config) (store : Z → config → config) (ok : Z → bool) : option (Z * config) :=
  '(v, c) ← mystrtol q c;
  Some (if ok v then 0 else -1, store v c).
Definition ticks (v : Z) : Z := if v >? 0 then Z.quot (SEC_TO_USEC v) TIME_TICK else v.

Definition ParseConfiguration (line : list Z) (c : config) : option (Z * config) :=
  guard (length line < MAX_OPTLINE_LEN - 1)%nat;;
  let delim := [32; 9; 61] in
  match strtok_r line delim with
  | (None, _) => Some (-1, c)
  | (Some p, saveptr) =>
    match strtok_r saveptr delim with
    | (None, _) => Some (-1, c)
    | (Some q, _) =>
      let behind_p := drop (length p + 1) line in
      if strcmp_eq p (str "num_cores") then
        '(v, c) ← mystrtol q c;
        let c := c <| num_cores := v |> in
        if v <=? 0 then Some (-1, c)
        else if v >? num_cpus c then Some (-1, c)
        else Some (0, c <| num_cpus := v |>)
      else if strcmp_eq p (str "core_mask") then Some (0, c <| _cpumask := mpz_set_str mc (_cpumask c) q |>)
      else if strcmp_eq p (str "max_concurrency") then set_number q c (λ v c, c <| max_concurrency := v |>) (λ v, 0 <=? v)
      else if strcmp_eq p (str "max_num_buffers") then set_number q c (λ v c, c <| max_num_buffers := v |>) (λ v, 0 <=? v)
      else if strcmp_eq p (str "rcvbuf") then set_number q c (λ v c, c <| rcvbuf_size := v |>) (λ v, 64 <=? v)
      else if strcmp_eq p (str "sndbuf") then set_number q c (λ v c, c <| sndbuf_size := v |>) (λ v, 64 <=? v)
      else if strcmp_eq p (str "tcp_timeout") then set_number q c (λ v c, c <| tcp_timeout := ticks v |>) (λ _, true)
      else if strcmp_eq p (str "tcp_timewait") then set_number q c (λ v c, c <| tcp_timewait := ticks v |>) (λ _, true)
      else if strcmp_eq p (str "stat_print") then Some (0, c <| port_stat_list := q |>)
      else if strcmp_eq p (str "port") then
        Some (0, c <| port_list := if strcmp_eq q ALL_STRING then q else behind_p |>)
      else if strcmp_eq p (str "io") then
        m ← AssignIOModule q;
        if CheckIOModuleAccessPermissions m =? -1 then None
        else Some (0, c <| current_iomodule_func := m |>)
      else if strcmp_eq p (str "num_mem_ch") then set_number q c (λ v c, c <| num_mem_ch := v |>) (λ _, true)
      else if strcmp_eq p (str "multiprocess") then c ← SetMultiProcessSupport behind_p c; Some (0, c)
      else Some (-1, c)
    end
  end.

(** ** The interfaces *)

(** [strstr] finds the name anywhere in the list; an alias has a colon behind
    it. *)
Definition listed (dev_name_list name : list Z) : bool :=
  match strstr dev_name_list name with
  | Some seek => negb (bool_decide (head (drop (length name) seek) = Some 58))
  | None => false
  end.
(** The last port with the address, 0 when there is none. *)
Fixpoint port_of (h : list Z) (macs : list (list Z)) (j found : Z) : Z :=
  match macs with
  | [] => found
  | m :: macs => port_of h macs (j + 1) (if bool_decide (h = m) then j else found)
  end.
Fixpoint if_loop (dev_name_list : list Z) (ifs : list ifaddrs) (c : config) : option config :=
  match ifs with
  | [] => Some c
  | i :: ifs =>
    inet ← ifa_inet i;
    if inet && negb (strcmp_eq dev_name_list ALL_STRING) && listed dev_name_list (ifa_name i) then
      guard (socket mc ≠ -1 ∧ Z.of_nat (length (eths c)) < MAX_DEVICES ∧ Z.of_nat (length (devices_attached c)) < MAX_DEVICES);;
      let h := default (replicate 6 0) (ifr_hwaddr i) in
      let idx := port_of h (port_macs mc) 0 0 in
      let e := mk_eth (ifa_name i) idx false h (default 0 (ifr_netmask i)) (default 0 (ifr_addr i)) in
      if_loop dev_name_list ifs (c <| eths := eths c ++ [e] |> <| devices_attached := devices_attached c ++ [idx] |>)
    else if_loop dev_name_list ifs c
  end.
Fixpoint eidx_loop (es : list eth_table) (i : Z) (stats : list Z) (t : list Z) : option (list eth_table * list Z) :=
  match es with
  | [] => Some ([], t)
  | e :: es =>
    if ifindex e >=? MAX_DEVICES then None
    else
      '(es, t) ← eidx_loop es (i + 1) stats (<[Z.to_nat (ifindex e) := i]> t);
      Some ((if strcmp_eq (dev_name e) stats then e <| stat_print := true |> else e) :: es, t)
  end.
(** Only the branch of DPDK is compiled.  The table is new, the number of its
    entries is not reset. *)
Definition SetNetEnv (c : config) : option (Z * config) :=
  let dev_name_list := port_list c in
  let c := c <| eths := (λ _, mk_eth [] 0 false (replicate 6 0) 0 0) <$> eths c |> in
  c ← match current_iomodule_func c with
      | dpdk_module_func =>
        if num_mem_ch c =? 0 then None
        else if rte_eal_init mc <? 0 then None
        else
          let c := c <| num_devices := Z.of_nat (length (port_macs mc)) |> in
          if num_devices c =? 0 then None
          else
            let c := c <| num_queues := Z.min (num_cores c) MAX_CPUS |> in
            c ← if_loop dev_name_list (getifaddrs mc) c;
            Some (c <| multi_process_is_master := is_primary mc |>)
      | _ => Some c
      end;
  '(es, t) ← eidx_loop (eths c) 0 (port_stat_list c) (replicate (Z.to_nat MAX_DEVICES) (-1));
  Some (0, c <| eths := es |> <| nif_to_eidx := t |>).

Fixpoint config_lines (ls : list (list Z)) (c : config) : option (Z * config) :=
  match ls with
  | [] => Some (0, c)
  | l :: ls =>
    let p := strip l in
    if bool_decide (p = []) then config_lines ls c
    else '(ret, c) ← ParseConfiguration p c; if ret <? 0 then Some (-1, c) else config_lines ls c
  end.
Definition default_buffers (c : config) : config :=
  let c := if (sndbuf_size c =? -1) && negb (rcvbuf_size c =? -1) then c <| sndbuf_size := rcvbuf_size c |> else c in
  let c := if (rcvbuf_size c =? -1) && negb (sndbuf_size c =? -1) then c <| rcvbuf_size := sndbuf_size c |> else c in
  if (rcvbuf_size c =? -1) && (sndbuf_size c =? -1) then c <| sndbuf_size := 8192 |> <| rcvbuf_size := 8192 |> else c.
Definition LoadConfiguration (file : option (list Z)) (c : config) : option (Z * config) :=
  match file with
  | None => Some (-1, c)
  | Some text =>
    '(ret, c) ← config_lines (lines text) c;
    if ret <? 0 then Some (-1, c) else SetNetEnv (default_buffers c)
  end.

(** ** [mtcp_init], up to the signals and the start of the driver: the tables
    [g_mtcp], [running] and [sigint_cnt] have [MAX_CPUS] entries.  The pools of
    addresses are those of [CreateAddressPool]; they are made when [pools_ok]. *)
Definition mtcp_init (conf routes arp : option (list Z)) (pools_ok : bool) (c : config) : option (Z * config) :=
  let c := c <| num_cpus := if num_cores c =? 0 then GetNumCPUs mc else num_cores c |> in
  guard (1 <= num_cpus c <= MAX_CPUS);;
  '(ret, c) ← LoadConfiguration conf c;
  if negb (ret =? 0) then Some (-1, c)
  else if negb (pools_ok || bool_decide (eths c = [])) then Some (-1, c)
  else
    '(ret, c) ← SetRoutingTable routes c;
    if negb (ret =? 0) then Some (-1, c)
    else '(_, c) ← LoadARPTable arp c; Some (0, c).
End Machine.
End Config.
