(* ===== verification/ConfigInv.v ===== *)
(** * What a loaded configuration is

    Every configuration that [mtcp_init] accepts is well formed, and its routes
    lead to interfaces that have a sender, which is what the stack threads rely
    on. *)
From stdpp Require Import list strings.
From S2P Require Import Prelude CText TcpTypes NetOut TcpInv Stack Config.
Import CText Config.

Abbreviation is_int z := (-2147483648 <= z < 2147483648).
Lemma s32_int v : is_int (s32 v).
Proof. ulia. Qed.

Lemma mystrtol_spec s c v c' : mystrtol s c = Some (v, c') → is_int v ∧ ∃ e, c' = c <| errno := e |>.
Proof.
  unfold mystrtol. destruct (strtol s) as [[x found] range]. case_match; [done|]. destruct found; [|done]. intros [= <- <-].
  split; [apply s32_int|by eexists].
Qed.
Lemma GetIntValue_spec s c v c' : GetIntValue s c = (v, c') → ∃ e, c' = c <| errno := e |>.
Proof.
  unfold GetIntValue. destruct (strtol s) as [[x found] range]. destruct range; case_match; intros [= <- <-]; (by eexists) || by (exists (errno c); destruct c).
Qed.

(** ** The numbers *)
Record numbers_ok (c : config) : Prop := {
  n_cpus : 1 <= num_cpus c <= MAX_CPUS;
  n_cores : num_cores c = 0 ∨ num_cores c = num_cpus c;
  n_conc : 0 <= max_concurrency c < 2147483648;
  n_bufs : 0 <= max_num_buffers c < 2147483648;
  n_rcv : rcvbuf_size c = -1 ∨ 64 <= rcvbuf_size c < 2147483648;
  n_snd : sndbuf_size c = -1 ∨ 64 <= sndbuf_size c < 2147483648;
  n_timeout : is_int (tcp_timeout c);
  n_timewait : is_int (tcp_timewait c);
  n_multi : is_u8 (multi_process c)
}.
(** What the configuration file does not set. *)
Definition tables (c : config) :=
  (eths c, nif_to_eidx c, (rtable c, gateway c), (arp_entries c, arp_gateway c), devices_attached c, num_devices c).

Lemma ticks_int v : is_int v → is_int (ticks v).
Proof.
  intros Hv. unfold ticks. destruct (v >? 0); [|done]. pose proof (s32_int (v * 1000000)) as Hs. unfold SEC_TO_USEC, TIME_TICK.
  change (1000000 / 1000) with 1000. set (x := s32 _) in *. pose proof (Z.quot_rem' x 1000). pose proof (Z.rem_bound_abs x 1000 ltac:(done)). lia.
Qed.

Lemma set_number_ok q c store ok ret c' : set_number q c store ok = Some (ret, c') →
  (∀ v e, is_int v → tables (store v (c <| errno := e |>)) = tables c ∧ (ok v = true → numbers_ok (store v (c <| errno := e |>)))) →
  tables c' = tables c ∧ (0 <= ret → numbers_ok c').
Proof.
  unfold set_number. destruct (mystrtol q c) as [[v c1]|] eqn:E; [|done]. cbn [mbind option_bind]. intros [= <- <-] Hs.
  apply mystrtol_spec in E as (Hv&e&->). destruct (Hs v e Hv) as [Ht Hn]. split; [done|]. destruct (ok v); [auto|lia].
Qed.
Ltac numbers := match goal with H : numbers_ok _ |- _ => destruct H; constructor; rec_simpl; done || lia end.

Lemma num_cores_ok q c ret c' : numbers_ok c →
  ('(v, c) ← mystrtol q c; let c := c <| num_cores := v |> in
   if v <=? 0 then Some (-1, c) else if v >? num_cpus c then Some (-1, c) else Some (0, c <| num_cpus := v |>)) = Some (ret, c') →
  tables c' = tables c ∧ (0 <= ret → numbers_ok c').
Proof.
  intros Hn. destruct (mystrtol q c) as [[v c1]|] eqn:E; [|done]. cbn [mbind option_bind]. apply mystrtol_spec in E as (Hv&e&->). rec_simpl.
  destruct (Z.leb_spec v 0); [intros [= <- <-]; split; [done|lia]|]. destruct (Z.gtb_spec v (num_cpus c)); [intros [= <- <-]; split; [done|lia]|].
  intros [= <- <-]. split; [done|]. intros _. destruct Hn; constructor; rec_simpl; done || lia.
Qed.
Lemma multi_ok s c c' : numbers_ok c → SetMultiProcessSupport s c = Some c' → tables c' = tables c ∧ numbers_ok c'.
Proof.
  intros Hn. unfold SetMultiProcessSupport. destruct (strtok_r s (str " =")).1 as [t|]; [|intros [= <-]; done].
  destruct (mystrtol t c) as [[v c1]|] eqn:E; [|done]. cbn [mbind option_bind]. apply mystrtol_spec in E as (Hv&e&->). intros [= <-]. split; [done|].
  pose proof (u8_range v). destruct Hn; constructor; rec_simpl; done || lia.
Qed.

Lemma ParseConfiguration_ok mc l c ret c' : numbers_ok c → ParseConfiguration mc l c = Some (ret, c') →
  tables c' = tables c ∧ (0 <= ret → numbers_ok c').
Proof.
  intros Hn. unfold ParseConfiguration. destruct (decide (length l < MAX_OPTLINE_LEN - 1)%nat); [rewrite option_guard_True by done|by rewrite option_guard_False].
  cbn [mbind option_bind]. destruct (strtok_r l [32; 9; 61]) as [[p|] sv]; [|intros [= <- <-]; split; [done|lia]].
  destruct (strtok_r sv [32; 9; 61]) as [[q|] sv']; [|intros [= <- <-]; split; [done|lia]]. cbv zeta.
  repeat match goal with |- (if strcmp_eq ?a ?b then _ else _) = _ → _ => destruct (strcmp_eq a b) end.
  all: try (intros E; apply num_cores_ok in E; done).
  all: try (intros E; eapply set_number_ok; [exact E|]; intros v e Hv; split; [done|]; intros Hok; pose proof (ticks_int v Hv); destruct Hn; constructor; rec_simpl; done || lia).
  - intros [= <- <-]. split; [done|]. intros _. numbers.
  - intros [= <- <-]. split; [done|]. intros _. numbers.
  - intros [= <- <-]. split; [done|]. intros _. numbers.
  - destruct (AssignIOModule q) as [m|]; [|done]. cbn [mbind option_bind]. case_match; [done|]. intros [= <- <-]. split; [done|]. intros _. numbers.
  - destruct (SetMultiProcessSupport _ c) as [c1|] eqn:E; [|done]. intros [= <- <-]. apply multi_ok in E as [Ht Hn']; done.
  - intros [= <- <-]. split; [done|lia].
Qed.

Lemma config_lines_ok mc ls : ∀ c ret c', numbers_ok c → config_lines mc ls c = Some (ret, c') → tables c' = tables c ∧ (0 <= ret → numbers_ok c').
Proof.
  induction ls as [|l ls IH]; intros c ret c' Hn; cbn [config_lines]; [by intros [= <- <-]|]. case_match; [by apply IH|].
  destruct (ParseConfiguration mc (strip l) c) as [[r c1]|] eqn:E; [|done]. cbn [mbind option_bind]. apply ParseConfiguration_ok in E as [Ht Hn1]; [|done].
  destruct (Z.ltb_spec r 0); [intros [= <- <-]; split; [done|lia]|]. intros E. apply IH in E as [Ht' Hn']; [|auto]. by rewrite Ht'.
Qed.

Lemma default_buffers_eq c : ∃ r s, default_buffers c = c <| rcvbuf_size := r |> <| sndbuf_size := s |>
  ∧ (r = rcvbuf_size c ∧ r ≠ -1 ∨ rcvbuf_size c = -1 ∧ (r = sndbuf_size c ∧ r ≠ -1 ∨ r = 8192))
  ∧ (s = sndbuf_size c ∧ s ≠ -1 ∨ sndbuf_size c = -1 ∧ (s = rcvbuf_size c ∧ s ≠ -1 ∨ s = 8192)).
Proof.
  unfold default_buffers. destruct (Z.eqb_spec (sndbuf_size c) (-1)) as [Es|Es], (Z.eqb_spec (rcvbuf_size c) (-1)) as [Er|Er]; cbv zeta.
  all: apply Z.eqb_eq in Es || apply Z.eqb_neq in Es; apply Z.eqb_eq in Er || apply Z.eqb_neq in Er.
  all: repeat first [progress (cbn [andb negb]; rec_simpl) | rewrite Er | rewrite Es].
  all: [> exists 8192, 8192 | exists (rcvbuf_size c), (rcvbuf_size c) | exists (sndbuf_size c), (sndbuf_size c) | exists (rcvbuf_size c), (sndbuf_size c)].
  all: split; [by destruct c|lia].
Qed.
Lemma default_buffers_ok c : numbers_ok c →
  numbers_ok (default_buffers c) ∧ 64 <= rcvbuf_size (default_buffers c) < 2147483648 ∧ 64 <= sndbuf_size (default_buffers c) < 2147483648
  ∧ tables (default_buffers c) = tables c.
Proof.
  intros Hn. destruct (default_buffers_eq c) as (r&s&->&Hr&Hs). pose proof (n_rcv c Hn). pose proof (n_snd c Hn).
  split; [destruct Hn; constructor; rec_simpl; done || lia|]. rec_simpl. split_and!; done || lia.
Qed.

(** ** The interfaces *)
Lemma port_of_nonneg h macs : ∀ j found, 0 <= j → 0 <= found → 0 <= port_of h macs j found.
Proof. induction macs as [|m macs IH]; intros j found Hj Hf; cbn [port_of]; [done|]. apply IH; [lia|]. by case_bool_decide. Qed.

(** Addresses and masks are 32-bit numbers. *)
Definition machine_ok (mc : machine) : Prop :=
  ∀ i, i ∈ getifaddrs mc → is_u32 (default 0 (ifr_netmask i)) ∧ is_u32 (default 0 (ifr_addr i)).
Definition eth_ok (e : eth_table) : Prop := 0 <= ifindex e ∧ is_u32 (netmask e) ∧ is_u32 (ip_addr e).

Lemma if_loop_ok mc names ifs : (∀ i, i ∈ ifs → is_u32 (default 0 (ifr_netmask i)) ∧ is_u32 (default 0 (ifr_addr i))) →
  ∀ c c', if_loop mc names ifs c = Some c' → Forall eth_ok (eths c) →
  ∃ es ds, c' = c <| eths := es |> <| devices_attached := ds |> ∧ Forall eth_ok es.
Proof.
  induction ifs as [|i ifs IH]; intros Hm c c'; cbn [if_loop]; [intros [= <-] He; exists (eths c), (devices_attached c); split; [by destruct c|done]|].
  destruct (ifa_inet i) as [inet|]; [|done]. cbn [mbind option_bind]. destruct (inet && _ && _); [|apply IH; intros x Hx; apply Hm; by right].
  case_guard; [|done]. cbn [mbind option_bind]. intros E He. apply IH in E as (es&ds&->&Hes); [exists es, ds; split; [destruct c; reflexivity|done]|intros x Hx; apply Hm; by right|].
  rec_simpl. apply Forall_app_2; [done|]. constructor; [|done]. destruct (Hm i) as [Hn Ha]; [by left|]. split_and!; try apply Hn; try apply Ha. by apply port_of_nonneg.
Qed.

Definition with_stats (stats : list Z) (e : eth_table) : eth_table := if strcmp_eq (dev_name e) stats then e <| stat_print := true |> else e.
Lemma eidx_loop_ok stats es : ∀ i t es' t', eidx_loop es i stats t = Some (es', t') → length t = 128%nat → Forall eth_ok es →
  es' = with_stats stats <$> es ∧ length t' = 128%nat ∧ Forall (λ e, ifindex e < 128) es
  ∧ ∀ j, (t' !! j = t !! j ∧ ∀ e, e ∈ es → Z.to_nat (ifindex e) ≠ j)
         ∨ ∃ k e, es !! k = Some e ∧ Z.to_nat (ifindex e) = j ∧ t' !! j = Some (i + Z.of_nat k).
Proof.
  induction es as [|e es IH]; intros i t es' t'; cbn [eidx_loop]; [intros [= <- <-] Ht _; split_and!; try done; intros j; left; split; [done|]; intros e He; by apply elem_of_nil in He|].
  destruct (Z.geb_spec (ifindex e) MAX_DEVICES) as [|Hlt]; [done|]. destruct (eidx_loop es _ _ _) as [[es1 t1]|] eqn:E; [|done]. cbn [mbind option_bind].
  intros [= <- <-] Ht Hok. apply Forall_cons in Hok as [He Hok]. unfold MAX_DEVICES in Hlt. destruct He as [He _].
  apply IH in E as (->&Ht1&Hall&Hj); [|by rewrite length_insert|done]. split_and!; [done|done|by constructor|]. intros j.
  destruct (Hj j) as [[Hk Hne]|(k&e'&Hk&Hi&Hv)].
  - destruct (decide (Z.to_nat (ifindex e) = j)) as [Hj'|Hj'].
    + right. exists 0%nat, e. split; [done|split; [done|]]. rewrite Hk, Hj', list_lookup_insert_eq by lia. by rewrite Z.add_0_r.
    + left. split; [by rewrite Hk, list_lookup_insert_ne|]. intros e' [->|He']%elem_of_cons; [done|by apply Hne].
  - right. exists (S k), e'. split; [done|split; [done|]]. rewrite Hv. f_equal. lia.
Qed.
Lemma ifindex_with_stats stats e : ifindex (with_stats stats e) = ifindex e.
Proof. unfold with_stats. by case_match. Qed.
Lemma eth_ok_with_stats stats e : eth_ok e → eth_ok (with_stats stats e).
Proof. unfold with_stats. by case_match. Qed.

(** The table from ports to interfaces is an inverse of [ifindex]. *)
Record interfaces_ok (c : config) : Prop := {
  i_len : length (nif_to_eidx c) = 128%nat;
  i_eths : Forall (λ e, eth_ok e ∧ ifindex e < MAX_DEVICES) (eths c);
  i_port : ∀ e, e ∈ eths c → ∃ i, nif_to_eidx c !! Z.to_nat (ifindex e) = Some i ∧ 0 <= i < Z.of_nat (length (eths c));
  i_eidx : ∀ j i, nif_to_eidx c !! j = Some i → 0 <= i → ∃ e, eths c !! Z.to_nat i = Some e ∧ ifindex e = Z.of_nat j
}.
Definition settings (c : config) := (rcvbuf_size c, sndbuf_size c, (rtable c, gateway c), (arp_entries c, arp_gateway c)).

Lemma interfaces_from_loop c es t : eidx_loop (eths c) 0 (port_stat_list c) (replicate (Z.to_nat MAX_DEVICES) (-1)) = Some (es, t) →
  Forall eth_ok (eths c) → interfaces_ok (c <| eths := es |> <| nif_to_eidx := t |>).
Proof.
  intros E Hok. apply eidx_loop_ok in E as (->&Ht&Hlt&Hj); [|done|done]. split; rec_simpl.
  - done.
  - apply Forall_fmap. apply Forall_forall. intros e He. unfold compose. rewrite ifindex_with_stats. rewrite Forall_forall in Hok, Hlt. split; [by apply eth_ok_with_stats, Hok|by apply Hlt].
  - intros e He. apply list_elem_of_fmap in He as (e0&->&He). rewrite ifindex_with_stats, length_fmap. destruct (Hj (Z.to_nat (ifindex e0))) as [[_ Hne]|(k&e1&Hk&_&Hv)]; [by destruct (Hne e0)|].
    exists (0 + Z.of_nat k). split; [done|]. apply lookup_lt_Some in Hk. lia.
  - intros j i Hi Hp. destruct (Hj j) as [[Hv _]|(k&e1&Hk&Hj1&Hv)].
    + rewrite Hi in Hv. symmetry in Hv. apply lookup_replicate_1 in Hv as [-> _]. lia.
    + rewrite Hi in Hv. injection Hv as ->. exists (with_stats (port_stat_list c) e1). rewrite list_lookup_fmap. replace (Z.to_nat (0 + Z.of_nat k)) with k by lia. rewrite Hk.
      split; [done|]. rewrite ifindex_with_stats. rewrite Forall_forall in Hok. apply list_elem_of_lookup_2 in Hk. apply Hok in Hk as [Hk _]. lia.
Qed.
Lemma SetNetEnv_ok mc c ret c' : machine_ok mc → numbers_ok c → eths c = [] → SetNetEnv mc c = Some (ret, c') →
  ret = 0 ∧ numbers_ok c' ∧ settings c' = settings c ∧ interfaces_ok c'.
Proof.
  intros Hm Hn He. unfold SetNetEnv. rewrite He. cbn [fmap list_fmap]. cbv zeta.
  match goal with |- (mbind _ ?x) = _ → _ => destruct x as [c1|] eqn:E1; [|done] end. cbn [mbind option_bind].
  assert (numbers_ok c1 ∧ settings c1 = settings c ∧ Forall eth_ok (eths c1)) as (Hn1&Hs1&Hok).
  { rec_simpl. destruct (current_iomodule_func c); try (injection E1 as <-; split_and!; [numbers|done|done]).
    case_match; [done|]. case_match; [done|]. rec_simpl. case_match; [done|].
    destruct (if_loop _ _ _ _) as [c2|] eqn:E2; [|done]. cbn [mbind option_bind] in E1. injection E1 as <-.
    apply if_loop_ok in E2 as (es&ds&->&Hes); [|done|done]. split_and!; [numbers|done|done]. }
  destruct (eidx_loop _ _ _ _) as [[es t]|] eqn:E2; [|done]. cbn [mbind option_bind]. intros [= <- <-]. split_and!; [done|numbers|done|by apply interfaces_from_loop].
Qed.

(** ** The routes *)
Definition nif_ok (es : list eth_table) (nif : Z) : Prop := nif = -1 ∨ ∃ e, e ∈ es ∧ nif = ifindex e.
Definition route_ok (es : list eth_table) (r : route_table) : Prop :=
  0 <= rt_prefix r <= 32 ∧ rt_masked r = Z.land (rt_daddr r) (rt_mask r) ∧ nif_ok es (rt_nif r).
Record routes_ok (c : config) : Prop := {
  r_len : Z.of_nat (length (rtable c)) <= MAX_ROUTE_ENTRY;
  r_all : Forall (route_ok (eths c)) (rtable c);
  r_gw : ∀ g, gateway c = Some g → g ∈ rtable c ∧ rt_mask g = 0
}.
(** The fields that loading routes and ARP entries leaves alone. *)
Definition fixed (c : config) :=
  (eths c, nif_to_eidx c, (num_cpus c, num_cores c, num_devices c), (max_concurrency c, max_num_buffers c), (rcvbuf_size c, sndbuf_size c), (tcp_timeout c, tcp_timewait c, multi_process c),
   current_iomodule_func c).

Lemma find_dev_ok dev es : nif_ok es (find_dev dev es).
Proof.
  induction es as [|e es IH]; cbn [find_dev]; [by left|]. case_match; [right; exists e; split; [left|done]|].
  destruct IH as [IH|(e'&He'&IH)]; [by left|right; exists e'; split; [by right|done]].
Qed.
Lemma nif_ok_take n es nif : nif_ok (take n es) nif → nif_ok es nif.
Proof. intros [->|(e&He&->)]; [by left|]. right. exists e. split; [|done]. apply list_elem_of_lookup_1 in He as [i Hi]. apply lookup_take_Some in Hi as [Hi _]. by eapply list_elem_of_lookup_2. Qed.

Lemma ifidx_of_ok dev c : nif_ok (eths c) (ifidx_of dev c).
Proof. unfold ifidx_of. destruct (current_iomodule_func c); try (by left); eapply nif_ok_take, find_dev_ok. Qed.

Lemma land_self_idem a b : Z.land (Z.land a b) b = Z.land a b.
Proof. by rewrite <- Z.land_assoc, Z.land_diag. Qed.

Lemma add_route_ok c r : routes_ok c → Z.of_nat (length (rtable c)) ≠ MAX_ROUTE_ENTRY → route_ok (eths c) r →
  let c1 := c <| rtable := rtable c ++ [r] |> in
  let c2 := if rt_mask r =? 0 then c1 <| gateway := Some r |> else c1 in routes_ok c2 ∧ fixed c2 = fixed c.
Proof.
  intros [Hl Ha Hg] Hne Hr c1 c2. assert (rtable c2 = rtable c ++ [r] ∧ eths c2 = eths c ∧ fixed c2 = fixed c) as (Et&Ee&Ef) by (unfold c2; by case_match).
  split; [|done]. split; rewrite ?Et, ?Ee.
  - rewrite length_app. simpl. lia.
  - apply Forall_app_2; [done|by constructor].
  - unfold c2. intros g. destruct (Z.eqb_spec (rt_mask r) 0) as [Hz|Hz]; rec_simpl; [intros [= <-]; split; [apply elem_of_app; right; left|done]|].
    intros E. apply Hg in E as [Hin Hm]. split; [apply elem_of_app; by left|done].
Qed.
Lemma routes_ok_errno c e : routes_ok c → routes_ok (c <| errno := e |>).
Proof. by intros []. Qed.
Lemma EnrollRouteTableEntry_ok l c c' : routes_ok c → EnrollRouteTableEntry l c = Some c' → routes_ok c' ∧ fixed c' = fixed c.
Proof.
  intros Hr. unfold EnrollRouteTableEntry. destruct (strtok_r l _) as [[d|] s1]; destruct (strtok_r s1 _) as [[p|] s2]; destruct (strtok_r s2 _) as [[dev|] s3]; try done.
  cbn [mbind option_bind]. destruct (Z.eqb_spec (Z.of_nat (length (rtable c))) MAX_ROUTE_ENTRY) as [|Hne]; [done|].
  destruct (mystrtol p c) as [[pr c1]|] eqn:E; [|done]. cbn [mbind option_bind]. apply mystrtol_spec in E as (_&e&->).
  destruct ((pr >? 32) || (pr <? 0)) eqn:Hp; [done|]. apply orb_false_iff in Hp as [Hp1 Hp2]. rewrite Z.gtb_ltb in Hp1. apply Z.ltb_ge in Hp1, Hp2.
  pose proof (ifidx_of_ok dev c) as Hif. set (r := mk_route _ _ _ _ _). intros [= <-]. assert (route_ok (eths c) r) as Hro by (split_and!; done).
  exact (add_route_ok (c <| errno := e |>) r (routes_ok_errno c e Hr) Hne Hro).
Qed.

Lemma route_lines_ok num : ∀ ls c ls' c', routes_ok c → route_lines num ls c = Some (ls', c') →
  routes_ok c' ∧ fixed c' = fixed c ∧ (length ls' <= length ls)%nat.
Proof.
  induction num as [|num IH]; intros ls c ls' c' Hr; cbn [route_lines]; [by intros [= <- <-]|].
  induction ls as [|l ls IHl]; [by intros [= <- <-]|]. destruct (bool_decide (head l = Some 35)); [intros E; apply IHl in E as (?&?&?); split_and!; [done|done|simpl; lia]|].
  destruct (gateway c); [done|]. destruct (EnrollRouteTableEntry l c) as [c1|] eqn:E1; [|done]. cbn [mbind option_bind]. intros E.
  apply EnrollRouteTableEntry_ok in E1 as [Hr1 Hf1]; [|done]. apply IH in E as (?&Hf&?); [|done]. split_and!; [done|by rewrite Hf|simpl; lia].
Qed.
Lemma route_file_loop_ok fuel : ∀ ls c c', routes_ok c → route_file_loop fuel ls c = Some c' → routes_ok c' ∧ fixed c' = fixed c.
Proof.
  induction fuel as [|fuel IH]; intros ls c c' Hr; cbn [route_file_loop]; [done|]. destruct ls as [|l ls]; [by intros [= <-]|].
  case_match; [by apply IH|]. cbv zeta. case_match; [|by apply IH]. destruct (behind _ _ _) as [s|]; [|done]. cbn [mbind option_bind].
  destruct (GetIntValue s c) as [num c1] eqn:E1. apply GetIntValue_spec in E1 as [e ->]. case_match; [intros [= <-]; split; [by apply routes_ok_errno|done]|].
  destruct (route_lines _ _ _) as [[ls1 c2]|] eqn:E2; [|done]. cbn [mbind option_bind]. apply route_lines_ok in E2 as (Hr2&Hf2&_); [|by apply routes_ok_errno].
  intros E. apply IH in E as [? Hf]; [|done]. split; [done|]. rewrite Hf. done.
Qed.

(** The length counted from a mask of 32 bits is at most 32. *)
Lemma mask_len_bound k : ∀ n c p, 0 <= c < 2 ^ (Z.of_nat n + 1) → (n <= k)%nat → p <= mask_len k c p <= p + Z.of_nat n.
Proof.
  induction k as [|k IH]; intros n c p Hc Hn; cbn [mask_len]; [lia|]. rewrite Z.shiftr_div_pow2 by lia. change (2 ^ 1) with 2.
  destruct (Z.eqb_spec (c / 2) 0); [lia|]. destruct n as [|n]; [change (2 ^ (Z.of_nat 0 + 1)) with 2 in Hc; rewrite Z.div_small in * by lia; lia|].
  destruct (IH n (c / 2) (p + 1)) as [H1 H2]; [|lia|lia]. split; [apply Z.div_pos; lia|]. apply Z.div_lt_upper_bound; [lia|].
  replace (2 * 2 ^ (Z.of_nat n + 1)) with (2 ^ (Z.of_nat (S n) + 1)); [lia|]. rewrite <- Z.pow_succ_r by lia. f_equal. lia.
Qed.
Lemma default_route_ok es e : eth_ok e → e ∈ es → route_ok es (default_route e).
Proof.
  intros (_&Hm&_) He. unfold default_route, route_ok. cbn [rt_prefix rt_masked rt_daddr rt_mask rt_nif].
  pose proof (mask_len_bound 32 31 (netmask e) 0 ltac:(change (2 ^ (Z.of_nat 31 + 1)) with 4294967296; lia) ltac:(lia)). split_and!; [lia|lia|by rewrite land_self_idem|right; by exists e].
Qed.
Lemma SetRoutingTable_ok file c ret c' : Forall eth_ok (eths c) → gateway c = None → SetRoutingTable file c = Some (ret, c') →
  ret = 0 ∧ routes_ok c' ∧ fixed c' = fixed c.
Proof.
  intros He Hg. unfold SetRoutingTable. case_guard as Hl; [|done]. cbn [mbind option_bind]. set (c1 := c <| rtable := _ |>).
  assert (routes_ok c1) as Hr1.
  { split; unfold c1; rec_simpl; [by rewrite length_fmap| |by rewrite Hg]. apply Forall_fmap, Forall_forall. intros e Hin. apply default_route_ok; [|done]. rewrite Forall_forall in He. by apply He. }
  unfold SetRoutingTableFromFile. destruct file as [text|]; [|intros [= <- <-]; done].
  destruct (route_file_loop _ _ _) as [c2|] eqn:E2; [|done]. apply route_file_loop_ok in E2 as [? Hf]; [|done]. cbn [mbind option_bind]. intros [= <- <-]. split_and!; [done|done|by rewrite Hf].
Qed.

(** ** The ARP entries *)
Definition arp_entry_ok (e : arp_entry) : Prop :=
  0 <= arp_prefix e <= 32 ∧ ip_mask e = MaskFromPrefix (arp_prefix e) ∧ ip_masked e = Z.land (arp_ip e) (ip_mask e)
  ∧ length (arp_haddr e) = ETH_ALEN ∧ Forall (λ b, is_u8 b) (arp_haddr e).
Definition arp_ok (c : config) : Prop := Z.of_nat (length (arp_entries c)) <= MAX_ARPENTRY ∧ Forall arp_entry_ok (arp_entries c).

Lemma mac_loop_ok room : ∀ s h h', mac_loop room s h = Some h' → Forall (λ b, is_u8 b) h → length h' = (room + length h)%nat ∧ Forall (λ b, is_u8 b) h'.
Proof.
  induction room as [|room IH]; intros s h h'; cbn [mac_loop]; destruct (strtok_r s (str ":")) as [[t|] s']; try done; [by intros [= <-]|].
  destruct (sscanf_x t) as [v|]; [|done]. cbn [mbind option_bind]. intros E Hh. apply IH in E as [Hl Hf]; [rewrite Hl, length_app; simpl; split; [lia|done]|].
  apply Forall_app_2; [done|]. constructor; [apply u8_range|done].
Qed.
Lemma EnrollARPTableEntry_ok l c c' : arp_ok c → EnrollARPTableEntry l c = Some c' → arp_ok c' ∧ fixed c' = fixed c ∧ rtable c' = rtable c ∧ gateway c' = gateway c.
Proof.
  intros [Hl Ha]. unfold EnrollARPTableEntry. destruct (strtok_r l _) as [[d|] s1]; destruct (strtok_r s1 _) as [[p|] s2]; destruct (strtok_r s2 _) as [[m|] s3]; try done.
  cbn [mbind option_bind]. destruct (mystrtol p c) as [[pr c1]|] eqn:E; [|done]. cbn [mbind option_bind]. apply mystrtol_spec in E as (_&e&->).
  destruct ((pr >? 32) || (pr <? 0)) eqn:Hp; [intros [= <-]; done|]. apply orb_false_iff in Hp as [Hp1 Hp2]. rewrite Z.gtb_ltb in Hp1. apply Z.ltb_ge in Hp1, Hp2.
  case_guard as Hlt; [|done]. cbn [mbind option_bind]. rec_simpl. destruct (ParseIPAddress d) as [r ip]. unfold ParseMACAddress.
  destruct (mac_loop ETH_ALEN m []) as [h|] eqn:Em; [|done]. cbn [mbind option_bind]. apply mac_loop_ok in Em as [Hml Hmf]; [|done]. rewrite Nat.add_0_r in Hml.
  set (x := mk_arp _ _ _ _ _). assert (arp_ok (c <| errno := e |> <| arp_entries := arp_entries c ++ [x] |>)) as Hok.
  { split; rec_simpl; [rewrite length_app; simpl; lia|]. apply Forall_app_2; [done|]. constructor; [|done]. split_and!; done. }
  intros [= <-]. rec_simpl. destruct (gateway c) eqn:Eg; [case_match|]; split_and!; (exact Hok || done).
Qed.
Lemma arp_file_loop_ok ls : ∀ n has c c', arp_ok c → arp_file_loop ls n has c = Some c' → arp_ok c' ∧ fixed c' = fixed c ∧ rtable c' = rtable c ∧ gateway c' = gateway c.
Proof.
  induction ls as [|l ls IH]; intros n has c c' Hok; cbn [arp_file_loop]; [by intros [= <-]|]. cbv zeta. destruct (bool_decide (strip l = [])); [by apply IH|].
  destruct (negb has && _).
  - destruct (behind _ _ _) as [s|]; [|done]. cbn [mbind option_bind]. destruct (GetIntValue s c) as [num c1] eqn:E1. apply GetIntValue_spec in E1 as [e ->].
    case_match; [done|]. intros E. apply IH in E; [exact E|exact Hok].
  - case_match; [done|]. destruct (EnrollARPTableEntry (strip l) c) as [c1|] eqn:E1; [|done]. cbn [mbind option_bind].
    apply EnrollARPTableEntry_ok in E1 as (Hok1&Hf1&Hr1&Hg1); [|done]. intros E. apply IH in E as (?&Hf&Hr&Hg); [|done]. by rewrite Hf, Hr, Hg.
Qed.
Lemma LoadARPTable_ok file c ret c' : LoadARPTable file c = Some (ret, c') → arp_ok c' ∧ fixed c' = fixed c ∧ rtable c' = rtable c ∧ gateway c' = gateway c.
Proof.
  unfold LoadARPTable. assert (arp_ok (c <| arp_entries := [] |>)) as H0 by done. destruct file as [text|]; [|intros [= _ <-]; done].
  destruct (arp_file_loop _ _ _ _) as [c1|] eqn:E; [|done]. cbn [mbind option_bind]. intros [= _ <-]. by apply arp_file_loop_ok in E.
Qed.

(** ** The whole *)
Record well_formed (c : config) : Prop := {
  wf_numbers : numbers_ok c;
  wf_buffers : 64 <= rcvbuf_size c < 2147483648 ∧ 64 <= sndbuf_size c < 2147483648;
  wf_interfaces : interfaces_ok c;
  wf_routes : routes_ok c;
  wf_arp : arp_ok c
}.

Lemma fixed_numbers c c' : fixed c' = fixed c → numbers_ok c → numbers_ok c' ∧ rcvbuf_size c' = rcvbuf_size c ∧ sndbuf_size c' = sndbuf_size c.
Proof.
  unfold fixed. intros [= _ _ E1 E2 _ E3 E4 E5 E6 E7 E8 E9 _]. intros []. split; [|done].
  constructor; rewrite ?E1, ?E2, ?E3, ?E4, ?E5, ?E6, ?E7, ?E8, ?E9; done.
Qed.

Lemma LoadConfiguration_ok mc file c c' : machine_ok mc → numbers_ok c → eths c = [] → LoadConfiguration mc file c = Some (0, c') →
  numbers_ok c' ∧ (64 <= rcvbuf_size c' < 2147483648 ∧ 64 <= sndbuf_size c' < 2147483648) ∧ interfaces_ok c' ∧ gateway c' = gateway c.
Proof.
  intros Hm Hn He. unfold LoadConfiguration. destruct file as [text|]; [|done]. destruct (config_lines mc (lines text) c) as [[r c1]|] eqn:E1; [|done].
  cbn [mbind option_bind]. apply config_lines_ok in E1 as [Ht1 Hn1]; [|done]. destruct (Z.ltb_spec r 0); [done|]. specialize (Hn1 H).
  destruct (default_buffers_ok c1 Hn1) as (Hn2&Hr2&Hs2&Ht2). intros E. apply SetNetEnv_ok in E as (_&Hn3&Hs3&Hi3); [|done|done|].
  - injection Hs3 as Er Es Ert Eg Ea Eag. split_and!; rewrite ?Er, ?Es; try done; try lia. rewrite Eg. rewrite Ht1 in Ht2. by injection Ht2.
  - rewrite Ht1 in Ht2. injection Ht2. congruence.
Qed.

(** The route of an address leads to an interface or to none. *)
Lemma route_loop_nif (Q : Z → Prop) gw daddr prefix rts : Q (-1) → Forall (λ r, Q (rt_nif r)) rts → (∀ g, gw = Some g → Q (rt_nif g)) →
  Q (route_loop gw daddr prefix rts).1.
Proof.
  intros H1 Hr Hg. induction Hr as [|r rts Hr _ IH]; cbn [route_loop]; [done|]. case_match; [|done]. case_match; [done|]. destruct gw; [by apply Hg|done].
Qed.
Lemma nif_ok_sender c nif : interfaces_ok c → nif_ok (eths c) nif → is_Some (sender_key (stack_config c) (s8 nif)).
Proof.
  intros [Hl He Hp Hi] [->|(e&Hin&->)]; [by eexists|]. rewrite Forall_forall in He. destruct (He e Hin) as [[H0 _] Hlt]. unfold MAX_DEVICES in Hlt.
  replace (s8 (ifindex e)) with (ifindex e) by ulia. destruct (Hp e Hin) as (i&Hi1&Hi2). unfold sender_key. rewrite (proj2 (Z.ltb_ge _ _)) by done.
  change (TcpTypes.nif_to_eidx (stack_config c)) with (nif_to_eidx c). rewrite Hi1. unfold stack_config. cbn [TcpTypes.eths]. rewrite length_fmap.
  rewrite (proj2 (Z.ltb_ge i 0)) by lia. rewrite (proj2 (Z.leb_gt _ _)) by lia. by eexists.
Qed.
Lemma well_formed_routed c : interfaces_ok c → routes_ok c → routed (stack_config c).
Proof.
  intros Hi [Hl Ha Hg] daddr. unfold nif_for, GetOutputInterface. apply nif_ok_sender; [done|]. apply route_loop_nif; [by left| |].
  - eapply Forall_impl; [exact Ha|]. intros r Hr. apply Hr.
  - intros g Eg. apply Hg in Eg as [Hin _]. rewrite Forall_forall in Ha. apply (Ha g Hin).
Qed.
Lemma fixed_interfaces c c' : fixed c' = fixed c → interfaces_ok c → interfaces_ok c'.
Proof. unfold fixed. intros [= E1 E2 _ _ _ _ _ _ _ _ _ _ _]. intros []. constructor; rewrite ?E1, ?E2; done. Qed.


(** ** The files of the repository *)
Module Sample.
Definition line (s : string) : list Z := str s ++ [10].
Arguments line s%_string.
Definition mtcp_conf : list Z :=
  line "############### mtcp configuration file ###############" ++ line "" ++ line "io = dpdk" ++ line "#num_cores = 8" ++ line "num_cores = 4"
  ++ line "num_mem_ch = 4" ++ line "port = dpdk0" ++ line "#port = dpdk1" ++ line "rcvbuf = 8192" ++ line "sndbuf = 8192"
  ++ line "tcp_timeout = 30" ++ line "tcp_timewait = 0" ++ line "stat_print = dpdk0".
Definition route_conf : list Z :=
  line "# (Destination address)/(Prefix) (Device name)" ++ line "ROUTES 2" ++ line "192.168.93.100/16 dpdk0" ++ line "10.0.0.10/0 dpdk0".
Definition arp_conf : list Z :=
  line "# ARP sample" ++ line "" ++ line "ARP_ENTRY 1" ++ line "192.168.93.100/16 e8:61:1f:34:a6:79" ++ line "#192.168.56.100/16 80:61:5f:01:bc:1d".
Definition host : machine :=
  mk_machine 8 0 (-1) 0 3 [[2; 0; 0; 0; 0; 1]; [2; 0; 0; 0; 0; 2]]
    [mk_ifa (str "lo") (Some true) (Some 16777343) None (Some 255);
     mk_ifa (str "dpdk0") (Some true) (Some 23963840) (Some [2; 0; 0; 0; 0; 2]) (Some 65535)] true (λ z _, z).
Definition loaded : config :=
  match mtcp_init host (Some mtcp_conf) (Some route_conf) (Some arp_conf) true CONFIG0 with Some (_, c) => c | None => CONFIG0 end.
Lemma loads : mtcp_init host (Some mtcp_conf) (Some route_conf) (Some arp_conf) true CONFIG0 = Some (0, loaded).
Proof. vm_compute. reflexivity. Qed.
Lemma host_ok : machine_ok host.
Proof. intros i. unfold host. cbn [getifaddrs]. intros [->|[->|Hi]%elem_of_cons]%elem_of_cons; [..|by apply elem_of_nil in Hi]; simpl; lia. Qed.
(** Port 1, the second, is the first interface; the second route of the file is
    the gateway, whose hardware address is in the ARP table. *)
Example loaded_computed :
  (num_cpus loaded, tcp_timeout loaded, ifindex <$> eths loaded, take 3 (nif_to_eidx loaded), rt_prefix <$> rtable loaded, arp_haddr <$> arp_entries loaded,
   GetOutputInterface (stack_config loaded) 16843018)
  = (4, 30000, [1], [-1; 0; -1], [16; 16; 0], [[232; 97; 31; 52; 166; 121]], (1, true)).
Proof. vm_compute. reflexivity. Qed.

End Sample.
