(* ===== verification/ConfigText.v ===== *)
(** * Route and ARP files read back

    What is written into [route.conf] and [arp.conf] is what the tables hold,
    and the masks in the tables select the addresses with the same first bits. *)
From stdpp Require Import list strings.
From S2P Require Import Prelude CText TcpTypes NetOut Config.
Import CText Config.

(** ** Masks *)

(** The bits of an address in the order in which they are written: byte by byte,
    each from its highest bit on. *)
Definition bit_pos (n : Z) : Z := 8 * (n / 8) + 7 - n mod 8.
Definition bits (a : Z) : list bool := (λ n, Z.testbit a (bit_pos n)) <$> seqZ 0 32.

Lemma bit_pos_inv n : bit_pos (bit_pos n) = n.
Proof. unfold bit_pos. Z.div_mod_to_equations. lia. Qed.
Lemma bit_pos_range n : 0 <= n < 32 → 0 <= bit_pos n < 32.
Proof. unfold bit_pos. intros. Z.div_mod_to_equations. lia. Qed.

Definition mask_check (p : Z) : bool :=
  bool_decide (0 <= MaskFromPrefix p < 2 ^ 32) && forallb (λ n, Bool.eqb (Z.testbit (MaskFromPrefix p) (bit_pos n)) (n <? p)) (seqZ 0 32).
Lemma mask_bit p n : 0 <= p <= 32 → 0 <= n < 32 → Z.testbit (MaskFromPrefix p) (bit_pos n) = (n <? p).
Proof.
  intros Hp Hn. assert (forallb mask_check (seqZ 0 33) = true) as Hc by (vm_compute; reflexivity).
  pose proof (check_range _ _ Hc p ltac:(lia)) as H. apply andb_true_iff in H as [_ H]. by apply (check_range _ _ H n), Bool.eqb_prop in Hn.
Qed.
Lemma mask_range p : 0 <= p <= 32 → 0 <= MaskFromPrefix p < 2 ^ 32.
Proof.
  intros Hp. assert (forallb mask_check (seqZ 0 33) = true) as Hc by (vm_compute; reflexivity).
  pose proof (check_range _ _ Hc p ltac:(lia)) as H. apply andb_true_iff in H as [H _]. by apply bool_decide_eq_true_1 in H.
Qed.

(** An address matches a route exactly when its first bits are those of the
    route. *)
Lemma masked_same_bits p a b : 0 <= p <= 32 →
  (Z.land a (MaskFromPrefix p) = Z.land b (MaskFromPrefix p)) ↔ take (Z.to_nat p) (bits a) = take (Z.to_nat p) (bits b).
Proof.
  intros Hp. assert (∀ x n, 0 <= n < 32 → bits x !! Z.to_nat n = Some (Z.testbit x (bit_pos n))) as Hb.
  { intros x n Hn. unfold bits. rewrite list_lookup_fmap, lookup_seqZ_lt by lia. simpl. by rewrite Z2Nat.id by lia. }
  split; intros E.
  - apply list_eq. intros i. destruct (decide (i < Z.to_nat p)%nat) as [Hi|Hi]; [|rewrite !lookup_take_ge by lia; done]. rewrite !lookup_take_lt by lia.
    replace i with (Z.to_nat (Z.of_nat i)) by lia. rewrite !Hb by lia. f_equal. apply (f_equal (λ z, Z.testbit z (bit_pos (Z.of_nat i)))) in E.
    rewrite !Z.land_spec, mask_bit, (proj2 (Z.ltb_lt _ _)), !andb_true_r in E by lia. done.
  - apply Z.bits_inj'. intros k Hk. rewrite !Z.land_spec. destruct (decide (k < 32)) as [Hk2|Hk2].
    + rewrite <- (bit_pos_inv k). pose proof (bit_pos_range k ltac:(lia)). set (n := bit_pos k) in *. rewrite mask_bit by lia. destruct (Z.ltb_spec n p); [|by rewrite !andb_false_r].
      rewrite !andb_true_r. apply (f_equal (λ l, l !! Z.to_nat n)) in E. rewrite !lookup_take_lt, !Hb in E by lia. by injection E.
    + rewrite (Z.bits_above_log2 (MaskFromPrefix p)), !andb_false_r; [done|apply mask_range; lia|]. pose proof (mask_range p Hp) as Hm.
      destruct (decide (MaskFromPrefix p = 0)) as [->|]; [simpl; lia|]. apply Z.log2_lt_pow2; [lia|]. apply (Z.lt_le_trans _ (2 ^ 32)); [lia|]. apply Z.pow_le_mono_r; lia.
Qed.

(** ** Lines *)

(** The characters of addresses and numbers, and of the lines made of them. *)
Definition plain (c : Z) : bool := (48 <=? c) && (c <=? 58) || (65 <=? c) && (c <=? 70) || (c =? 46).
Lemma plain_dec n : 0 <= n < 2048 → forallb plain (dec n) = true.
Proof.
  intros Hn. destruct (dec_spec n Hn) as (c&ds&_&_&Hd&_). apply forallb_forall. intros x Hx. rewrite forallb_forall in Hd. apply Hd in Hx. unfold isdigit in Hx. unfold plain. lia.
Qed.
Lemma plain_dotted a b c d : is_u8 a → is_u8 b → is_u8 c → is_u8 d → forallb plain (dotted a b c d) = true.
Proof. intros. unfold dotted. rewrite !forallb_app. cbn [forallb]. rewrite !forallb_app. cbn [forallb]. rewrite !forallb_app. cbn [forallb]. by rewrite !plain_dec by lia. Qed.
Lemma plain_hex2 b : is_u8 b → forallb plain (hex2 b) = true.
Proof.
  intros Hb. assert (forallb (λ b, forallb plain (hex2 b)) (seqZ 0 256) = true) as Hc by (vm_compute; reflexivity). by apply (check_range _ _ Hc b).
Qed.
Lemma plain_mac bs : Forall (λ b, is_u8 b) bs → forallb plain (mac bs) = true.
Proof.
  induction 1 as [|b bs Hb Hbs IH]; [done|]. destruct bs as [|b' bs]; [by apply plain_hex2|]. cbn [mac]. rewrite forallb_app, plain_hex2 by done. exact IH.
Qed.
Lemma plain_free delim l : forallb plain l = true → forallb (λ d, negb (plain d)) delim = true → free_of delim l = true.
Proof.
  intros Hl Hd. unfold free_of. apply forallb_forall. intros x Hx. rewrite forallb_forall in Hl, Hd. apply negb_true_iff, bool_decide_eq_false_2. intros Hin.
  apply list_elem_of_In, Hd in Hin. rewrite (Hl x Hx) in Hin. done.
Qed.

Lemma lines_from_app room cur l rest : forallb (λ c, negb (c =? 10)) l = true → (length l < room)%nat →
  lines_from room cur (l ++ 10 :: rest) = (cur ++ l ++ [10]) :: lines_from (MAX_OPTLINE_LEN - 1) [] rest.
Proof.
  revert room cur. induction l as [|c l IH]; intros room cur Hl Hr; cbn [app]; cbn [lines_from]; [by change (10 =? 10) with true|].
  cbn [forallb] in Hl. apply andb_true_iff in Hl as [Hc Hl]. apply negb_true_iff in Hc. rewrite Hc. simpl in Hr. rewrite (proj2 (Nat.eqb_neq room 1)) by lia. cbn [orb].
  rewrite IH by (done || lia). by rewrite <- app_assoc.
Qed.
(** The lines of a file written line by line. *)
Definition line_ok (l : list Z) : Prop := forallb (λ c, negb (c =? 10) && negb (c =? 0)) l = true ∧ (length l < 1023)%nat.
Definition file_of (ls : list (list Z)) : list Z := concat ((λ l, l ++ [10]) <$> ls).
Lemma lines_file_of ls : Forall line_ok ls → lines (file_of ls) = (λ l, l ++ [10]) <$> ls.
Proof.
  unfold lines, file_of. change (MAX_OPTLINE_LEN - 1)%nat with 1023%nat. induction 1 as [|l ls [Hl Hlen] _ IH]; [done|]. cbn [fmap list_fmap concat]. rewrite <- app_assoc. cbn [app].
  rewrite lines_from_app; [|eapply forallb_forall; intros x Hx; rewrite forallb_forall in Hl; by apply Hl, andb_true_iff in Hx as [Hx _]|done].
  change (MAX_OPTLINE_LEN - 1)%nat with 1023%nat. cbn [fmap list_fmap app]. f_equal; [|exact IH].
  unfold c_str, until. rewrite span_all; [done|]. rewrite forallb_app. cbn [forallb]. rewrite andb_true_r.
  apply forallb_forall. intros x Hx. rewrite forallb_forall in Hl. by apply Hl, andb_true_iff in Hx as [_ Hx].
Qed.

(** ** Networks *)
Record net := mk_net { o1 : Z; o2 : Z; o3 : Z; o4 : Z; plen : Z }.
Definition net_ok (n : net) : Prop := is_u8 (o1 n) ∧ is_u8 (o2 n) ∧ is_u8 (o3 n) ∧ is_u8 (o4 n) ∧ 0 <= plen n <= 32.
Definition net_addr (n : net) : Z := of_bytes [o1 n; o2 n; o3 n; o4 n].
Definition net_text (n : net) : list Z := dotted (o1 n) (o2 n) (o3 n) (o4 n) ++ 47 :: dec (plen n).

Lemma dec_nonnil n : 0 <= n < 2048 → dec n ≠ [].
Proof. intros Hn. destruct (dec_spec n Hn) as (c&ds&->&_). done. Qed.
Lemma net_tokens n rest : net_ok n → ∃ s1, strtok_r (net_text n ++ 32 :: rest) (str "/") = (Some (dotted (o1 n) (o2 n) (o3 n) (o4 n)), s1)
  ∧ strtok_r s1 (str " ") = (Some (dec (plen n)), rest).
Proof.
  intros (H1&H2&H3&H4&Hp). exists (dec (plen n) ++ 32 :: rest). unfold net_text. rewrite <- app_assoc. cbn [app]. split.
  - apply strtok_r_app; [|by apply plain_free; [apply plain_dotted|]|by left]. unfold dotted. destruct (dec_spec (o1 n) ltac:(lia)) as (c&ds&->&_). done.
  - apply strtok_r_app; [apply dec_nonnil; lia|apply plain_free; [apply plain_dec; lia|done]|by left].
Qed.
Lemma mystrtol_dec n c : 0 <= n < 2048 → mystrtol (dec n) c = Some (n, c <| errno := 0 |>).
Proof.
  intros Hn. unfold mystrtol. rewrite <- (app_nil_r (dec n)), strtol_dec by done. cbv zeta. rec_simpl. change (0 =? ERANGE) with false. change (0 =? 0) with true. cbn [andb orb negb].
  by rewrite s32_id by lia.
Qed.
(** [errno] is not cleared by [GetIntValue]. *)
Definition errno_ok (c : config) : Prop := errno c ≠ EINVAL ∧ errno c ≠ ERANGE.
Lemma GetIntValue_dec n c r : 0 <= n < 2048 → ends_number r → errno_ok c → GetIntValue (dec n ++ r) c = (n, c).
Proof.
  intros Hn Hr [H1 H2]. unfold GetIntValue. rewrite strtol_dec by done. apply Z.eqb_neq in H1, H2. rewrite H1, H2. cbn [orb]. by rewrite s32_id by lia.
Qed.

Lemma mac_loop_text bs : Forall (λ b, is_u8 b) bs → ∀ h, mac_loop (length bs) (mac bs) h = Some (h ++ bs).
Proof.
  induction 1 as [|b bs Hb Hbs IH]; intros h; cbn [length]; [by rewrite app_nil_r|].
  assert (free_of (str ":") (hex2 b) = true) as Hf by (apply hex2_free; [done|vm_compute; reflexivity]).
  assert (strtok_r (mac (b :: bs)) (str ":") = (Some (hex2 b), mac bs)) as E.
  { destruct bs as [|b' bs]; cbn [mac]; [by apply strtok_r_end|]. apply strtok_r_app; [done|done|by left]. }
  cbn [mac_loop]. rewrite E, sscanf_hex2 by done. cbn [mbind option_bind]. rewrite u8_id by done. rewrite IH. by rewrite <- app_assoc.
Qed.

(** ** ARP entries *)
Definition arp_line (x : net * list Z) : list Z := net_text x.1 ++ 32 :: mac x.2.
Definition arp_text_ok (x : net * list Z) : Prop :=
  net_ok x.1 ∧ net_addr x.1 ≠ INADDR_NONE ∧ length x.2 = 6%nat ∧ Forall (λ b, is_u8 b) x.2.
Definition arp_of (x : net * list Z) : arp_entry :=
  mk_arp (net_addr x.1) (plen x.1) (MaskFromPrefix (plen x.1)) (Z.land (net_addr x.1) (MaskFromPrefix (plen x.1))) x.2.

Lemma mac_free bs : Forall (λ b, is_u8 b) bs → free_of [10] (mac bs) = true.
Proof. intros Hbs. apply plain_free; [by apply plain_mac|done]. Qed.
Lemma mac_nonnil bs : bs ≠ [] → mac bs ≠ [].
Proof. destruct bs as [|b [|b' bs]]; done. Qed.
Lemma EnrollARPTableEntry_line x c : arp_text_ok x → Z.of_nat (length (arp_entries c)) < MAX_ARPENTRY →
  ∃ g, EnrollARPTableEntry (arp_line x) c = Some (c <| errno := 0 |> <| arp_entries := arp_entries c ++ [arp_of x] |> <| arp_gateway := g |>).
Proof.
  intros (Hn&Hne&Hlen&Hbs) Hl. unfold EnrollARPTableEntry, arp_line. destruct (net_tokens x.1 (mac x.2) Hn) as (s1&->&->).
  rewrite strtok_r_end; [|apply mac_nonnil; by destruct x.2|by apply mac_free]. cbn [mbind option_bind]. pose proof Hn as (H1&H2&H3&H4&Hp). rewrite mystrtol_dec by lia. cbn [mbind option_bind].
  rewrite Z.gtb_ltb, !(proj2 (Z.ltb_ge _ _)) by lia. cbn [orb]. rec_simpl. rewrite option_guard_True by done. cbn [mbind option_bind]. unfold ParseIPAddress. rewrite inet_addr_dotted by done.
  fold (net_addr x.1). rewrite (proj2 (Z.eqb_neq _ _)) by done. unfold ParseMACAddress. change ETH_ALEN with 6%nat. rewrite <- Hlen, mac_loop_text by done. cbn [mbind option_bind app].
  fold (arp_of x). rec_simpl. destruct (gateway c); [case_match|]; (eexists; reflexivity) || (exists (arp_gateway c); by destruct c).
Qed.

(** The characters of a line, which [strip] leaves but for the end. *)
Lemma strip_line l : match l with c :: _ => isspace c = false | [] => False end → forallb (λ c, negb (c =? 35)) l = true → strip (l ++ [10]) = l.
Proof.
  intros Hc Hl. unfold strip, until. rewrite span_all by (rewrite forallb_app, Hl; done). cbn [fst]. rewrite skip_none by (by destruct l). rewrite last_snoc. change (isspace 10) with true. cbv iota.
  rewrite length_app. cbn [length]. by rewrite Nat.add_sub, take_app_length.
Qed.
Definition line_char (c : Z) : bool := plain c || (c =? 47) || (c =? 32).
Lemma forallb_weaken (f g : Z → bool) l : (∀ c, f c = true → g c = true) → forallb f l = true → forallb g l = true.
Proof. intros Hfg Hl. apply forallb_forall. intros x Hx. rewrite forallb_forall in Hl. by apply Hfg, Hl. Qed.
Lemma net_text_chars n : net_ok n → forallb line_char (net_text n) = true.
Proof.
  intros (H1&H2&H3&H4&Hp). unfold net_text. rewrite forallb_app. cbn [forallb]. rewrite !andb_true_iff. split_and!; [|done|];
    (eapply forallb_weaken; [|(by apply plain_dotted) || (apply plain_dec; lia)]); intros c Hc; unfold line_char; by rewrite Hc.
Qed.
Lemma arp_line_chars x : arp_text_ok x → forallb line_char (arp_line x) = true.
Proof.
  intros (Hn&_&_&Hbs). unfold arp_line. rewrite forallb_app, net_text_chars by done. cbn [forallb andb]. change (line_char 32) with true. cbn [andb].
  eapply forallb_weaken; [|by apply plain_mac]. intros c Hc; unfold line_char; by rewrite Hc.
Qed.
Lemma net_text_head n rest : net_ok n → match net_text n ++ rest with c :: _ => isspace c = false ∧ c ≠ 35 | [] => False end.
Proof.
  intros (H1&_). unfold net_text, dotted. destruct (dec_spec (o1 n) ltac:(lia)) as (c&ds&E&_&Hd&_). rewrite E in Hd |- *. cbn [app forallb] in *.
  apply andb_true_iff in Hd as [Hd _]. unfold isdigit in Hd. unfold isspace. lia.
Qed.

Lemma dec_length n : 0 <= n < 2048 → (length (dec n) <= 4)%nat.
Proof.
  intros Hn. assert (forallb (λ n, (length (dec n) <=? 4)%nat) (seqZ 0 2048) = true) as Hc by (vm_compute; reflexivity).
  by apply (check_range _ _ Hc n), Nat.leb_le in Hn.
Qed.
Lemma net_text_length n : net_ok n → (length (net_text n) <= 24)%nat.
Proof.
  intros (H1&H2&H3&H4&Hp). unfold net_text, dotted. repeat (rewrite length_app; cbn [length]).
  pose proof (dec_length (o1 n) ltac:(lia)). pose proof (dec_length (o2 n) ltac:(lia)). pose proof (dec_length (o3 n) ltac:(lia)).
  pose proof (dec_length (o4 n) ltac:(lia)). pose proof (dec_length (plen n) ltac:(lia)). lia.
Qed.
Lemma mac_length bs : (length (mac bs) <= 3 * length bs)%nat.
Proof. induction bs as [|b bs IH]; [done|]. destruct bs as [|b' bs]; [simpl; lia|]. change (mac (b :: b' :: bs)) with (hex2 b ++ 58 :: mac (b' :: bs)). rewrite length_app. change (length (hex2 b)) with 2%nat. cbn [length] in *. lia. Qed.

Lemma line_char_ok l : forallb line_char l = true → (length l < 1023)%nat → line_ok l.
Proof. intros Hl Hn. split; [|done]. eapply forallb_weaken; [|exact Hl]. intros c. unfold line_char, plain. cbv beta. lia. Qed.
Lemma arp_line_ok x : arp_text_ok x → line_ok (arp_line x).
Proof.
  intros Hx. apply line_char_ok; [by apply arp_line_chars|]. destruct Hx as (Hn&_&Hl&_). unfold arp_line. rewrite length_app. cbn [length].
  pose proof (net_text_length _ Hn). pose proof (mac_length x.2). lia.
Qed.
(** The keyword and a number. *)
Definition count_line (key : list Z) (n : Z) : list Z := key ++ 32 :: dec n.
Lemma count_line_ok key n : 0 <= n < 2048 → forallb (λ c, (65 <=? c) && (c <=? 95)) key = true → (length key < 100)%nat →
  line_ok (count_line key n) ∧ forallb (λ c, negb (c =? 35)) (count_line key n) = true.
Proof.
  intros Hn Hk Hl. unfold count_line. assert (∀ f, (∀ c, (65 <=? c) && (c <=? 95) = true → f c = true) → f 32 = true → (∀ c, plain c = true → f c = true) → forallb f (key ++ 32 :: dec n) = true) as Hall.
  { intros f H1 H2 H3. rewrite forallb_app. cbn [forallb]. rewrite H2, (forallb_weaken _ _ _ H1 Hk), (forallb_weaken _ _ _ H3 (plain_dec n Hn)). done. }
  split; [split|]; [apply Hall; try done; unfold plain; intros c; lia|rewrite length_app; cbn [length]; pose proof (dec_length n Hn); lia|apply Hall; try done; unfold plain; intros c; lia].
Qed.

Lemma arp_lines_loaded xs : ∀ c, Forall arp_text_ok xs → Z.of_nat (length (arp_entries c)) + Z.of_nat (length xs) <= MAX_ARPENTRY →
  ∃ e g, arp_file_loop ((λ l, l ++ [10]) <$> (arp_line <$> xs)) (Z.of_nat (length xs)) true c
    = Some (c <| errno := e |> <| arp_entries := arp_entries c ++ (arp_of <$> xs) |> <| arp_gateway := g |>).
Proof.
  induction xs as [|x xs IH]; intros c Hxs Hl; cbn [fmap list_fmap arp_file_loop]; [exists (errno c), (arp_gateway c); rewrite app_nil_r; by destruct c|].
  apply Forall_cons in Hxs as [Hx Hxs]. assert (strip (arp_line x ++ [10]) = arp_line x) as Es.
  { apply strip_line; [pose proof (net_text_head x.1 (32 :: mac x.2) (proj1 Hx)) as Hh; unfold arp_line; by destruct (net_text x.1 ++ _); [|destruct Hh]|].
    eapply forallb_weaken; [|by apply arp_line_chars]. unfold line_char, plain. intros c0; lia. }
  rewrite Es. cbv zeta. rewrite bool_decide_eq_false_2.
  2: { pose proof (net_text_head x.1 (32 :: mac x.2) (proj1 Hx)) as Hh. unfold arp_line. by destruct (net_text x.1 ++ _). }
  cbn [negb andb length]. rewrite (proj2 (Z.leb_gt _ _)) by lia. cbn [length] in Hl. destruct (EnrollARPTableEntry_line x c Hx) as [g ->]; [lia|]. cbn [mbind option_bind].
  replace (Z.of_nat (S (length xs)) - 1) with (Z.of_nat (length xs)) by lia. edestruct IH as (e'&g'&->); [done|rec_simpl; rewrite length_app; cbn [length]; lia|].
  exists e', g'. rec_simpl. rewrite <- app_assoc. cbn [app]. by destruct c.
Qed.

Definition arp_file (xs : list (net * list Z)) : list Z := file_of (count_line ARP_ENTRY (Z.of_nat (length xs)) :: (arp_line <$> xs)).
(** C30: an ARP file with one to 1024 entries, written out with decimal and
    hexadecimal numbers, is read back by [LoadARPTable]: the table has exactly
    these entries with their masks, in the order of the file. *)
Theorem arp_file_read_back xs c : Forall arp_text_ok xs → (1 <= length xs <= 1024)%nat → errno_ok c →
  ∃ c', LoadARPTable (Some (arp_file xs)) c = Some (0, c') ∧ arp_entries c' = arp_of <$> xs.
Proof.
  intros Hxs Hl He. unfold LoadARPTable, arp_file. set (n := Z.of_nat (length xs)). assert (0 <= n < 2048) as Hn by lia.
  destruct (count_line_ok ARP_ENTRY n Hn eq_refl ltac:(simpl; lia)) as [Hok Hh]. rewrite lines_file_of.
  2: { constructor; [done|]. apply Forall_fmap. eapply Forall_impl; [exact Hxs|]. apply arp_line_ok. }
  cbn [fmap list_fmap arp_file_loop]. rewrite (strip_line (count_line ARP_ENTRY n)) by done. cbv zeta. rewrite bool_decide_eq_false_2 by done.
  replace (strncmp_eq (count_line ARP_ENTRY n) ARP_ENTRY) with true by (symmetry; apply bool_decide_eq_true_2, take_app_length). cbn [negb andb].
  replace (behind _ (count_line ARP_ENTRY n) (S (length ARP_ENTRY))) with (Some (dec n ++ [])) by (rewrite app_nil_r; reflexivity). cbn [mbind option_bind].
  rewrite GetIntValue_dec by done. rewrite (proj2 (Z.leb_gt _ _)) by lia.
  destruct (arp_lines_loaded xs (c <| arp_entries := [] |>) Hxs) as (e&g&E); [rec_simpl; unfold MAX_ARPENTRY; simpl; lia|]. unfold n. rewrite E. cbn [mbind option_bind].
  eexists. split; [reflexivity|]. done.
Qed.

(** ** Routes *)
Definition route_line (x : net * list Z) : list Z := net_text x.1 ++ 32 :: x.2.
Definition route_text_ok (x : net * list Z) : Prop :=
  net_ok x.1 ∧ x.2 ≠ [] ∧ forallb (λ c, negb (c =? 10) && negb (c =? 0)) x.2 = true ∧ (length x.2 < 900)%nat.
Definition route_of (c : config) (x : net * list Z) : route_table :=
  mk_route (net_addr x.1) (MaskFromPrefix (plen x.1)) (Z.land (net_addr x.1) (MaskFromPrefix (plen x.1))) (plen x.1) (ifidx_of x.2 c).
(** Only the last route may be the default route. *)
Fixpoint gateway_last (xs : list (net * list Z)) : Prop :=
  match xs with
  | [] | [_] => True
  | x :: xs => plen x.1 ≠ 0 ∧ gateway_last xs
  end.
Definition default_of (rs : list route_table) : option route_table := r ← last rs; if rt_prefix r =? 0 then Some r else None.

Lemma mask_zero p : 0 <= p <= 32 → (MaskFromPrefix p =? 0) = (p =? 0).
Proof.
  intros Hp. assert (forallb (λ p, Bool.eqb (MaskFromPrefix p =? 0) (p =? 0)) (seqZ 0 33) = true) as Hc by (vm_compute; reflexivity).
  apply Bool.eqb_prop. apply (check_range _ _ Hc p). lia.
Qed.
Lemma route_line_ok x : route_text_ok x → line_ok (route_line x).
Proof.
  intros (Hn&_&Hd&Hl). unfold route_line. pose proof (net_text_length _ Hn). split; [|rewrite length_app; cbn [length]; lia]. rewrite forallb_app. cbn [forallb].
  rewrite Hd, andb_true_r. eapply forallb_weaken; [|by apply net_text_chars]. unfold line_char, plain. intros c. lia.
Qed.
Lemma EnrollRouteTableEntry_line x c : route_text_ok x → Z.of_nat (length (rtable c)) ≠ MAX_ROUTE_ENTRY →
  EnrollRouteTableEntry (route_line x ++ [10]) c
  = Some (c <| errno := 0 |> <| rtable := rtable c ++ [route_of c x] |> <| gateway := if plen x.1 =? 0 then Some (route_of c x) else gateway c |>).
Proof.
  intros (Hn&Hne&Hd&Hl) Hm. unfold EnrollRouteTableEntry, route_line. rewrite <- app_assoc. cbn [app]. destruct (net_tokens x.1 (x.2 ++ [10]) Hn) as (s1&->&->).
  assert (strtok_r (x.2 ++ [10]) [10] = (Some x.2, [])) as ->.
  { apply strtok_r_app; [done| |by left]. unfold free_of. eapply forallb_weaken; [|exact Hd]. intros y Hy. apply andb_true_iff in Hy as [Hy _]. apply negb_true_iff, Z.eqb_neq in Hy.
    apply negb_true_iff, bool_decide_eq_false_2. by intros ->%list_elem_of_singleton. }
  cbn [mbind option_bind]. rewrite (proj2 (Z.eqb_neq _ _)) by done. pose proof Hn as (H1&H2&H3&H4&Hp). rewrite mystrtol_dec by lia. cbn [mbind option_bind].
  rewrite Z.gtb_ltb, !(proj2 (Z.ltb_ge _ _)) by lia. cbn [orb]. rewrite mask_zero, inet_addr_dotted by done. fold (net_addr x.1). fold (route_of c x). rec_simpl.
  destruct (plen x.1 =? 0); [done|by destruct c].
Qed.
Lemma route_lines_loaded xs rest : ∀ c, Forall route_text_ok xs → gateway_last xs → Z.of_nat (length (rtable c)) + Z.of_nat (length xs) <= MAX_ROUTE_ENTRY → gateway c = None →
  ∃ e, route_lines (length xs) (((λ l, l ++ [10]) <$> (route_line <$> xs)) ++ rest) c
    = Some (rest, c <| errno := e |> <| rtable := rtable c ++ (route_of c <$> xs) |> <| gateway := default_of (route_of c <$> xs) |>).
Proof.
  induction xs as [|x xs IH]; intros c Hxs Hgl Hl Hg; [exists (errno c); cbn; rewrite app_nil_r; destruct c; simpl in Hg; by rewrite Hg|].
  apply Forall_cons in Hxs as [Hx Hxs]. cbn [length] in Hl. cbn [length fmap list_fmap app route_lines].
  assert (bool_decide (head (route_line x ++ [10]) = Some 35) = false) as ->.
  { apply bool_decide_eq_false_2. unfold route_line. rewrite <- app_assoc. pose proof (net_text_head x.1 ((32 :: x.2) ++ [10]) (proj1 Hx)) as Hh. destruct (net_text x.1 ++ _); [done|].
    intros [= ->]. by destruct Hh. }
  rewrite Hg, EnrollRouteTableEntry_line by (done || lia). cbn [mbind option_bind]. rewrite Hg. destruct xs as [|x' xs].
  - cbn [length route_lines fmap list_fmap app]. exists 0. reflexivity.
  - destruct Hgl as [Hz Hgl]. rewrite (proj2 (Z.eqb_neq _ _)) by done. set (c1 := c <| errno := 0 |> <| rtable := _ |> <| gateway := None |>).
    destruct (IH c1 Hxs Hgl) as [e ->]; [unfold c1; rec_simpl; rewrite length_app; cbn [length] in *; lia|done|]. exists e. unfold c1. rec_simpl. rewrite <- app_assoc. by destruct c.
Qed.

Definition route_file (xs : list (net * list Z)) : list Z := file_of (count_line ROUTES (Z.of_nat (length xs)) :: (route_line <$> xs)).
(** C29: a route file with the default route at its end, if any, is read back by
    [SetRoutingTableFromFile]: the table has exactly these routes behind those it
    had, the default route is the gateway, and a route selects exactly the
    addresses whose first bits are those of its address. *)
Theorem route_file_read_back xs c : Forall route_text_ok xs → gateway_last xs → (1 <= length xs)%nat →
  Z.of_nat (length (rtable c)) + Z.of_nat (length xs) <= MAX_ROUTE_ENTRY → gateway c = None → errno_ok c →
  ∃ c', SetRoutingTableFromFile (Some (route_file xs)) c = Some (0, c') ∧ rtable c' = rtable c ++ (route_of c <$> xs) ∧ gateway c' = default_of (route_of c <$> xs)
    ∧ ∀ x daddr, x ∈ xs → (Z.land daddr (rt_mask (route_of c x)) = rt_masked (route_of c x))
        ↔ take (Z.to_nat (plen x.1)) (bits daddr) = take (Z.to_nat (plen x.1)) (bits (net_addr x.1)).
Proof.
  intros Hxs Hgl Hl1 Hl Hg He. unfold SetRoutingTableFromFile, route_file. set (n := Z.of_nat (length xs)). assert (0 <= n < 2048) as Hn by (unfold MAX_ROUTE_ENTRY in Hl; lia).
  destruct (count_line_ok ROUTES n Hn eq_refl ltac:(simpl; lia)) as [Hok Hh]. cbv zeta. rewrite lines_file_of.
  2: { constructor; [done|]. apply Forall_fmap. eapply Forall_impl; [exact Hxs|]. apply route_line_ok. }
  cbn [fmap list_fmap length route_file_loop]. rewrite bool_decide_eq_false_2 by done.
  assert (until (λ x, x =? 35) (count_line ROUTES n ++ [10]) = count_line ROUTES n ++ [10]) as -> by (unfold until; rewrite span_all; [done|]; by rewrite forallb_app, Hh).
  replace (strncmp_eq _ ROUTES) with true by (symmetry; apply bool_decide_eq_true_2; unfold count_line; rewrite <- app_assoc; apply take_app_length).
  replace (behind _ _ (S (length ROUTES))) with (Some (dec n ++ [10])) by done. cbn [mbind option_bind]. rewrite GetIntValue_dec by done.
  rewrite (proj2 (Z.leb_gt _ _)) by lia. unfold n. rewrite Nat2Z.id. rewrite <- (app_nil_r ((λ l, l ++ [10]) <$> (route_line <$> xs))).
  destruct (route_lines_loaded xs [] c Hxs Hgl Hl Hg) as [e ->]. cbn [mbind option_bind].
  eexists. split; [reflexivity|]. split; [done|split; [done|]]. intros x daddr Hx. rewrite Forall_forall in Hxs. apply masked_same_bits. apply (Hxs x Hx).
Qed.

Module TextDemo.
Definition lan : net := mk_net 192 168 93 100 16.
Definition gw : net := mk_net 10 0 0 10 0.
Definition dev : list Z := str "dpdk0".
Definition arps : list (net * list Z) := [(lan, [232; 97; 31; 52; 166; 121]); (mk_net 10 0 0 1 32, [2; 0; 0; 0; 0; 255])].
Definition routes : list (net * list Z) := [(lan, dev); (gw, dev)].
(** The files as text. *)
Example arp_text : take 48 (arp_file arps) = str "ARP_ENTRY 2" ++ [10] ++ str "192.168.93.100/16 E8:61:1F:34:A6:79" ++ [10].
Proof. reflexivity. Qed.
Example route_text : route_file routes = str "ROUTES 2" ++ [10] ++ str "192.168.93.100/16 dpdk0" ++ [10] ++ str "10.0.0.10/0 dpdk0" ++ [10].
Proof. reflexivity. Qed.

Lemma arps_ok : Forall arp_text_ok arps.
Proof. repeat constructor; simpl; done || lia. Qed.
Lemma routes_text_ok : Forall route_text_ok routes.
Proof. repeat constructor; simpl; done || lia. Qed.
Lemma arp_file_read_back_witness : ∃ c', LoadARPTable (Some (arp_file arps)) CONFIG0 = Some (0, c') ∧ arp_entries c' = arp_of <$> arps.
Proof. apply (arp_file_read_back arps CONFIG0); [exact arps_ok|simpl; lia|done]. Defined.
Lemma route_file_read_back_witness : ∃ c', SetRoutingTableFromFile (Some (route_file routes)) CONFIG0 = Some (0, c')
  ∧ rtable c' = route_of CONFIG0 <$> routes ∧ gateway c' = Some (route_of CONFIG0 (gw, dev)).
Proof.
  destruct (route_file_read_back routes CONFIG0) as (c'&E&Hr&Hg&_); [exact routes_text_ok|done|simpl; lia|done|done|done|]. exists c'. exact (conj E (conj Hr Hg)).
Defined.
End TextDemo.
