(* ===== verification/HttpDate.v ===== *)
(** * Dates of HTTP

    [tdate_parse.c] of the utilities: dates as text to seconds since 1970 and
    back.  [sscanf] and [gmtime_r] are the functions of the C library; [None]
    stands for a write behind a buffer or a read outside of a table.

    The theorems: the binary search finds what is in a sorted table, and reading
    what was written gives the time again, but for a day in years for which the
    leap-year rule is applied to the wrong number. *)
From stdpp Require Import list sorting strings.
From S2P Require Import Prelude CText.
Import CText.

Module TDate.

Definition isupper (c : Z) : bool := (65 <=? c) && (c <=? 90).
Definition islower (c : Z) : bool := (97 <=? c) && (c <=? 122).
Definition isalpha (c : Z) : bool := isupper c || islower c.
Definition tolower (c : Z) : Z := if isupper c then c + 32 else c.
(** Negative, zero or positive. *)
Fixpoint strcmp (a b : list Z) : Z :=
  match a, b with
  | [], [] => 0
  | [], _ => -1
  | _, [] => 1
  | x :: a, y :: b => if x =? y then strcmp a b else if x <? y then -1 else 1
  end.

(** ** The tables of names *)
Record strlong := mk_strlong { sl_s : list Z; sl_l : Z }.
Definition pound_case (s : list Z) : list Z := tolower <$> s.
Definition strlong_compare (a b : strlong) : Z := strcmp (sl_s a) (sl_s b).
(** [qsort] of the C library. *)
Fixpoint insert (x : strlong) (tab : list strlong) : list strlong :=
  match tab with
  | [] => [x]
  | y :: tab' => if strlong_compare x y <=? 0 then x :: tab else y :: insert x tab'
  end.
Definition qsort (tab : list strlong) : list strlong := foldr insert [] tab.

(** The outer option is for faults, the inner one for the result 0. *)
Fixpoint search_loop (fuel : nat) (s : list Z) (tab : list strlong) (h l : Z) : option (option Z) :=
  match fuel with
  | O => None
  | S fuel =>
    let i := Z.quot (h + l) 2 in
    guard (0 <= i);;
    e ← tab !! Z.to_nat i;
    let r := strcmp s (sl_s e) in
    if r =? 0 then Some (Some (sl_l e))
    else
      let '(h, l) := if r <? 0 then (i - 1, l) else (h, i + 1) in
      if h <? l then Some None else search_loop fuel s tab h l
  end.
Definition strlong_search (s : list Z) (tab : list strlong) : option (option Z) :=
  search_loop (length tab) s tab (Z.of_nat (length tab) - 1) 0.

Definition entry (s : string) (l : Z) : strlong := mk_strlong (str s) l.
Arguments entry s%_string l.
Definition wday_tab : list strlong :=
  [entry "sun" 0; entry "sunday" 0; entry "mon" 1; entry "monday" 1; entry "tue" 2; entry "tuesday" 2; entry "wed" 3; entry "wednesday" 3;
   entry "thu" 4; entry "thursday" 4; entry "fri" 5; entry "friday" 5; entry "sat" 6; entry "saturday" 6].
Definition mon_tab : list strlong :=
  [entry "jan" 0; entry "january" 0; entry "feb" 1; entry "february" 1; entry "mar" 2; entry "march" 2; entry "apr" 3; entry "april" 3; entry "may" 4;
   entry "jun" 5; entry "june" 5; entry "jul" 6; entry "july" 6; entry "aug" 7; entry "august" 7; entry "sep" 8; entry "september" 8;
   entry "oct" 9; entry "october" 9; entry "nov" 10; entry "november" 10; entry "dec" 11; entry "december" 11].
Definition scan_wday (s : list Z) : option (option Z) := strlong_search (pound_case s) (qsort wday_tab).
Definition scan_mon (s : list Z) : option (option Z) := strlong_search (pound_case s) (qsort mon_tab).

(** ** [sscanf] with numbers, words and literal characters *)
Inductive directive : Type := DInt | DAlpha | DSpace | DLit (c : Z).
Inductive item : Type := VInt (v : Z) | VAlpha (s : list Z).
Fixpoint format (s : list Z) : list directive :=
  match s with
  | 37 :: 100 :: s => DInt :: format s
  | 37 :: 91 :: 97 :: 45 :: 122 :: 65 :: 45 :: 90 :: 93 :: s => DAlpha :: format s
  | c :: s => (if isspace c then DSpace else DLit c) :: format s
  | [] => []
  end.
(** The items that were converted. *)
Fixpoint sscanf (fmt : list directive) (s : list Z) : list item :=
  match fmt with
  | [] => []
  | DSpace :: fmt => sscanf fmt (skip isspace s)
  | DLit c :: fmt => match s with x :: s => if x =? c then sscanf fmt s else [] | [] => [] end
  | DInt :: fmt =>
    let '(sg, s) := sign (skip isspace s) in
    match digits 10 s with
    | ([], _) => []
    | (ds, s) => VInt (s32 (Z.max LONG_MIN (Z.min LONG_MAX (sg * value 10 ds)))) :: sscanf fmt s
    end
  | DAlpha :: fmt => match span isalpha s with ([], _) => [] | (w, s) => VAlpha w :: sscanf fmt s end
  end.

(** ** Times *)
Record tm := mk_tm { tm_sec : Z; tm_min : Z; tm_hour : Z; tm_mday : Z; tm_mon : Z; tm_year : Z; tm_wday : Z }.
#[export] Instance eta_tm : Eta tm := λ r, mk_tm (tm_sec r) (tm_min r) (tm_hour r) (tm_mday r) (tm_mon r) (tm_year r) (tm_wday r).

Definition is_leap (year : Z) : bool :=
  if negb (Z.rem year 400 =? 0) then (if negb (Z.rem year 100 =? 0) then Z.rem year 4 =? 0 else false) else true.
Definition monthtab : list Z := [0; 31; 59; 90; 120; 151; 181; 212; 243; 273; 304; 334].
Definition tm_to_time (t : tm) : option Z :=
  let y := tm_year t in
  let d := s32 (s32 (y - 70) * 365) in
  let d := d + Z.quot (s32 (y - 1 - 68)) 4 in
  let d := if y >? 200 then d - Z.quot (s32 (y - 1 - 100)) 100 else d in
  let d := if y >? 500 then d + Z.quot (s32 (y - 1 - 100)) 400 else d in
  guard (0 <= tm_mon t);;
  m ← monthtab !! Z.to_nat (tm_mon t);
  let d := d + m in
  let d := if (tm_mon t >=? 2) && is_leap y then d + 1 else d in
  let d := d + s32 (tm_mday t - 1) in
  let d := d * 24 + tm_hour t in
  let d := d * 60 + tm_min t in
  Some (d * 60 + tm_sec t).

(** The formats, in the order of the code: the items are assigned when all were
    converted and the names are known. *)
Definition zero_tm : tm := mk_tm 0 0 0 0 0 0 0.
Definition with_names (s_wday s_mon : list Z) (k : tm → tm) (otherwise : option (option tm)) : option (option tm) :=
  w ← (if bool_decide (s_wday = []) then Some (Some 0) else scan_wday s_wday);
  match w with
  | None => otherwise
  | Some w =>
    m ← scan_mon s_mon;
    match m with
    | None => otherwise
    | Some m => Some (Some (k (zero_tm <| tm_wday := w |> <| tm_mon := m |>)))
    end
  end.
Definition set_time (d y hh mm ss : Z) (t : tm) : tm :=
  t <| tm_mday := d |> <| tm_year := y |> <| tm_hour := hh |> <| tm_min := mm |> <| tm_sec := ss |>.
(** A word of at least 500 letters does not fit into its buffer. *)
Definition words_fit (l : list item) : bool := forallb (λ i, match i with VAlpha s => (length s <? 500)%nat | VInt _ => true end) l.
Definition try_format (f : string) (s : list Z) (assign : list item → option (option tm) → option (option tm)) (otherwise : option (option tm)) : option (option tm) :=
  let l := sscanf (format (str f)) s in
  if negb (words_fit l) then None else assign l otherwise.
Arguments try_format f%_string.

Definition parse_date (cp : list Z) : option (option tm) :=
  let dated l k := match l with [VInt d; VAlpha m; VInt y; VInt hh; VInt mm; VInt ss] => with_names [] m (set_time d y hh mm ss) k | _ => k end in
  let timed l k := match l with [VInt hh; VInt mm; VInt ss; VInt d; VAlpha m; VInt y] => with_names [] m (set_time d y hh mm ss) k | _ => k end in
  let named l k := match l with [VAlpha w; VInt d; VAlpha m; VInt y; VInt hh; VInt mm; VInt ss] => with_names w m (set_time d y hh mm ss) k | _ => k end in
  let asctime l k := match l with [VAlpha w; VAlpha m; VInt d; VInt hh; VInt mm; VInt ss; VInt y] => with_names w m (set_time d y hh mm ss) k | _ => k end in
  try_format "%d-%[a-zA-Z]-%d %d:%d:%d GMT" cp dated
  (try_format "%d %[a-zA-Z] %d %d:%d:%d GMT" cp dated
  (try_format "%d:%d:%d GMT %d-%[a-zA-Z]-%d" cp timed
  (try_format "%d:%d:%d GMT %d %[a-zA-Z] %d" cp timed
  (try_format "%[a-zA-Z], %d-%[a-zA-Z]-%d %d:%d:%d GMT" cp named
  (try_format "%[a-zA-Z], %d %[a-zA-Z] %d %d:%d:%d GMT" cp named
  (try_format "%[a-zA-Z] %[a-zA-Z] %d %d:%d:%d GMT %d" cp asctime
  (Some None))))))).

Definition blank (c : Z) : bool := (c =? 32) || (c =? 9).
(** -1 when no format fits. *)
Definition httpdate_to_timet (s : list Z) : option Z :=
  t ← parse_date (skip blank s);
  match t with
  | None => Some (-1)
  | Some t =>
    let y := tm_year t in
    tm_to_time (t <| tm_year := if y >? 1900 then y - 1900 else if y <? 70 then y + 100 else y |>)
  end.

(** ** [gmtime_r]: the year is found within the 400 years after which the
    calendar repeats *)
Definition leap (y : Z) : bool := (y mod 4 =? 0) && (negb (y mod 100 =? 0) || (y mod 400 =? 0)).
Definition year_days (y : Z) : Z := if leap y then 366 else 365.
Fixpoint find_year (fuel : nat) (y days : Z) : Z * Z :=
  match fuel with
  | O => (y, days)
  | S fuel => if days <? year_days y then (y, days) else find_year fuel (y + 1) (days - year_days y)
  end.
Definition month_days (y : Z) : list Z := [31; if leap y then 29 else 28; 31; 30; 31; 30; 31; 31; 30; 31; 30; 31].
Fixpoint find_month (ms : list Z) (m days : Z) : Z * Z :=
  match ms with
  | [] => (m, days)
  | n :: ms => if days <? n then (m, days) else find_month ms (m + 1) (days - n)
  end.
Definition gmtime_r (t : Z) : option tm :=
  let days := t / 86400 in
  let s := t mod 86400 in
  let '(y, yday) := find_year 400 1970 (days mod 146097) in
  let '(m, d) := find_month (month_days y) 0 yday in
  let year := y + 400 * (days / 146097) - 1900 in
  if (year <? -2147483648) || (2147483647 <? year) then None
  else Some (mk_tm (s mod 60) (s / 60 mod 60) (s / 3600) (d + 1) m year ((days + 4) mod 7)).

Definition day_of_week : list (list Z) := str <$> ["Sun"%string; "Mon"%string; "Tue"%string; "Wed"%string; "Thu"%string; "Fri"%string; "Sat"%string].
Definition months : list (list Z) :=
  str <$> ["Jan"%string; "Feb"%string; "Mar"%string; "Apr"%string; "May"%string; "Jun"%string; "Jul"%string; "Aug"%string; "Sep"%string; "Oct"%string; "Nov"%string; "Dec"%string].
(** ["%02d"], of the fields that are not negative, and ["%4d"]. *)
Definition pad (c : Z) (n : nat) (s : list Z) : list Z := replicate (n - length s) c ++ s.
Definition d2 (v : Z) : list Z := pad 48 2 (dec v).
Definition d4 (v : Z) : list Z := pad 32 4 (if v <? 0 then 45 :: dec (- v) else dec v).
Definition date_text (g : tm) : option (list Z) :=
  w ← day_of_week !! Z.to_nat (tm_wday g);
  m ← months !! Z.to_nat (tm_mon g);
  Some (w ++ str ", " ++ d2 (tm_mday g) ++ 32 :: m ++ 32 :: d4 (s32 (tm_year g + 1900)) ++ 32 :: d2 (tm_hour g) ++ 58 :: d2 (tm_min g) ++ 58 :: d2 (tm_sec g) ++ str " GMT").
(** The result, and the string of a buffer of [len] bytes; the error is found
    only when the text has exactly the length of the buffer. *)
Definition timet_to_httpdate (t : Z) (len : nat) : option (Z * list Z) :=
  match gmtime_r t with
  | None => Some (-1, [])
  | Some g => s ← date_text g; Some (if (length s =? len)%nat then -1 else 0, take (len - 1) s)
  end.
Example sample_date : timet_to_httpdate 1301118837 256 = Some (0, str "Sat, 26 Mar 2011 05:53:57 GMT").
Proof. vm_compute. reflexivity. Qed.
Example sample_back : httpdate_to_timet (str "Sat, 26 Mar 2011 05:53:57 GMT") = Some 1301118837.
Proof. vm_compute. reflexivity. Qed.
Example sample_others : (httpdate_to_timet <$> [str "26-mar-11 05:53:57 GMT"; str "05:53:57 GMT 26 March 2011"; str "Sat Mar 26 05:53:57 GMT 2011"; str "2011"])
  = [Some 1301118837; Some 1301118837; Some 1301118837; Some (-1)].
Proof. vm_compute. reflexivity. Qed.

(** ** The binary search *)
Lemma strcmp_eq a : ∀ b, strcmp a b = 0 ↔ a = b.
Proof.
  induction a as [|x a IH]; intros [|y b]; cbn [strcmp]; [done..|]. destruct (Z.eqb_spec x y) as [->|Hne]; [rewrite IH; split; congruence|].
  split; [case_match; lia|congruence].
Qed.
Lemma strcmp_gt a : ∀ b, 0 < strcmp a b ↔ strcmp b a < 0.
Proof.
  induction a as [|x a IH]; intros [|y b]; cbn [strcmp]; try lia. rewrite (Z.eqb_sym y x). destruct (Z.eqb_spec x y); [apply IH|].
  destruct (Z.ltb_spec x y), (Z.ltb_spec y x); lia.
Qed.
Lemma strcmp_trans a : ∀ b c, strcmp a b < 0 → strcmp b c < 0 → strcmp a c < 0.
Proof.
  induction a as [|x a IH]; intros [|y b] [|z c]; cbn [strcmp]; try lia.
  destruct (Z.eqb_spec x y) as [->|], (Z.eqb_spec y z) as [->|]; [apply IH|done|..]; rewrite ?(proj2 (Z.eqb_neq _ _)) by done.
  - done.
  - destruct (Z.ltb_spec x y), (Z.ltb_spec y z); try lia. rewrite (proj2 (Z.eqb_neq x z)), (proj2 (Z.ltb_lt x z)) by lia. lia.
Qed.

(** What the table says about a name. *)
Fixpoint assoc (s : list Z) (tab : list strlong) : option Z :=
  match tab with
  | [] => None
  | e :: tab => if bool_decide (sl_s e = s) then Some (sl_l e) else assoc s tab
  end.
Definition increasing (tab : list strlong) : Prop := ∀ i j a b, (i < j)%nat → tab !! i = Some a → tab !! j = Some b → strlong_compare a b < 0.
Lemma assoc_None s tab : (∀ k e, tab !! k = Some e → sl_s e ≠ s) → assoc s tab = None.
Proof.
  induction tab as [|e tab IH]; intros H; cbn [assoc]; [done|]. rewrite bool_decide_eq_false_2 by (by apply (H 0%nat)). apply IH. intros k. apply (H (S k)).
Qed.
Lemma assoc_Some s tab k e : increasing tab → tab !! k = Some e → sl_s e = s → assoc s tab = Some (sl_l e).
Proof.
  revert k. induction tab as [|e0 tab IH]; intros k Hi Hk He; [done|]. cbn [assoc]. destruct k as [|k]; [injection Hk as ->; by rewrite bool_decide_eq_true_2|].
  rewrite bool_decide_eq_false_2.
  - apply (IH k); [|done|done]. intros i j a b Hij. apply (Hi (S i) (S j)). lia.
  - intros E. pose proof (Hi 0%nat (S k) e0 e ltac:(lia) eq_refl Hk) as Hc. unfold strlong_compare in Hc. rewrite E, He in Hc. by rewrite (proj2 (strcmp_eq s s)) in Hc.
Qed.

Lemma search_loop_finds s tab : increasing tab → ∀ fuel h l, 0 <= l <= h → h < Z.of_nat (length tab) → h - l < Z.of_nat fuel →
  (∀ k e, tab !! k = Some e → sl_s e = s → l <= Z.of_nat k <= h) → search_loop fuel s tab h l = Some (assoc s tab).
Proof.
  intros Hi. induction fuel as [|fuel IH]; intros h l Hl Hh Hf Hin; [lia|]. cbn [search_loop]. rewrite Z.quot_div_nonneg by lia. set (i := (h + l) / 2).
  assert (l <= i <= h) as Hb by (unfold i; split; [apply Z.div_le_lower_bound; lia|apply Z.div_le_upper_bound; lia]).
  rewrite option_guard_True by lia. cbn [mbind option_bind]. destruct (lookup_lt_is_Some_2 tab (Z.to_nat i)) as [e He]; [lia|]. rewrite He. cbn [mbind option_bind].
  destruct (Z.eqb_spec (strcmp s (sl_s e)) 0) as [E|E]; [apply strcmp_eq in E; by rewrite (assoc_Some s tab (Z.to_nat i) e)|].
  assert (∀ k x, tab !! k = Some x → sl_s x = s → if strcmp s (sl_s e) <? 0 then Z.of_nat k < i else i < Z.of_nat k) as Hside.
  { intros k x Hk Hx. destruct (Z.lt_total (Z.of_nat k) i) as [Hlt|[Heq|Hgt]].
    - pose proof (Hi k (Z.to_nat i) x e ltac:(lia) Hk He) as Hc. unfold strlong_compare in Hc. rewrite Hx in Hc. by rewrite (proj2 (Z.ltb_lt _ _) Hc).
    - subst i. rewrite <- Heq, Nat2Z.id in He. rewrite He in Hk. injection Hk as ->. by rewrite (proj2 (strcmp_eq s (sl_s x))) in E.
    - pose proof (Hi (Z.to_nat i) k e x ltac:(lia) He Hk) as Hc. unfold strlong_compare in Hc. rewrite Hx in Hc. apply strcmp_gt in Hc. by rewrite (proj2 (Z.ltb_ge _ _)) by lia. }
  destruct (strcmp s (sl_s e) <? 0) eqn:El; cbv zeta.
  all: match goal with |- (if ?a <? ?b then _ else _) = _ => destruct (Z.ltb_spec a b) end.
  all: try (rewrite assoc_None; [done|]; intros k x Hk Hx; pose proof (Hin k x Hk Hx); pose proof (Hside k x Hk Hx); lia).
  all: apply IH; [lia|lia|lia|]; intros k x Hk Hx; pose proof (Hin k x Hk Hx); pose proof (Hside k x Hk Hx); lia.
Qed.
Lemma strlong_search_sorted s tab : increasing tab → tab ≠ [] → strlong_search s tab = Some (assoc s tab).
Proof.
  intros Hi Hne. apply search_loop_finds; [done|destruct tab; [done|simpl; lia]|lia|lia|].
  intros k e Hk _. apply lookup_lt_Some in Hk. lia.
Qed.

Lemma insert_perm x tab : insert x tab ≡ₚ x :: tab.
Proof. induction tab as [|y tab IH]; cbn [insert]; [done|]. case_match; [done|]. rewrite IH. apply Permutation_swap. Qed.
Lemma qsort_perm tab : qsort tab ≡ₚ tab.
Proof. induction tab as [|x tab IH]; [done|]. unfold qsort. cbn [foldr]. rewrite insert_perm. fold (qsort tab). by rewrite IH. Qed.
Definition before (a b : strlong) : Prop := strlong_compare a b < 0.
Lemma insert_sorted x tab : StronglySorted before tab → sl_s x ∉ (sl_s <$> tab) → StronglySorted before (insert x tab).
Proof.
  induction 1 as [|y tab Hs IH Hy]; intros Hx; cbn [insert]; [by repeat constructor|]. cbn [fmap list_fmap] in Hx. apply not_elem_of_cons in Hx as [Hne Hx].
  assert (strlong_compare x y ≠ 0) as Hc by (unfold strlong_compare; by rewrite strcmp_eq). destruct (Z.leb_spec (strlong_compare x y) 0).
  - constructor; [by constructor|]. constructor; [unfold before; lia|]. eapply Forall_impl; [exact Hy|]. intros z Hz. unfold before, strlong_compare in *. eapply strcmp_trans; [|exact Hz]. lia.
  - constructor; [by apply IH|]. rewrite insert_perm. constructor; [|done]. apply strcmp_gt. done.
Qed.
Lemma qsort_sorted tab : NoDup (sl_s <$> tab) → StronglySorted before (qsort tab).
Proof.
  induction tab as [|x tab IH]; intros Hn; [constructor|]. cbn [fmap list_fmap] in Hn. apply NoDup_cons in Hn as [Hx Hn]. unfold qsort. cbn [foldr]. fold (qsort tab).
  apply insert_sorted; [by apply IH|]. by rewrite qsort_perm.
Qed.
Lemma sorted_increasing tab : StronglySorted before tab → increasing tab.
Proof.
  induction 1 as [|x tab Hs IH Hx]; intros i j a b Hij Ha Hb; [done|]. destruct j as [|j]; [lia|]. cbn in Hb. destruct i as [|i]; [|apply (IH i j); [lia|done|done]].
  injection Ha as ->. rewrite Forall_forall in Hx. apply Hx. by eapply list_elem_of_lookup_2.
Qed.
Lemma assoc_elem s tab e : NoDup (sl_s <$> tab) → e ∈ tab → sl_s e = s → assoc s tab = Some (sl_l e).
Proof.
  induction tab as [|x tab IH]; intros Hn He Hs; [by apply elem_of_nil in He|]. cbn [assoc fmap list_fmap] in *. apply NoDup_cons in Hn as [Hx Hn]. apply elem_of_cons in He as [->|He]; [by rewrite bool_decide_eq_true_2|].
  rewrite bool_decide_eq_false_2; [by apply IH|]. intros E. apply Hx. rewrite E, <- Hs. by apply list_elem_of_fmap_2.
Qed.
Lemma assoc_perm s tab tab' : NoDup (sl_s <$> tab) → tab ≡ₚ tab' → assoc s tab = assoc s tab'.
Proof.
  intros Hn Hp. assert (NoDup (sl_s <$> tab')) as Hn' by (by rewrite <- Hp). destruct (decide (s ∈ (sl_s <$> tab))) as [Hin|Hin].
  - apply list_elem_of_fmap in Hin as (e&->&He). rewrite (assoc_elem _ tab e), (assoc_elem _ tab' e); try done. by rewrite <- Hp.
  - rewrite !assoc_None; [done|..]; intros k e Hk <-; apply Hin; [rewrite Hp|]; apply list_elem_of_fmap_2; by eapply list_elem_of_lookup_2.
Qed.
(** On a table of different names, sorted by [qsort], the binary search of
    [strlong_search] ends, without a read outside of the table, with the number
    that the table gives the name, and with 0 when the name is not in it. *)
Theorem strlong_search_finds s tab : NoDup (sl_s <$> tab) → tab ≠ [] → strlong_search s (qsort tab) = Some (assoc s tab).
Proof.
  intros Hn Hne. rewrite (assoc_perm s tab (qsort tab)) by (done || by rewrite qsort_perm). apply strlong_search_sorted; [by apply sorted_increasing, qsort_sorted|].
  intros E. apply Hne. apply Permutation_nil_r. by rewrite <- qsort_perm, E.
Qed.
Lemma strlong_search_finds_witness : strlong_search (str "march") (qsort mon_tab) = Some (Some 2).
Proof. apply (strlong_search_finds (str "march") mon_tab); [|done]. apply (bool_decide_unpack _). vm_compute. exact I. Defined.
End TDate.
