(* ===== verification/HttpTime.v ===== *)
(** * Dates of HTTP: reading back what was written

    The calendar of [gmtime_r] against the count of days in [tm_to_time], the
    text of a date against the formats of [httpdate_to_timet]. *)
From stdpp Require Import list strings.
From S2P Require Import Prelude CText HttpDate.
Import CText TDate.

(** ** The calendar *)

(** The days from 1970 to the start of a year. *)
Definition days_to (y : Z) : Z := 365 * (y - 1970) + (y - 1969) / 4 - (y - 1901) / 100 + (y - 1601) / 400.
Lemma div_step y k n : 0 < n → (y + 1 - k) / n = (y - k) / n + (if (y + 1 - k) mod n =? 0 then 1 else 0).
Proof. intros Hn. destruct (Z.eqb_spec ((y + 1 - k) mod n) 0); Z.div_mod_to_equations; nia. Qed.
Lemma leap_sum y : (if leap y then 1 else 0) = (if y mod 4 =? 0 then 1 else 0) - (if y mod 100 =? 0 then 1 else 0) + (if y mod 400 =? 0 then 1 else 0).
Proof.
  unfold leap. destruct (Z.eqb_spec (y mod 4) 0), (Z.eqb_spec (y mod 100) 0), (Z.eqb_spec (y mod 400) 0); cbn [andb orb negb]; try lia; exfalso; Z.div_mod_to_equations; lia.
Qed.
Lemma mod_shift y k n : 0 < n → k mod n = 0 → (y - k) mod n = y mod n.
Proof. intros Hn Hk. by rewrite Zminus_mod, Hk, Z.sub_0_r, Zmod_mod. Qed.
Lemma days_to_succ y : days_to (y + 1) = days_to y + year_days y.
Proof.
  unfold days_to, year_days. rewrite !div_step by lia. pose proof (leap_sum y) as Hl.
  replace (y + 1 - 1969) with (y - 1968) by lia. replace (y + 1 - 1901) with (y - 1900) by lia. replace (y + 1 - 1601) with (y - 1600) by lia.
  rewrite !mod_shift by done. destruct (leap y), (y mod 4 =? 0), (y mod 100 =? 0), (y mod 400 =? 0); lia.
Qed.
Lemma days_to_cycle y k : days_to (y + 400 * k) = days_to y + 146097 * k.
Proof.
  unfold days_to. replace (y + 400 * k - 1969) with (y - 1969 + 100 * k * 4) by lia. replace (y + 400 * k - 1901) with (y - 1901 + 4 * k * 100) by lia.
  replace (y + 400 * k - 1601) with (y - 1601 + k * 400) by lia. rewrite !Z.div_add by lia. lia.
Qed.
Lemma leap_cycle y k : leap (y + 400 * k) = leap y.
Proof.
  unfold leap. replace (y + 400 * k) with (y + 100 * k * 4) at 1 by lia. replace (y + 400 * k) with (y + 4 * k * 100) at 1 by lia. replace (y + 400 * k) with (y + k * 400) at 1 by lia.
  by rewrite !Z_mod_plus_full.
Qed.

Lemma find_year_spec fuel : ∀ y days y' d, find_year fuel y days = (y', d) → 0 <= days < days_to (y + Z.of_nat fuel) - days_to y →
  y <= y' < y + Z.of_nat fuel ∧ days_to y' + d = days_to y + days ∧ 0 <= d < year_days y'.
Proof.
  induction fuel as [|fuel IH]; intros y days y' d E Hd; [replace (y + Z.of_nat 0) with y in Hd by lia; lia|]. cbn [find_year] in E.
  destruct (Z.ltb_spec days (year_days y)); [injection E as <- <-; lia|]. apply IH in E as (H1&H2&H3).
  - rewrite days_to_succ in H2. lia.
  - rewrite days_to_succ. replace (y + 1 + Z.of_nat fuel) with (y + Z.of_nat (S fuel)) by lia. lia.
Qed.

(** The days from the start of a year to the start of a month. *)
Definition days_to_month (y m : Z) : option Z := c ← monthtab !! Z.to_nat m; Some (c + if (m >=? 2) && leap y then 1 else 0).
Lemma find_month_spec y yday m d : find_month (month_days y) 0 yday = (m, d) → 0 <= yday < year_days y →
  0 <= m <= 11 ∧ 0 <= d < 31 ∧ ∃ c, days_to_month y m = Some c ∧ c + d = yday.
Proof.
  unfold year_days, month_days, days_to_month. destruct (leap y); cbn [find_month].
  all: repeat match goal with |- (if ?a <? ?b then _ else _) = _ → _ => destruct (Z.ltb_spec a b) end.
  all: intros [= <- <-] Hy; split; [lia|]; (split; [lia|]); try lia; eexists; (split; [reflexivity|]); cbn [andb]; simpl; lia.
Qed.

(** The fields of [gmtime_r] and the time they stand for. *)
Record civil (t : Z) (g : tm) : Prop := {
  c_year : 70 <= tm_year g;
  c_mon : 0 <= tm_mon g <= 11;
  c_mday : 1 <= tm_mday g <= 31;
  c_hour : 0 <= tm_hour g < 24;
  c_min : 0 <= tm_min g < 60;
  c_sec : 0 <= tm_sec g < 60;
  c_wday : 0 <= tm_wday g < 7;
  c_days : ∃ c, days_to_month (tm_year g + 1900) (tm_mon g) = Some c
           ∧ t = (((days_to (tm_year g + 1900) + c + (tm_mday g - 1)) * 24 + tm_hour g) * 60 + tm_min g) * 60 + tm_sec g
}.
Lemma gmtime_civil t g : 0 <= t → gmtime_r t = Some g → civil t g.
Proof.
  intros Ht. unfold gmtime_r. set (days := t / 86400). set (s := t mod 86400). assert (0 <= days) as Hd by (apply Z.div_pos; lia).
  assert (t = days * 86400 + s ∧ 0 <= s < 86400) as [Ets Hs] by (unfold days, s; Z.div_mod_to_equations; lia).
  destruct (find_year 400 1970 (days mod 146097)) as [y yday] eqn:Ey. apply find_year_spec in Ey as (Hy&Hyd&Hyr).
  2: { change (days_to (1970 + Z.of_nat 400) - days_to 1970) with 146097. apply Z.mod_pos_bound. lia. }
  destruct (find_month (month_days y) 0 yday) as [m d] eqn:Em. apply find_month_spec in Em as (Hm&Hdd&c&Hc&Hcd); [|done].
  case_match; [done|]. intros [= <-]. set (era := days / 146097) in *. assert (0 <= era) as He by (apply Z.div_pos; lia).
  constructor; cbn [tm_year tm_mon tm_mday tm_hour tm_min tm_sec tm_wday]; try lia; try (Z.div_mod_to_equations; lia).
  exists c. replace (y + 400 * era - 1900 + 1900) with (y + 400 * era) by lia. split; [unfold days_to_month in *; by rewrite leap_cycle|].
  rewrite days_to_cycle. change (days_to 1970) with 0 in Hyd. rewrite Ets. assert (days = era * 146097 + days mod 146097) as -> by (unfold era; Z.div_mod_to_equations; lia).
  assert (s = (s / 3600 * 60 + s / 60 mod 60) * 60 + s mod 60) as Es by (Z.div_mod_to_equations; lia). rewrite Es at 1. lia.
Qed.

(** ** [tm_to_time] *)

(** A day too few or too many: the rule for leap years is applied to the years
    since 1900. *)
Definition slip (g : tm) : Z :=
  if tm_mon g >=? 2 then (if is_leap (tm_year g) then 1 else 0) - (if leap (tm_year g + 1900) then 1 else 0) else 0.
Lemma tm_to_time_civil t g : civil t g → tm_year g < 100000 → tm_to_time g = Some (t + 86400 * slip g).
Proof.
  intros [Hy Hm Hd Hh Hmi Hs Hw (c&Hc&Et)] Hmax. unfold tm_to_time. rewrite !s32_id by (rewrite ?s32_id; lia). rewrite option_guard_True by lia. cbn [mbind option_bind].
  unfold days_to_month in Hc. destruct (monthtab !! Z.to_nat (tm_mon g)) as [c0|]; [|done]. cbn [mbind option_bind] in *. injection Hc as Hc. f_equal.
  set (y := tm_year g) in *. rewrite Z.quot_div_nonneg by lia.
  set (q := if y >? 500 then _ else _). assert (q = days_to (y + 1900)) as Hq.
  { unfold q, days_to. replace (y + 1900 - 1970) with (y - 70) by lia. replace (y + 1900 - 1969) with (y - 69) by lia. replace (y + 1900 - 1901) with (y - 1) by lia.
    replace (y + 1900 - 1601) with (y + 299) by lia. replace (y - 1 - 68) with (y - 69) by lia. replace (y - 1 - 100) with (y - 101) by lia.
    destruct (Z.gtb_spec y 200), (Z.gtb_spec y 500); rewrite ?Z.quot_div_nonneg by lia; Z.div_mod_to_equations; lia. }
  rewrite Hq, Et. unfold slip. fold y. destruct (tm_mon g >=? 2); cbn [andb] in *; [|lia]. destruct (is_leap y), (leap (y + 1900)); lia.
Qed.

(** ** The text *)
Definition starts (f : Z → bool) (s : list Z) : Prop := match s with c :: _ => f c = true | [] => False end.
Definition not_at (f : Z → bool) (s : list Z) : Prop := match s with c :: _ => f c = false | [] => True end.
(** A decimal number as the formats read it. *)
Definition reads (ds : list Z) (n : Z) : Prop := starts isdigit ds ∧ forallb isdigit ds = true ∧ value 10 ds = n ∧ 0 <= n < 2147483648.

Lemma scan_int fmt ds n r : reads ds n → not_at isdigit r → sscanf (DInt :: fmt) (ds ++ r) = VInt n :: sscanf fmt r.
Proof.
  intros (Hs&Hd&Hv&Hn) Hr. destruct ds as [|c ds]; [done|]. set (l := c :: ds) in *. simpl in Hs. destruct (isdigit_plain c Hs) as (H1&H2&H3). cbn [sscanf].
  rewrite skip_none by exact H1. replace (sign (l ++ r)) with (1, l ++ r) by (unfold l; cbn [app sign]; by rewrite H2, H3).
  unfold digits. rewrite span_app; [|by apply digits_isdigit; [lia|]|].
  - unfold l at 1. fold l. rewrite Hv, Z.mul_1_l. unfold LONG_MIN, LONG_MAX. rewrite Z.min_r, Z.max_r, s32_id by lia. done.
  - destruct r as [|x r]; [done|]. simpl in Hr. unfold digit_val. rewrite Hr. unfold isdigit in Hr. apply Z.ltb_ge. repeat case_match; lia.
Qed.
Lemma scan_int_none fmt s : starts isalpha s → sscanf (DInt :: fmt) s = [].
Proof.
  destruct s as [|c s]; [done|]. cbn [starts]. intros Hc. cbn [sscanf]. assert (isspace c = false ∧ (c =? 45) = false ∧ (c =? 43) = false ∧ (digit_val c <? 10) = false) as (H1&H2&H3&H4).
  { unfold isalpha, isupper, islower in Hc. unfold isspace, digit_val, isdigit. repeat case_match; lia. }
  rewrite skip_none by exact H1. cbn [sign]. rewrite H2, H3. unfold digits. cbn [span]. by rewrite H4.
Qed.
Lemma scan_space fmt s : not_at isspace s → sscanf (DSpace :: fmt) (32 :: s) = sscanf fmt s.
Proof. intros Hs. cbn [sscanf]. unfold skip. cbn [span]. change (isspace 32) with true. cbv iota. destruct (span isspace s) as [a b] eqn:E. pose proof (skip_none isspace s Hs) as Hk. unfold skip in Hk. rewrite E in Hk. simpl in *. by rewrite Hk. Qed.
Lemma scan_lit fmt c s : sscanf (DLit c :: fmt) (c :: s) = sscanf fmt s.
Proof. cbn [sscanf]. by rewrite Z.eqb_refl. Qed.
Lemma scan_alpha fmt w r : starts isalpha w → forallb isalpha w = true → not_at isalpha r → sscanf (DAlpha :: fmt) (w ++ r) = VAlpha w :: sscanf fmt r.
Proof. intros Hs Hw Hr. cbn [sscanf]. rewrite span_app by done. by destruct w. Qed.

Lemma starts_app f s r : starts f s → starts f (s ++ r).
Proof. by destruct s. Qed.
Lemma digit_not_space s r : starts isdigit s → not_at isspace (s ++ r).
Proof. destruct s as [|c s]; [done|]. simpl. unfold isdigit, isspace. lia. Qed.
Lemma alpha_not_space s r : starts isalpha s → not_at isspace (s ++ r).
Proof. destruct s as [|c s]; [done|]. simpl. unfold isalpha, isupper, islower, isspace. lia. Qed.

Definition reads_check (ds : list Z) (n : Z) : bool :=
  match ds with c :: _ => isdigit c | [] => false end && forallb isdigit ds && (value 10 ds =? n).
Lemma reads_checked ds n : reads_check ds n = true → 0 <= n < 2147483648 → reads ds n.
Proof.
  unfold reads_check. intros Hc Hn. apply andb_true_iff in Hc as [[H1 H2]%andb_true_iff H3]. split_and!; [by destruct ds|done|by apply Z.eqb_eq|lia|lia].
Qed.
Lemma d2_reads n : 0 <= n < 100 → reads (d2 n) n.
Proof.
  intros Hn. assert (forallb (λ n, reads_check (d2 n) n) (seqZ 0 100) = true) as Hc by (vm_compute; reflexivity). apply reads_checked; [by apply (check_range _ _ Hc)|lia].
Qed.
Lemma d4_reads n : 1000 <= n < 10000 → reads (d4 n) n.
Proof.
  intros Hn. assert (forallb (λ n, (n <? 1000) || reads_check (d4 n) n) (seqZ 0 10000) = true) as Hc by (vm_compute; reflexivity).
  apply reads_checked; [|lia]. pose proof (check_range _ _ Hc n ltac:(lia)) as H. apply orb_true_iff in H as [H|H]; [apply Z.ltb_lt in H; lia|done].
Qed.

(** The names. *)
Definition name_check (scan : list Z → option (option Z)) (names : list (list Z)) (k : Z) : bool :=
  match names !! Z.to_nat k with
  | Some w => bool_decide (scan w = Some (Some k)) && match w with c :: _ => isalpha c | [] => false end && forallb isalpha w && (length w =? 3)%nat
  | None => false
  end.
Lemma name_checked scan names k n : forallb (name_check scan names) (seqZ 0 n) = true → 0 <= k < n →
  ∃ w, names !! Z.to_nat k = Some w ∧ scan w = Some (Some k) ∧ starts isalpha w ∧ forallb isalpha w = true ∧ length w = 3%nat.
Proof.
  intros Hc Hk. pose proof (check_range _ _ Hc k Hk) as H. unfold name_check in H. destruct (names !! Z.to_nat k) as [w|]; [|done]. exists w.
  apply andb_true_iff in H as [[[H1 H2]%andb_true_iff H3]%andb_true_iff H4]. split_and!; [done|by apply bool_decide_eq_true_1 in H1|by destruct w|done|by apply Nat.eqb_eq].
Qed.

(** The text of a date in the sixth format. *)
Definition fmt6 : list directive :=
  [DAlpha; DLit 44; DSpace; DInt; DSpace; DAlpha; DSpace; DInt; DSpace; DInt; DLit 58; DInt; DLit 58; DInt; DSpace; DLit 71; DLit 77; DLit 84].
Lemma fmt6_eq : format (str "%[a-zA-Z], %d %[a-zA-Z] %d %d:%d:%d GMT") = fmt6.
Proof. vm_compute. reflexivity. Qed.
Lemma fmt5_eq : format (str "%[a-zA-Z], %d-%[a-zA-Z]-%d %d:%d:%d GMT")
  = DAlpha :: DLit 44 :: DSpace :: DInt :: DLit 45 :: [DAlpha; DLit 45; DInt; DSpace; DInt; DLit 58; DInt; DLit 58; DInt; DSpace; DLit 71; DLit 77; DLit 84].
Proof. vm_compute. reflexivity. Qed.
Section Text.
Context (w m dd yy hh mi ss : list Z) (d y h mn s : Z).
Hypotheses (Hw : starts isalpha w) (Hwa : forallb isalpha w = true) (Hm : starts isalpha m) (Hma : forallb isalpha m = true).
Hypotheses (Hdd : reads dd d) (Hyy : reads yy y) (Hhh : reads hh h) (Hmi : reads mi mn) (Hss : reads ss s).
Let text := w ++ str ", " ++ dd ++ 32 :: m ++ 32 :: yy ++ 32 :: hh ++ 58 :: mi ++ 58 :: ss ++ str " GMT".
Lemma text_scan6 : sscanf fmt6 text = [VAlpha w; VInt d; VAlpha m; VInt y; VInt h; VInt mn; VInt s].
Proof.
  unfold fmt6, text. change (str ", ") with [44; 32]. change (str " GMT") with [32; 71; 77; 84]. rewrite scan_alpha by done. f_equal. cbn [app].
  rewrite scan_lit, scan_space by (by apply digit_not_space, Hdd). rewrite (scan_int _ dd d) by done. f_equal. rewrite scan_space by (by apply alpha_not_space). rewrite scan_alpha by done. f_equal.
  rewrite scan_space by (by apply digit_not_space, Hyy). rewrite (scan_int _ yy y) by done. f_equal. rewrite scan_space by (by apply digit_not_space, Hhh). rewrite (scan_int _ hh h) by done. f_equal.
  rewrite scan_lit, (scan_int _ mi mn) by done. f_equal. rewrite scan_lit, (scan_int _ ss s) by done. done.
Qed.
Lemma text_scan5 fmt : sscanf (DAlpha :: DLit 44 :: DSpace :: DInt :: DLit 45 :: fmt) text = [VAlpha w; VInt d].
Proof.
  unfold text. change (str ", ") with [44; 32]. rewrite scan_alpha by done. f_equal. cbn [app]. rewrite scan_lit, scan_space by (by apply digit_not_space, Hdd).
  rewrite (scan_int _ dd d) by done. done.
Qed.
Lemma text_parsed k j : scan_wday w = Some (Some k) → scan_mon m = Some (Some j) → length w = 3%nat → length m = 3%nat →
  parse_date text = Some (Some (mk_tm s mn h d j y k)).
Proof.
  intros Ew Em Lw Lm. assert (starts isalpha text) as Ht by (by apply starts_app). unfold parse_date.
  assert (∀ f assign k, (∃ fmt, format (str f) = DInt :: fmt) → assign [] k = k → try_format f text assign k = k) as Hskip.
  { intros f assign k0 [fmt Ef] Ha. unfold try_format. rewrite Ef, scan_int_none by done. done. }
  do 4 (rewrite Hskip; [|eexists; vm_compute; reflexivity|reflexivity]). unfold try_format at 1. rewrite fmt5_eq, text_scan5. unfold words_fit at 1. cbn [forallb]. rewrite Lw.
  cbn [Nat.ltb Nat.leb andb negb]. unfold try_format at 1. rewrite fmt6_eq, text_scan6. unfold words_fit at 1. cbn [forallb]. rewrite Lw, Lm. cbn [Nat.ltb Nat.leb andb negb]. unfold with_names. rewrite bool_decide_eq_false_2 by (by intros ->).
  rewrite Ew, Em. done.
Qed.
End Text.

Lemma d2_length n : 0 <= n < 100 → length (d2 n) = 2%nat.
Proof.
  intros Hn. assert (forallb (λ n, (length (d2 n) =? 2)%nat) (seqZ 0 100) = true) as Hc by (vm_compute; reflexivity). by apply (check_range _ _ Hc), Nat.eqb_eq in Hn.
Qed.
Lemma d4_length n : 1000 <= n < 10000 → length (d4 n) = 4%nat.
Proof.
  intros Hn. assert (forallb (λ n, (n <? 1000) || (length (d4 n) =? 4)%nat) (seqZ 0 10000) = true) as Hc by (vm_compute; reflexivity).
  pose proof (check_range _ _ Hc n ltac:(lia)) as H. apply orb_true_iff in H as [H|H]; [apply Z.ltb_lt in H; lia|by apply Nat.eqb_eq].
Qed.
Lemma wday_names : forallb (name_check scan_wday day_of_week) (seqZ 0 7) = true.
Proof. vm_compute. reflexivity. Qed.
Lemma month_names : forallb (name_check scan_mon months) (seqZ 0 12) = true.
Proof. vm_compute. reflexivity. Qed.

Lemma dates_read g t : civil t g → tm_year g < 8100 → ∃ text, date_text g = Some text ∧ length text = 29%nat
  ∧ httpdate_to_timet text = tm_to_time g.
Proof.
  intros [Hy Hm Hd Hh Hmi Hs Hw _] Hmax. destruct (name_checked _ _ (tm_wday g) 7 wday_names Hw) as (w&Ew&Sw&Aw&Fw&Lw).
  destruct (name_checked _ _ (tm_mon g) 12 month_names ltac:(lia)) as (m&Em&Sm&Am&Fm&Lm).
  unfold date_text. rewrite Ew, Em, s32_id by lia. cbn [mbind option_bind]. eexists. split; [reflexivity|]. split.
  { repeat (rewrite length_app; cbn [length]). rewrite Lw, Lm, d4_length, !d2_length by lia. done. }
  unfold httpdate_to_timet. rewrite skip_none.
  2: { destruct w as [|c w]; [done|]. simpl in Aw |- *. unfold isalpha, isupper, islower in Aw. unfold blank. lia. }
  rewrite (text_parsed w m (d2 (tm_mday g)) (d4 (tm_year g + 1900)) (d2 (tm_hour g)) (d2 (tm_min g)) (d2 (tm_sec g)) (tm_mday g) (tm_year g + 1900) (tm_hour g) (tm_min g) (tm_sec g)
             Aw Fw Am Fm (d2_reads (tm_mday g) ltac:(lia)) (d4_reads (tm_year g + 1900) ltac:(lia)) (d2_reads (tm_hour g) ltac:(lia)) (d2_reads (tm_min g) ltac:(lia)) (d2_reads (tm_sec g) ltac:(lia)) _ _ Sw Sm Lw Lm).
  cbn [mbind option_bind tm_year]. rewrite Z.gtb_ltb, (proj2 (Z.ltb_lt _ _)) by lia. f_equal. rewrite Z.add_simpl_r. by destruct g.
Qed.

Lemma year_bound t g : civil t g → t < 253402300800 → tm_year g < 8100.
Proof.
  intros [Hy Hm Hd Hh Hmi Hs Hw (c&Hc&Et)] Ht. destruct (Z.lt_ge_cases (tm_year g) 8100) as [|Hge]; [done|]. exfalso.
  assert (2932897 <= days_to (tm_year g + 1900)) by (unfold days_to; Z.div_mod_to_equations; lia).
  assert (0 <= c).
  { unfold days_to_month in Hc. destruct (monthtab !! Z.to_nat (tm_mon g)) as [c0|] eqn:E; [|done]. cbn [mbind option_bind] in Hc. injection Hc as <-.
    assert (Forall (λ x, 0 <= x) monthtab) as Hall by (repeat constructor; lia). rewrite Forall_lookup in Hall. pose proof (Hall _ _ E). case_match; lia. }
  lia.
Qed.
Lemma gmtime_some t : 0 <= t < 253402300800 → ∃ g, gmtime_r t = Some g.
Proof.
  intros Ht. unfold gmtime_r. destruct (find_year 400 1970 (t / 86400 mod 146097)) as [y yday] eqn:Ey. apply find_year_spec in Ey as (Hy&_).
  2: { change (days_to (1970 + Z.of_nat 400) - days_to 1970) with 146097. apply Z.mod_pos_bound. lia. }
  destruct (find_month (month_days y) 0 yday) as [m d]. assert (0 <= t / 86400 / 146097 < 21) by (Z.div_mod_to_equations; lia).
  rewrite !(proj2 (Z.ltb_ge _ _)) by lia. by eexists.
Qed.
Lemma slip_before_2100 g : 70 <= tm_year g < 200 → slip g = if (tm_year g =? 100) && (tm_mon g >=? 2) then -1 else 0.
Proof.
  intros Hy. unfold slip. rewrite andb_comm. destruct (tm_mon g >=? 2); cbn [andb]; [|done].
  assert (forallb (λ y, (y <? 70) || ((if is_leap y then 1 else 0) - (if leap (y + 1900) then 1 else 0) =? if y =? 100 then -1 else 0)) (seqZ 0 200) = true) as Hc by (vm_compute; reflexivity).
  pose proof (check_range _ _ Hc (tm_year g) ltac:(lia)) as H. apply orb_true_iff in H as [H|H]; [apply Z.ltb_lt in H; lia|]. by apply Z.eqb_eq.
Qed.

(** C31: for every time from 1970 to the end of the year 9999, with a buffer of 30
    bytes at least, [timet_to_httpdate] writes a date that [httpdate_to_timet]
    reads as the same time, but for a day when the month is March or later and
    [is_leap], which gets the years since 1900, errs; up to the year 2099 that is
    exactly from March to December 2000. *)
Theorem date_read_back t len : 0 <= t < 253402300800 → (30 <= len)%nat →
  ∃ g text, gmtime_r t = Some g ∧ civil t g ∧ timet_to_httpdate t len = Some (0, text) ∧ httpdate_to_timet text = Some (t + 86400 * slip g)
    ∧ (tm_year g < 200 → slip g = if (tm_year g =? 100) && (tm_mon g >=? 2) then -1 else 0).
Proof.
  intros Ht Hl. destruct (gmtime_some t Ht) as [g Eg]. pose proof (gmtime_civil t g ltac:(lia) Eg) as Hc. pose proof (year_bound t g Hc ltac:(lia)) as Hy.
  destruct (dates_read g t Hc Hy) as (text&Et&Elen&Eb). exists g, text. split; [done|]. split; [done|]. split.
  - unfold timet_to_httpdate. rewrite Eg, Et. cbn [mbind option_bind]. rewrite Elen, (proj2 (Nat.eqb_neq 29 len)) by lia. by rewrite take_ge by lia.
  - split; [rewrite Eb; apply tm_to_time_civil; [done|lia]|]. intros Hlt. apply slip_before_2100. destruct Hc. lia.
Qed.
Lemma date_read_back_witness : ∃ g text, gmtime_r 1301118837 = Some g ∧ timet_to_httpdate 1301118837 256 = Some (0, text)
  ∧ httpdate_to_timet text = Some (1301118837 + 86400 * slip g) ∧ slip g = 0.
Proof.
  destruct (date_read_back 1301118837 256 ltac:(lia) ltac:(lia)) as (g&text&Eg&_&Et&Eb&Hs). exists g, text. split; [done|]. split; [done|]. split; [done|].
  assert (gmtime_r 1301118837 = Some (mk_tm 57 53 5 26 2 111 6)) as E by (vm_compute; reflexivity). rewrite E in Eg. injection Eg as <-. rewrite Hs; done.
Defined.
(** The 1st of March 2000 comes back as the 29th of February. *)
Example march_2000 : (text ← timet_to_httpdate 951868800 256; httpdate_to_timet text.2) = Some (951868800 - 86400).
Proof. vm_compute. reflexivity. Qed.
(** A buffer that is too short goes unnoticed unless it is one byte too short. *)
Example short_buffer : timet_to_httpdate 0 10 = Some (0, str "Thu, 01 J") ∧ timet_to_httpdate 0 29 = Some (-1, str "Thu, 01 Jan 1970 00:00:00 GM").
Proof. vm_compute. done. Qed.
