(* ===== verification/HttpParse.v ===== *)
(** * Parsing of HTTP messages

    [http_parsing.c] of the utilities, which the example server and client use
    on what they receive: the end of the header, values of header fields, the
    request line and the status line.

    Strings are lists of bytes without the final zero, buffers are lists of
    bytes; [None] stands for an access outside of the string or the buffer.
    Functions that call [strtol] take [errno] and return it. *)
From stdpp Require Import list strings.
From S2P Require Import Prelude CText HttpDate.
Import CText TDate.

Module Http.

Definition SPACE_OR_TAB (x : Z) : bool := (x =? 32) || (x =? 9).
Definition CR_OR_NEWLINE (x : Z) : bool := (x =? 13) || (x =? 10).
Definition HTTP_STR : list Z := str "HTTP".
Definition HTTP_GET : list Z := str "GET".
Definition HTTP_POST : list Z := str "POST".
Inductive http_method : Type := NO_REQUEST | GET | POST.
Inductive http_version : Type := HTTP_09 | HTTP_10 | HTTP_11.

(** ** Search: the first character as it is, the others in either case *)
Definition lower (s : list Z) : list Z := tolower <$> s.
Definition here (key s : list Z) : bool :=
  match key, s with
  | k :: key, c :: s => (c =? k) && bool_decide (lower (take (length key) s) = lower key)
  | _, _ => false
  end.
Fixpoint nre_strcasestr (buf key : list Z) : option (list Z) :=
  match buf with
  | [] => None
  | _ :: buf' => if here key buf then Some buf else nre_strcasestr buf' key
  end.
Definition http_check_header_field (data field : list Z) : bool := bool_decide (is_Some (nre_strcasestr data field)).

(** ** The end of the header *)

(** [pos] is the place of the string in the data. *)
Fixpoint header_loop (s : list Z) (pos : Z) : Z :=
  match s with
  | [] => 0
  | c :: s =>
    if c =? 10 then
      match s with
      | x :: s' =>
        if x =? 10 then pos + 2
        else match s' with
             | y :: _ => if (x =? 13) && (y =? 10) then pos + 3 else header_loop s (pos + 1)
             | [] => header_loop s (pos + 1)
             end
      | [] => header_loop s (pos + 1)
      end
    else header_loop s (pos + 1)
  end.
(** The string ends at [len] or at a zero byte before; the byte at [len] is
    there again afterwards. *)
Definition find_http_header (data : list Z) (len : Z) : option (Z * list Z) :=
  guard (0 <= len < Z.of_nat (length data));;
  let hdr_len := header_loop (c_str (take (Z.to_nat len) data)) 0 in
  Some (hdr_len, if hdr_len =? 0 then data else <[Z.to_nat (hdr_len - 1) := 0]> data).

(** The length is compared with a [sizeof]. *)
Definition is_http_request (data : list Z) (len : Z) : http_method :=
  if (3 <=? u64 len) && strncmp_eq data HTTP_GET then GET
  else if (4 <=? u64 len) && strncmp_eq data HTTP_POST then POST
  else NO_REQUEST.
Definition is_http_response (data : list Z) (len : Z) : bool := (4 <=? u64 len) && strncmp_eq data HTTP_STR.

(** ** Values *)

(** At most [value_len - 1] bytes are copied. *)
Definition copy_until (f : Z → bool) (s : list Z) (value_len : Z) : list Z := take (Z.to_nat (value_len - 1)) (until f s).
(** The value, or the null pointer; then the empty string is stored as value. *)
Definition http_header_str_val (buf key : list Z) (keylen : nat) (value_len : Z) : option (option (list Z)) :=
  guard (1 <= value_len);;
  match nre_strcasestr buf key with
  | None => Some None
  | Some temp =>
    guard (keylen <= length temp)%nat;;
    let temp := skip SPACE_OR_TAB (drop keylen temp) in
    match temp with
    | [] => Some None
    | c :: _ =>
      if CR_OR_NEWLINE c then Some None
      else
        let value := copy_until CR_OR_NEWLINE temp value_len in
        Some (if bool_decide (value = []) then None else Some value)
    end
  end.
Definition ERANGE : Z := 34.
Definition EINVAL : Z := 22.
Definition long_of (s : list Z) (errno : Z) : Z * Z :=
  let '(v, _, range) := strtol s in (v, if range then ERANGE else errno).
Definition bad_errno (errno : Z) : bool := (errno =? EINVAL) || (errno =? ERANGE).
Definition C_TYPE_LEN : Z := 50.
Definition http_header_long_val (response key : list Z) (key_len : nat) (errno : Z) : option (Z * Z) :=
  v ← http_header_str_val response key key_len C_TYPE_LEN;
  match v with
  | None => Some (-1, errno)
  | Some v => let '(len, errno) := long_of v errno in Some (if bad_errno errno then -1 else len, errno)
  end.
Definition http_header_date (data field : list Z) (len : nat) : option Z :=
  v ← http_header_str_val data field len 256;
  match v with None => Some (-1) | Some buf => httpdate_to_timet buf end.

(** ** The first lines *)
Definition skip_bytes (n : nat) (s : list Z) : option (list Z) := guard (n <= length s)%nat;; Some (drop n s).
(** The result, and the status code and the version where they are stored. *)
Definition http_parse_first_resp_line (data : list Z) (errno : Z) : option (bool * option (Z * http_version) * Z) :=
  if negb (strncmp_eq data HTTP_STR) then Some (false, None, errno)
  else
    p ← skip_bytes 5 data;
    let ver := if strncmp_eq p (str "1.1") then HTTP_11 else if strncmp_eq p (str "1.0") then HTTP_10 else HTTP_09 in
    p ← skip_bytes 4 p;
    let '(scode, errno) := long_of p errno in
    Some (negb (bad_errno errno), Some (s32 scode, ver), errno).
Definition http_get_http_version_resp (data : list Z) (len value_len : Z) : option (option (list Z)) :=
  guard (1 <= value_len);;
  if (u64 len <? 4) || negb (strncmp_eq data HTTP_STR) then Some None
  else Some (Some (copy_until SPACE_OR_TAB data value_len)).
(** The rest of the request and the value. *)
Definition http_get_url (data : list Z) (value_len : Z) : option (option (list Z * list Z)) :=
  guard (1 <= value_len);;
  if negb (strncmp_eq data HTTP_GET) then Some None
  else
    ret ← skip_bytes 4 data;
    let ret := skip SPACE_OR_TAB ret in
    Some (Some (ret, copy_until (λ c, c =? 32) ret value_len)).
Definition http_get_status_code (response : list Z) (errno : Z) : Z * Z :=
  let temp := drop 1 (skip (λ c, negb (SPACE_OR_TAB c)) response) in
  let '(code, errno) := long_of temp errno in (if bad_errno errno then -1 else s32 code, errno).
Definition MAXAGE : list Z := str "max-age=".
Definition SMAXAGE : list Z := str "s-maxage=".
(** [sizeof] counts the final zero of the literal. *)
Definition http_get_maxage (cache_ctl : list Z) (errno : Z) : option (Z * Z) :=
  let number temp n := s ← skip_bytes n temp; let '(v, errno) := long_of s errno in Some (if bad_errno errno then -1 else s32 v, errno) in
  match cache_ctl with
  | [] => Some (-1, errno)
  | _ =>
    match nre_strcasestr cache_ctl MAXAGE with
    | Some temp => number temp (S (length MAXAGE))
    | None =>
      match nre_strcasestr cache_ctl SMAXAGE with
      | Some temp => number temp (S (length SMAXAGE))
      | None => Some (-1, errno)
      end
    end
  end.

(** A request and an answer. *)
Definition crlf : list Z := [13; 10].
Definition request : list Z := str "GET /index.html HTTP/1.1" ++ crlf ++ str "HOST: a" ++ crlf ++ str "Connection:  Keep-Alive" ++ crlf ++ crlf ++ str "rest".
Example request_header : option_map fst (find_http_header (request ++ [0]) (Z.of_nat (length request))) = Some 62.
Proof. vm_compute. reflexivity. Qed.
Example request_values : (http_get_url request 128, http_header_str_val request (str "Connection: ") 12 128, http_header_str_val request (str "host:") 5 128)
  = (Some (Some (drop 4 request, str "/index.html")), Some (Some (str "Keep-Alive")), Some None).
Proof. vm_compute. reflexivity. Qed.
Example answer_values : (http_parse_first_resp_line (str "HTTP/1.1 200 OK") 0, http_get_status_code (str "HTTP/1.1 404 Not Found") 0, http_get_maxage (str "max-age=3600") 0)
  = (Some (true, Some (200, HTTP_11), 0), (404, 0), Some (600, 0)).
Proof. vm_compute. reflexivity. Qed.
End Http.
