(* ===== verification/HttpRequest.v ===== *)
(** * HTTP requests read back

    What the functions of [http_parsing.c] find in a request: the end of its
    header, the address and the values of its fields. *)
From stdpp Require Import list sets strings.
From S2P Require Import Prelude CText HttpDate HttpParse.
Import CText TDate Http.

(** ** The end of the header *)

(** An empty line ends behind the first [k] bytes. *)
Definition ends_header (s : list Z) (k : nat) : Prop :=
  (2 <= k)%nat ∧ s !! (k - 2)%nat = Some 10 ∧ s !! (k - 1)%nat = Some 10
  ∨ (3 <= k)%nat ∧ s !! (k - 3)%nat = Some 10 ∧ s !! (k - 2)%nat = Some 13 ∧ s !! (k - 1)%nat = Some 10.
Lemma ends_header_cons c s k : ends_header (c :: s) (S k) ↔
  ends_header s k ∨ c = 10 ∧ (k = 1%nat ∧ s !! 0%nat = Some 10 ∨ k = 2%nat ∧ s !! 0%nat = Some 13 ∧ s !! 1%nat = Some 10).
Proof.
  unfold ends_header. destruct k as [|[|[|k]]]; simpl; split; intros H.
  all: repeat match goal with H : _ ∨ _ |- _ => destruct H | H : _ ∧ _ |- _ => destruct H end; simplify_eq/=; try lia; try tauto.
  all: rewrite ?Nat.sub_0_r in *; naive_solver lia.
Qed.
Lemma ends_header_0 s : ¬ ends_header s 0.
Proof. intros [H|H]; lia. Qed.

Lemma header_loop_spec s : ∀ pos, 0 <= pos →
  (header_loop s pos = 0 ∧ ∀ k, ¬ ends_header s k)
  ∨ ∃ n, header_loop s pos = pos + Z.of_nat n ∧ ends_header s n ∧ ∀ k, (k < n)%nat → ¬ ends_header s k.
Proof.
  induction s as [|c s IH]; intros pos Hp; cbn [header_loop]; [left; split; [done|]; intros k [H|H]; rewrite !lookup_nil in H; naive_solver|].
  set (here2 := s !! 0%nat = Some 10). set (here3 := s !! 0%nat = Some 13 ∧ s !! 1%nat = Some 10).
  assert (¬ (c = 10 ∧ (here2 ∨ here3)) → (header_loop s (pos + 1) = 0 ∧ ∀ k, ¬ ends_header (c :: s) k)
    ∨ ∃ n, header_loop s (pos + 1) = pos + Z.of_nat n ∧ ends_header (c :: s) n ∧ ∀ k, (k < n)%nat → ¬ ends_header (c :: s) k) as Hnext.
  { intros Hno. destruct (IH (pos + 1) ltac:(lia)) as [[E Hk]|(n&E&Hn&Hk)].
    - left. split; [done|]. intros [|k]; [apply ends_header_0|]. rewrite ends_header_cons. intros [H|(->&[[_ H]|[_ H]])]; [by apply (Hk k)|apply Hno; split; [done|by left]|apply Hno; split; [done|by right]].
    - right. exists (S n). split; [lia|]. split; [apply ends_header_cons; by left|]. intros [|k] Hlt; [apply ends_header_0|]. rewrite ends_header_cons.
      intros [H|(->&[[_ H]|[_ H]])]; [apply (Hk k); [lia|done]|apply Hno; split; [done|by left]|apply Hno; split; [done|by right]]. }
  assert (∀ s, s !! 0%nat = Some 10 → ¬ ends_header s 1 ∧ ¬ ends_header s 0) as Hsmall by (intros s0 _; split; intros [H|H]; lia).
  destruct (Z.eqb_spec c 10) as [->|Hc]; [|apply Hnext; naive_solver]. destruct s as [|x s']; [apply Hnext; intros [_ [H|[H _]]]; done|].
  destruct (Z.eqb_spec x 10) as [->|Hx].
  { right. exists 2%nat. split; [lia|]. split; [by left|]. intros k Hk. destruct k as [|[|k]]; [apply ends_header_0|intros [H|H]; lia|lia]. }
  destruct s' as [|y s'']; [apply Hnext; intros [_ [H|[_ H]]]; [injection H; lia|done]|].
  destruct (Z.eqb_spec x 13) as [->|Hx13]; cbn [andb]; [|apply Hnext; intros [_ [H|[H _]]]; injection H; lia].
  destruct (Z.eqb_spec y 10) as [->|Hy]; [|apply Hnext; intros [_ [H|[_ H]]]; injection H; lia].
  right. exists 3%nat. split; [lia|]. split; [right; done|]. intros k Hk. destruct k as [|[|[|k]]]; [apply ends_header_0|intros [H|H]; lia|intros [H|H]; [|lia]; by destruct H as (_&_&H)|lia].
Qed.

(** ** Requests *)
Definition plain_text (s : list Z) : bool := forallb (λ c, negb (c =? 10) && negb (c =? 13) && negb (c =? 0)) s.
Record field := mk_field { f_name : list Z; f_value : list Z }.
Definition name_ok (n : list Z) : Prop := n ≠ [] ∧ plain_text n = true ∧ 58 ∉ n.
Definition field_ok (f : field) : Prop :=
  name_ok (f_name f) ∧ plain_text (f_value f) = true ∧ match f_value f with c :: _ => SPACE_OR_TAB c = false | [] => False end.
Definition url_ok (u : list Z) : Prop := plain_text u = true ∧ 32 ∉ u ∧ match u with c :: _ => SPACE_OR_TAB c = false | [] => False end.
(** A line break, a field and the first character of the next line break. *)
Definition block (f : field) : list Z := 10 :: f_name f ++ 58 :: 32 :: f_value f ++ [13].
(** The header without its last character, which is a line feed. *)
Definition header (url : list Z) (fs : list field) : list Z := str "GET " ++ url ++ str " HTTP/1.1" ++ [13] ++ concat (block <$> fs) ++ [10; 13].
(** The value of the first field of that name, in either case. *)
Fixpoint field_value (key : list Z) (fs : list field) : option (list Z) :=
  match fs with
  | [] => None
  | f :: fs => if bool_decide (lower (f_name f) = lower key) then Some (f_value f) else field_value key fs
  end.

Lemma plain_no n s : plain_text s = true → (n = 10 ∨ n = 13 ∨ n = 0) → n ∉ s.
Proof. intros Hs Hn Hin. unfold plain_text in Hs. rewrite forallb_forall in Hs. apply list_elem_of_In, Hs in Hin. lia. Qed.

Lemma header_loop_line l s : ∀ pos, 10 ∉ l → header_loop (l ++ s) pos = header_loop s (pos + Z.of_nat (length l)).
Proof.
  induction l as [|c l IH]; intros pos Hl; [by rewrite Z.add_0_r|]. apply not_elem_of_cons in Hl as [Hc Hl]. cbn [app header_loop length]. rewrite (proj2 (Z.eqb_neq c 10)) by done.
  rewrite IH by done. f_equal. lia.
Qed.
Lemma header_loop_next c s pos : c ≠ 10 → c ≠ 13 → header_loop (10 :: c :: s) pos = header_loop (c :: s) (pos + 1).
Proof. intros H1 H2. cbn [header_loop]. change (10 =? 10) with true. apply Z.eqb_neq in H1, H2. rewrite H1, H2. cbn [andb]. by destruct s. Qed.
Lemma header_loop_blocks fs rest : Forall field_ok fs → ∀ pos,
  header_loop (concat (block <$> fs) ++ rest) pos = header_loop rest (pos + Z.of_nat (length (concat (block <$> fs)))).
Proof.
  induction 1 as [|f fs ((Hne&Hn&Hcol)&Hv&_) _ IH]; intros pos; cbn [fmap list_fmap concat]; [by rewrite Z.add_0_r|]. rewrite <- app_assoc. unfold block at 1. cbn [app].
  destruct (f_name f) as [|c n] eqn:En; [done|]. cbn [app]. rewrite header_loop_next; [|intros ->; eapply (plain_no 10); [exact Hn|by left|by left]|intros ->; eapply (plain_no 13); [exact Hn|by right; left|by left]].
  set (l := c :: n ++ 58 :: 32 :: f_value f ++ [13]). change (c :: (n ++ 58 :: 32 :: f_value f ++ [13]) ++ concat (block <$> fs) ++ rest) with (l ++ concat (block <$> fs) ++ rest).
  rewrite header_loop_line, IH.
  - f_equal. rewrite length_app. unfold block at 2. rewrite En. unfold l. cbn [length app]. lia.
  - unfold l. pose proof (plain_no 10 _ Hn (or_introl eq_refl)). pose proof (plain_no 10 _ Hv (or_introl eq_refl)). set_solver.
Qed.

Definition first_line (url : list Z) : list Z := str "GET " ++ url ++ str " HTTP/1.1" ++ [13].
Lemma header_split url fs : header url fs = first_line url ++ concat (block <$> fs) ++ [10; 13].
Proof. unfold header, first_line. by rewrite <- !app_assoc. Qed.
Lemma first_line_10 url : url_ok url → 10 ∉ first_line url.
Proof. intros (Hu&_). pose proof (plain_no 10 _ Hu (or_introl eq_refl)). unfold first_line. change (str "GET ") with [71; 69; 84; 32]. change (str " HTTP/1.1") with [32; 72; 84; 84; 80; 47; 49; 46; 49]. set_solver. Qed.
Lemma header_end url fs rest : url_ok url → Forall field_ok fs → header_loop (header url fs ++ 10 :: rest) 0 = Z.of_nat (length (header url fs)) + 1.
Proof.
  intros Hu Hf. rewrite header_split, <- !app_assoc, header_loop_line, header_loop_blocks by (done || by apply first_line_10). cbn [app header_loop]. change (10 =? 10) with true.
  change (13 =? 10) with false. change (13 =? 13) with true. cbn [andb]. rewrite !length_app. cbn [length]. lia.
Qed.
Lemma header_no_zero url fs : url_ok url → Forall field_ok fs → forallb (λ c, negb (c =? 0)) (header url fs) = true.
Proof.
  intros (Hu&_) Hf. rewrite header_split. unfold first_line. rewrite !forallb_app. assert (∀ s, plain_text s = true → forallb (λ c, negb (c =? 0)) s = true) as Hp.
  { intros s Hs. unfold plain_text in Hs. rewrite forallb_forall in *. intros x Hx. apply Hs in Hx. lia. }
  rewrite (Hp url) by done. replace (forallb _ (concat (block <$> fs))) with true; [done|]. symmetry. induction Hf as [|f fs ((_&Hn&_)&Hv&_) _ IH]; [done|].
  cbn [fmap list_fmap concat]. rewrite forallb_app, IH, andb_true_r. unfold block. cbn [forallb]. rewrite forallb_app. cbn [forallb]. rewrite forallb_app, (Hp _ Hn), (Hp _ Hv). done.
Qed.
Lemma c_str_app s r : forallb (λ c, negb (c =? 0)) s = true → c_str (s ++ r) = s ++ c_str r.
Proof.
  unfold c_str, until. induction s as [|c s IH]; intros Hs; [done|]. cbn [forallb] in Hs. apply andb_true_iff in Hs as [Hc Hs]. cbn [app span]. rewrite Hc. specialize (IH Hs).
  destruct (span _ (s ++ r)) as [a b]. cbn [fst] in *. by rewrite IH.
Qed.
Lemma c_str_zero s r : forallb (λ c, negb (c =? 0)) s = true → c_str (s ++ 0 :: r) = s.
Proof. intros Hs. rewrite c_str_app by done. unfold c_str, until. cbn [span]. by rewrite app_nil_r. Qed.

(** ** Fields *)
Lemma strcasestr_skip l s key : 10 ∉ l → nre_strcasestr (l ++ s) (10 :: key) = nre_strcasestr s (10 :: key).
Proof.
  induction l as [|c l IH]; intros Hl; [done|]. apply not_elem_of_cons in Hl as [Hc Hl]. cbn [app nre_strcasestr here]. rewrite (proj2 (Z.eqb_neq c 10)) by done. cbn [andb]. by apply IH.
Qed.
Lemma tolower_colon c : tolower c = 58 ↔ c = 58.
Proof. unfold tolower, isupper. case_match; lia. Qed.
Lemma lower_colon_free s k : 58 ∉ s → lower s !! k ≠ Some 58.
Proof.
  intros Hs Hk. unfold lower in Hk. rewrite list_lookup_fmap in Hk. destruct (s !! k) as [c|] eqn:E; [|done]. injection Hk as Hk. apply tolower_colon in Hk as ->. apply Hs. by eapply list_elem_of_lookup_2.
Qed.
Lemma length_lower s : length (lower s) = length s.
Proof. apply length_fmap. Qed.
Lemma lower_app s r : lower (s ++ r) = lower s ++ lower r.
Proof. apply fmap_app. Qed.
Lemma name_matches name key r : 58 ∉ name → 58 ∉ key →
  bool_decide (lower (take (length (key ++ [58])) (name ++ 58 :: r)) = lower (key ++ [58])) = bool_decide (lower name = lower key).
Proof.
  intros Hn Hk. apply bool_decide_ext. rewrite length_app, Nat.add_comm. cbn [length Nat.add]. split; intros E.
  - destruct (Nat.lt_total (length name) (length key)) as [Hlt|[Heq|Hgt]].
    + exfalso. apply (lower_colon_free key (length name) Hk). apply (f_equal (λ l, l !! length name)) in E. rewrite lower_app, lookup_app_l in E by (rewrite length_lower; lia). rewrite <- E.
      unfold lower. rewrite list_lookup_fmap, lookup_take_lt by lia. rewrite lookup_app_r by lia. by rewrite Nat.sub_diag.
    + rewrite <- Heq in E. change (name ++ 58 :: r) with (name ++ [58] ++ r) in E. rewrite app_assoc, take_app_length' in E by (rewrite length_app; simpl; lia). rewrite !lower_app in E. by apply app_inj_tail in E as [E _].
    + exfalso. apply (lower_colon_free name (length key) Hn). apply (f_equal (λ l, l !! length key)) in E. rewrite lower_app, lookup_app_r in E by (rewrite length_lower; lia). rewrite length_lower, Nat.sub_diag in E. cbn in E.
      rewrite <- E. unfold lower. rewrite !list_lookup_fmap, lookup_take_lt by lia. by rewrite lookup_app_l by lia.
  - assert (length name = length key) as Heq by (by rewrite <- (length_lower name), E, length_lower). rewrite <- Heq. change (name ++ 58 :: r) with (name ++ [58] ++ r).
    rewrite app_assoc, take_app_length' by (rewrite length_app; simpl; lia). by rewrite !lower_app, E.
Qed.
Lemma block_here key f rest : name_ok key → field_ok f → here (10 :: key ++ [58]) (block f ++ rest) = bool_decide (lower (f_name f) = lower key).
Proof.
  intros (_&_&Hk) ((_&_&Hn)&_). unfold block. cbn [app here]. change (10 =? 10) with true. cbn [andb]. rewrite <- app_assoc. by apply name_matches.
Qed.
Lemma strcasestr_fields key fs rest : name_ok key → Forall field_ok fs → nre_strcasestr rest (10 :: key ++ [58]) = None →
  match field_value key fs with
  | None => nre_strcasestr (concat (block <$> fs) ++ rest) (10 :: key ++ [58]) = None
  | Some v => ∃ name more, length name = length key ∧ nre_strcasestr (concat (block <$> fs) ++ rest) (10 :: key ++ [58]) = Some (10 :: name ++ 58 :: 32 :: v ++ 13 :: more)
  end.
Proof.
  intros Hk Hf Hr. induction Hf as [|f fs Hf0 Hf IH]; cbn [field_value fmap list_fmap concat]; [done|]. rewrite <- app_assoc. set (more := concat (block <$> fs) ++ rest) in *.
  destruct (bool_decide (lower (f_name f) = lower key)) eqn:E.
  - apply bool_decide_eq_true_1 in E. exists (f_name f), more. split; [by rewrite <- (length_lower (f_name f)), E, length_lower|].
    pose proof (block_here key f more Hk Hf0) as Hh. rewrite bool_decide_eq_true_2 in Hh by done. unfold block in *. cbn [app] in *. cbn [nre_strcasestr]. rewrite Hh. do 2 f_equal.
    rewrite <- app_assoc. cbn [app]. by rewrite <- app_assoc.
  - replace (nre_strcasestr (block f ++ more) (10 :: key ++ [58])) with (nre_strcasestr more (10 :: key ++ [58])); [exact IH|]. symmetry.
    pose proof (block_here key f more Hk Hf0) as Hh. rewrite E in Hh. unfold block in *. cbn [app nre_strcasestr] in *. rewrite Hh. destruct Hf0 as ((_&Hn&_)&Hv&_).
    rewrite strcasestr_skip; [done|]. pose proof (plain_no 10 _ Hn (or_introl eq_refl)). pose proof (plain_no 10 _ Hv (or_introl eq_refl)). set_solver.
Qed.

(** [find_http_header] on any data: the first empty line of the string, within
    the data, or 0; nothing but the last byte of the header is changed. *)
Theorem find_http_header_first data len : 0 <= len < Z.of_nat (length data) → let s := c_str (take (Z.to_nat len) data) in
  (find_http_header data len = Some (0, data) ∧ ∀ k, ¬ ends_header s k)
  ∨ ∃ n, find_http_header data len = Some (Z.of_nat n, <[(n - 1)%nat := 0]> data) ∧ (0 < n <= Z.to_nat len)%nat ∧ ends_header s n ∧ ∀ k, (k < n)%nat → ¬ ends_header s k.
Proof.
  intros Hl s. unfold find_http_header. rewrite option_guard_True by done. cbn [mbind option_bind]. fold s.
  assert (length s <= Z.to_nat len)%nat as Hs.
  { unfold s, c_str, until. generalize (take (Z.to_nat len) data) as l, (firstn_le_length (Z.to_nat len) data) as H. intros l H. etrans; [|exact H]. clear.
    induction l as [|c l IH]; [done|]. cbn [span]. destruct (negb (c =? 0)); [|simpl; lia]. destruct (span _ l). simpl in *. lia. }
  destruct (header_loop_spec s 0 ltac:(lia)) as [[-> Hk]|(n&->&Hn&Hk)]; [by left|]. right. exists n. rewrite Z.add_0_l.
  assert (0 < n <= length s)%nat as Hb.
  { destruct Hn as [(?&_&H)|(?&_&_&H)]; apply lookup_lt_Some in H; lia. }
  rewrite (proj2 (Z.eqb_neq _ 0)) by lia. replace (Z.to_nat (Z.of_nat n - 1)) with (n - 1)%nat by lia. split_and!; try done; lia.
Qed.

Lemma until_app f s c r : forallb (λ x, negb (f x)) s = true → f c = true → until f (s ++ c :: r) = s.
Proof. intros Hs Hc. unfold until. rewrite span_app; [done|done|]. by rewrite Hc. Qed.
Lemma value_copied key fs rest vlen : name_ok key → Forall field_ok fs → nre_strcasestr rest (10 :: key ++ [58]) = None → 2 <= vlen →
  http_header_str_val (concat (block <$> fs) ++ rest) (10 :: key ++ [58]) (length key + 2) vlen = Some (take (Z.to_nat (vlen - 1)) <$> field_value key fs).
Proof.
  intros Hk Hf Hr Hv. unfold http_header_str_val. rewrite option_guard_True by lia. cbn [mbind option_bind]. pose proof (strcasestr_fields key fs rest Hk Hf Hr) as Hs.
  destruct (field_value key fs) as [v|] eqn:Ev; [|by rewrite Hs]. destruct Hs as (name&more&Hlen&->).
  assert (plain_text v = true ∧ match v with c :: _ => SPACE_OR_TAB c = false | [] => False end) as [Hpv Hhead].
  { clear -Hf Ev. induction Hf as [|f fs Hf0 Hf IH]; [done|]. cbn [field_value] in Ev. case_bool_decide; [injection Ev as <-; apply Hf0|by apply IH]. }
  rewrite option_guard_True by (cbn [length]; rewrite length_app; cbn [length]; lia). cbn [mbind option_bind].
  replace (drop (length key + 2) (10 :: name ++ 58 :: 32 :: v ++ 13 :: more)) with (32 :: v ++ 13 :: more).
  2: { assert (name ++ 58 :: 32 :: v ++ 13 :: more = (name ++ [58]) ++ 32 :: v ++ 13 :: more) as -> by (by rewrite <- app_assoc).
       replace (length key + 2)%nat with (S (length (name ++ [58]))) by (rewrite length_app; simpl; lia). cbn [drop]. by rewrite drop_app_length. }
  assert (skip SPACE_OR_TAB (32 :: v ++ 13 :: more) = v ++ 13 :: more) as ->.
  { change (32 :: v ++ 13 :: more) with ([32] ++ v ++ 13 :: more). unfold skip. rewrite span_app; [done|done|]. by destruct v. }
  unfold copy_until. assert (until CR_OR_NEWLINE (v ++ 13 :: more) = v) as ->.
  { apply until_app; [|done]. unfold plain_text in Hpv. rewrite forallb_forall in *. intros x Hx. apply Hpv in Hx. unfold CR_OR_NEWLINE. lia. }
  destruct v as [|c v]; [done|]. cbn [app]. assert (CR_OR_NEWLINE c = false) as ->.
  { unfold plain_text in Hpv. cbn [forallb] in Hpv. apply andb_true_iff in Hpv as [Hpv _]. unfold CR_OR_NEWLINE. lia. }
  rewrite bool_decide_eq_false_2; [done|]. destruct (Z.to_nat (vlen - 1)) eqn:E; [lia|done].
Qed.


Module RequestDemo.
Definition fields : list field := [mk_field (str "HOST") (str "a.b"); mk_field (str "connection") (str "Keep-Alive"); mk_field (str "Connection") (str "Close")].
Lemma fields_ok : Forall field_ok fields.
Proof. repeat constructor; try done; apply (bool_decide_unpack _); vm_compute; exact I. Qed.
End RequestDemo.
