(* ===== verification/Payload.v ===== *)
(** * The data of a segment

    [ProcessTCPPayload] on a stream that has its receive buffer: the segment is
    stored wherever it fits, the receive point moves over everything that is
    without a gap, and the application is told. *)
From S2P Require Import Prelude SeqNum CircQueue MemPool RingBuffer SendBuffer AddrPool EventQueue TcpTypes NetOut TcpLists TcpInv TcpStream TcpOut.
From S2P Require Import TcpIn App Socket Pipe Epoll Api Stack AppCalls AppData.

(** ** The bytes without a gap *)
Definition gapless (g : Z → option Z) (n : Z) : Prop := 0 <= n ∧ (∀ i, 0 <= i < n → is_Some (g i)) ∧ g n = None.
Lemma gapless_unique g n k : gapless g n → gapless g k → n = k.
Proof.
  intros (Hn&Hgn&En) (Hk&Hgk&Ek). destruct (Z.lt_total n k) as [Hlt|[?|Hlt]]; [|done|].
  - destruct (Hgk n ltac:(lia)) as [? E]. congruence.
  - destruct (Hgn k ltac:(lia)) as [? E]. congruence.
Qed.
Lemma gapless_merged b : RB.rb_ok b → gapless (RB.rb_byte b) (RB.merged_len b).
Proof.
  intros Hok. destruct (RB.ready_len_spec _ _ _ (RB.ok_frags _ Hok) (RB.ok_head_seq _ Hok)) as (Hr&Hc&He). rewrite <- (RB.ok_merged _ Hok) in *.
  split; [lia|]. unfold RB.rb_byte. split; [|by rewrite He]. intros i Hi. rewrite Hc by done. unfold byte_at.
  pose proof (RB.ok_head_offset _ Hok). pose proof (RB.ok_tail _ Hok). pose proof (RB.ok_tail_bound _ Hok). pose proof (RB.ok_mem _ Hok). pose proof (RB.ok_last_len _ Hok).
  rewrite (proj2 (Z.leb_le _ _)) by lia. apply lookup_lt_is_Some_2. lia.
Qed.
(** A segment moves the end of the prefix exactly when it starts within it and
    ends behind it. *)
Lemma gapless_overwrite g o bs n k : gapless g n → 0 <= o → gapless (RB.overwrite g o bs) k →
  n <= k ∧ (o <= n → o + Z.of_nat (length bs) <= k) ∧ (n < o ∨ o + Z.of_nat (length bs) <= n → k = n).
Proof.
  intros Hg Ho Hk. pose proof Hg as (Hn&Hgn&En). pose proof Hk as (Hk0&Hgk&Ek).
  assert (∀ i, 0 <= i → is_Some (g i) ∨ o <= i < o + Z.of_nat (length bs) → is_Some (RB.overwrite g o bs i)) as Hin.
  { intros i Hi Hc. unfold RB.overwrite. destruct ((o <=? i) && (i <? o + Z.of_nat (length bs))) eqn:E; [|destruct Hc; [done|lia]].
    unfold byte_at. rewrite (proj2 (Z.leb_le _ _)) by lia. apply lookup_lt_is_Some_2. lia. }
  assert (n <= k) as Hnk. { destruct (Z.le_gt_cases n k); [done|]. destruct (Hin k Hk0) as [? E]; [left; apply Hgn; lia|congruence]. }
  split; [done|]. split.
  - intros Hon. destruct (Z.le_gt_cases (o + Z.of_nat (length bs)) k); [done|]. destruct (Hin k Hk0) as [? E]; [right; lia|congruence].
  - intros Hc. destruct (Z.eq_dec k n); [done|]. destruct (Hgk n ltac:(lia)) as [? E]. unfold RB.overwrite in E.
    destruct ((o <=? n) && (n <? o + Z.of_nat (length bs))) eqn:E'; [lia|congruence].
Qed.

Section Payload.
Context {P IO : Type} `{ChunkPool P, World IO}.
Local Abbreviation mtcp := (mtcp_manager P IO).
Local Abbreviation M := (M P IO).
Implicit Types (m : mtcp).

(** ** Telling the application *)

(** The socket has a pending event for reading if it is registered for it and
    the queue has room. *)
Definition notified m m' (i : Z) : Prop :=
  ∀ sk x, smap m !! i = Some sk → epolls m !! ep m = Some x → ep m ≠ 0 → registered_for sk EQ.MTCP_EPOLLIN = true →
    Z.of_nat (length (EQ.contents (EQ.get_queue x EQ.MTCP_EVENT_QUEUE))) < EQ.size (EQ.get_queue x EQ.MTCP_EVENT_QUEUE) - 1 →
    ∃ sk', smap m' !! i = Some sk' ∧ Z.land (EQ.sock_events sk') EQ.MTCP_EPOLLIN ≠ 0.
Lemma RaiseReadEvent_run m p s : streams m !! p = Some s → events_ok m → (∀ i, socket s = Some i → is_Some (smap m !! i)) →
  ∃ m', RaiseReadEvent p m = inr (tt, m') ∧ reported m m' ∧ ∀ i, socket s = Some i → notified m m' i.
Proof.
  intros Es He Hs. unfold RaiseReadEvent. rewrite (bind_inr _ _ _ _ _ (getS_run p m s Es)).
  destruct (socket s) as [i|]; [|exists m; split; [done|]; split; [by apply reported_refl|done]].
  destruct (Hs i eq_refl) as [sk Esk]. unfold registered. unfold bind at 1. rewrite (bind_inr _ _ _ _ _ (getSock_run m i sk Esk)). unfold ret at 1. cbv beta iota.
  destruct (Z.land (EQ.epoll sk) EQ.MTCP_EPOLLIN =? 0) eqn:Er.
  - exists m. split; [done|]. split; [by apply reported_refl|]. intros j [= <-] sk' x Esk' _ _ Hreg. simplify_eq. unfold registered_for in Hreg. by rewrite Er in Hreg.
  - cbn [negb when]. destruct (add_user_event_reports EQ.MTCP_EVENT_QUEUE i EQ.MTCP_EPOLLIN m He ltac:(by eexists) ltac:(done)) as (m'&E&R).
    exists m'. split; [exact E|]. split; [done|]. intros j [= <-] sk' x Esk' Ex Hep _ Hroom. rewrite Esk in Esk'. injection Esk' as <-.
    destruct He as [?|(x'&Ex'&Hx)]; [done|]. rewrite Ex in Ex'. injection Ex' as <-. unfold add_user_event, add_event, getSock, bind, gets, lift, ret in E.
    rewrite Esk in E. cbv beta iota in E. apply Z.eqb_neq in Hep. rewrite Hep, Ex in E. unfold ret in E. cbv beta iota in E.
    destruct (EQ.AddEpollEvent_spec x EQ.MTCP_EVENT_QUEUE sk EQ.MTCP_EPOLLIN (Hx _) ltac:(done)) as (r&x'&sk'&Ea&_&_&Hsk). rewrite Ea in E. cbv beta iota in E. injection E as <-.
    exists sk'. rec_simpl. split; [apply lookup_insert_eq|]. destruct (Z.eqb_spec (Z.land (EQ.sock_events sk) EQ.MTCP_EPOLLIN) 0) as [Ez|Ez]; cbn [negb] in Hsk.
    + rewrite (proj2 (Z.eqb_neq _ _)) in Hsk by lia. destruct Hsk as (_&->&_). rec_simpl. rewrite Z.land_lor_distr_l, Ez. done.
    + by destruct Hsk as (_&->&_).
Qed.

(** ** Storing the segment *)

(** The stream [p] receives into the buffer [b]. *)
Record receiving m (p : Z) (s : tcp_stream) (b : RB.tcp_ring_buffer) (others all : list Z) : Prop := {
  rc_stream : streams m !! p = Some s;
  rc_buf : rcvbuf (rcvvar s) = Some b;
  rc_ok : RB.rb_ok b;
  rc_plain : RB.not_calloc b;
  rc_owns : RB.rbm_owns (rbm_rcv m) ((RB.faddr <$> RB.fctx b) ++ others) all;
  rc_nxt : rcv_nxt s = u32 (RB.head_seq b + RB.merged_len b);
  rc_wnd : rcv_wnd (rcvvar s) = RB.rsize b - RB.merged_len b;
  rc_events : events_ok m;
  rc_socket : ∀ i, socket s = Some i → is_Some (smap m !! i)
}.
(** After its own FIN the application reads no more. *)
Definition discards (s : tcp_stream) : bool := match state s with TCP_ST_FIN_WAIT_1 | TCP_ST_FIN_WAIT_2 => true | _ => false end.
Definition received_stream (s : tcp_stream) (b : RB.tcp_ring_buffer) (nxt : Z) : tcp_stream :=
  s <| rcvvar := (rcvvar s) <| rcvbuf := Some b |> <| rcv_wnd := RB.rsize b - RB.merged_len b |> |> <| rcv_nxt := nxt |>.

(** [RBPut], and [RBRemove] of everything for a stream that discards. *)
Definition store rbm (a : option Z) (discard : bool) (b : RB.tcp_ring_buffer) (payload : list Z) (ln seq : Z) : option (RB.rb_manager P * RB.tcp_ring_buffer) :=
  '(_, rbm, b) ← RB.RBPut rbm a b payload ln seq;
  if discard then '(_, rbm, b) ← RB.RBRemove rbm b (u64 (RB.merged_len b)) RB.AT_MTCP; Some (rbm, b) else Some (rbm, b).
Lemma store_run rbm a discard b payload ln seq others all :
  RB.rb_ok b → RB.not_calloc b → RB.rbm_owns rbm ((RB.faddr <$> RB.fctx b) ++ others) all →
  a ≠ 0 → a ∉ all → Z.of_nat (length all) + 1 < 2147483646 → is_u32 seq → Z.of_nat (length payload) = ln → 0 < ln →
  let o := u32 (seq - RB.head_seq b) in o + ln <= RB.rsize b →
  ∃ rbm' b' all' n, store rbm (Some a) discard b payload ln seq = Some (rbm', b')
    ∧ RB.rb_ok b' ∧ RB.not_calloc b' ∧ RB.rbm_owns rbm' ((RB.faddr <$> RB.fctx b') ++ others) all' ∧ all' ⊆ a :: all
    ∧ gapless (RB.overwrite (RB.rb_byte b) o payload) n ∧ n <= RB.rsize b
    ∧ let d := if discard then n else 0 in
      (∀ i, 0 <= i → RB.rb_byte b' i = RB.overwrite (RB.rb_byte b) o payload (i + d))
      ∧ RB.head_seq b' = u32 (RB.head_seq b + d) ∧ RB.merged_len b' = n - d ∧ RB.rsize b' = RB.rsize b.
Proof.
  intros Hok Hnc Ho Ha Hna Hlen Hseq Hpl Hln o Hfit.
  destruct (RB.RBPut_in_window rbm b payload ln seq a others all Hok Hnc Ho Ha Hna Hlen Hseq Hpl Hln Hfit) as (rbm1&b1&all1&E1&Hok1&Hnc1&Ho1&Hall1&Hby1&Hh1&_&Hsz1).
  assert (all1 ⊆ a :: all) as Hsub by (destruct Hall1 as [-> |[-> _]]; set_solver).
  assert (gapless (RB.overwrite (RB.rb_byte b) o payload) (RB.merged_len b1)) as Hg.
  { destruct (gapless_merged b1 Hok1) as (H1&H2&H3). split; [done|]. split; [intros i Hi; rewrite <- Hby1; by apply H2|by rewrite <- Hby1]. }
  pose proof (merged_bounds _ Hok1) as Hm1. unfold store. rewrite E1. cbn [mbind option_bind]. destruct discard.
  - pose proof (RB.ok_size _ Hok1). rewrite u64_id by lia.
    destruct (RB.RBRemove_spec rbm1 b1 (RB.merged_len b1) RB.AT_MTCP others all1 Hok1 Hnc1 Ho1 ltac:(lia)) as (rbm2&b2&all2&E2&Hok2&Hnc2&Ho2&Hs2&_&_&_&Hby2&Hh2&Hm2&_&Hsz2).
    rewrite Z.min_id in *. rewrite E2. cbn [mbind option_bind]. exists rbm2, b2, all2, (RB.merged_len b1). split_and!; try done; try lia; [set_solver|..].
    + intros i Hi. by rewrite Hby2, Hby1.
    + by rewrite Hh2, Hh1.
  - exists rbm1, b1, all1, (RB.merged_len b1). split_and!; try done; try lia.
    + intros i Hi. by rewrite Z.add_0_r, Hby1.
    + rewrite Z.add_0_r, Hh1. symmetry. apply u32_id. apply (RB.ok_head_seq _ Hok).
Qed.

(** What [ProcessTCPPayload] does once it has the buffer. *)
Definition store_tail (p : Z) (s : tcp_stream) rbm (a : option Z) (b : RB.tcp_ring_buffer) (payload : list Z) (ln seq : Z) : M Z :=
  '(rbm, b) <- lift BufferFault (store rbm a (discards s) b payload ln seq) ;;
  modify (λ m, m <| rbm_rcv := rbm |>) ;;;
  modRcv p (λ r, r <| rcvbuf := Some b |> <| rcv_wnd := u32 (RB.rsize b - RB.merged_len b) |>) ;;;
  let nxt := u32 (RB.head_seq b + RB.merged_len b) in
  modS p (λ s, s <| rcv_nxt := nxt |>) ;;;
  if TCP_SEQ_LEQ nxt (rcv_nxt s) then ret 0
  else when (st_eqb (state s) TCP_ST_ESTABLISHED) (RaiseReadEvent p) ;;; ret 1.
Lemma ProcessTCPPayload_tail m m1 p s b cur_ts payload seq ln a w : streams m !! p = Some s → 0 <= ln < 4294967296 →
  TCP_SEQ_LT (seq ⊞ ln) (rcv_nxt s) = false → TCP_SEQ_GT (seq ⊞ ln) (rcv_nxt s ⊞ rcv_wnd (rcvvar s)) = false →
  receive_buffer p m = inr (Some b, m1) → calloc (io m1) = (a, w) →
  ProcessTCPPayload p cur_ts payload seq ln m = store_tail p s (rbm_rcv m1) a b payload ln seq (m1 <| io := w |>).
Proof.
  intros Es Hln E1 E2 Er Ec. unfold ProcessTCPPayload. rewrite (bind_inr _ _ _ _ _ (getS_run p m s Es)), E1, E2, (bind_inr _ _ _ _ _ Er). cbv beta iota zeta.
  unfold heap_alloc. unfold bind at 1. rewrite bind_gets, Ec. rewrite bind_modify. unfold ret at 1. cbv beta iota. rewrite bind_gets. rec_simpl. rewrite u32_id by lia.
  unfold store_tail, store. destruct (RB.RBPut (rbm_rcv m1) a b payload ln seq) as [[[r rbm1] b1]|]; [|done]. cbn [mbind option_bind]. unfold lift at 1. rewrite (bind_inr (ret _) _ _ _ _ eq_refl). cbv beta iota.
  unfold discards. destruct (state s) eqn:Est; try (rewrite (bind_inr (ret _) _ _ _ _ eq_refl); reflexivity).
  all: destruct (RB.RBRemove rbm1 b1 (u64 (RB.merged_len b1)) RB.AT_MTCP) as [[[r2 rbm2] b2]|]; reflexivity.
Qed.
(** The checks, for a segment that ends [e] bytes behind [h]. *)
Lemma window_checks h n wnd seq ln : is_u32 seq → 0 <= n < 1073741824 → 0 <= wnd < 1073741824 → let e := u32 (seq - h) + ln in n <= e <= n + wnd →
  TCP_SEQ_LT (seq ⊞ ln) (u32 (h + n)) = false ∧ TCP_SEQ_GT (seq ⊞ ln) (u32 (h + n) ⊞ wnd) = false.
Proof.
  intros Hseq Hn Hw e He. assert (seq ⊞ ln = u32 (h + e)) as -> by (rewrite (seq_as_dist h seq Hseq) at 1; rewrite u32_add_l; f_equal; unfold e; lia).
  rewrite u32_add_l, <- Z.add_assoc, SEQ_LT_dist, SEQ_GT_dist by lia. split; apply Z.ltb_ge; lia.
Qed.

Lemma receiving_reported m m' p s b others all : receiving m p s b others all → reported m m' → receiving m' p s b others all.
Proof.
  intros [Es Eb Hok Hnc Ho En Ew He Hso] (es&sm&->&He'&Hsk). split; try done. intros i Hi. destruct (Hso i Hi) as [sk Ek]. destruct (Hsk i sk Ek) as [ev E]. by eexists.
Qed.
(** The result, with the event that an established stream raises. *)
Lemma result_run m p s (moved : bool) : streams m !! p = Some s → events_ok m → (∀ i, socket s = Some i → is_Some (smap m !! i)) →
  ∃ m', (if negb moved then ret 0 else when (st_eqb (state s) TCP_ST_ESTABLISHED) (RaiseReadEvent p) ;;; ret 1) m = inr (if moved then 1 else 0, m')
    ∧ reported m m' ∧ (moved = true → state s = TCP_ST_ESTABLISHED → ∀ i, socket s = Some i → notified m m' i).
Proof.
  intros Es He Hso. destruct moved; cbn [negb]; [|exists m; split; [done|]; split; [by apply reported_refl|done]].
  destruct (st_eqb (state s) TCP_ST_ESTABLISHED) eqn:Est; cbn [when].
  - destruct (RaiseReadEvent_run m p s Es He Hso) as (m'&E&R&Hn). rewrite (bind_inr _ _ _ _ _ E). by exists m'.
  - exists m. split; [done|]. split; [by apply reported_refl|]. intros _ E. by rewrite E in Est.
Qed.

(** What the calls of the application depend on, but for pending events. *)
Definition undisturbed m m' : Prop :=
  stopping m' = stopping m ∧ CONFIG m' = CONFIG m ∧ ackq m' = ackq m ∧ sendq m' = sendq m
  ∧ ∀ i sk, smap m !! i = Some sk → ∃ ev, smap m' !! i = Some (sk <| EQ.sock_events := ev |>).

(** The data of a segment at [seq] is in the buffer of the stream [p], which had
    the buffer [b]; [r] is the result. *)
Definition stored m p s b (others payload : list Z) seq (r : Z) m' : Prop :=
  let ln := Z.of_nat (length payload) in let o := u32 (seq - RB.head_seq b) in
  let moved := (o <=? RB.merged_len b) && (RB.merged_len b <? o + ln) in
  r = (if moved then 1 else 0) ∧ ∃ b' all' n, gapless (RB.overwrite (RB.rb_byte b) o payload) n
    ∧ (let d := if discards s then n else 0 in
       (∀ i, 0 <= i → RB.rb_byte b' i = RB.overwrite (RB.rb_byte b) o payload (i + d)) ∧ RB.merged_len b' = n - d)
    ∧ receiving m' p (received_stream s b' (u32 (RB.head_seq b + n))) b' others all'
    ∧ streams m' = <[p := received_stream s b' (u32 (RB.head_seq b + n))]> (streams m) ∧ undisturbed m m'
    ∧ (moved = true → state s = TCP_ST_ESTABLISHED → ∀ i, socket s = Some i → notified m m' i).
Lemma store_tail_run m p s b others all payload seq a : streams m !! p = Some s → RB.rb_ok b → RB.not_calloc b →
  RB.rbm_owns (rbm_rcv m) ((RB.faddr <$> RB.fctx b) ++ others) all → rcv_nxt s = u32 (RB.head_seq b + RB.merged_len b) → events_ok m → (∀ i, socket s = Some i → is_Some (smap m !! i)) →
  a ≠ 0 → a ∉ all → Z.of_nat (length all) + 1 < 2147483646 → is_u32 seq → payload ≠ [] → let ln := Z.of_nat (length payload) in
  RB.merged_len b <= u32 (seq - RB.head_seq b) + ln <= RB.rsize b →
  ∃ r m', store_tail p s (rbm_rcv m) (Some a) b payload ln seq m = inr (r, m') ∧ stored m p s b others payload seq r m' ∧ io m' = io m.
Proof.
  intros Es Hok Hnc Ho En He Hso Ha Hna Hall Hseq Hne ln Hfit. pose proof (RB.ok_size _ Hok). set (o := u32 (seq - RB.head_seq b)) in *.
  assert (0 < ln) by (destruct payload; [done|unfold ln; simpl; lia]). pose proof (u32_range (seq - RB.head_seq b)). unfold store_tail.
  destruct (store_run (rbm_rcv m) a (discards s) b payload ln seq others all Hok Hnc Ho Ha Hna Hall Hseq eq_refl ltac:(lia) (proj2 Hfit)) as (rbm'&b'&all'&n&Est&Hok'&Hnc'&Ho'&_&Hg&Hn&Hd).
  fold o in Hg, Hd. set (d := if discards s then n else 0) in *. destruct Hd as (Hby&Hh'&Hm'&Hsz'). rewrite Est. unfold lift at 1. rewrite (bind_inr (ret _) _ _ _ _ eq_refl). cbv beta iota. rewrite bind_modify.
  unfold modRcv. erewrite (bind_inr (modS _ _)); [|apply modS_run; exact Es]. cbv zeta. erewrite (bind_inr (modS _ _)); [|apply modS_run; simpl; apply lookup_insert_eq].
  pose proof (merged_bounds _ Hok'). rewrite (u32_id (RB.rsize b' - _)) by lia.
  assert (u32 (RB.head_seq b' + RB.merged_len b') = u32 (RB.head_seq b + n)) as -> by (rewrite Hh', Hm', u32_add_l; f_equal; lia).
  rewrite En, SEQ_LEQ_dist by (pose proof (merged_bounds _ Hok); destruct Hg; lia).
  destruct (gapless_overwrite (RB.rb_byte b) o payload (RB.merged_len b) n (gapless_merged b Hok) ltac:(lia) Hg) as (G1&G2&G3). fold ln in G2, G3.
  set (moved := (o <=? RB.merged_len b) && (RB.merged_len b <? o + ln)). assert ((n <=? RB.merged_len b) = negb moved) as ->.
  { unfold moved. destruct (Z.leb_spec o (RB.merged_len b)), (Z.ltb_spec (RB.merged_len b) (o + ln)), (Z.leb_spec n (RB.merged_len b)); cbn [andb negb]; try done; lia. }
  set (s' := received_stream s b' (u32 (RB.head_seq b + n))).
  match goal with |- context [_ ?x = inr _] => match x with set_field _ _ _ => set (m1 := x) end end.
  assert (streams m1 = <[p := s']> (streams m)) as Es1 by (unfold m1; rec_simpl; by rewrite insert_insert_eq).
  assert (receiving m1 p s' b' others all') as Hrc1.
  { split; try done; [by rewrite Es1, lookup_insert_eq|]. unfold s', received_stream. rec_simpl. rewrite Hh', Hm', u32_add_l. f_equal. lia. }
  destruct (result_run m1 p s' moved (rc_stream _ _ _ _ _ _ Hrc1) He Hso) as (m'&E&R&Hnot). pose proof R as (es&sm&Em'&_&Hsk). exists (if moved then 1 else 0), m'. split; [exact E|]. split; [|by rewrite Em'].
  split; [done|]. exists b', all', n. split; [done|]. split; [by split|]. split; [by apply (receiving_reported m1)|]. split; [by rewrite Em'|]. split; [|exact Hnot]. rewrite Em'. done.
Qed.

(** A segment that fits behind the first unread byte and does not end
    before the receive point is stored by [ProcessTCPPayload] at its place,
    whatever it overlaps, in order or not.  The receive point then is behind the
    last byte without a gap and the window is what is free; the result is 1
    exactly when the segment closed the gap, and then the application of an
    established stream is told.  A stream whose application has closed throws
    the bytes without a gap away.  No other stream is touched, and the stream
    can receive again. *)
Theorem payload_stored m p s b others all cur_ts payload seq a w :
  receiving m p s b others all → calloc (io m) = (Some a, w) → a ≠ 0 → a ∉ all → Z.of_nat (length all) + 1 < 2147483646 →
  is_u32 seq → payload ≠ [] → let ln := Z.of_nat (length payload) in RB.merged_len b <= u32 (seq - RB.head_seq b) + ln <= RB.rsize b →
  ∃ r m', ProcessTCPPayload p cur_ts payload seq ln m = inr (r, m') ∧ stored m p s b others payload seq r m' ∧ io m' = w.
Proof.
  intros [Es Eb Hok Hnc Ho En Ew He Hso] Ec Ha Hna Hall Hseq Hne ln Hfit. pose proof (RB.ok_size _ Hok). pose proof (merged_bounds _ Hok). pose proof (u32_range (seq - RB.head_seq b)).
  destruct (window_checks (RB.head_seq b) (RB.merged_len b) (RB.rsize b - RB.merged_len b) seq ln Hseq ltac:(lia) ltac:(lia) ltac:(lia)) as [C1 C2].
  rewrite (ProcessTCPPayload_tail m m p s b cur_ts payload seq ln (Some a) w Es); [|lia|by rewrite En|by rewrite En, Ew| |done].
  - set (mw := m <| io := w |>). destruct (store_tail_run mw p s b others all payload seq a Es Hok Hnc Ho En He Hso Ha Hna Hall Hseq Hne Hfit) as (r&m'&E&Hs&Eio).
    exists r, m'. split; [exact E|]. split; [exact Hs|exact Eio].
  - unfold receive_buffer. by rewrite (bind_inr _ _ _ _ _ (getS_run p m s Es)), Eb.
Qed.

(** ** The first segment *)

(** Nothing has arrived for the stream [p], and there is memory for its buffer. *)
Record awaiting m (p : Z) (s : tcp_stream) (others all : list Z) : Prop := {
  aw_stream : streams m !! p = Some s;
  aw_none : rcvbuf (rcvvar s) = None;
  aw_nxt : rcv_nxt s = irs (rcvvar s) ⊞ 1;
  aw_wnd : 0 <= rcv_wnd (rcvvar s) < 1073741824;
  aw_owns : RB.rbm_owns (rbm_rcv m) others all;
  aw_size : 0 < RB.chunk_size (rbm_rcv m) < 1073741824;
  aw_chunk : ∃ l, pool_free (RB.mp (rbm_rcv m)) l ∧ l ≠ [];
  aw_events : events_ok m;
  aw_socket : ∀ i, socket s = Some i → is_Some (smap m !! i)
}.
(** The first segment of a stream that fits the window and a buffer:
    [ProcessTCPPayload] makes the buffer, empty, and stores the data in it. *)
Theorem first_payload_stored m p s others all cur_ts payload seq a0 w0 a w :
  awaiting m p s others all → calloc (io m) = (Some a0, w0) → calloc w0 = (Some a, w) → Z.of_nat (length (stale_bytes w0 (RB.chunk_size (rbm_rcv m)))) = RB.chunk_size (rbm_rcv m) →
  a ≠ 0 → a ∉ all → Z.of_nat (length all) + 1 < 2147483646 → is_u32 seq → payload ≠ [] →
  let ln := Z.of_nat (length payload) in u32 (seq - (irs (rcvvar s) ⊞ 1)) + ln <= Z.min (rcv_wnd (rcvvar s)) (RB.chunk_size (rbm_rcv m)) →
  ∃ b m1 r m', RB.head_seq b = irs (rcvvar s) ⊞ 1 ∧ RB.merged_len b = 0 ∧ RB.rsize b = RB.chunk_size (rbm_rcv m) ∧ (∀ i, RB.rb_byte b i = None)
    ∧ receive_buffer p m = inr (Some b, m1)
    ∧ ProcessTCPPayload p cur_ts payload seq ln m = inr (r, m') ∧ stored m1 p (s <| rcvvar := (rcvvar s) <| rcvbuf := Some b |> |>) b others payload seq r m' ∧ io m' = w.
Proof.
  intros [Es Eb En Hw Ho Hsz Hc He Hso] Ec0 Ec Hst Ha Hna Hall Hseq Hne ln Hfit. set (h := irs (rcvvar s) ⊞ 1) in *. pose proof (u32_range (irs (rcvvar s) + 1)). pose proof (u32_range (seq - h)).
  destruct (RB.RBInit_ok (rbm_rcv m) (stale_bytes w0 (RB.chunk_size (rbm_rcv m))) h ltac:(done) Hsz Hst Hc) as (b&rbm'&Ei&Hok&Hfc&Hh&_&F1&F2&F3&_).
  assert (RB.merged_len b = 0) as Hm by (by rewrite (RB.ok_merged _ Hok), Hfc).
  assert (RB.rsize b = RB.chunk_size (rbm_rcv m)) as Hrs.
  { unfold RB.RBInit in Ei. cbn [negb] in Ei. destruct (pool_alloc _) as [[x|] mp']; [|done]. injection Ei as <- <-. cbn. apply s32_id. lia. }
  set (s1 := s <| rcvvar := (rcvvar s) <| rcvbuf := Some b |> |>). set (m1 := m <| io := w0 |> <| rbm_rcv := rbm' |> <| streams := <[p := s1]> (streams m) |>).
  assert (receive_buffer p m = inr (Some b, m1)) as Er.
  { unfold receive_buffer. rewrite (bind_inr _ _ _ _ _ (getS_run p m s Es)), Eb. unfold heap_alloc. unfold bind at 1. rewrite bind_gets, Ec0. rewrite bind_modify. unfold ret at 1. cbv beta iota.
    rewrite !bind_gets. rec_simpl. rewrite bool_decide_eq_true_2 by (by eexists). fold h. rewrite Ei, bind_modify. unfold modRcv. erewrite (bind_inr (modS _ _)); [|apply modS_run; exact Es]. reflexivity. }
  exists b, m1. assert (streams m1 !! p = Some s1) as Es1 by apply lookup_insert_eq.
  destruct (window_checks h 0 (rcv_wnd (rcvvar s)) seq ln Hseq ltac:(lia) Hw ltac:(lia)) as [C1 C2]. rewrite Z.add_0_r, (u32_id h) in C1, C2 by done.
  assert (RB.rbm_owns (rbm_rcv m1) ((RB.faddr <$> RB.fctx b) ++ others) all) as Ho1.
  { rewrite Hfc. destruct Ho as (lp&lq&lqi&?&?&?&?). exists lp, lq, lqi. unfold m1. rec_simpl. by rewrite F1, F2, F3. }
  set (mw := m1 <| io := w |>). destruct (store_tail_run mw p s1 b others all payload seq a Es1 Hok ltac:(unfold RB.not_calloc; by rewrite Hfc) Ho1) as (r&m'&E&Hs&Eio); try done.
  { rewrite Hh, Hm, Z.add_0_r, u32_id by done. exact En. }
  { rewrite Hh, Hm, Hrs. lia. }
  exists r, m'. split; [done|]. split; [done|]. split; [done|]. split; [intros i; unfold RB.rb_byte; by rewrite Hfc|]. split; [done|]. split; [|split; [exact Hs|exact Eio]].
  rewrite (ProcessTCPPayload_tail m m1 p s b cur_ts payload seq ln (Some a) w Es); [exact E|lia|by rewrite En|by rewrite En|exact Er|exact Ec].
Qed.

(** ** Every segment *)

(** What a stream can take: the sequence number of the first unread byte, the
    number of bytes without a gap, the room, and the bytes. *)
Record window := mk_window { wn_head : Z; wn_len : Z; wn_size : Z; wn_bytes : Z → option Z }.
Definition window_of (b : RB.tcp_ring_buffer) : window := mk_window (RB.head_seq b) (RB.merged_len b) (RB.rsize b) (RB.rb_byte b).
(** With a buffer or before the first segment. *)
Definition ready m p s (v : window) others all : Prop :=
  (∃ b, receiving m p s b others all ∧ v = window_of b)
  ∨ awaiting m p s others all ∧ v = mk_window (irs (rcvvar s) ⊞ 1) 0 (Z.min (rcv_wnd (rcvvar s)) (RB.chunk_size (rbm_rcv m))) (λ _, None).
(** The heap has memory that is not in use, and a chunk holds bytes. *)
Definition memory (w : IO) (all : list Z) (chunk : Z) : Prop :=
  ∃ a0 w0 a w1, calloc w = (Some a0, w0) ∧ calloc w0 = (Some a, w1) ∧ a0 ≠ 0 ∧ a ≠ 0 ∧ (a0 ∉ all) ∧ (a ∉ all)
    ∧ Z.of_nat (length all) + 1 < 2147483646 ∧ Z.of_nat (length (stale_bytes w0 chunk)) = chunk.
Definition within (v : window) (seq ln : Z) : Prop := wn_len v <= u32 (seq - wn_head v) + ln <= wn_size v.
Lemma gapless_ext g g' n : (∀ i, g i = g' i) → gapless g n → gapless g' n.
Proof. intros E (Hn&Hg&Hend). split; [done|]. split; [intros i Hi; rewrite <- E; by apply Hg|by rewrite <- E]. Qed.
Lemma overwrite_ext g g' o bs i : (∀ i, g i = g' i) → RB.overwrite g o bs i = RB.overwrite g' o bs i.
Proof. intros E. unfold RB.overwrite. by rewrite E. Qed.

(** A segment within the window is stored, the first one as well. *)
Lemma payload_taken m p s v others all cur_ts payload seq :
  ready m p s v others all → memory (io m) all (RB.chunk_size (rbm_rcv m)) → discards s = false → is_u32 seq → payload ≠ [] →
  let ln := Z.of_nat (length payload) in within v seq ln → let bytes := RB.overwrite (wn_bytes v) (u32 (seq - wn_head v)) payload in
  ∃ r m' s' b' all' n, ProcessTCPPayload p cur_ts payload seq ln m = inr (r, m') ∧ receiving m' p s' b' others all' ∧ gapless bytes n
    ∧ (∀ i, 0 <= i → RB.rb_byte b' i = bytes i) ∧ RB.merged_len b' = n ∧ rcv_nxt s' = u32 (wn_head v + n) ∧ state s' = state s.
Proof.
  intros Hv (a0&w0&a&w1&Ec0&Ec&Ha0&Ha&Hna0&Hna&Hall&Hst) Hd Hseq Hne ln Hfit bytes.
  destruct Hv as [(b&Hrc&->)|[Haw ->]]; cbn [window_of wn_head wn_len wn_size wn_bytes] in *; unfold within in Hfit; cbn [window_of wn_head wn_len wn_size wn_bytes] in Hfit.
  - destruct (payload_stored m p s b others all cur_ts payload seq a0 w0 Hrc Ec0 Ha0 Hna0 Hall Hseq Hne Hfit) as (r&m'&E&(_&b'&all'&n&Hg&Hby&Hrc'&_)&_).
    rewrite Hd in Hby. destruct Hby as [Hby Hm]. exists r, m', (received_stream s b' (u32 (RB.head_seq b + n))), b', all', n. split_and!; try done; [|lia]. intros i Hi. by rewrite Hby, Z.add_0_r.
  - destruct (first_payload_stored m p s others all cur_ts payload seq a0 w0 a w1 Haw Ec0 Ec Hst Ha Hna Hall Hseq Hne (proj2 Hfit)) as (b&m1&r&m'&Hh&Hm0&_&Hb0&_&E&(_&b'&all'&n&Hg&Hby&Hrc'&_)&_).
    change (discards (s <| rcvvar := _ |>)) with (discards s) in Hby. rewrite Hd, Hh in *. destruct Hby as [Hby Hm]. eexists r, m', _, b', all', n. split; [exact E|]. split; [exact Hrc'|]. split_and!; try done; [| |lia].
    + eapply gapless_ext; [|exact Hg]. intros i. by apply overwrite_ext.
    + intros i Hi. rewrite Hby, Z.add_0_r by done. by apply overwrite_ext.
Qed.

(** ** To the application *)
Context (num_cpus cpu : Z).
Hypothesis cpu_ok : 0 <= cpu < num_cpus.

End Payload.

Module PayloadDemo.
Import Demo CallsDemo DataDemo.
(** The connection of socket 5 with four bytes to read, a gap of six and two
    more. *)
Definition receiver (s : tcp_stream) : tcp_stream :=
  (in_use s) <| socket := Some 5 |> <| rcv_nxt := 104 |> <| rcvvar := (rcvvar s) <| rcvbuf := Some RB.demo_ready |> <| rcv_wnd := 12 |> |>.
Definition with_gap (m : mtcp_manager MemPool.mem_pool Z) : option (mtcp_manager MemPool.mem_pool Z) :=
  s ← streams m !! 4096;
  Some (m <| streams := <[4096 := receiver s]> (streams m) |> <| smap := <[5 := demo_socket]> (smap m) |>
          <| ackq := calls_queue [] |> <| rbm_rcv := RB.demo_rbm |> <| io := 200000 |>).
Lemma with_gap_receives : ∃ (m : mtcp_manager MemPool.mem_pool Z) s, demo_state demo_connected ≫= with_gap = Some m
  ∧ stream_socket m 5 demo_socket 4096 (receiver s) ∧ receiving m 4096 (receiver s) RB.demo_ready [] (RB.demo_contexts ++ [70000; 70016])
  ∧ state (receiver s) = TCP_ST_ESTABLISHED ∧ ackq m = calls_queue [] ∧ io m = 200000.
Proof.
  destruct (demo_state demo_connected) as [m|] eqn:E; [|vm_compute in E; discriminate].
  assert ((max_concurrency (CONFIG m), stopping m, ep m, state <$> streams m !! 4096) = (8, false, 0, Some TCP_ST_ESTABLISHED)) as Em.
  { vm_compute in E. injection E as <-. vm_compute. reflexivity. }
  clear E. injection Em as H1 H2 H3 (s&Es&Hs)%fmap_Some. unfold with_gap. cbn [mbind option_bind]. rewrite Es. eexists _, s. split; [reflexivity|].
  split; [|split; [|done]].
  - split; simpl; rewrite ?H1, ?H2, ?lookup_insert_eq; try done. by left.
  - split; simpl; rewrite ?lookup_insert_eq; try done; [by repeat constructor|exact demo_fragments|by left|]. intros i [= <-]. rewrite lookup_insert_eq. by eexists.
Qed.
End PayloadDemo.
