(* ===== verification/Receive.v ===== *)
(** * From the segment to the application

    [ProcessTCPPacket] on a segment with data for an established stream: it is
    found, checked, stored and acknowledged. *)
From S2P Require Import Prelude SeqNum CircQueue MemPool RingBuffer SendBuffer FlowHash AddrPool EventQueue TcpTypes NetOut TcpLists TcpInv TcpOptions TcpStream TcpFrame Post TcpOut.
From S2P Require Import Checksum Timer TcpIn App Socket Pipe Epoll Api Stack AppCalls AppData Payload.

Section Receive.
Context {P IO : Type} `{ChunkPool P, World IO}.
Local Abbreviation mtcp := (mtcp_manager P IO).
Local Abbreviation M := (M P IO).
Implicit Types (m : mtcp) (s : tcp_stream) (g : segment).

(** ** What the steps around the payload leave alone *)

(** The receiving side of a stream. *)
Definition side s := (rcvbuf (rcvvar s), rcv_nxt s, rcv_wnd (rcvvar s), socket s, state s, irs (rcvvar s)).
(** Events can still be reported. *)
Definition hears m m' : Prop := events_ok m → events_ok m' ∧ ∀ i, is_Some (smap m !! i) → is_Some (smap m' !! i).
Definition hearing {A} (c : M A) : Prop := ∀ m a m', c m = inr (a, m') → hears m m'.
Lemma hears_refl m : hears m m.
Proof. done. Qed.
Lemma hears_trans m1 m2 m3 : hears m1 m2 → hears m2 m3 → hears m1 m3.
Proof. intros H1 H2 He. destruct (H1 He) as [He2 Hs2]. destruct (H2 He2) as [He3 Hs3]. auto. Qed.
Lemma hearing_bind {A B} (c : M A) (k : A → M B) : hearing c → (∀ a, hearing (k a)) → hearing (bind c k).
Proof.
  intros Hc Hk m b m'' E. unfold bind in E. destruct (c m) as [|[a m']] eqn:Ec; [done|]. eapply hears_trans; [by apply (Hc m a)|by apply (Hk a m' b)].
Qed.
Lemma hearing_stays {A} (c : M A) : stays ep c → stays epolls c → stays smap c → hearing c.
Proof. intros H1 H2 H3 m a m' E. unfold hears, events_ok. by rewrite (H1 _ _ _ E), (H2 _ _ _ E), (H3 _ _ _ E). Qed.
Lemma hearing_when (b : bool) (c : M unit) : hearing c → hearing (when b c).
Proof. intros Hc. destruct b; [done|]. by intros m a m' [= <- <-]. Qed.
Lemma hearing_raise i event : event ≠ 0 → hearing (raise i event).
Proof.
  intros Hv m [] m' E He. assert (is_Some (smap m !! i)) as Hs.
  { unfold raise, AddEpollEvent, add_event, getSock, bind, gets, lift, ret, fail in E. destruct (smap m !! i); [by eexists|done]. }
  destruct (add_user_event_reports EQ.MTCP_EVENT_QUEUE i event m He Hs Hv) as (m2&E2&es&sm&->&He2&Hsk). change (raise i event m = inr (tt, m <| epolls := es |> <| smap := sm |>)) in E2. rewrite E in E2. injection E2 as ->.
  split; [done|]. intros j [sk Ej]. destruct (Hsk j sk Ej) as [ev Ee]. rec_simpl. by eexists.
Qed.
Lemma hearing_match_opt {A B} (o : option A) (c : A → M B) (d : M B) : (∀ a, hearing (c a)) → hearing d → hearing (match o with Some a => c a | None => d end).
Proof. intros. by destruct o. Qed.
Lemma hearing_RaiseWriteEvent p : hearing (RaiseWriteEvent p : M unit).
Proof.
  unfold RaiseWriteEvent. apply hearing_bind; [by apply hearing_stays; staying|]. intros s. apply hearing_match_opt; [|by apply hearing_stays; staying]. intros i.
  apply hearing_bind; [by apply hearing_stays; staying|]. intros r. by apply hearing_when, hearing_raise.
Qed.
End Receive.

Ltac hearing_step :=
  match goal with
  | |- hearing (RaiseWriteEvent _) => apply hearing_RaiseWriteEvent
  | |- hearing _ => solve [apply hearing_stays; staying]
  | |- hearing (bind _ _) => apply hearing_bind; [|intros ?]
  | |- hearing (when _ _) => apply hearing_when
  | |- hearing (match ?x with _ => _ end) => destruct x
  | |- hearing ?c => unfold_head c
  end.
Ltac hearing := repeat (hearing_step; cbv beta zeta).

Section Receive.
Context {P IO : Type} `{ChunkPool P, World IO}.
Local Abbreviation mtcp := (mtcp_manager P IO).
Local Abbreviation M := (M P IO).
Implicit Types (m : mtcp) (s : tcp_stream) (g : segment).

Lemma EstimateRTT_side s mrtt : rcvbuf (EstimateRTT s mrtt) = rcvbuf (rcvvar s) ∧ rcv_wnd (EstimateRTT s mrtt) = rcv_wnd (rcvvar s)
  ∧ irs (EstimateRTT s mrtt) = irs (rcvvar s).
Proof. unfold EstimateRTT. cbv zeta. by repeat case_match. Qed.
Lemma fixes_EstimateRTT p q f : fixes (λ s, (side s, on_ack_list (sndvar s))) p (modS q (λ s, s <| rcvvar := EstimateRTT s (f s) |>) : M unit).
Proof. apply fixes_modS. intros s. unfold side. rec_simpl. by destruct (EstimateRTT_side s (f s)) as (->&->&->). Qed.
Hint Resolve fixes_EstimateRTT : tcp.
Lemma hearing_receive_ack p ts g : hearing (receive_ack p ts g : M unit).
Proof. hearing. Qed.
Lemma fixes_receive_ack_side p ts g : fixes (λ s, (side s, on_ack_list (sndvar s))) p (receive_ack p ts g : M unit).
Proof. fixing. Qed.
Lemma fixes_receive_ack_only p ts g : fixes side p (receive_ack p ts g : M unit).
Proof. intros m a m' E s' Hs'. destruct (fixes_receive_ack_side p ts g m a m' E s' Hs') as (s&Hs&[= H1 H2 H3 H4 H5 H6 _]). exists s. split; [done|]. unfold side. congruence. Qed.
Lemma stays_receive_ack p ts g : stays rbm_rcv (receive_ack p ts g : M unit).
Proof. staying. Qed.

Lemma ready_stable m m' p s s' v others all : ready m p s v others all → streams m' !! p = Some s' → side s' = side s → rbm_rcv m' = rbm_rcv m → hears m m' → ready m' p s' v others all.
Proof.
  intros Hv Es' Hside Er Hh. injection Hside as E1 E2 E3 E4 E5 E6. destruct Hv as [(b&[Es Eb Hok Hnc Ho En Ew He Hso]&->)|[[Es Eb En Hw Ho Hsz Hc He Hso] ->]]; destruct (Hh He) as [He' Hso'].
  - left. exists b. split; [|done]. split; [done|congruence|done|done|by rewrite Er|congruence|congruence|done|]. intros i Hi. apply Hso', Hso. congruence.
  - right. rewrite E3, E6, Er. split; [|done]. split; rewrite ?Er, ?E3; try done; try congruence. intros i Hi. apply Hso', Hso. congruence.
Qed.
Lemma ready_receiving m p s b others all : ready m p s (window_of b) others all → rcvbuf (rcvvar s) = Some b → receiving m p s b others all.
Proof.
  intros [(b2&Hrc&_)|[Haw _]] Eb; [|by rewrite (aw_none _ _ _ _ _ Haw) in Eb]. pose proof (rc_buf _ _ _ _ _ _ Hrc) as E. rewrite Eb in E. by injection E as <-.
Qed.

(** A step that has nothing to do with receiving. *)
Section Steps.
Context (p : Z) (m0 : mtcp) (others all : list Z).
Definition held m s v : Prop := at_stream None p m0 m s ∧ ready m p s v others all.
Lemma held_step {A} (c : M A) m s v : held m s v → keeps false None p c → fixes side p c → stays rbm_rcv c → stays io c → hearing c →
  ends c (λ _ m', ∃ s', held m' s' v ∧ side s' = side s ∧ io m' = io m ∧ rbm_rcv m' = rbm_rcv m) m.
Proof.
  intros [Ha Hv] Hk Hf Hr Hio Hh. pose proof (ends_touch false None p m0 side c (λ a m', c m = inr (a, m') → ∃ s', held m' s' v ∧ side s' = side s ∧ io m' = io m ∧ rbm_rcv m' = rbm_rcv m) m s Ha Hk Hf) as Hend.
  unfold ends in *. destruct (c m) as [f|[a m']] eqn:Ec; [by apply Hend|]. apply Hend; [|done]. clear Hend. intros a' m2 s2 Ha2 Hs2 [= <- <-].
  exists s2. split; [|split; [done|]; split; [by apply (Hio m a)|by apply (Hr m a)]]. split; [done|]. apply (ready_stable m m' p s s2); [done|apply Ha2|done|by apply (Hr m a)|by apply (Hh m a)].
Qed.
Lemma held_pass {A B} (c : M A) (k : A → M B) Q m s v : held m s v → keeps false None p c → fixes side p c → stays rbm_rcv c → stays io c → hearing c →
  (∀ a m' s', held m' s' v → side s' = side s → io m' = io m → rbm_rcv m' = rbm_rcv m → ends (k a) Q m') → ends (bind c k) Q m.
Proof.
  intros Hh Hk Hf Hr Hio He HQ. apply ends_bind. eapply ends_mono; [by apply (held_step c m s v)|]. intros a m' (s'&?&?&?&?). by apply (HQ a m' s').
Qed.
Lemma held_getS {B} (k : tcp_stream → M B) Q m s v : held m s v → ends (k s) Q m → ends (bind (getS p) k) Q m.
Proof. intros [Ha _]. by apply (ends_getS None p m0). Qed.

(** ** The checks *)

(** The timestamp, where one is expected, is not older than the last one. *)
Definition timely g s : Prop :=
  saw_timestamp s = true → ∃ v r, Opt.ParseTCPTimestamp (g_tcpopt g) (g_optlen g) = Opt.Parsed (Some (v, r)) ∧ TCP_SEQ_LT v (ts_recent (rcvvar s)) = false.
Lemma check_timestamp_passes ts g m s v : held m s v → timely g s →
  ends (check_timestamp p ts g) (λ r m', r = true ∧ ∃ s', held m' s' v ∧ side s' = side s ∧ io m' = io m ∧ rbm_rcv m' = rbm_rcv m) m.
Proof.
  intros Hh Ht. unfold check_timestamp. eapply held_getS; [exact Hh|]. destruct (negb (g_rst g) && saw_timestamp s) eqn:E; [|split; [done|]; by exists s].
  apply andb_true_iff in E as [_ E]. destruct (Ht E) as (tv&r&Ep&El). unfold ParseTCPTimestamp. rewrite Ep. cbn [run_parse]. apply (ends_gets (λ _, Some (tv, r))). rewrite El.
  eapply held_pass; [exact Hh|solve [keep]|solve [fixing]|solve [staying]|solve [staying]|solve [hearing]|]. intros [] m1 s1 H1 E1 Eio1 Er1.
  eapply held_pass; [exact H1|solve [keep]|solve [fixing]|solve [staying]|solve [staying]|solve [hearing]|]. intros [] m2 s2 H2 E2 Eio2 Er2.
  split; [done|]. exists s2. split; [done|]. split_and!; congruence.
Qed.
Lemma ready_between m s v seq ln : ready m p s v others all → is_u32 seq → within v seq ln → TCP_SEQ_BETWEEN (seq ⊞ ln) (rcv_nxt s) (rcv_nxt s ⊞ rcv_wnd (rcvvar s)) = true.
Proof.
  intros Hv Hseq Hfit. assert (∃ h n wnd, rcv_nxt s = u32 (h + n) ∧ rcv_wnd (rcvvar s) = wnd ∧ 0 <= n < 1073741824 ∧ 0 <= wnd < 1073741824 ∧ n <= u32 (seq - h) + ln <= n + wnd) as (h&n&wnd&-> & -> &Hn&Hw&Hb).
  { destruct Hv as [(b&[Es Eb Hok Hnc Ho En Ew He Hso]&->)|[[Es Eb En Hw Ho Hsz Hc He Hso] ->]]; unfold within in Hfit; cbn [window_of wn_head wn_len wn_size wn_bytes] in Hfit.
    - pose proof (RB.ok_size _ Hok). pose proof (merged_bounds _ Hok). exists (RB.head_seq b), (RB.merged_len b), (rcv_wnd (rcvvar s)). split_and!; try done; lia.
    - exists (irs (rcvvar s) ⊞ 1), 0, (rcv_wnd (rcvvar s)). rewrite Z.add_0_r, (u32_id (_ ⊞ _)) by apply u32_range. split_and!; try done; lia. }
  destruct (window_checks h n wnd seq ln Hseq Hn Hw Hb) as [C1 C2]. unfold TCP_SEQ_BETWEEN, TCP_SEQ_GEQ, TCP_SEQ_LEQ. unfold TCP_SEQ_LT in C1. unfold TCP_SEQ_GT in C2. apply andb_true_iff. split; lia.
Qed.
Lemma ValidateSequence_passes ts g m s v : held m s v → timely g s → is_u32 (g_seq g) → within v (g_seq g) (g_payloadlen g) →
  ends (ValidateSequence p ts g) (λ r m', r = true ∧ ∃ s', held m' s' v ∧ side s' = side s ∧ io m' = io m ∧ rbm_rcv m' = rbm_rcv m) m.
Proof.
  intros Hh Ht Hseq Hfit. unfold ValidateSequence. apply ends_bind. eapply ends_mono; [by apply check_timestamp_passes|]. intros r m1 (->&s1&H1&E1&Eio1&Er1). cbn [negb].
  eapply held_getS; [exact H1|]. rewrite (ready_between m1 s1 v (g_seq g) (g_payloadlen g)); [|apply H1|done|done]. cbn [negb]. split; [done|]. by exists s1.
Qed.
End Steps.

Lemma bind_ends {A B} (c : M A) (k : A → M B) m b m' : bind c k m = inr (b, m') → ∃ a m1, c m = inr (a, m1) ∧ k a m1 = inr (b, m').
Proof. unfold bind. destruct (c m) as [|[a m1]]; [done|]. by exists a, m1. Qed.
Lemma modD_streams d f m a m' : modD d f m = inr (a, m') → streams m' = streams m.
Proof. apply (stays_modD streams d f ltac:(done)). Qed.
Lemma EnqueueACK_listed p ts opt m a m' s' : EnqueueACK p ts opt m = inr (a, m') → streams m' !! p = Some s' → on_ack_list (sndvar s') = true.
Proof.
  intros E Hs'. unfold EnqueueACK in E. apply bind_ends in E as (s&m1&_&E). apply bind_ends in E as (u&m2&_&E). unfold AddtoACKList in E.
  apply bind_ends in E as (d&m3&_&E). apply bind_ends in E as (s3&m4&E3&E). destruct (on_ack_list (sndvar s3)) eqn:Eon; cbn [negb when] in E.
  - injection E as <- <-. unfold getS, bind, gets, lift, ret in E3. destruct (streams m3 !! p) eqn:Es3; [|done]. injection E3 as <- <-. congruence.
  - apply bind_ends in E as (u'&m5&E5&E). rewrite (modD_streams _ _ _ _ _ E) in Hs'. unfold modSnd, modS in E5. apply bind_ends in E5 as (s5&m6&_&E5).
    injection E5 as <- <-. rec_simpl. rewrite lookup_insert_eq in Hs'. by injection Hs' as <-.
Qed.

(** ** The segment *)
Record data_segment g : Prop := {
  ds_syn : g_syn g = false; ds_rst : g_rst g = false; ds_fin : g_fin g = false;
  ds_seq : is_u32 (g_seq g);
  ds_data : g_payload g ≠ [];
  ds_len : g_payloadlen g = Z.of_nat (length (g_payload g))
}.
(** The stream [p] of [m0], which could take [v], has taken the data of [g]. *)
Definition taken p m0 (v : window) (others : list Z) g m : Prop :=
  let bytes := RB.overwrite (wn_bytes v) (u32 (g_seq g - wn_head v)) (g_payload g) in
  ∃ s' b' all' n, at_stream None p m0 m s' ∧ receiving m p s' b' others all' ∧ state s' = TCP_ST_ESTABLISHED
    ∧ gapless bytes n ∧ RB.merged_len b' = n ∧ rcv_nxt s' = u32 (wn_head v + n) ∧ (∀ i, 0 <= i → RB.rb_byte b' i = bytes i)
    ∧ on_ack_list (sndvar s') = true.

Section Segment.
Context (p : Z) (m0 : mtcp) (others all : list Z).
(** A step after the data was stored. *)
Lemma stored_step {A} (c : M A) m s b all' : at_stream None p m0 m s → receiving m p s b others all' →
  keeps false None p c → fixes side p c → stays rbm_rcv c → stays io c → hearing c →
  ends c (λ _ m', ∃ s', at_stream None p m0 m' s' ∧ receiving m' p s' b others all' ∧ side s' = side s) m.
Proof.
  intros Hat Hrc Hk Hf Hr Hio Hh. eapply ends_mono; [apply (held_step p m0 others all' c m s (window_of b)); try done; split; [done|]; left; by exists b|].
  intros _ m' (s'&[Hat' Hv]&Hside&_). exists s'. split; [done|]. split; [|done]. apply ready_receiving; [done|]. pose proof (rc_buf _ _ _ _ _ _ Hrc). injection Hside as E _. congruence.
Qed.
Lemma receive_payload_takes ts g m s v : held p m0 others all m s v → state s = TCP_ST_ESTABLISHED → memory (io m) all (RB.chunk_size (rbm_rcv m)) →
  data_segment g → within v (g_seq g) (g_payloadlen g) → ends (receive_payload p ts g) (λ _ m', taken p m0 v others g m') m.
Proof.
  intros [Hat Hv] Hst Hmem [_ _ _ Hseq Hne Hlen] Hfit. rewrite Hlen in Hfit. assert (discards s = false) as Ed by (unfold discards; by rewrite Hst).
  destruct (payload_taken m p s v others all ts (g_payload g) (g_seq g) Hv Hmem Ed Hseq Hne Hfit) as (r&m1&s1&b'&all'&n&E&Hrc1&Hg&Hby&Hm&Hn&Hst1).
  unfold receive_payload. rewrite Hlen. destruct (Z.gtb_spec (Z.of_nat (length (g_payload g))) 0); [|destruct (g_payload g); [done|simpl in *; lia]]. cbn [when].
  assert (at_stream None p m0 m1 s1) as Hat1.
  { destruct Hat as (Hi&Hs&Ho). pose proof (keeps_ProcessTCPPayload false None p ts (g_payload g) (g_seq g) (Z.of_nat (length (g_payload g))) m Hi ltac:(by eexists)) as Hk.
    rewrite E in Hk. destruct Hk as (Hi1&_&Ho1). split; [done|]. split; [apply Hrc1|]. eapply others_trans; [exact Ho|done]. }
  apply ends_bind. unfold ends at 1. rewrite E. set (opt := if negb _ then _ else _).
  pose proof (stored_step (EnqueueACK p ts opt) m1 s1 b' all' Hat1 Hrc1 ltac:(keep) ltac:(fixing) ltac:(staying) ltac:(staying) ltac:(hearing)) as Hs. unfold ends in *.
  destruct (EnqueueACK p ts opt m1) as [f|[u m2]] eqn:E2; [done|]. destruct Hs as (s2&Hat2&Hrc2&Hside). injection Hside as _ F2 _ _ F5 _. exists s2, b', all', n. split_and!; try done; try congruence.
  eapply EnqueueACK_listed; [exact E2|apply Hat2].
Qed.
Lemma receive_ack_takes ts g v g' m : taken p m0 v others g m → ends (receive_ack p ts g') (λ _ m', taken p m0 v others g m') m.
Proof.
  intros (s&b'&all'&n&Hat&Hrc&Hst&Hg&Hm&Hn&Hby&Hon).
  pose proof (stored_step (receive_ack p ts g') m s b' all' Hat Hrc (keeps_receive_ack p ts g') (fixes_receive_ack_only p ts g') (stays_receive_ack p ts g') ltac:(staying) (hearing_receive_ack p ts g')) as Hs.
  unfold ends in *. destruct (receive_ack p ts g' m) as [f|[u m']] eqn:E; [done|]. destruct Hs as (s2&Hat2&Hrc2&Hside).
  destruct (fixes_receive_ack_side p ts g' m u m' E s2 ltac:(apply Hat2)) as (s1&Hs1&[= _ _ _ _ _ _ Hflag]). destruct Hat as (_&Hs0&_). rewrite Hs0 in Hs1. injection Hs1 as <-.
  injection Hside as _ F2 _ _ F5 _. exists s2, b', all', n. split_and!; try done; congruence.
Qed.

Lemma process_segment_takes ts g m s v : held p m0 others all m s v → state s = TCP_ST_ESTABLISHED → memory (io m) all (RB.chunk_size (rbm_rcv m)) →
  data_segment g → within v (g_seq g) (g_payloadlen g) → timely g s → ends (process_segment p ts g) (λ _ m', taken p m0 v others g m') m.
Proof.
  intros Hh Hst Hmem Hd Hfit Ht. pose proof Hd as [Hsyn Hrst Hfin Hseq _ _]. unfold process_segment. eapply held_getS; [exact Hh|]. rewrite Hst. cbn [st_num Z.ltb Z.compare].
  apply ends_bind. eapply ends_mono; [by apply (ValidateSequence_passes p m0 others all ts g m s v)|]. intros r m1 (->&s1&H1&E1&Eio1&Er1). cbn [negb].
  eapply held_pass; [exact H1|solve [keep]|solve [fixing]|solve [staying]|solve [staying]|solve [hearing]|]. intros [] m2 s2 H2 E2 Eio2 Er2.
  eapply held_pass; [exact H2|solve [keep]|solve [fixing]|solve [staying]|solve [staying]|solve [hearing]|]. intros [] m3 s3 H3 E3 Eio3 Er3.
  eapply held_pass; [exact H3|solve [keep]|solve [fixing]|solve [staying]|solve [staying]|solve [hearing]|]. intros [] m4 s4 H4 E4 Eio4 Er4.
  rewrite Hrst. cbn [when andb]. apply (ends_gets (λ _, tt)). eapply held_getS; [exact H4|]. apply (ends_gets (λ _, false)). unfold dispatch. eapply held_getS; [exact H4|].
  assert (side s4 = side s) as Es by congruence. injection Es as _ _ _ _ Est _. rewrite Est, Hst. unfold Handle_TCP_ST_ESTABLISHED. rewrite Hsyn.
  apply ends_bind. eapply ends_mono; [apply (receive_payload_takes ts g m4 s4 v); try done; [congruence|by rewrite Er4, Er3, Er2, Er1, Eio4, Eio3, Eio2, Eio1]|]. intros [] m5 H5. rewrite Hfin.
  destruct (g_ack g); cbn [when]; [|done]. apply ends_bind. eapply ends_mono; [by apply (receive_ack_takes ts g v g)|]. by intros [] m6 H6.
Qed.
End Segment.

(** ** The packet *)
Lemma search_finds m p s : inv None m → streams m !! p = Some s → FlowHash.StreamHTSearch (tcp_flow_table m) (flow_of s) = Some p.
Proof.
  intros Hi Hs. destruct (inv_flow _ _ Hi) as (F&HF&HFm). rewrite (ft_search_spec (tcp_flow_table m) F _ HF : FlowHash.StreamHTSearch _ (flow_of s) = _). apply HFm. by exists s.
Qed.
(** The checksum is right where the card does not check it. *)
Definition intact (ifidx : Z) (pkt : list Z) (ip_len : Z) g : Prop :=
  ioctl ifidx PKT_RX_TCP_CSUM = -1 → ∃ seg, tcp_bytes pkt ip_len = Some seg ∧ Checksum.TCPCalcChecksum seg (g_saddr g) (g_daddr g) = 0.

(** A packet with an intact data segment for an established stream, that
    fits the window, in order or not, and whose timestamp is not old:
    [ProcessTCPPacket] finds the stream and stores the data at its place in the
    receive buffer; the receive point is behind the last byte without a gap; an
    acknowledgment is on its way; the stream can receive again and the other
    streams are as they were.  No list is corrupted. *)
Theorem packet_is_received m p s v others all cur_ts ifidx pkt ip_len g :
  inv None m → ready m p s v others all → state s = TCP_ST_ESTABLISHED → memory (io m) all (RB.chunk_size (rbm_rcv m)) →
  view pkt ip_len = Some g → seg_flow g = flow_of s → intact ifidx pkt ip_len g → data_segment g → within v (g_seq g) (g_payloadlen g) → timely g s →
  ends (ProcessTCPPacket cur_ts ifidx pkt ip_len) (λ r m', r = 1 ∧ taken p m v others g m') m.
Proof.
  intros Hi Hrc Hst Hmem Hv Hflow Hint Hd Hfit Ht. assert (streams m !! p = Some s) as Es by (destruct Hrc as [(b&[]&_)|[[] _]]; done). unfold ProcessTCPPacket. rewrite Hv. apply (ends_gets (λ _, g)).
  rewrite (ds_len _ Hd), (proj2 (Z.ltb_ge _ 0)) by lia.
  assert (ends (t <- gets tcp_flow_table ;;
      a <- (match FlowHash.StreamHTSearch t (seg_flow g) with Some p => ret (Some p) | None => CreateNewFlowHTEntry cur_ts g end) ;;
      match a with None => ret 1 | Some p => process_segment p cur_ts g ;;; ret 1 end) (λ r m', r = 1 ∧ taken p m v others g m') m) as Hrest.
  { apply ends_gets. rewrite Hflow, (search_finds m p s Hi Es). apply (ends_gets (λ _, Some p)). apply ends_bind.
    eapply ends_mono; [by apply (process_segment_takes p m others all cur_ts g m s v)|]. by intros [] m' H'. }
  unfold intact in Hint. destruct (Z.eqb_spec (ioctl ifidx PKT_RX_TCP_CSUM) (-1)) as [E|E].
  - destruct (Hint E) as (seg&Eseg&Ecs). rewrite Eseg. apply (ends_gets (λ _, seg)). rewrite Ecs. exact Hrest.
  - apply (ends_gets (λ _, [])). exact Hrest.
Qed.
End Receive.
