(* ===== verification/Deliver.v ===== *)
(** * From host to host

    A segment that [SendTCPPacket] of one host sends, given to
    [ProcessTCPPacket] of the other: the bytes are in the receive buffer of the
    peer. *)
From S2P Require Import Prelude SeqNum CircQueue MemPool RingBuffer SendBuffer FlowHash AddrPool EventQueue TcpTypes NetOut TcpLists TcpInv TcpOptions TcpStream TcpFrame Post TcpOut.
From S2P Require Import Checksum Timer TcpIn App Socket Pipe Epoll Api Stack AppCalls AppData Segment Payload Receive.

(** ** The segment of the sender at the receiver *)
Lemma data_timestamp s ts rest : is_u32 ts → is_u32 (ts_recent (rcvvar s)) →
  Opt.ParseTCPTimestamp (Opt.GenerateTCPOptions s ts TCP_FLAG_ACK ++ rest) (Opt.CalculateOptionLength TCP_FLAG_ACK) = Opt.Parsed (Some (ts, ts_recent (rcvvar s))).
Proof.
  intros Ht Hr. unfold Opt.GenerateTCPOptions, Opt.GenerateTCPTimestamp. change (has TCP_FLAG_ACK TCP_FLAG_SYN) with false. cbv iota.
  destruct (Opt.be32_bytes ts Ht) as (a&b&c&d&E1&P1). destruct (Opt.be32_bytes _ Hr) as (a'&b'&c'&d'&E2&P2). rewrite E1, E2.
  transitivity (Opt.Parsed (Some (swap32 (pack32 d c b a), swap32 (pack32 d' c' b' a')))); [reflexivity|]. by rewrite P1, P2.
Qed.
Lemma tcp_bytes_sent tot id proto check sa da bytes : let pkt := ip_header tot id proto check sa da ++ bytes in tcp_bytes pkt (Z.of_nat (length pkt)) = Some bytes.
Proof.
  intros pkt. unfold tcp_bytes. change (byte_at pkt 0) with (Some 0x45). cbn [mbind option_bind]. change (Z.land 0x45 15 * 4) with 20. unfold mem_read.
  assert (length pkt = 20 + length bytes)%nat as Hl by (unfold pkt; by rewrite length_app). rewrite !(proj2 (Z.leb_le _ _)) by lia. cbn [andb]. f_equal.
  change (Z.to_nat 20) with 20%nat. unfold pkt. rewrite drop_app_length' by done. apply take_ge. fold pkt. lia.
Qed.

Section Deliver.
Context {P IO : Type} `{ChunkPool P, World IO}.
Local Abbreviation mtcp := (mtcp_manager P IO).
Implicit Types (m : mtcp) (s : tcp_stream).

(** The stream [s] of one host and the stream [r] of the other are the ends of
    a connection; the clock of the sender has not gone back. *)
Record peers s r (ts : Z) : Prop := {
  pr_flow : flow_of r = mk_flow (daddr s) (saddr s) (dport s) (sport s);
  pr_ts : is_u32 ts;
  pr_recent : is_u32 (ts_recent (rcvvar s));
  pr_clock : saw_timestamp r = true → TCP_SEQ_LT ts (ts_recent (rcvvar r)) = false
}.
Lemma sent_is_data s ts bs : wire_ok s → bs ≠ [] → data_segment (seg_of s ts TCP_FLAG_ACK bs).
Proof. intros Hw Hne. split; try done. cbn [seg_of g_seq]. by apply seg_seq_range. Qed.
Lemma sent_is_timely s r ts bs : peers s r ts → timely (seg_of s ts TCP_FLAG_ACK bs) r.
Proof. intros [_ Hts Hrec Hclk] Hsaw. exists ts, (ts_recent (rcvvar s)). split; [by apply data_timestamp|by apply Hclk]. Qed.

(** C3: bytes that [SendTCPPacket] of one host sends on a connection, given to
    [ProcessTCPPacket] of the other, where they fit into the window (of the
    receive buffer, or of the one that the first segment makes): when the
    segment is sent, the sender goes on behind it, and the frame it hands to
    the card is accepted by the receiver (checksum, stream, timestamp, window),
    its bytes are at their place in the receive buffer, the receive point is
    behind the last byte without a gap, and an acknowledgment is on its way.
    No list of either host is corrupted. *)
Theorem sent_data_is_received mA pA sA ts bs mB pB sB v others all cur_ts ifidx :
  inv None mA → streams mA !! pA = Some sA → wire_ok sA → bs ≠ [] → Forall (λ b, is_u8 b) bs → (∀ nif, ioctl nif PKT_TX_TCPIP_CSUM = -1) →
  inv None mB → ready mB pB sB v others all → state sB = TCP_ST_ESTABLISHED → memory (io mB) all (RB.chunk_size (rbm_rcv mB)) →
  peers sA sB ts → let len := Z.of_nat (length bs) in within v (snd_nxt sA) len →
  ends (SendTCPPacket pA ts TCP_FLAG_ACK (Some bs) len) (λ r mA',
    r < 0 ∨ r = len ∧ ∃ sA' f, inv None mA' ∧ streams mA' !! pA = Some sA' ∧ snd_nxt sA' = u32 (snd_nxt sA + len) ∧ out mA' = f :: out mA
      ∧ ends (ProcessTCPPacket cur_ts ifidx (fr_data f) (Z.of_nat (length (fr_data f))))
          (λ r mB', r = 1 ∧ taken pB mB v others (seg_of sA ts TCP_FLAG_ACK bs) mB') mB) mA.
Proof.
  intros HiA HsA Hw Hne Hb Hio HiB Hrc Hst Hmem Hp len Hfit. pose proof (sent_fits None mA pA sA ts TCP_FLAG_ACK (Some bs) bs HiA HsA) as Hmss.
  pose proof (SendTCPPacket_ends None pA mA mA sA ts TCP_FLAG_ACK (Some bs) bs ltac:(by apply at_start) (wire_nxt _ Hw) ltac:(by right)) as Hs. unfold ends at 1. unfold ends in Hs.
  fold len in Hs, Hmss. destruct (SendTCPPacket pA ts TCP_FLAG_ACK (Some bs) len mA) as [fl|[r mA']]; [done|]. specialize (Hmss r mA' eq_refl). destruct Hs as (sA'&(HiA'&HsA'&_)&Hs).
  destruct (Z.ltb_spec r 0); [by left|]. right. destruct Hs as (Er&En&f&id&check&nif&Eo&_&Ed). change (has TCP_FLAG_ACK TCP_FLAG_SYN || seg_fin TCP_FLAG_ACK) with false in *.
  split; [done|]. exists sA', f. split; [done|]. split; [done|]. split; [rewrite En; cbn [b2z]; f_equal; lia|]. split; [done|].
  apply (packet_is_received mB pB sB v others all cur_ts ifidx _ _ _ HiB Hrc Hst Hmem).
  - rewrite Ed. by apply view_sent.
  - symmetry. apply (pr_flow _ _ _ Hp).
  - intros _. exists (seg_bytes sA ts TCP_FLAG_ACK bs (-1)). rewrite Ed, Hio. split; [apply tcp_bytes_sent|]. by apply sent_checksum; [| |done|apply Hmss].
  - by apply sent_is_data.
  - exact Hfit.
  - by apply sent_is_timely.
Qed.
End Deliver.

Module HostsDemo.
Import Demo CallsDemo DataDemo PayloadDemo.
(** The other host of the demonstration: 10.0.0.2, port 5000. *)
Definition other_config : mtcp_config :=
  mk_config [mk_eth 0 [2; 0; 0; 0; 0; 2] peer_ip] [0] [mk_route 10 16777215 10 24 0] None [mk_arp local_ip 32 4294967295 local_ip [2; 0; 0; 0; 0; 1]] None 8 8192 0 30000.
Definition other_init : option (mtcp_manager MemPool.mem_pool Z) :=
  InitializeMTCPManager other_config (demo_pool 4096) (demo_pool 8192) (demo_pool 12288)
    (SB.SBManagerCreate (λ _ _, demo_pool 16384) true true 8192 4) (RB.RBManagerCreate (λ _ _, demo_pool 20480) true true true 8192 4) ∅ 7 65536 true.
Definition other_packet (seq ack flags : Z) : list Z :=
  let seg := checksummed (-1) (λ check, tcp_header local_port peer_port seq ack 8 flags 512 check) ([1; 1; 8; 10] ++ be32 100 ++ be32 0) local_ip peer_ip in
  ip_header (20 + Z.of_nat (length seg)) 1 6 0 local_ip peer_ip ++ seg.
Definition other_arrival (ts seq ack flags : Z) : thread_event :=
  Frame 0 ts ([2; 0; 0; 0; 0; 2] ++ [2; 0; 0; 0; 0; 1] ++ be16 ETH_P_IP ++ other_packet seq ack flags).
Definition other_listening (m : mtcp_manager MemPool.mem_pool Z) : mtcp_manager MemPool.mem_pool Z :=
  m <| listeners := (FlowHash.ListenerHTInsert ∅ (FlowHash.mk_item 99 peer_port)).2 |>
    <| listener := {[ 99 := mk_listener 3 (CircQ.mk_queue 4 0 0 (replicate 5 None)) ]} |> <| connectq := CircQ.mk_queue 4 0 0 (replicate 5 None) |>
    <| smap := {[ 3 := EQ.mk_smap 3 EQ.MTCP_SOCK_LISTENER 0 (AddrPool.mk_addr peer_ip peer_port) 0 0 0 0 ]} |>.
Definition other_events : list thread_event :=
  [other_arrival 10 1000 0 TCP_FLAG_SYN; WritePackets 10 10; other_arrival 12 1001 (demo_iss + 1) TCP_FLAG_ACK].
Definition other_state : option (mtcp_manager MemPool.mem_pool Z) :=
  m ← other_init; match run other_events (other_listening m) with inr (_, m') => Some m' | inl _ => None end.
Lemma other_inv m : other_state = Some m → inv None m.
Proof.
  unfold other_state. destruct demo_flow_pool as (fp&free&E&Hf&Hb). destruct other_init as [m0|] eqn:Ei; [|done]. cbn [mbind option_bind].
  unfold other_init in Ei. rewrite E in Ei. apply (init_inv _ _ _ _ _ _ _ _ _ free) in Ei as [Hi Hd]; [| |done|done].
  2: { intros x. unfold nif_for, GetOutputInterface. simpl. destruct (Z.land x 16777215 =? 10); by eexists. }
  assert (inv None (other_listening m0)) as Hi' by (by apply (inv_core None m0)).
  assert (idle (other_listening m0)) as Hd'.
  { destruct Hd as [H1 H2]. split; intros []; [done|apply (H1 SendQ)|apply (H1 AckQ)|apply (H1 CloseQ)|apply (H1 ResetQ)|apply (H1 DestroyQ)|apply (H2 CloseInt)|apply (H2 ResetInt)]. }
  pose proof (run_calm other_events (other_listening m0) Hi' Hd') as Hr. destruct (run other_events (other_listening m0)) as [|[u m']]; [done|]. intros [= <-]. apply Hr.
Qed.
(** It has sent up to 104. *)
Definition sending (m : mtcp_manager MemPool.mem_pool Z) : option (mtcp_manager MemPool.mem_pool Z) :=
  s ← streams m !! 4096; Some (m <| streams := <[4096 := s <| snd_nxt := 104 |>]> (streams m) |>).
Lemma sending_ready : ∃ (m : mtcp_manager MemPool.mem_pool Z) s, other_state ≫= sending = Some m ∧ inv None m ∧ streams m !! 4096 = Some s ∧ wire_ok s
  ∧ snd_nxt s = 104 ∧ is_u32 (ts_recent (rcvvar s)) ∧ (saddr s, daddr s, sport s, dport s) = (peer_ip, local_ip, peer_port, local_port)
  ∧ match SendTCPPacket 4096 200 TCP_FLAG_ACK (Some [1; 2; 3; 4; 5; 6]) 6 m with inr (r, _) => r = 6 | inl _ => False end.
Proof.
  destruct other_state as [m|] eqn:E; [|vm_compute in E; discriminate]. pose proof (other_inv m E) as Hi. cbn [mbind option_bind]. vm_compute in E. injection E as E.
  destruct (streams m !! 4096) as [s|] eqn:Es; [|rewrite <- E in Es; vm_compute in Es; discriminate]. unfold sending. rewrite Es. cbn [mbind option_bind].
  eexists _, (s <| snd_nxt := 104 |>). split; [reflexivity|]. split; [by apply (inv_upd None m 4096 s)|]. split; [apply lookup_insert_eq|].
  rewrite <- E in Es. vm_compute in Es. injection Es as <-. split; [split; vm_compute; intuition congruence|]. rewrite <- E. vm_compute. intuition congruence.
Qed.
Lemma gap_ready : ∃ (m : mtcp_manager MemPool.mem_pool Z) s, demo_state demo_connected ≫= with_gap = Some m ∧ inv None m
  ∧ receiving m 4096 (receiver s) RB.demo_ready [] (RB.demo_contexts ++ [70000; 70016]) ∧ state (receiver s) = TCP_ST_ESTABLISHED ∧ io m = 200000 ∧ rbm_rcv m = RB.demo_rbm
  ∧ flow_of (receiver s) = mk_flow local_ip peer_ip local_port peer_port ∧ ts_recent (rcvvar (receiver s)) = 100.
Proof.
  destruct with_gap_receives as (m&s&E&_&Hrc&Hst&_&Eio). exists m, s. split; [exact E|]. destruct (demo_state demo_connected) as [m0|] eqn:E0; [|done].
  pose proof (demo_state_inv _ _ E0) as Hi. cbn [mbind option_bind] in E. unfold with_gap in E. destruct (streams m0 !! 4096) as [s0|] eqn:Es; [|done]. cbn [mbind option_bind] in E. injection E as <-.
  assert (Some (receiver s0) = Some (receiver s)) as Hr by (rewrite <- (rc_stream _ _ _ _ _ _ Hrc); rec_simpl; by rewrite lookup_insert_eq). apply (inj Some) in Hr. rewrite <- Hr in *. clear Hr.
  vm_compute in E0. injection E0 as E0. assert (s0 = default s0 (streams m0 !! 4096)) as Es0 by (by rewrite Es). rewrite <- E0 in Es0. vm_compute in Es0.
  split; [|split; [exact Hrc|]; split; [exact Hst|]; split; [exact Eio|]; split; [reflexivity|]; rewrite Es0; vm_compute; done].
  eapply inv_core; [|apply (inv_upd None m0 4096 s0 (receiver s0) Hi Es); rewrite Es0; vm_compute; reflexivity]. reflexivity.
Qed.
(** A stream that the handshake has just established waits for its first
    segment: 8192 bytes from 1001. *)
Lemma receive_pool : ∃ mp, demo_pool 20480 = Some mp ∧ pool_free mp [20480; 20544; 20608; 20672].
Proof.
  destruct (MemPool.create_stack 20480 64 256) as (mp&E&_&_&Hs); try done; [apply (bool_decide_unpack _); vm_compute; exact I|]. by exists mp.
Qed.
Lemma connected_ready : ∃ (m : mtcp_manager MemPool.mem_pool Z) s, demo_state demo_connected = Some m ∧ inv None m ∧ state s = TCP_ST_ESTABLISHED
  ∧ ready m 4096 s (mk_window 1001 0 8192 (λ _, None)) [] [20480; 20544; 20608; 20672] ∧ memory (io m) [20480; 20544; 20608; 20672] (RB.chunk_size (rbm_rcv m)).
Proof.
  destruct receive_pool as (mp&Ep&Hp). destruct (demo_state demo_connected) as [m|] eqn:E; [|vm_compute in E; discriminate]. pose proof (demo_state_inv _ _ E) as Hi.
  vm_compute in E, Ep. injection E as E. injection Ep as Ep. destruct (streams m !! 4096) as [s|] eqn:Es; [|rewrite <- E in Es; vm_compute in Es; discriminate].
  assert (RB.mp (rbm_rcv m) = mp ∧ RB.frag_mp (rbm_rcv m) = mp) as [E1 E2] by (by rewrite <- E, <- Ep).
  assert (∃ q, RB.free_fragq (rbm_rcv m) = RB.demo_queue ∧ RB.free_fragq_int (rbm_rcv m) = q ∧ q = RB.demo_queue) as (q&E3&E4& ->) by (rewrite <- E; by eexists).
  assert ((RB.chunk_size (rbm_rcv m), io m, ep m) = (8192, 65536, 0)) as [= E5 E6 E7] by (by rewrite <- E).
  pose proof Es as Es'. rewrite <- E in Es'. vm_compute in Es'. injection Es' as Es'.
  assert ((rcvbuf (rcvvar s), rcv_nxt s, irs (rcvvar s), rcv_wnd (rcvvar s), socket s, state s) = (None, 1001, 1000, 14600, None, TCP_ST_ESTABLISHED)) as [= F1 F2 F3 F4 F5 F6] by (by rewrite <- Es').
  clear E Ep Es'. exists m, s. split; [done|]. split; [done|]. split; [done|]. split.
  - right. rewrite F3, F4, E5. split; [|done]. split; rewrite ?E1, ?E5, ?F2, ?F3, ?F4, ?F5; try done; [|by eexists|by left].
    exists [20480; 20544; 20608; 20672], [], []. rewrite E2, E3, E4. split_and!; try done; try apply RB.demo_queue_holds; apply (bool_decide_unpack _); vm_compute; exact I.
  - rewrite E6, E5. exists 65536, 65600, 65600, 65664. split_and!; try done; apply (bool_decide_unpack _); vm_compute; exact I.
Qed.
Lemma sent_data_is_received_witness :
  ∃ (mA mB : mtcp_manager MemPool.mem_pool Z), other_state ≫= sending = Some mA ∧ demo_state demo_connected ≫= with_gap = Some mB
    ∧ ends (SendTCPPacket 4096 200 TCP_FLAG_ACK (Some [1; 2; 3; 4; 5; 6]) 6) (λ r mA', r = 6 ∧ ∃ f, out mA' = f :: out mA
        ∧ ends (ProcessTCPPacket 20 0 (fr_data f) (Z.of_nat (length (fr_data f)))) (λ r mB', r = 1 ∧ ∃ s', streams mB' !! 4096 = Some s' ∧ on_ack_list (sndvar s') = true) mB) mA.
Proof.
  destruct sending_ready as (mA&sA&EA&HiA&HsA&Hw&En&Hrec&Hadr&Hsend). destruct gap_ready as (mB&sB&EB&HiB&Hrc&Hst&Eio&Er&Hfl&Hts). injection Hadr as A1 A2 A3 A4.
  exists mA, mB. split; [exact EA|]. split; [exact EB|].
  pose proof (sent_data_is_received mA 4096 sA 200 [1; 2; 3; 4; 5; 6] mB 4096 (receiver sB) (window_of RB.demo_ready) [] (RB.demo_contexts ++ [70000; 70016]) 20 0 HiA HsA Hw) as H.
  change (Z.of_nat (length [1; 2; 3; 4; 5; 6])) with 6 in H. cbv zeta in H. unfold ends at 1 in H. unfold ends at 1. destruct (SendTCPPacket 4096 200 TCP_FLAG_ACK (Some [1; 2; 3; 4; 5; 6]) 6 mA) as [fl|[r mA']]; [destruct Hsend|]. subst r.
  destruct H as [H|(_&sA'&f&_&_&_&Eo&Hr)]; [done| | |exact HiB|left; exists RB.demo_ready; split; [exact Hrc|reflexivity]|exact Hst| | | |lia|].
  - repeat (apply Forall_cons; split; [lia|]). by apply Forall_nil.
  - done.
  - rewrite Eio, Er. exists 200000, 200064, 200064, 200128. split; [reflexivity|]. split; [reflexivity|]. split; [lia|]. split; [lia|].
    split; [apply (bool_decide_unpack _); vm_compute; exact I|]. split; [apply (bool_decide_unpack _); vm_compute; exact I|]. split; [simpl; lia|reflexivity].
  - split; [by rewrite A1, A2, A3, A4|lia|exact Hrec|]. intros _. rewrite Hts. reflexivity.
  - rewrite En. vm_compute. split; discriminate.
  - split; [done|]. exists f. split; [exact Eo|]. eapply ends_mono; [exact Hr|]. intros r mB' (->&s'&b'&all'&n&Hat&_&_&_&_&_&_&Hon). split; [done|]. exists s'. split; [apply Hat|exact Hon].
Defined.
End HostsDemo.
