(* ===== verification/Acked.v ===== *)
(** * Acknowledgments

    [ProcessACK]: what a segment acknowledges leaves the send buffer, and
    nothing else does. *)
From S2P Require Import Prelude SeqNum CircQueue MemPool RingBuffer SendBuffer FlowHash AddrPool EventQueue TcpTypes NetOut TcpLists TcpInv TcpOptions TcpStream TcpFrame Post TcpOut.
From S2P Require Import Timer TcpIn App Socket Pipe Epoll Api Stack AppCalls AppData.

Section Acked.
Context {P IO : Type} `{ChunkPool P, World IO}.
Local Abbreviation mtcp := (mtcp_manager P IO).
Local Abbreviation M := (M P IO).
Implicit Types (m : mtcp) (s : tcp_stream) (g : segment).

Definition to_send s := sndbuf (sndvar s).
Definition freed_view s := (sndbuf (sndvar s), snd_una (sndvar s), snd_wnd (sndvar s)).
(** Bytes are acknowledged up to [ack]: they are gone, the others are still
    there, and the room is free. *)
Definition freed p m0 (b : SB.tcp_send_buffer) (ack k : Z) m : Prop :=
  ∃ s' b', at_stream None p m0 m s' ∧ sndbuf (sndvar s') = Some b' ∧ SB.sb_ok b' ∧ SB.contents b' = drop (Z.to_nat k) (SB.contents b)
    ∧ SB.head_seq b' = ack ∧ snd_una (sndvar s') = ack ∧ snd_wnd (sndvar s') = SB.size b - (SB.len b - k).
(** The send buffer is as it was. *)
Definition kept p m0 (b : SB.tcp_send_buffer) m : Prop := ∃ s', at_stream None p m0 m s' ∧ sndbuf (sndvar s') = Some b.

Hint Resolve keeps_update_window keeps_count_dup keeps_react_to_dups keeps_recover : tcp.
Lemma ack_data_frees p m0 ts ack k m s b : at_stream None p m0 m s → to_send s = Some b → SB.sb_ok b → 0 < k <= SB.len b → ack = u32 (SB.head_seq b + k) →
  ends (ack_data p ts ack k) (λ _ m', freed p m0 b ack k m') m.
Proof.
  intros Ha Eb Hok Hk Eack. destruct (SB.SBRemove_spec b k Hok ltac:(lia) ltac:(lia)) as (_&Hok'&Ec&El&Esz&Eh&_). rewrite Z.min_l in * by lia. pose proof (SB.ok_size _ Hok). pose proof (SB.ok_len _ Hok).
  unfold ack_data. eapply ends_getS; [exact Ha|]. apply ends_lift; [done|]. intros packets _.
  pass to_send s1 m1 Ha1 E1 Eo1. pass to_send s2 m2 Ha2 E2 Eo2. unfold to_send in Eb. rewrite Eb. apply (ends_gets (λ _, b)).
  set (b' := (SB.SBRemove b k).2) in *. eapply ends_modS; [exact Ha2|done|]. intros m3 Ha3 Eo3. eapply ends_modS; [exact Ha3|done|]. intros m4 Ha4 Eo4.
  pass freed_view s5 m5 Ha5 E5 Eo5. eapply (ends_step None p m0 false freed_view); [exact Ha5|keep|fixing|staying|].
  intros [] m6 s6 Ha6 E6 _. rewrite E5 in E6. unfold freed_view in E6. rec_simpl. injection E6 as F1 F2 F3. exists s6, b'. split_and!; try done; [congruence|].
  pose proof (SB.ok_tail _ Hok). pose proof (SB.ok_tail_bound _ Hok). pose proof (SB.ok_head_off _ Hok). rewrite F3, u32_id; lia.
Qed.

(** ** The whole acknowledgment *)

(** C11: an acknowledgment that ends [k] bytes behind the front of the send
    buffer, within the buffer: [ProcessACK] removes exactly these bytes, the
    room they took is free for the application and [snd_una] is the
    acknowledgment.  One that is old or repeats the front, and one of bytes that were
    never written, remove nothing.  The other streams are as they were and no
    list is corrupted. *)
Theorem ack_frees_data m p s b ts g : inv None m → streams m !! p = Some s → sndbuf (sndvar s) = Some b → SB.sb_ok b →
  is_u32 (g_ack_seq g) → let ack := data_ack s (g_ack_seq g) in let k := u32 (ack - SB.head_seq b) in k ≠ 2147483648 →
  ends (ProcessACK p ts g) (λ _ m', if (0 <? k) && (k <=? SB.len b) then freed p m b ack k m' else kept p m b m') m.
Proof.
  intros Hi Hs Eb Hok Hack ack k Hhalf. pose proof (at_start None p m s Hi Hs) as Ha. pose proof (SB.ok_size _ Hok). pose proof (SB.ok_len _ Hok). pose proof (u32_range (ack - SB.head_seq b)) as Hku. fold k in Hku.
  pose proof (SB.ok_tail _ Hok). pose proof (SB.ok_tail_bound _ Hok). pose proof (SB.ok_head_off _ Hok).
  assert (is_u32 ack) as Hu by (unfold ack, data_ack; repeat case_match; try done; apply u32_range).
  assert (ack = u32 (SB.head_seq b + k)) as Eack by (by apply seq_as_dist).
  assert (∀ x, 0 <= x <= SB.len b → s32 (ack ⊟ u32 (SB.head_seq b + x)) = s32 (k - x)) as Hdist.
  { intros x Hx. rewrite Eack, u32_base_sub, s32_u32. done. }
  assert (TCP_SEQ_GT ack (SB.head_seq b ⊞ SB.len b) = (0 <? s32 (k - SB.len b))) as EGT by (unfold TCP_SEQ_GT; rewrite Hdist by lia; apply Z.gtb_ltb).
  assert (TCP_SEQ_GEQ (SB.head_seq b) ack = (0 <=? s32 (- k))) as EGEQ.
  { unfold TCP_SEQ_GEQ. rewrite Eack. rewrite <- (u32_id (SB.head_seq b)) at 1 by apply (SB.ok_head_seq _ Hok). rewrite <- (Z.add_0_r (SB.head_seq b)) at 1.
    rewrite u32_base_sub, s32_u32. apply Z.geb_leb. }
  unfold ProcessACK. eapply ends_getS; [exact Ha|]. rewrite Eb. apply (ends_gets (λ _, b)). fold ack. rewrite EGT.
  destruct (Z.ltb_spec 0 (s32 (k - SB.len b))) as [Hbeyond|Hin].
  { rewrite (proj2 (andb_false_iff _ _)); [by exists s|]. right. apply Z.leb_gt. destruct (Z.le_gt_cases k (SB.len b)); [|lia]. rewrite s32_id in Hbeyond by lia. lia. }
  pass to_send s1 m1 Ha1 E1 Eo1. pass to_send s2 m2 Ha2 E2 Eo2. pass to_send s3 m3 Ha3 E3 Eo3. pass to_send s4 m4 Ha4 E4 Eo4. rewrite EGEQ.
  assert (to_send s4 = Some b) as Eb4 by (unfold to_send in *; congruence). destruct (Z.leb_spec 0 (s32 (- k))) as [Hold|Hnew].
  - assert ((0 <? k) && (k <=? SB.len b) = false) as ->; [|by exists s4]. destruct (Z.ltb_spec 0 k), (Z.leb_spec k (SB.len b)); try done. rewrite s32_id in Hold by lia. lia.
  - assert (0 < k <= SB.len b) as Hk.
    { unfold s32 in Hin, Hnew. Z.div_mod_to_equations. lia. }
    rewrite (proj2 (Z.ltb_lt 0 k)), (proj2 (Z.leb_le k _)) by lia. cbn [andb]. fold k. destruct (Z.gtb_spec k 0); [|lia]. cbn [when]. by apply ack_data_frees with (s := s4).
Qed.
End Acked.

Module AckDemo.
Import Demo CallsDemo DataDemo.
(** The connection with five bytes from 100 on in its send buffer; three are
    acknowledged. *)
Definition unacked (m : mtcp_manager MemPool.mem_pool Z) : option (mtcp_manager MemPool.mem_pool Z) :=
  s ← streams m !! 4096; Some (m <| streams := <[4096 := s <| sndvar := (sndvar s) <| sndbuf := Some demo_sndbuf |> |>]> (streams m) |>).
Definition demo_ack : segment := mk_seg peer_ip local_ip peer_port local_port 1001 103 8 false false false true 512 [] 0 [] 0.
Lemma ack_frees_data_witness : ∃ (m : mtcp_manager MemPool.mem_pool Z), demo_state demo_connected ≫= unacked = Some m
  ∧ ends (ProcessACK 4096 20 demo_ack) (λ _ m', ∃ s' b', streams m' !! 4096 = Some s' ∧ sndbuf (sndvar s') = Some b' ∧ SB.contents b' = drop 3 (SB.contents demo_sndbuf) ∧ snd_una (sndvar s') = 103) m.
Proof.
  destruct (demo_state demo_connected) as [m|] eqn:E; [|vm_compute in E; discriminate]. pose proof (demo_state_inv _ _ E) as Hi.
  assert (state <$> streams m !! 4096 = Some TCP_ST_ESTABLISHED) as Em by (vm_compute in E; injection E as <-; vm_compute; reflexivity).
  clear E. apply fmap_Some in Em as (s&Es&Hst). cbn [mbind option_bind]. unfold unacked. rewrite Es. cbn [mbind option_bind]. eexists. split; [reflexivity|].
  set (s1 := s <| sndvar := _ |>). set (m1 := m <| streams := _ |>).
  assert (data_ack s1 (g_ack_seq demo_ack) = 103) as Ed by (unfold data_ack, s1; rec_simpl; by rewrite <- Hst).
  pose proof (ack_frees_data m1 4096 s1 demo_sndbuf 20 demo_ack) as H. rewrite Ed in H. eapply ends_mono; [apply H|].
  - by apply (inv_upd None m 4096 s).
  - apply lookup_insert_eq.
  - reflexivity.
  - exact demo_sndbuf_ok.
  - vm_compute. intuition congruence.
  - vm_compute. intuition congruence.
  - intros [] m' (s'&b'&Ha&Eb&_&Ec&_&Eu&_). exists s', b'. split; [apply Ha|]. split; [exact Eb|]. split; [exact Ec|exact Eu].
Defined.
End AckDemo.
